(** * ClipMontage: the client-side highlight pipeline, embedded in Rocq

    The development follows the JavaScript sources of the browser pipeline:
    the data models (TimeRange, QualityScore, FrameAnalysis, Clip), the
    creative director (HighlightDetector, CompositionPlanner, ClipScorer,
    CreativeDirector), the clamping step of ProcessingPipeline.run and the
    HuggingFaceClient (batch analysis and the model fallback loop).

    JavaScript numbers are modelled as exact rationals [Q]: every constant of
    the sources (0.5, 1.5, 0.1, ...) is a rational and the code only adds,
    subtracts, multiplies, divides and compares.  The rounding of IEEE
    doubles is outside the model: where a property depends on the exact
    value of a number (an equality, a threshold, a [Math.round]), its
    statement is restricted to inputs on which the code computes without
    rounding (whole numbers of moderate size) or is phrased so that it holds
    whichever way the code rounds.  A lookup table answers for the keys
    written in it; the members it inherits from [Object.prototype] are
    modelled where the score of a frame is computed ([excitementValue]) and
    are excluded by hypothesis elsewhere ([plainKey]).  A thrown exception
    is a [None] (or an explicit error value where the message matters);
    [crypto.randomUUID] draws from an explicit supply that is threaded
    through the code. *)

From Stdlib Require Import QArith Qminmax Qabs Qround Lqa Lia ZArith.
From Stdlib Require Import Bool String Ascii List Sorting.Permutation Sorting.Sorted.
From Stdlib Require Import DecimalString.
Import ListNotations.

Local Open Scope Q_scope.

(** ** JavaScript helpers *)

Module Js.

(** [Math.max] and [Math.min] on two numbers. *)
Definition Math_max (a b : Q) : Q := if Qle_bool a b then b else a.
Definition Math_min (a b : Q) : Q := if Qle_bool a b then a else b.

(** [Math.abs]. *)
Definition Math_abs (a : Q) : Q := if Qle_bool 0 a then a else - a.

(** Strict comparison [a < b] as a boolean. *)
Definition Qlt_bool (a b : Q) : bool := negb (Qle_bool b a).

(** [Array.prototype.sort(cmp)].  The sort is stable (ECMAScript 2019), so
    for a comparator that is a total preorder the result is the one of the
    stable insertion sort: an element moves behind exactly those elements
    that compare strictly smaller. *)
Section Sort.
Context {A : Type} (cmp : A -> A -> Q).

Fixpoint insert (x : A) (l : list A) : list A :=
  match l with
  | [] => [x]
  | y :: l' => if Qlt_bool 0 (cmp x y) then y :: insert x l' else x :: l
  end.

Definition sort (l : list A) : list A := fold_right insert [] l.
End Sort.

(** [arr.reduce((s, v) => s + v, 0)]. *)
Definition sum (l : list Q) : Q := fold_left Qplus l 0.

(** An object with number-valued properties: the list of its own properties
    in insertion order.  [get] is [o[k]] ([None] is [undefined]), [set] is
    the assignment [o[k] = v], which keeps the place of a key that is
    already there and appends a new one. *)
Definition Obj : Type := list (string * Q).

Fixpoint get (o : Obj) (k : string) : option Q :=
  match o with
  | [] => None
  | (k', v) :: o' => if String.eqb k k' then Some v else get o' k
  end.

Fixpoint set (o : Obj) (k : string) (v : Q) : Obj :=
  match o with
  | [] => [(k, v)]
  | (k', v') :: o' => if String.eqb k k' then (k', v) :: o' else (k', v') :: set o' k v
  end.

(** [Object.keys(o)] and [Object.values(o)]. *)
Definition keys (o : Obj) : list string := map fst o.
Definition values (o : Obj) : list Q := map snd o.

End Js.

(** ** Data models *)

Module TimeRange.

Record t : Type := mk { startSeconds : Q; endSeconds : Q }.

(** The constructor floors the start at 0 and throws unless
    [endSeconds > startSeconds]. *)
Definition new (startS endS : Q) : option t :=
  let s := Js.Math_max 0 startS in
  if Qle_bool endS s then None else Some (mk s endS).

Definition duration (r : t) : Q := endSeconds r - startSeconds r.
Definition midpoint (r : t) : Q := (startSeconds r + endSeconds r) / 2.

(** What every constructed range satisfies. *)
Definition wf (r : t) : Prop := 0 <= startSeconds r /\ startSeconds r < endSeconds r.

Definition overlaps (this other : t) : bool :=
  Js.Qlt_bool (startSeconds this) (endSeconds other)
  && Js.Qlt_bool (startSeconds other) (endSeconds this).

Definition contains (this : t) (timestamp : Q) : bool :=
  Qle_bool (startSeconds this) timestamp && Qle_bool timestamp (endSeconds this).

(** [merge] throws on ranges that do not overlap; otherwise the constructor
    decides. *)
Definition merge (this other : t) : option t :=
  if negb (overlaps this other) then None
  else new (Js.Math_min (startSeconds this) (startSeconds other))
           (Js.Math_max (endSeconds this) (endSeconds other)).

(** [extend(before = 0, after = 0)]. *)
Definition extend (this : t) (before after : Q) : option t :=
  new (Js.Math_max 0 (startSeconds this - before)) (endSeconds this + after).

End TimeRange.

Module QualityScore.

Record t : Type := mk { value : Q; breakdown : list (string * Q) }.

(** [new QualityScore(value, breakdown = {})] clamps the value to [0, 100]. *)
Definition new (v : Q) (bd : list (string * Q)) : t :=
  mk (Js.Math_max 0 (Js.Math_min 100 v)) bd.

Definition zero : t := new 0 [].

Definition isAcceptable (q : t) : bool := Qle_bool 70 (value q).

Definition grade (q : t) : string :=
  if Qle_bool 90 (value q) then "A"
  else if Qle_bool 80 (value q) then "B"
  else if Qle_bool 70 (value q) then "C"
  else if Qle_bool 60 (value q) then "D"
  else "F".

(** [o[k] || 0] for a key that finds a number in [o], or nothing: a key of
    [o], or one that reaches no inherited member (see [numericKeys]). *)
Definition getOr0 (o : Js.Obj) (k : string) : Q :=
  match Js.get o k with Some v => v | None => 0 end.

(** [fromComponents(weights, scores)]: the loop runs over the keys of
    [weights]; the breakdown of the result is the [scores] object. *)
Definition fromComponents (weights scores : Js.Obj) : t :=
  let totalWeight := fold_left (fun s v => s + v) (Js.values weights) 0 in
  if Qeq_bool totalWeight 0 then new 0 []
  else
    let weightedSum :=
      fold_left (fun weightedSum k => weightedSum + getOr0 weights k * getOr0 scores k)
                (Js.keys weights) 0 in
    new (weightedSum / totalWeight) scores.

(** [withBonus(bonus, reason = '')]: the breakdown is copied, and the bonus
    is written under [reason] unless the reason is empty. *)
Definition withBonus (q : t) (bonus : Q) (reason : string) : t :=
  let bd := breakdown q in
  let bd := match reason with EmptyString => bd | _ => Js.set bd reason bonus end in
  new (value q + bonus) bd.

End QualityScore.

(** [s || d] for a string: the empty string is falsy. *)
Definition str_or (s d : string) : string :=
  match s with EmptyString => d | _ => s end.

Module FrameAnalysis.

(** [metadata]: a free-form object; the code only reads and writes [error]. *)
Record Metadata : Type := mkMetadata { error : option string }.

Record t : Type := mk {
  framePath : string;
  timestamp : Q;
  killLog : bool;
  matchStatus : string;
  actionIntensity : string;
  enemyVisible : bool;
  sceneDescription : string;
  confidence : Q;
  excitementScore : Q;
  modelUsed : string;
  rawResponse : option string;
  uiElements : string;
  metadata : Metadata;
  killCount : Z;
  enemyCount : Z;
  visualQuality : string
}.

(** The constructor: every field is [opts.field || default].  For numbers and
    booleans the default is the falsy value itself; for strings the empty
    string is replaced. *)
Definition new (o : t) : t :=
  mk (framePath o) (timestamp o) (killLog o)
     (str_or (matchStatus o) "unknown")
     (str_or (actionIntensity o) "low")
     (enemyVisible o) (sceneDescription o) (confidence o) (excitementScore o)
     (modelUsed o)
     (match rawResponse o with Some EmptyString => None | r => r end)
     (uiElements o) (metadata o) (killCount o) (enemyCount o)
     (str_or (visualQuality o) "normal").

(** [new FrameAnalysis({})]: all defaults, before the string defaults apply. *)
Definition empty : t :=
  mk "" 0 false "" "" false "" 0 0 "" None "" (mkMetadata None) 0%Z 0%Z "".

Definition with_excitementScore (a : t) (e : Q) : t :=
  mk (framePath a) (timestamp a) (killLog a) (matchStatus a) (actionIntensity a)
     (enemyVisible a) (sceneDescription a) (confidence a) e (modelUsed a)
     (rawResponse a) (uiElements a) (metadata a) (killCount a) (enemyCount a)
     (visualQuality a).

Definition with_killCount (a : t) (k : Z) : t :=
  mk (framePath a) (timestamp a) (killLog a) (matchStatus a) (actionIntensity a)
     (enemyVisible a) (sceneDescription a) (confidence a) (excitementScore a)
     (modelUsed a) (rawResponse a) (uiElements a) (metadata a) k (enemyCount a)
     (visualQuality a).

End FrameAnalysis.

(** [crypto.randomUUID()]: the identifiers come from a supply that the code
    consumes in call order.  A UUID is its 128-bit value; as a string it is
    never empty, hence always truthy in [opts.id || crypto.randomUUID()]. *)
Definition UUID : Type := N.
Definition Supply : Type := nat -> UUID.
Definition randomUUID (s : Supply) : UUID * Supply := (s O, fun n => s (S n)).

Module Clip.

Record Metadata : Type := mkMetadata { isHook : bool }.

Record t : Type := mk {
  timeRange : TimeRange.t;
  reason : string;
  score : QualityScore.t;
  clipType : string;
  label : string;
  priority : Q;
  actionIntensity : string;
  id : UUID;
  metadata : Metadata
}.

(** The options object of the constructor; absent fields are [None] (or the
    falsy value, which the constructor treats the same way). *)
Record Opts : Type := mkOpts {
  o_timeRange : TimeRange.t;
  o_reason : string;
  o_score : option QualityScore.t;
  o_clipType : string;
  o_label : string;
  o_priority : Q;
  o_actionIntensity : string;
  o_id : option UUID;
  o_metadata : option Metadata
}.

(** [new Clip(opts)]: draws a fresh identifier only when none is given. *)
Definition new (o : Opts) (s : Supply) : t * Supply :=
  let '(i, s') := match o_id o with
                  | Some i => (i, s)
                  | None => randomUUID s
                  end in
  (mk (o_timeRange o) (o_reason o)
      (match o_score o with Some q => q | None => QualityScore.zero end)
      (o_clipType o) (o_label o) (o_priority o)
      (str_or (o_actionIntensity o) "low") i
      (match o_metadata o with Some m => m | None => mkMetadata false end),
   s').

Definition duration (c : t) : Q := TimeRange.duration (timeRange c).
Definition start (c : t) : Q := TimeRange.startSeconds (timeRange c).
Definition end_ (c : t) : Q := TimeRange.endSeconds (timeRange c).

(** [withAdjustedRange]: a copy with the same identifier, so the constructor
    draws nothing; the supply plays no part. *)
Definition withAdjustedRange (c : t) (r : TimeRange.t) : t :=
  mk r (reason c) (score c) (clipType c) (label c) (priority c)
     (str_or (actionIntensity c) "low") (id c) (metadata c).

Definition wf (c : t) : Prop := TimeRange.wf (timeRange c).

(** [withScore]: as [withAdjustedRange], with the score replaced. *)
Definition withScore (c : t) (newScore : QualityScore.t) : t :=
  mk (timeRange c) (reason c) newScore (clipType c) (label c) (priority c)
     (str_or (actionIntensity c) "low") (id c) (metadata c).

End Clip.

(** ** Exceptions and fresh identifiers: the monad of the director

    A computation reads and advances the identifier supply and may throw
    (the [TimeRange] constructor does). *)

Definition M (A : Type) : Type := Supply -> option (A * Supply).

Definition ret {A} (a : A) : M A := fun s => Some (a, s).

Definition bind {A B} (m : M A) (k : A -> M B) : M B :=
  fun s => match m s with
           | Some (a, s') => k a s'
           | None => None
           end.

(** A pure computation that may throw. *)
Definition lift {A} (o : option A) : M A :=
  fun s => match o with Some a => Some (a, s) | None => None end.

(** [new Clip(opts)] inside the monad. *)
Definition newClip (o : Clip.Opts) : M Clip.t := fun s => Some (Clip.new o s).

Declare Scope dir_scope.
Delimit Scope dir_scope with dir.
Notation "x <- m ;; k" := (bind m (fun x => k))
  (at level 61, m at next level, right associativity) : dir_scope.

(** [for (const x of xs) body(x)] where the body pushes onto an array. *)
Fixpoint forPush {A B} (body : A -> M B) (xs : list A) (acc : list B) : M (list B) :=
  match xs with
  | [] => ret acc
  | x :: xs' => bind (body x) (fun b => forPush body xs' (acc ++ [b]))
  end.

(** [xs.map(f)] for an [f] that may throw. *)
Fixpoint mapM {A B} (f : A -> option B) (xs : list A) : option (list B) :=
  match xs with
  | [] => Some []
  | x :: xs' =>
      match f x with
      | None => None
      | Some b => match mapM f xs' with
                  | None => None
                  | Some bs => Some (b :: bs)
                  end
      end
  end.

(** Object literals used as lookup tables: [table[key] || 0].
    [table_get] looks up the keys written in the literal; with [num_or] it
    is [table[key] || 0] for every key that the literal does not inherit
    (see [plainKey] below). *)
Fixpoint table_get (m : list (string * Q)) (k : string) : option Q :=
  match m with
  | [] => None
  | (k', v) :: m' => if String.eqb k k' then Some v else table_get m' k
  end.

Definition num_or (o : option Q) (d : Q) : Q :=
  match o with
  | Some v => if Qeq_bool v 0 then d else v
  | None => d
  end.

(** The members every object literal inherits from [Object.prototype]:
    [table[key]] finds them when the literal has no key of that name.  They
    are functions ([__proto__] is an object), hence truthy, so for these keys
    [table[key] || 0] is the member and not 0. *)
Definition prototypeKeys : list string :=
  ["constructor"; "hasOwnProperty"; "isPrototypeOf"; "propertyIsEnumerable";
   "toLocaleString"; "toString"; "valueOf"; "__proto__"; "__defineGetter__";
   "__defineSetter__"; "__lookupGetter__"; "__lookupSetter__"]%string.

Definition inherited (k : string) : bool := existsb (String.eqb k) prototypeKeys.

(** A key that reaches no inherited member. *)
Definition plainKey (k : string) : Prop := inherited k = false.

(** What [table[key] || 0] evaluates to: a number, or an inherited member. *)
Inductive Looked : Type :=
| Found (v : Q)
| Member.

Definition table_or0 (m : list (string * Q)) (k : string) : Looked :=
  match table_get m k with
  | Some v => Found (if Qeq_bool v 0 then 0 else v)
  | None => if inherited k then Member else Found 0
  end.

(** ** Math helpers of the director *)

Definition Qlen {A} (l : list A) : Q := inject_Z (Z.of_nat (length l)).

Definition _variance (arr : list Q) : Q :=
  if (length arr <? 2)%nat then 0
  else
    let mean := Js.sum arr / Qlen arr in
    fold_left (fun s v => s + (v - mean) ^ 2) arr 0 / (Qlen arr - 1).

(** ** HighlightDetector *)

Module HighlightDetector.

Import FrameAnalysis.

Definition intensityMap : list (string * Q) :=
  [("very_high", 25); ("high", 18); ("medium", 10); ("low", 0)]%string.

Definition statusMap : list (string * Q) :=
  [("victory", 10); ("clutch", 20); ("overtime", 12); ("defeat", -5); ("normal", 0)]%string.

(** The body of the callback of [analyzeExcitementLevels], up to the value
    written to [excitementScore], for an intensity and a status that reach
    no inherited member of the two tables; [excitementValue] below is the
    callback over all keys. *)
Definition excitement (a : FrameAnalysis.t) : Q :=
  let e := 0 in
  let e := if killLog a then
             let e := e + 25 in
             if (3 <=? killCount a)%Z then e + 15
             else if (2 <=? killCount a)%Z then e + 8
             else e
           else e in
  let e := e + num_or (table_get intensityMap (actionIntensity a)) 0 in
  let e := e + num_or (table_get statusMap (matchStatus a)) 0 in
  let e := if enemyVisible a then
             let e := e + 10 in
             if (3 <=? enemyCount a)%Z then e + 5 else e
           else e in
  if Js.Qlt_bool 0 (confidence a) then e * (0.5 + 0.5 * confidence a) else e.

Definition analyzeExcitementLevels (analyses : list FrameAnalysis.t)
  : list FrameAnalysis.t :=
  map (fun a => FrameAnalysis.new (with_excitementScore a (excitement a))) analyses.

(** The same callback over all keys.  Once an inherited member has been
    added, [excitement] is a string: the digits of the sum so far followed by
    the text of the member (and by what is added later), which does not read
    as a number; [*=] turns that string into [NaN]. *)
Inductive Value : Type :=
| Num (q : Q)
| Str
| NaN.

(** [excitement += x]. *)
Definition plus (e : Value) (x : Looked) : Value :=
  match e, x with
  | Num q, Found v => Num (q + v)
  | NaN, Found _ => NaN
  | _, _ => Str
  end.

(** [excitement *= x]. *)
Definition times (e : Value) (x : Q) : Value :=
  match e with
  | Num q => Num (q * x)
  | Str | NaN => NaN
  end.

Definition excitementValue (a : FrameAnalysis.t) : Value :=
  let e := Num 0 in
  let e := if killLog a then
             let e := plus e (Found 25) in
             if (3 <=? killCount a)%Z then plus e (Found 15)
             else if (2 <=? killCount a)%Z then plus e (Found 8)
             else e
           else e in
  let e := plus e (table_or0 intensityMap (actionIntensity a)) in
  let e := plus e (table_or0 statusMap (matchStatus a)) in
  let e := if enemyVisible a then
             let e := plus e (Found 10) in
             if (3 <=? enemyCount a)%Z then plus e (Found 5) else e
           else e in
  if Js.Qlt_bool 0 (confidence a) then times e (0.5 + 0.5 * confidence a) else e.

(** What the constructor of [FrameAnalysis] keeps of it:
    [opts.excitementScore || 0] replaces [NaN] by 0 and keeps a number or a
    string that is not empty. *)
Definition scoreWritten (a : FrameAnalysis.t) : Value :=
  match excitementValue a with
  | NaN => Num 0
  | v => v
  end.

Record MultiEvent : Type := mkMultiEvent {
  me_type : string;
  me_timestamp : Q;
  me_killCount : nat;
  me_endTimestamp : Q
}.

Definition _classifyMultiEvent (count : nat) : string :=
  if (5 <=? count)%nat then "ACE"
  else if (count =? 4)%nat then "QUAD KILL"
  else if (count =? 3)%nat then "TRIPLE KILL"
  else if (count =? 2)%nat then "DOUBLE KILL"
  else "KILL".

(** The inner [while]: the kills after [windowStart] that fall in the window,
    and the timestamps left for the next window. *)
Fixpoint inWindow (windowStart timeWindow : Q) (ts : list Q) : list Q * list Q :=
  match ts with
  | [] => ([], [])
  | t :: ts' =>
      if Qle_bool (t - windowStart) timeWindow
      then let '(w, r) := inWindow windowStart timeWindow ts' in (t :: w, r)
      else ([], ts)
  end.

(** The outer [while (i < killTimestamps.length)]; every round consumes at
    least the timestamp at [i], so the length of the list is fuel enough. *)
Fixpoint sweep (fuel : nat) (timeWindow : Q) (ts : list Q) : list MultiEvent :=
  match fuel, ts with
  | S fuel', windowStart :: rest =>
      let '(w, rest') := inWindow windowStart timeWindow rest in
      let count := S (length w) in
      let ev := if (2 <=? count)%nat
                then [mkMultiEvent (_classifyMultiEvent count) windowStart count
                                   (last w windowStart)]
                else [] in
      ev ++ sweep fuel' timeWindow rest'
  | _, _ => []
  end.

Definition detectMultiEvents (analyses : list FrameAnalysis.t) (timeWindow : Q)
  : list MultiEvent :=
  let killTimestamps :=
    Js.sort (fun a b => a - b) (map timestamp (filter killLog analyses)) in
  sweep (length killTimestamps) timeWindow killTimestamps.

Record ClutchMoment : Type := mkClutchMoment {
  cm_timestamp : Q;
  cm_type : string;
  cm_actionIntensity : string
}.

Definition detectClutchMoments (analyses : list FrameAnalysis.t) : list ClutchMoment :=
  map (fun a => mkClutchMoment (timestamp a) "clutch" (actionIntensity a))
      (filter (fun a => String.eqb (matchStatus a) "clutch") analyses).

Record MomentumShift : Type := mkMomentumShift {
  ms_timestamp : Q;
  ms_type : string;
  ms_magnitude : Q
}.

(** [arr.slice(from, to)]. *)
Definition slice {A} (l : list A) (from to : nat) : list A :=
  firstn (to - from) (skipn from l).

Definition analyzeMomentumShifts (analyses : list FrameAnalysis.t) : list MomentumShift :=
  let timeline :=
    map (fun a => (timestamp a, excitementScore a))
        (filter (fun a => Js.Qlt_bool 0 (excitementScore a)) analyses) in
  if (length timeline <? 10)%nat then []
  else
    let window := 5%nat in
    flat_map
      (fun i =>
         let before := map snd (slice timeline i (i + window)) in
         let after := map snd (slice timeline (i + window) (i + window * 2)) in
         let avgBefore := Js.sum before / Qlen before in
         let avgAfter := Js.sum after / Qlen after in
         let change := avgAfter - avgBefore in
         if Js.Qlt_bool 10 (Js.Math_abs change)
         then [mkMomentumShift
                 (fst (nth (i + window) timeline (0, 0)))
                 (if Js.Qlt_bool 0 change then "momentum_up" else "momentum_down")
                 (Js.Math_abs change)]
         else [])
      (seq 0 (length timeline - window * 2 + 1)).


Local Open Scope dir_scope.

(** The options of a seeded clip: only these six fields are given. *)
Definition seedOpts (r : TimeRange.t) (clipType label : string) (priority : Q)
           (reason : string) (score : Q) : Clip.Opts :=
  Clip.mkOpts r reason (Some (QualityScore.new score [])) clipType label priority
              "" None None.

Definition string_of_nat (n : nat) : string := NilZero.string_of_uint (Nat.to_uint n).

Definition seedMultiKill (mk : MultiEvent) : M Clip.t :=
  let endTs := if Qeq_bool (me_endTimestamp mk) 0 then me_timestamp mk
               else me_endTimestamp mk in
  r <- lift (TimeRange.new (Js.Math_max 0 (me_timestamp mk - 3)) (endTs + 3)) ;;
  newClip (seedOpts r "multi_kill" (me_type mk) 10
             (me_type mk ++ " (" ++ string_of_nat (me_killCount mk) ++ " kills)")
             90).

Definition seedClutch (cm : ClutchMoment) : M Clip.t :=
  r <- lift (TimeRange.new (Js.Math_max 0 (cm_timestamp cm - 5)) (cm_timestamp cm + 5)) ;;
  newClip (seedOpts r "clutch" "CLUTCH" 9 "Clutch moment" 80).

Definition seedExcitement (a : FrameAnalysis.t) : M Clip.t :=
  r <- lift (TimeRange.new (Js.Math_max 0 (timestamp a - 2)) (timestamp a + 3)) ;;
  newClip (seedOpts r "high_excitement" "INTENSE" 7 "High excitement" 70).

(** The loop of [mergeOverlappingClips]; the array [merged] is
    [merged_init ++ [last]]. *)
Fixpoint mergeLoop (merged_init : list Clip.t) (last : Clip.t) (rest : list Clip.t)
  : option (list Clip.t) :=
  match rest with
  | [] => Some (merged_init ++ [last])
  | current :: rest' =>
      if Qle_bool (Clip.start current) (Clip.end_ last) then
        match TimeRange.new (Js.Math_min (Clip.start last) (Clip.start current))
                            (Js.Math_max (Clip.end_ last) (Clip.end_ current)) with
        | None => None
        | Some newRange =>
            let keep := if Qle_bool (Clip.priority current) (Clip.priority last)
                        then last else current in
            mergeLoop merged_init (Clip.withAdjustedRange keep newRange) rest'
        end
      else mergeLoop (merged_init ++ [last]) current rest'
  end.

Definition mergeOverlappingClips (clips : list Clip.t) : option (list Clip.t) :=
  match Js.sort (fun a b => Clip.start a - Clip.start b) clips with
  | [] => Some []
  | first :: rest => mergeLoop [] first rest
  end.

Definition suggestHighlights (analyses : list FrameAnalysis.t)
           (multiEvents : list MultiEvent) (clutchMoments : list ClutchMoment)
  : M (list Clip.t) :=
  highlights <- forPush seedMultiKill multiEvents [] ;;
  highlights <- forPush seedClutch clutchMoments highlights ;;
  highlights <- forPush seedExcitement
                  (filter (fun a => Qle_bool 25 (excitementScore a)) analyses)
                  highlights ;;
  let highlights := Js.sort (fun a b => Clip.priority b - Clip.priority a) highlights in
  lift (mergeOverlappingClips highlights).

Record VarietyAnalysis : Type := mkVarietyAnalysis {
  varietyScore : Q;
  uniqueTypes : option nat;
  durationVariance : option Q;
  issues : list string
}.

Definition analyzeVariety (clips : list Clip.t) : VarietyAnalysis :=
  match clips with
  | [] => mkVarietyAnalysis 0 None None ["no_clips"%string]
  | _ =>
      let types := map (fun c => str_or (Clip.clipType c) "unknown") clips in
      let uniqueTypes := length (nodup string_dec types) in
      let durations := map Clip.duration clips in
      let durVariance := if (1 <? length durations)%nat then _variance durations else 0 in
      let varietyScore :=
        Js.Math_min 100 (inject_Z (Z.of_nat uniqueTypes) * 20
                         + Js.Math_min 30 (durVariance * 5)) in
      let issues :=
        (if (uniqueTypes <? 2)%nat then ["low_type_variety"%string] else [])
        ++ (if Js.Qlt_bool durVariance 2 then ["uniform_clip_lengths"%string] else []) in
      mkVarietyAnalysis varietyScore (Some uniqueTypes) (Some durVariance) issues
  end.

End HighlightDetector.

(** ** CompositionPlanner *)

Module CompositionPlanner.

(** The options of the constructors: an absent option is [None]. *)
Record Opts : Type := mkOpts {
  o_targetDuration : option Q;
  o_minClipLength : option Q;
  o_maxClipLength : option Q;
  o_optimalPace : option Q
}.

Record t : Type := mk {
  targetDuration : Q;
  minClipLength : Q;
  maxClipLength : Q;
  optimalPace : Q
}.

Definition new (opts : Opts) : t :=
  mk (num_or (o_targetDuration opts) 180)
     (num_or (o_minClipLength opts) 3)
     (num_or (o_maxClipLength opts) 15)
     (num_or (o_optimalPace opts) 5).

Section Planner.
Variable this : t.

(** The analysis closest to [midTime]: the first one at minimal distance
    ([closestDist] starts at [Infinity], the comparison is strict). *)
Fixpoint closestLoop (midTime : Q) (analyses : list FrameAnalysis.t)
         (closest : option (FrameAnalysis.t * Q)) : option (FrameAnalysis.t * Q) :=
  match analyses with
  | [] => closest
  | a :: rest =>
      let d := Js.Math_abs (FrameAnalysis.timestamp a - midTime) in
      let closer := match closest with
                    | None => true
                    | Some (_, closestDist) => Js.Qlt_bool d closestDist
                    end in
      closestLoop midTime rest (if closer then Some (a, d) else closest)
  end.

Definition intensityScores : list (string * Q) :=
  [("very_high", 8); ("high", 6); ("medium", 4); ("low", 2)]%string.

Definition scoreClip (analyses : list FrameAnalysis.t) (clip : Clip.t) : Clip.t :=
  let midTime := TimeRange.midpoint (Clip.timeRange clip) in
  let closest := closestLoop midTime analyses None in
  let score := 0 in
  let actionIntensity := Clip.actionIntensity clip in
  let '(score, actionIntensity) :=
    match closest with
    | Some (closest, _) =>
        let score := if FrameAnalysis.killLog closest then score + 10 else score in
        let score := score + num_or (table_get intensityScores
                                       (FrameAnalysis.actionIntensity closest)) 0 in
        let score :=
          if String.eqb (FrameAnalysis.matchStatus closest) "victory" then score + 5
          else if String.eqb (FrameAnalysis.matchStatus closest) "clutch" then score + 7
          else score in
        (score, FrameAnalysis.actionIntensity closest)
    | None => (score, actionIntensity)
    end in
  let score :=
    if Js.Qlt_bool (maxClipLength this) (Clip.duration clip) then score - 2
    else if Js.Qlt_bool (Clip.duration clip) (minClipLength this) then score - 1
    else score in
  Clip.mk (Clip.timeRange clip) (Clip.reason clip)
          (QualityScore.new (Js.Math_max 0 score) [])
          (Clip.clipType clip) (Clip.label clip) (Clip.priority clip)
          (str_or actionIntensity "low") (Clip.id clip) (Clip.metadata clip).

Definition scoreClips (clips : list Clip.t) (analyses : list FrameAnalysis.t)
  : list Clip.t :=
  map (scoreClip analyses) clips.

Definition adjustClipLength (clip : Clip.t) : option Clip.t :=
  let duration := Clip.duration clip in
  if Js.Qlt_bool (maxClipLength this) duration then
    let center := TimeRange.midpoint (Clip.timeRange clip) in
    let half := maxClipLength this / 2 in
    option_map (Clip.withAdjustedRange clip)
      (TimeRange.new (Js.Math_max (Clip.start clip) (center - half))
                     (Js.Math_min (Clip.end_ clip) (center + half)))
  else if Js.Qlt_bool duration (minClipLength this) then
    let ext := (minClipLength this - duration) / 2 in
    option_map (Clip.withAdjustedRange clip)
      (TimeRange.new (Js.Math_max 0 (Clip.start clip - ext)) (Clip.end_ clip + ext))
  else Some clip.

Definition adjustClipLengths (clips : list Clip.t) : option (list Clip.t) :=
  mapM adjustClipLength clips.

(** [clips.reduce((s, c) => s + c.duration, 0)]. *)
Definition totalDuration (clips : list Clip.t) : Q :=
  fold_left (fun s c => s + Clip.duration c) clips 0.

(** The [for] loop of [trimToTargetDuration], with its [break]. *)
Fixpoint trimLoop (clips : list Clip.t) (accumulated : Q) (trimmed : list Clip.t)
  : option (list Clip.t) :=
  match clips with
  | [] => Some trimmed
  | clip :: rest =>
      if Qle_bool (accumulated + Clip.duration clip) (targetDuration this) then
        trimLoop rest (accumulated + Clip.duration clip) (trimmed ++ [clip])
      else
        let remaining := targetDuration this - accumulated in
        if Qle_bool (minClipLength this) remaining then
          match TimeRange.new (Clip.start clip) (Clip.start clip + remaining) with
          | None => None
          | Some r => Some (trimmed ++ [Clip.withAdjustedRange clip r])
          end
        else Some trimmed
  end.

Definition trimToTargetDuration (clips : list Clip.t) : option (list Clip.t) :=
  match clips with
  | [] => Some clips
  | _ =>
      let total := totalDuration clips in
      if Qle_bool total (targetDuration this) then Some clips
      else trimLoop clips 0 []
  end.

(** The [while] loop of [optimizePacing]: a medium clip, then a high one,
    as long as either list has clips left. *)
Fixpoint alternate (medium high : list Clip.t) {struct medium} : list Clip.t :=
  match medium with
  | [] => high
  | m :: medium' =>
      match high with
      | [] => medium
      | h :: high' => m :: h :: alternate medium' high'
      end
  end.

Definition optimizePacing (clips : list Clip.t) : list Clip.t :=
  if (length clips <=? 2)%nat then clips
  else
    let high := filter (fun c => String.eqb (Clip.actionIntensity c) "very_high"
                                 || String.eqb (Clip.actionIntensity c) "high") clips in
    let medium := filter (fun c => String.eqb (Clip.actionIntensity c) "medium") clips in
    let low := filter (fun c => String.eqb (Clip.actionIntensity c) "low") clips in
    let optimized := match high with
                     | [] => alternate medium []
                     | h :: high' => h :: alternate medium high'
                     end in
    optimized ++ firstn 2 low.

Definition optimizeClips (clips : list Clip.t) (analyses : list FrameAnalysis.t)
  : option (list Clip.t) :=
  let result := scoreClips clips analyses in
  match adjustClipLengths result with
  | None => None
  | Some result =>
      let result :=
        Js.sort (fun a b => QualityScore.value (Clip.score b)
                            - QualityScore.value (Clip.score a)) result in
      match trimToTargetDuration result with
      | None => None
      | Some result => Some (optimizePacing result)
      end
  end.

(** [clips.reduce((a, b) => a.score.value >= b.score.value ? a : b)]. *)
Definition bestClip (first : Clip.t) (rest : list Clip.t) : Clip.t :=
  fold_left (fun a b => if Qle_bool (QualityScore.value (Clip.score b))
                                    (QualityScore.value (Clip.score a))
                        then a else b) rest first.

Local Open Scope dir_scope.

Definition createHookIntro (clips : list Clip.t) : M (option Clip.t) :=
  match clips with
  | [] => ret None
  | first :: rest =>
      let best := bestClip first rest in
      let mid := TimeRange.midpoint (Clip.timeRange best) in
      r <- lift (TimeRange.new (Js.Math_max 0 (mid - 1.5)) (mid + 1.5)) ;;
      hook <- newClip (Clip.mkOpts r "hook" (Some (Clip.score best)) "hook" "HOOK"
                                   0 "" None (Some (Clip.mkMetadata true))) ;;
      ret (Some hook)
  end.

Definition _calculatePacingScore (clips : list Clip.t) : Q :=
  match clips with
  | [] => 0
  | _ =>
      let durations := map Clip.duration clips in
      let avg := Js.sum durations / Qlen durations in
      let deviation := Js.Math_abs (avg - optimalPace this) in
      Js.Math_max 0 (100 - deviation * 10)
  end.

Inductive EngagementCurve : Type :=
| NoClips  (* { status: 'no_clips' } *)
| Curve (avgScore scoreVariance : Q) (peakMoment : Z) (totalDuration : Q)
        (clipCount : nat) (pacingScore : Q).

(** [Math.max(...scores)] on a non-empty array and [scores.indexOf(v)]. *)
Definition maxOf (first : Q) (rest : list Q) : Q := fold_left Js.Math_max rest first.

Fixpoint indexOf (v : Q) (l : list Q) (i : Z) : Z :=
  match l with
  | [] => (-1)%Z
  | x :: l' => if Qeq_bool x v then i else indexOf v l' (i + 1)%Z
  end.

Definition analyzeEngagementCurve (clips : list Clip.t) : EngagementCurve :=
  match map (fun c => QualityScore.value (Clip.score c)) clips with
  | [] => NoClips
  | (s0 :: srest) as scores =>
      Curve (Js.sum scores / Qlen scores)
            (if (1 <? length scores)%nat then _variance scores else 0)
            (indexOf (maxOf s0 srest) scores 0%Z)
            (totalDuration clips)
            (length clips)
            (_calculatePacingScore clips)
  end.

End Planner.

End CompositionPlanner.

(** ** ClipScorer *)

Module ClipScorer.

(** The duration component of [scoreClip]. *)
Definition durationScore (duration : Q) : Q :=
  if Qle_bool 5 duration && Qle_bool duration 10 then 20
  else if Qle_bool 3 duration && Qle_bool duration 15 then 10
  else 0.

Definition scoreClip (clip : Clip.t) (analyses : list FrameAnalysis.t) : QualityScore.t :=
  let clipAnalyses :=
    filter (fun a => TimeRange.contains (Clip.timeRange clip) (FrameAnalysis.timestamp a))
           analyses in
  match clipAnalyses with
  | [] => QualityScore.zero
  | _ =>
      let score := 0 in
      let avgExcitement :=
        fold_left (fun s a => s + FrameAnalysis.excitementScore a) clipAnalyses 0
        / Qlen clipAnalyses in
      let score := score + Js.Math_min 50 (avgExcitement * 1.0) in
      let duration := Clip.duration clip in
      let score :=
        if Qle_bool 5 duration && Qle_bool duration 10 then score + 20
        else if Qle_bool 3 duration && Qle_bool duration 15 then score + 10
        else score in
      let killCount := Qlen (filter FrameAnalysis.killLog clipAnalyses) in
      let actionDensity := if Js.Qlt_bool 0 duration then killCount / duration else 0 in
      let score := score + Js.Math_min 30 (actionDensity * 100) in
      QualityScore.new (Js.Math_min 100 score)
        [("excitement"%string, Js.Math_min 50 (avgExcitement * 1.0));
         ("duration"%string, durationScore duration);
         ("actionDensity"%string, Js.Math_min 30 (actionDensity * 100))]
  end.

Definition suggestImprovements (clips : list Clip.t) (analyses : list FrameAnalysis.t)
  : list string :=
  let totalDuration := fold_left (fun s c => s + Clip.duration c) clips 0 in
  let lowClips :=
    length (filter (fun c => Js.Qlt_bool (QualityScore.value (Clip.score c)) 30) clips) in
  let clipTypes :=
    nodup string_dec
      (map Clip.clipType
           (filter (fun c => negb (String.eqb (Clip.clipType c) "")) clips)) in
  (if Js.Qlt_bool 300 totalDuration
   then ["Video is too long. Consider trimming to 3-5 minutes."%string] else [])
  ++ (if (15 <? length clips)%nat
      then ["Too many clips. Focus on the best highlights only."%string] else [])
  ++ (if Js.Qlt_bool totalDuration 30
      then ["Video is very short. Consider including more clips."%string] else [])
  ++ (if Js.Qlt_bool (Qlen clips * 0.3) (inject_Z (Z.of_nat lowClips))
      then ["Many low-scoring clips detected. Consider raising the quality threshold."%string]
      else [])
  ++ (if (length clipTypes <? 2)%nat && (3 <? length clips)%nat
      then ["Low clip variety. Mix different highlight types for better pacing."%string]
      else []).

End ClipScorer.

(** ** CreativeDirector *)

Module CreativeDirector.

Record Config : Type := mkConfig {
  c_minClipLength : option Q;
  c_maxClipLength : option Q;
  c_targetDuration : option Q;
  c_pacingVariation : option Q
}.

(** [new CreativeDirector()]: no option given. *)
Definition defaultConfig : Config := mkConfig None None None None.

Record t : Type := mk {
  minClipLength : Q;
  maxClipLength : Q;
  targetDuration : Q;
  pacingVariation : Q;
  _compositionPlanner : CompositionPlanner.t
}.

Definition new (config : Config) : t :=
  let minL := num_or (c_minClipLength config) 3 in
  let maxL := num_or (c_maxClipLength config) 15 in
  let target := num_or (c_targetDuration config) 180 in
  let pacing := num_or (c_pacingVariation config) 0.5 in
  mk minL maxL target pacing
     (CompositionPlanner.new
        (CompositionPlanner.mkOpts (Some target) (Some minL) (Some maxL)
                                   (Some (pacing * 10)))).

Record Result : Type := mkResult {
  clips : list Clip.t;
  hookClip : option Clip.t;
  engagementCurve : CompositionPlanner.EngagementCurve;
  varietyAnalysis : HighlightDetector.VarietyAnalysis;
  suggestions : list string;
  multiEvents : list HighlightDetector.MultiEvent;
  clutchMoments : list HighlightDetector.ClutchMoment;
  momentumShifts : list HighlightDetector.MomentumShift
}.

Local Open Scope dir_scope.

Definition direct (this : t) (analyses : list FrameAnalysis.t) : M Result :=
  let planner := _compositionPlanner this in
  (* 1. Excitement analysis *)
  let enhanced := HighlightDetector.analyzeExcitementLevels analyses in
  let multiEvents := HighlightDetector.detectMultiEvents enhanced 10 in
  let clutchMoments := HighlightDetector.detectClutchMoments enhanced in
  let momentumShifts := HighlightDetector.analyzeMomentumShifts enhanced in
  (* 2. Suggest highlights *)
  highlights <- HighlightDetector.suggestHighlights enhanced multiEvents clutchMoments ;;
  (* 3. Optimize composition *)
  optimized <- lift (CompositionPlanner.optimizeClips planner highlights enhanced) ;;
  (* 4. Hook intro *)
  hookClip <- CompositionPlanner.createHookIntro optimized ;;
  (* 5. Engagement analysis *)
  let engagementCurve := CompositionPlanner.analyzeEngagementCurve planner optimized in
  let varietyAnalysis := HighlightDetector.analyzeVariety optimized in
  let suggestions := ClipScorer.suggestImprovements optimized enhanced in
  ret (mkResult optimized hookClip engagementCurve varietyAnalysis suggestions
                multiEvents clutchMoments momentumShifts).

End CreativeDirector.

(** ** ProcessingPipeline: the clamping step of [run] *)

Module ProcessingPipeline.

(** The callback of [directorResult.clips.map]: [None] is a throw, [Some None]
    is the [null] that [filter(Boolean)] removes. *)
Definition clampClip (videoDuration : Q) (c : Clip.t) : option (option Clip.t) :=
  let endClamped := Js.Math_min (Clip.end_ c) videoDuration in
  let startClamped := Js.Math_min (Clip.start c) (endClamped - 0.1) in
  if Js.Qlt_bool (endClamped - startClamped) 0.5 then Some None
  else
    match TimeRange.new (Js.Math_max 0 startClamped) endClamped with
    | None => None
    | Some r => Some (Some (Clip.withAdjustedRange c r))
    end.

(** [.filter(Boolean)] on an array of clips and [null]s. *)
Definition filterBoolean (l : list (option Clip.t)) : list Clip.t :=
  flat_map (fun o => match o with Some c => [c] | None => [] end) l.

Definition clampClips (videoDuration : Q) (clips : list Clip.t) : option (list Clip.t) :=
  option_map filterBoolean (mapM (clampClip videoDuration) clips).

(** The hook: [None] inside is [hookClip = null]. *)
Definition clampHook (videoDuration : Q) (hookClip : option Clip.t)
  : option (option Clip.t) :=
  match hookClip with
  | None => Some None
  | Some hook =>
      let hookEnd := Js.Math_min (Clip.end_ hook) videoDuration in
      let hookStart := Js.Math_min (Clip.start hook) (hookEnd - 0.1) in
      if Js.Qlt_bool (hookEnd - hookStart) 0.5 then Some None
      else
        match TimeRange.new (Js.Math_max 0 hookStart) hookEnd with
        | None => None
        | Some r => Some (Some (Clip.withAdjustedRange hook r))
        end
  end.

End ProcessingPipeline.

(** ** HuggingFaceClient *)

(** A thrown value: an [Error] with its message, another truthy value (with
    what [String(err)] prints for it), or [undefined]. *)
Inductive Exn : Type :=
| ExnError (message : string)
| ExnValue (printed : string)
| ExnUndefined.

(** [(err && err.message) ? err.message : String(err || 'Unknown error')]. *)
Definition errMsgOf (err : Exn) : string :=
  match err with
  | ExnError EmptyString => "Error"
  | ExnError m => m
  | ExnValue s => s
  | ExnUndefined => "Unknown error"
  end.

(** [haystack.includes(needle)]. *)
Fixpoint includes (needle haystack : string) : bool :=
  String.prefix needle haystack
  || match haystack with
     | EmptyString => false
     | String _ h => includes needle h
     end.

(** A parsed JSON value, as far as the client looks into it. *)
#[local] Unset Elimination Schemes.
Inductive Json : Type :=
| JNull
| JBool (b : bool)
| JNum (q : Q)
| JStr (s : string)
| JArr
| JObj (fields : list (string * Json)).
#[local] Set Elimination Schemes.

(** [!!v] for a property value ([None] is [undefined]). *)
Definition truthy (v : option Json) : bool :=
  match v with
  | None | Some JNull => false
  | Some (JBool b) => b
  | Some (JNum q) => negb (Qeq_bool q 0)
  | Some (JStr s) => negb (String.eqb s "")
  | Some JArr | Some (JObj _) => true
  end.

Fixpoint field_get (fields : list (string * Json)) (k : string) : option Json :=
  match fields with
  | [] => None
  | (k', v) :: fields' => if String.eqb k k' then Some v else field_get fields' k
  end.

(** [parsed.key]: reading a property of [null] throws a [TypeError]; the
    other values have no such property. *)
Definition prop (parsed : Json) (k : string) : Exn + option Json :=
  match parsed with
  | JNull => inl (ExnError ("Cannot read properties of null (reading '" ++ k ++ "')"))
  | JObj fields => inr (field_get fields k)
  | _ => inr None
  end.

Module HuggingFaceClient.

(** What one [fetch] does: an HTTP response (its status, its text body and
    the truthy [choices[0].message.content] of its JSON body if there is
    one), the abort of [AbortSignal.timeout], or any other exception. *)
Inductive Outcome : Type :=
| Http (status : nat) (errBody : string) (content : option string)
| TimeoutError
| Failure (message : string).

(** The observable actions of the client, in program order: the requests,
    the sleeps (one constructor for each [setTimeout] of the code), the
    console messages (one constructor for each [console.warn] and
    [console.error]) and the progress callbacks. *)
Inductive Event : Type :=
| Request (model : string)
| SleepQueue (ms : Z)
| SleepSpacing (ms : Z)
| SleepAllModels (ms : Z)
| SleepColdStart (ms : Z)
| SleepBackoff (ms : Z)
| WarnRateLimited (model : string)
| WarnAllRateLimited
| WarnModelLoading (model : string)
| WarnTimedOut (model : string)
| WarnAttemptFailed (attempt : nat) (model : string) (message : string)
| ErrorFrameFailed (timestamp : Q) (errMsg : string)
| OnProgress (current total : nat) (percent : Z) (timestamp : option Q).

(** The fields of the client that the code reads and writes, followed by
    the client's view of the outside: how many requests were sent, how
    often the clock was read, and the actions so far. *)
Record t : Type := mk {
  _models : list string;
  _currentModelIndex : nat;
  _maxRetries : nat;
  _initialBackoff : Z;
  _concurrency : nat;
  _requestDelay : Z;
  _coldStartTimeout : Z;
  _coldStartRetryDelay : Z;
  _allModelsBackoff : Z;
  _activeRequests : nat;
  _cancelled : bool;
  _lastRequestTime : Z;
  requests : nat;
  clockReads : nat;
  trace : list Event
}.

(** The constructor (for a non-empty API key). *)
Definition new : t :=
  mk ["Qwen/Qwen2.5-VL-7B-Instruct";
      "meta-llama/Llama-3.2-11B-Vision-Instruct";
      "mistralai/Mistral-Small-3.1-24B-Instruct-2503"]%string
     0 3 2000 1 2000 120000 20000 60000 0 false 0 0 0 [].

Definition set_currentModelIndex (c : t) (i : nat) : t :=
  mk (_models c) i (_maxRetries c) (_initialBackoff c) (_concurrency c)
     (_requestDelay c) (_coldStartTimeout c) (_coldStartRetryDelay c)
     (_allModelsBackoff c) (_activeRequests c) (_cancelled c) (_lastRequestTime c)
     (requests c) (clockReads c) (trace c).

Definition set_activeRequests (c : t) (n : nat) : t :=
  mk (_models c) (_currentModelIndex c) (_maxRetries c) (_initialBackoff c)
     (_concurrency c) (_requestDelay c) (_coldStartTimeout c) (_coldStartRetryDelay c)
     (_allModelsBackoff c) n (_cancelled c) (_lastRequestTime c)
     (requests c) (clockReads c) (trace c).

Definition set_lastRequestTime (c : t) (z : Z) : t :=
  mk (_models c) (_currentModelIndex c) (_maxRetries c) (_initialBackoff c)
     (_concurrency c) (_requestDelay c) (_coldStartTimeout c) (_coldStartRetryDelay c)
     (_allModelsBackoff c) (_activeRequests c) (_cancelled c) z
     (requests c) (clockReads c) (trace c).

(** Appending an action to the trace. *)
Definition emit (c : t) (e : Event) : t :=
  mk (_models c) (_currentModelIndex c) (_maxRetries c) (_initialBackoff c)
     (_concurrency c) (_requestDelay c) (_coldStartTimeout c) (_coldStartRetryDelay c)
     (_allModelsBackoff c) (_activeRequests c) (_cancelled c) (_lastRequestTime c)
     (requests c) (clockReads c) (trace c ++ [e]).

Definition count_request (c : t) : t :=
  mk (_models c) (_currentModelIndex c) (_maxRetries c) (_initialBackoff c)
     (_concurrency c) (_requestDelay c) (_coldStartTimeout c) (_coldStartRetryDelay c)
     (_allModelsBackoff c) (_activeRequests c) (_cancelled c) (_lastRequestTime c)
     (S (requests c)) (clockReads c) (trace c).

Definition count_clockRead (c : t) : t :=
  mk (_models c) (_currentModelIndex c) (_maxRetries c) (_initialBackoff c)
     (_concurrency c) (_requestDelay c) (_coldStartTimeout c) (_coldStartRetryDelay c)
     (_allModelsBackoff c) (_activeRequests c) (_cancelled c) (_lastRequestTime c)
     (requests c) (S (clockReads c)) (trace c).

Definition _getCurrentModel (c : t) : string :=
  nth (_currentModelIndex c) (_models c) "undefined"%string.

Definition _rotateModel (c : t) : t :=
  set_currentModelIndex c ((_currentModelIndex c + 1) mod length (_models c))%nat.

Definition is2xx (status : nat) : bool := ((200 <=? status) && (status <=? 299))%nat.

Definition invalidToken : string :=
  "Invalid HuggingFace API token. Please check your token in Settings.".

(** The outside of the client.  The remote side: the outcome of the [n]-th
    request of this client, sent to [model]; the clock: the value of the
    [n]-th [Date.now()].  The browser: reading a blob as base64
    ([FileReader]), [JSON.parse] ([None] when it throws), the two
    regular-expression matches of [_extractJson], [String.prototype.trim],
    and the coercions [String(v)], [Number(v)] and [parseInt(v, 10)] ([None]
    is [NaN]). *)
Definition Blob : Type := string.

Record World : Type := mkWorld {
  w_fetch : nat -> string -> Outcome;
  w_now : nat -> Z;
  w_blobToBase64 : Blob -> Exn + string;
  w_JSON_parse : string -> option Json;
  w_fenceMatch : string -> option string;
  w_objectMatch : string -> option string;
  w_trim : string -> string;
  w_String : Json -> string;
  w_Number : Json -> option Q;
  w_parseInt : option Json -> option Z
}.

Section Network.

Variable world : World.

Local Abbreviation fetch := (w_fetch world).
Local Abbreviation now := (w_now world).
Local Abbreviation _blobToBase64 := (w_blobToBase64 world).
Local Abbreviation JSON_parse := (w_JSON_parse world).
Local Abbreviation fenceMatch := (w_fenceMatch world).
Local Abbreviation objectMatch := (w_objectMatch world).
Local Abbreviation trim := (w_trim world).
Local Abbreviation js_String := (w_String world).
Local Abbreviation js_Number := (w_Number world).
Local Abbreviation js_parseInt := (w_parseInt world).

(** What the [catch] block does with an error that is neither a timeout
    nor the invalid-token error: remember it, back off, go on. *)
Definition backoffFor (c : t) (attempt : nat) : Z :=
  (_initialBackoff c * 2 ^ Z.of_nat (attempt / length (_models c)))%Z.

(** The [for] loop of [_sendWithFallback]; [n] iterations are left, the
    current one is [attempt]. *)
Fixpoint fallbackLoop (n attempt modelsTriedInRound : nat) (lastError : Exn) (c : t)
  : (Exn + string * string) * t :=
  match n with
  | O => (inl lastError, c)
  | S n' =>
      if _cancelled c then (inl (ExnError "Cancelled"), c)
      else
        let totalModels := length (_models c) in
        let model := _getCurrentModel c in
        let outcome := fetch (requests c) model in
        let c := count_request (emit c (Request model)) in
        let generic (message : string) :=
          if includes "Invalid HuggingFace API token" message
          then (inl (ExnError message), c)
          else
            let backoff := backoffFor c attempt in
            let c := emit c (WarnAttemptFailed (attempt + 1) model message) in
            let c := emit c (SleepBackoff backoff) in
            fallbackLoop n' (S attempt) modelsTriedInRound (ExnError message) c in
        match outcome with
        | TimeoutError =>
            let lastError :=
              ExnError ("Request to " ++ model
                        ++ " timed out (cold start may take longer)") in
            let c := emit c (WarnTimedOut model) in
            fallbackLoop n' (S attempt) modelsTriedInRound lastError (_rotateModel c)
        | Failure message => generic message
        | Http status errBody content =>
            if (status =? 401)%nat then generic invalidToken
            else if (status =? 429)%nat then
              let modelsTriedInRound := S modelsTriedInRound in
              let c := emit c (WarnRateLimited model) in
              let c := _rotateModel c in
              let '(modelsTriedInRound, c) :=
                if (totalModels <=? modelsTriedInRound)%nat
                then (O, emit (emit c WarnAllRateLimited)
                              (SleepAllModels (_allModelsBackoff c)))
                else (modelsTriedInRound, c) in
              fallbackLoop n' (S attempt) modelsTriedInRound
                           (ExnError ("Rate limited (429) on " ++ model)) c
            else if (status =? 503)%nat then
              let c := emit c (WarnModelLoading model) in
              let c := emit c (SleepColdStart (_coldStartRetryDelay c)) in
              fallbackLoop n' (S attempt) modelsTriedInRound
                           (ExnError ("Model loading (503): " ++ model)) c
            else if negb (is2xx status) then
              generic ("HuggingFace API error "
                       ++ HighlightDetector.string_of_nat status ++ ": " ++ errBody)%string
            else
              match content with
              | None | Some EmptyString => generic "Empty response from HuggingFace"%string
              | Some text => (inr (text, model), c)
              end
        end
  end.

Definition _sendWithFallback (c : t) : (Exn + string * string) * t :=
  fallbackLoop (_maxRetries c * length (_models c)) 0 0 ExnUndefined c.

(** [Math.round]. *)
Definition Math_round (x : Q) : Z := Qfloor (x + (1 # 2)).

Record Frame : Type := mkFrame { f_timestamp : Q; f_blob : Blob }.

Definition _extractJson (text : string) : Json :=
  match JSON_parse text with
  | Some v => v
  | None =>
      let fenced := match fenceMatch text with
                    | Some inner => JSON_parse (trim inner)
                    | None => None
                    end in
      match fenced with
      | Some v => v
      | None =>
          let found := match objectMatch text with
                       | Some m => JSON_parse m
                       | None => None
                       end in
          match found with
          | Some v => v
          | None => JObj [("kill_log", JBool false); ("match_status", JStr "unknown");
                          ("action_intensity", JStr "low")]%string
          end
      end
  end.

(** [String(v || d)], [Number(v || 0)] and [parseInt(v, 10) || 0]. *)
Definition stringOr (v : option Json) (d : string) : string :=
  match v with
  | Some j => if truthy v then js_String j else d
  | None => d
  end.

Definition numberOr0 (v : option Json) : Q :=
  match v with
  | Some j => if truthy v then match js_Number j with Some q => q | None => 0 end else 0
  | None => 0
  end.

Definition parseIntOr0 (v : option Json) : Z :=
  match js_parseInt v with Some z => z | None => 0%Z end.

(** [FrameAnalysis.fromApiResponse(parsed, timestamp, imageBlob, modelUsed)]:
    the properties are read in the order of the object literal. *)
Definition fromApiResponse (parsed : Json) (timestamp : Q) (modelUsed : string)
  : Exn + FrameAnalysis.t :=
  match prop parsed "kill_log" with
  | inl e => inl e
  | inr _ =>
      let get k := match prop parsed k with inr v => v | inl _ => None end in
      inr (FrameAnalysis.new
             (FrameAnalysis.mk "" timestamp (truthy (get "kill_log"%string))
                (stringOr (get "match_status"%string) "unknown")
                (stringOr (get "action_intensity"%string) "low")
                (truthy (get "enemy_visible"%string))
                (stringOr (get "scene_description"%string) "")
                (numberOr0 (get "confidence"%string)) 0 modelUsed None
                (stringOr (get "ui_elements"%string) "")
                (FrameAnalysis.mkMetadata None)
                (parseIntOr0 (get "kill_count"%string))
                (parseIntOr0 (get "enemy_count"%string))
                (stringOr (get "visual_quality"%string) "normal")))
  end.

(** [_sendWithConcurrency].  A [None] is a call that never returns: in the
    waiting loop nothing but another request of this client lowers
    [_activeRequests], and the batch below never has one in flight. *)
Definition _sendWithConcurrency (c : t) : option ((Exn + string * string) * t) :=
  if (_concurrency c <=? _activeRequests c)%nat then
    if _cancelled c then Some (inl (ExnError "Cancelled"), emit c (SleepQueue 200))
    else None
  else
    let nowT := now (clockReads c) in
    let c := count_clockRead c in
    let elapsed := (nowT - _lastRequestTime c)%Z in
    let c := if (elapsed <? _requestDelay c)%Z
             then emit c (SleepSpacing (_requestDelay c - elapsed))
             else c in
    let c := set_activeRequests c (S (_activeRequests c)) in
    let c := count_clockRead (set_lastRequestTime c (now (clockReads c))) in
    let '(r, c) := _sendWithFallback c in
    Some (r, set_activeRequests c (pred (_activeRequests c))).

Definition analyzeFrame (frameBlob : Blob) (timestamp : Q) (c : t)
  : option ((Exn + FrameAnalysis.t) * t) :=
  match _blobToBase64 frameBlob with
  | inl e => Some (inl e, c)
  | inr _ =>
      match _sendWithConcurrency c with
      | None => None
      | Some (inl e, c) => Some (inl e, c)
      | Some (inr (text, model), c) =>
          Some (fromApiResponse (_extractJson text) timestamp model, c)
      end
  end.

(** The sentinel written by the [catch] handler of the batch. *)
Definition sentinel (timestamp : Q) (errMsg : string) : FrameAnalysis.t :=
  FrameAnalysis.new
    (FrameAnalysis.mk "" timestamp false "" "" false "" 0 0 "" None ""
                      (FrameAnalysis.mkMetadata (Some errMsg)) 0%Z 0%Z "").

(** [Math.round((completed / total) * 100)] over the exact quotient.  Where
    the exact value lies halfway between two whole numbers (23 of 40 is
    57.5) the code, which rounds the quotient before it multiplies, may
    report the lower one; the properties of the percentages are stated with
    [roundedPercent], which admits both. *)
Definition percentOf (completed total : nat) : Z :=
  Math_round (inject_Z (Z.of_nat completed) / inject_Z (Z.of_nat total) * 100).

(** The loop of [analyzeFramesBatch].  [_concurrency] is 1, so
    [await Promise.race(executing)] returns only when the promise of the
    frame at hand has settled: the frames are analysed one after the other,
    and [results[i] = ...] writes the next free slot. *)
Fixpoint batchLoop (frames : list Frame) (total : nat) (results : list FrameAnalysis.t)
         (completed : nat) (c : t) : option ((Exn + list FrameAnalysis.t) * t) :=
  match frames with
  | [] => Some (inr results, c)
  | frame :: rest =>
      if _cancelled c then Some (inl (ExnError "Analysis cancelled"), c)
      else
        match analyzeFrame (f_blob frame) (f_timestamp frame) c with
        | None => None
        | Some (inr result, c) =>
            let completed := S completed in
            let c := emit c (OnProgress completed total (percentOf completed total)
                                         (Some (f_timestamp frame))) in
            batchLoop rest total (results ++ [result]) completed c
        | Some (inl err, c) =>
            let errMsg := errMsgOf err in
            let c := emit c (ErrorFrameFailed (f_timestamp frame) errMsg) in
            let completed := S completed in
            let c := emit c (OnProgress completed total (percentOf completed total) None) in
            batchLoop rest total (results ++ [sentinel (f_timestamp frame) errMsg])
                      completed c
        end
  end.

Definition analyzeFramesBatch (frames : list Frame) (c : t)
  : option ((Exn + list FrameAnalysis.t) * t) :=
  batchLoop frames (length frames) [] 0 c.

End Network.

End HuggingFaceClient.

(** ** The excitement score as the specification words it *)

Module Spec.

Import FrameAnalysis.

(** Kill log present: +25; [killCount >= 3]: +15, else [>= 2]: +8. *)
Definition killTerm (a : FrameAnalysis.t) : Q :=
  if killLog a then
    25 + (if (3 <=? killCount a)%Z then 15 else if (2 <=? killCount a)%Z then 8 else 0)
  else 0.

(** Action intensity: very_high 25, high 18, medium 10, low 0. *)
Definition intensityTerm (a : FrameAnalysis.t) : Q :=
  if String.eqb (actionIntensity a) "very_high" then 25
  else if String.eqb (actionIntensity a) "high" then 18
  else if String.eqb (actionIntensity a) "medium" then 10
  else 0.

(** Match status: victory 10, clutch 20, overtime 12, defeat -5, normal 0. *)
Definition statusTerm (a : FrameAnalysis.t) : Q :=
  if String.eqb (matchStatus a) "victory" then 10
  else if String.eqb (matchStatus a) "clutch" then 20
  else if String.eqb (matchStatus a) "overtime" then 12
  else if String.eqb (matchStatus a) "defeat" then -5
  else 0.

(** Enemy visible: +10; [enemyCount >= 3]: +5. *)
Definition enemyTerm (a : FrameAnalysis.t) : Q :=
  if enemyVisible a then 10 + (if (3 <=? enemyCount a)%Z then 5 else 0) else 0.

(** The sum before the confidence factor. *)
Definition total (a : FrameAnalysis.t) : Q :=
  killTerm a + intensityTerm a + statusTerm a + enemyTerm a.

End Spec.

(** Scenario S1: the analysis the constructor builds from
    [{killLog: true, killCount: 3, actionIntensity: "high", matchStatus:
    "clutch", enemyVisible: true, enemyCount: 3, confidence: 1.0}]. *)
Definition S1_analysis : FrameAnalysis.t :=
  FrameAnalysis.new
    (FrameAnalysis.mk "" 0 true "clutch" "high" true "" 1 0 "" None ""
                      (FrameAnalysis.mkMetadata None) 3%Z 3%Z "").

(** ** Scenario data *)

(** Scenario S3: [A = [10, 18]] with priority 7 and [B = [15, 25]] with
    priority 10, as the seeding phase would build them. *)
Definition S3_A : Clip.t :=
  Clip.mk (TimeRange.mk 10 18) "High excitement" (QualityScore.new 70 [])
          "high_excitement" "INTENSE" 7 "low" 1%N (Clip.mkMetadata false).

Definition S3_B : Clip.t :=
  Clip.mk (TimeRange.mk 15 25) "DOUBLE KILL (2 kills)" (QualityScore.new 90 [])
          "multi_kill" "DOUBLE KILL" 10 "low" 2%N (Clip.mkMetadata false).

(** An analysis that reports five kills in [killCount] but has no kill-feed
    entry. *)
Definition countOnly_analysis : FrameAnalysis.t :=
  FrameAnalysis.new
    (FrameAnalysis.mk "" 20 false "normal" "high" true "" 1 0 "" None ""
                      (FrameAnalysis.mkMetadata None) 5%Z 1%Z "").

(** An analysis whose action intensity is the word [constructor], as
    [fromApiResponse] builds it from a reply that says
    [action_intensity: constructor]: no kill, status clutch, no enemy,
    confidence 1. *)
Definition inheritedKey_analysis : FrameAnalysis.t :=
  FrameAnalysis.new
    (FrameAnalysis.mk "" 0 false "clutch" "constructor" false "" 1 0 "" None ""
                      (FrameAnalysis.mkMetadata None) 0%Z 0%Z "").

(** Scenario S4: [targetDuration = 10], [minClipLength = 3] and three clips
    of 6, 5 and 4 seconds, already sorted by score. *)
Definition S4_planner : CompositionPlanner.t :=
  CompositionPlanner.new (CompositionPlanner.mkOpts (Some 10) (Some 3) None None).



(** A supply of identifiers (1, 2, 3, ...) and the director of the pipeline,
    which is built without options. *)
Definition countingSupply : Supply := fun n => N.of_nat (S n).

Definition defaultDirector : CreativeDirector.t :=
  CreativeDirector.new CreativeDirector.defaultConfig.


(** ** Predicates of the specification *)

(** Clips in a list are strictly separated: a later clip starts after every
    earlier clip has ended. *)
Definition separated (l : list Clip.t) : Prop :=
  StronglySorted (fun a b => Clip.end_ a < Clip.start b) l.

(** Sorted by start. *)
Definition sortedByStart (l : list Clip.t) : Prop :=
  StronglySorted (fun a b => Clip.start a <= Clip.start b) l.

(** The head-slice of the clip that overflows. *)
Definition headSlice (clip : Clip.t) (remaining : Q) : Clip.t :=
  Clip.withAdjustedRange clip
    (TimeRange.mk (Clip.start clip) (Clip.start clip + remaining)).

(** What the clamping step keeps of a clip: the range cut at the duration of
    the video, unless less than half a second is left. *)
Definition clamped (videoDuration : Q) (c : Clip.t) : list Clip.t :=
  if Js.Qlt_bool (Js.Math_min (Clip.end_ c) videoDuration - Clip.start c) 0.5 then []
  else [Clip.withAdjustedRange c
          (TimeRange.mk (Clip.start c) (Js.Math_min (Clip.end_ c) videoDuration))].

(** A clip ending at 30 s, for a video of 25.2 s. *)
Definition lateClip : Clip.t :=
  Clip.mk (TimeRange.mk 25 30) "High excitement" (QualityScore.new 70 [])
          "high_excitement" "INTENSE" 7 "high" 7%N (Clip.mkMetadata false).

(** Forgetting the identifiers: the clip with its [id] blanked, and a result
    of [direct] with the identifiers of all its clips blanked. *)
Definition eraseId (c : Clip.t) : Clip.t :=
  Clip.mk (Clip.timeRange c) (Clip.reason c) (Clip.score c) (Clip.clipType c)
          (Clip.label c) (Clip.priority c) (Clip.actionIntensity c) 0%N (Clip.metadata c).

Definition eraseIds (res : CreativeDirector.Result) : CreativeDirector.Result :=
  CreativeDirector.mkResult
    (map eraseId (CreativeDirector.clips res))
    (option_map eraseId (CreativeDirector.hookClip res))
    (CreativeDirector.engagementCurve res)
    (CreativeDirector.varietyAnalysis res)
    (CreativeDirector.suggestions res)
    (CreativeDirector.multiEvents res)
    (CreativeDirector.clutchMoments res)
    (CreativeDirector.momentumShifts res).

(** The result of a run of the director, without the supply that is left. *)
Definition resultOf {A} (r : option (A * Supply)) : option A := option_map fst r.

(** A second supply of identifiers (101, 102, ...). *)
Definition otherSupply : Supply := fun n => N.of_nat (101 + n).

(** What the batch writes to the slot of a frame, given how the analysis of
    the frame ended. *)
Definition slotOf (frame : HuggingFaceClient.Frame) (outcome : Exn + FrameAnalysis.t)
  : FrameAnalysis.t :=
  match outcome with
  | inr analysis => analysis
  | inl err => HuggingFaceClient.sentinel (HuggingFaceClient.f_timestamp frame) (errMsgOf err)
  end.

(** Scenario S6: a client with the models [M1], [M2], [M3] and a stub that
    answers 429 for M1 and M2 and 200 for M3.  The browser side of the stub
    is the simplest one: every blob is readable and every body parses to the
    same object. *)
Definition S6_client : HuggingFaceClient.t :=
  HuggingFaceClient.mk ["M1"; "M2"; "M3"]%string 0 3 2000 1 2000 120000 20000 60000
                       0 false 0 0 0 [].

Definition stubWorld (fetch : nat -> string -> HuggingFaceClient.Outcome)
  : HuggingFaceClient.World :=
  HuggingFaceClient.mkWorld
    fetch
    (fun n => (Z.of_nat n * 5000)%Z)
    (fun _ => inr "AAAA"%string)
    (fun _ => Some (JObj [("kill_log", JBool true); ("confidence", JNum 1)]%string))
    (fun _ => None) (fun _ => None) (fun s => s)
    (fun j => match j with JStr s => s | _ => ""%string end)
    (fun j => match j with JNum q => Some q | _ => None end)
    (fun v => match v with Some (JNum q) => Some (Qfloor q) | _ => None end).

Definition S6_world : HuggingFaceClient.World :=
  stubWorld (fun _ model =>
               if String.eqb model "M3"
               then HuggingFaceClient.Http 200 "" (Some "{}"%string)
               else HuggingFaceClient.Http 429 "" None).

Definition S6_frames : list HuggingFaceClient.Frame :=
  [HuggingFaceClient.mkFrame 0 "frame0"; HuggingFaceClient.mkFrame 10 "frame1"]%string.

(** A stub whose second request times out: 429, timeout, 429, 429, then 200. *)
Definition timeoutWorld : HuggingFaceClient.World :=
  stubWorld (fun n _ =>
               match n with
               | 1%nat => HuggingFaceClient.TimeoutError
               | 0%nat | 2%nat | 3%nat => HuggingFaceClient.Http 429 "" None
               | _ => HuggingFaceClient.Http 200 "" (Some "{}"%string)
               end).

(** A stub whose first frame cannot be analysed: the request for it is
    answered 401. *)
Definition failingWorld : HuggingFaceClient.World :=
  stubWorld (fun n _ =>
               match n with
               | 0%nat => HuggingFaceClient.Http 401 "" None
               | _ => HuggingFaceClient.Http 200 "" (Some "{}"%string)
               end).

(** The fields of the client that the batch relies on and that a request
    leaves as they are. *)
Definition sameFlags (c c' : HuggingFaceClient.t) : Prop :=
  HuggingFaceClient._cancelled c' = HuggingFaceClient._cancelled c
  /\ HuggingFaceClient._activeRequests c' = HuggingFaceClient._activeRequests c
  /\ HuggingFaceClient._concurrency c' = HuggingFaceClient._concurrency c.

(** Slot [i] of the batch and frame [i]: the slot holds what the analysis of
    this very frame produced, in some state [ci] of the client, or the
    sentinel for what it threw. *)
Definition slotFor (world : HuggingFaceClient.World) (frame : HuggingFaceClient.Frame)
           (slot : FrameAnalysis.t) : Prop :=
  exists ci outcome ci',
    HuggingFaceClient.analyzeFrame world (HuggingFaceClient.f_blob frame)
                                   (HuggingFaceClient.f_timestamp frame) ci
    = Some (outcome, ci')
    /\ slot = slotOf frame outcome
    /\ FrameAnalysis.timestamp slot = HuggingFaceClient.f_timestamp frame
    /\ (forall analysis, outcome = inr analysis ->
                         FrameAnalysis.error (FrameAnalysis.metadata slot) = None).

(** What the batch reports once the analysis of a frame has settled, the
    frame being number [current] of [total]: after a throw the
    [console.error] of the catch handler, then the progress callback. *)
Definition batchReports (total current : nat) (frame : HuggingFaceClient.Frame)
           (outcome : Exn + FrameAnalysis.t) (events : list HuggingFaceClient.Event)
  : Prop :=
  exists percent,
    events
    = match outcome with
      | inr _ =>
          [HuggingFaceClient.OnProgress current total percent
                                        (Some (HuggingFaceClient.f_timestamp frame))]
      | inl err =>
          [HuggingFaceClient.ErrorFrameFailed (HuggingFaceClient.f_timestamp frame)
                                              (errMsgOf err);
           HuggingFaceClient.OnProgress current total percent None]
      end.


(** The rounds of a trace.  Walking the events of one request, [seen]
    collects the models that answered 429 since the request started or since
    the last all-models backoff; the trace keeps to the rule when, at every
    all-models backoff, every model of the list is in [seen]. *)
Fixpoint roundsComplete (models seen : list string)
         (events : list HuggingFaceClient.Event) : Prop :=
  match events with
  | [] => True
  | HuggingFaceClient.WarnRateLimited m :: events' =>
      roundsComplete models (m :: seen) events'
  | HuggingFaceClient.SleepAllModels _ :: events' =>
      incl models seen /\ roundsComplete models [] events'
  | _ :: events' => roundsComplete models seen events'
  end.

(** The model list, read cyclically from index [i]. *)
Definition rotation (models : list string) (i : nat) : list string :=
  skipn i models ++ firstn i models.

(** In the loop: the [tried] models that cyclically precede the current one
    have all answered 429 in this round. *)
Definition triedSeen (models : list string) (i tried : nat) (seen : list string) : Prop :=
  (i < length models)%nat /\ (tried < length models)%nat
  /\ incl (skipn (length models - tried) (rotation models i)) seen.

(** * Further models and the notions used to state their properties *)

(** ** FrameExtractor

    The video element is the outside of the extractor: whether the metadata
    loads, the duration it reports ([None] for [NaN] and for an infinite
    duration), the size of the picture, how the seek of each iteration ends,
    the JPEG that [canvas.toBlob] hands over, and the value of
    [this._cancelled] when an iteration reads it.  The caller passes an
    [onProgress] callback, as the pipeline does.  The scale of the canvas
    changes the pixels of a frame only, and [durationFormatted] is a string
    that only a log line uses: both are left out. *)

Module FrameExtractor.

Record Opts : Type := mkOpts {
  o_intervalSeconds : option Q;
  o_maxFrames : option Q;
  o_jpegQuality : option Q;
  o_maxWidth : option Q
}.

Record t : Type := mk {
  intervalSeconds : Q;
  maxFrames : Q;
  jpegQuality : Q;
  maxWidth : Q
}.

Definition new (opts : Opts) : t :=
  mk (num_or (o_intervalSeconds opts) 10)
     (num_or (o_maxFrames opts) 60)
     (num_or (o_jpegQuality opts) 0.85)
     (num_or (o_maxWidth opts) 1280).

Record Video : Type := mkVideo {
  v_loads : bool;
  v_duration : option Q;
  v_videoWidth : Q;
  v_videoHeight : Q;
  v_seeked : nat -> bool;
  v_toBlob : nat -> HuggingFaceClient.Blob;
  v_cancelled : nat -> bool
}.

Inductive Error : Type :=
| FailedToLoad        (* 'Failed to load video' *)
| NoDuration          (* 'Cannot determine video duration' *)
| Cancelled           (* 'Frame extraction cancelled' *)
| SeekFailed (timestamp : Q).  (* `Seek failed at ${timestamp}s` *)

(** The argument of [onProgress]. *)
Record Progress : Type := mkProgress {
  p_current : nat;
  p_total : Q;
  p_percent : Z;
  p_timestamp : Q
}.

Record VideoInfo : Type := mkVideoInfo { duration : Q; width : Q; height : Q }.

Record Extracted : Type := mkExtracted {
  frames : list HuggingFaceClient.Frame;
  videoInfo : VideoInfo
}.

Section Extract.
Variable this : t.
Variable video : Video.

Definition totalFrames (duration : Q) : Q :=
  Js.Math_min (maxFrames this)
              (inject_Z (Qfloor (duration / intervalSeconds this)) + 1).

(** The [for] loop, with [i] the loop variable; [None] is a loop that has
    not ended within the given number of rounds. *)
Fixpoint frameLoop (rounds : nat) (duration : Q) (i : nat)
         (frames : list HuggingFaceClient.Frame) (events : list Progress)
  : option (list Progress * (Error + list HuggingFaceClient.Frame)) :=
  match rounds with
  | O => None
  | S rounds' =>
      if negb (Js.Qlt_bool (inject_Z (Z.of_nat i)) (totalFrames duration))
      then Some (events, inr frames)
      else if v_cancelled video i then Some (events, inl Cancelled)
      else
        let timestamp := inject_Z (Z.of_nat i) * intervalSeconds this in
        if Js.Qlt_bool duration timestamp then Some (events, inr frames)
        else if negb (v_seeked video i) then Some (events, inl (SeekFailed timestamp))
        else
          let blob := v_toBlob video i in
          let frames := frames ++ [HuggingFaceClient.mkFrame timestamp blob] in
          let percent :=
            HuggingFaceClient.Math_round
              (inject_Z (Z.of_nat (i + 1)) / totalFrames duration * 100) in
          let events :=
            events ++ [mkProgress (i + 1) (totalFrames duration) percent timestamp] in
          frameLoop rounds' duration (S i) frames events
  end.

(** [extractFrames]; the loop runs at most once for each natural number
    below [totalFrames], and once more to leave. *)
Definition extractFrames : option (list Progress * (Error + Extracted)) :=
  if negb (v_loads video) then Some ([], inl FailedToLoad)
  else
    match v_duration video with
    | None => Some ([], inl NoDuration)
    | Some duration =>
        if Qeq_bool duration 0 then Some ([], inl NoDuration)
        else
          let videoInfo :=
            mkVideoInfo duration (v_videoWidth video) (v_videoHeight video) in
          match frameLoop (S (Z.to_nat (Qceiling (totalFrames duration)))) duration 0 [] []
          with
          | None => None
          | Some (events, inl e) => Some (events, inl e)
          | Some (events, inr frames) => Some (events, inr (mkExtracted frames videoInfo))
          end
    end.

End Extract.

End FrameExtractor.

(** ** VideoAssembler: the checks, the order of the clips, the progress *)

Module VideoAssembler.

(** The two checks at the head of [assemble]: the message of the error
    that is thrown, if any. *)
Definition assembleChecks (loaded : bool) (clips : list Clip.t) : option string :=
  if negb loaded then Some "FFmpeg not loaded. Call load() first."%string
  else match clips with
       | [] => Some "No clips to assemble"%string
       | _ => None
       end.

(** The clips in the order of extraction and concatenation: the hook first
    if there is one. *)
Definition orderedClips (clips : list Clip.t) (hookClip : option Clip.t) : list Clip.t :=
  match hookClip with
  | Some hook => hook :: clips
  | None => clips
  end.

(** The percentage reported after the extraction of clip [i]. *)
Definition extractingPercent (i totalClips : nat) : Z :=
  HuggingFaceClient.Math_round
    (inject_Z (Z.of_nat (i + 1)) / inject_Z (Z.of_nat totalClips) * 80).

(** The percentages that an assembly that runs to its end passes to
    [onProgress], in call order: one for each clip, then those of the steps
    [concatenating], [finalizing] and [done]. *)
Definition progressPercents (totalClips : nat) : list Z :=
  map (fun i => extractingPercent i totalClips) (seq 0 totalClips) ++ [85; 95; 100]%Z.

End VideoAssembler.

(** ** ProcessingPipeline.run: from the analyses to the assembler

    The steps of [run] between the [await] of the batch and the one of
    [load] are synchronous: [this._cancelled] is read twice, but it cannot
    change in between unless a callback of the caller calls [cancel], which
    is taken not to happen.  The log lines are left out; of a progress call
    the stage and the percentage are kept. *)

Module PipelineRun.

(** [a.metadata?.error] as a condition: a message that is not empty. *)
Definition hasError (a : FrameAnalysis.t) : bool :=
  match FrameAnalysis.error (FrameAnalysis.metadata a) with
  | Some (String _ _) => true
  | _ => false
  end.

Definition validAnalyses (analyses : list FrameAnalysis.t) : list FrameAnalysis.t :=
  filter (fun a => negb (hasError a)) analyses.

Definition failedAnalyses (analyses : list FrameAnalysis.t) : list FrameAnalysis.t :=
  filter hasError analyses.

(** [failedAnalyses.length > 0 ? failedAnalyses[0].metadata.error : 'Unknown error']. *)
Definition firstError (failed : list FrameAnalysis.t) : string :=
  match failed with
  | a :: _ => match FrameAnalysis.error (FrameAnalysis.metadata a) with
              | Some e => e
              | None => "undefined"
              end
  | [] => "Unknown error"
  end.

Definition allFailed (firstError : string) : string :=
  "All frame analyses failed. API error: " ++ firstError.

Definition noHighlights : string :=
  "No highlights detected in the video. Try with more action-packed footage.".

Record Directed : Type := mkDirected {
  d_validAnalyses : list FrameAnalysis.t;
  d_directorResult : CreativeDirector.Result;
  d_clampedClips : list Clip.t;
  d_hookClip : option Clip.t
}.

(** How the steps end: with an error of [run] itself, with the error of a
    [TimeRange] constructor, or with what goes on to the assembler. *)
Inductive Outcome : Type :=
| Throws (message : string)
| ThrowsRangeError
| Proceeds (d : Directed).

Definition directSteps (cancelled : bool) (director : CreativeDirector.t)
           (analyses : list FrameAnalysis.t) (videoDuration : Q) (s : Supply)
  : list (string * Z) * Outcome :=
  if cancelled then ([], Throws "Cancelled")
  else
    let valid := validAnalyses analyses in
    let failed := failedAnalyses analyses in
    match valid with
    | [] => ([], Throws (allFailed (firstError failed)))
    | _ =>
        let progress := [("clip_detection"%string, 60%Z)] in
        match CreativeDirector.direct director valid s with
        | None => (progress, ThrowsRangeError)
        | Some (directorResult, _) =>
            let progress := progress ++ [("clip_detection"%string, 70%Z)] in
            match CreativeDirector.clips directorResult with
            | [] => (progress, Throws noHighlights)
            | _ =>
                match ProcessingPipeline.clampClips
                        videoDuration (CreativeDirector.clips directorResult),
                      ProcessingPipeline.clampHook
                        videoDuration (CreativeDirector.hookClip directorResult) with
                | Some clampedClips, Some hookClip =>
                    (progress ++ [("clip_detection"%string, 75%Z);
                                  ("video_generation"%string, 75%Z)],
                     Proceeds (mkDirected valid directorResult clampedClips hookClip))
                | _, _ => (progress, ThrowsRangeError)
                end
            end
        end
    end.

(** The [catch] block of [run]: a cancellation is only logged, any other
    error goes to [onError]. *)
Inductive Handled : Type :=
| LoggedCancelled
| OnError (msg : string).

Definition catch (err : Exn) : Handled :=
  let msg := errMsgOf err in
  if String.eqb msg "Cancelled" || includes "cancelled" msg then LoggedCancelled
  else OnError msg.

(** The three callbacks that map the progress of a stage to the overall
    progress. *)
Definition extractionProgress (percent : Z) : Z :=
  HuggingFaceClient.Math_round (inject_Z percent * 0.25).

Definition analysisProgress (percent : Z) : Z :=
  (25 + HuggingFaceClient.Math_round (inject_Z percent * 0.35))%Z.

Definition assemblyProgress (percent : Z) : Z :=
  (75 + HuggingFaceClient.Math_round (inject_Z percent * 0.25))%Z.

End PipelineRun.

(** The keys of [weights] find numbers in [scores], or nothing: each is a
    key of [scores] or reaches no inherited member. *)
Definition numericKeys (weights scores : Js.Obj) : Prop :=
  Forall (fun k => In k (Js.keys scores) \/ plainKey k) (Js.keys weights).

(** A whole number from 0 to [bound].  Sums and products of such numbers
    that stay below 2^53 are computed without rounding. *)
Definition wholeUpTo (bound : Z) (x : Q) : Prop :=
  exists z : Z, (0 <= z <= bound)%Z /\ x == inject_Z z.



(** The weighted mean of [fromComponents], written over the properties of
    [weights]. *)
Definition weightedMean (weights scores : Js.Obj) : Q :=
  Js.sum (map (fun kv => snd kv * QualityScore.getOr0 scores (fst kv)) weights)
  / Js.sum (Js.values weights).

(** The kill frames in the window that opens at [windowStart]: those with a
    timestamp in [windowStart, windowStart + timeWindow]. *)
Definition inRange (windowStart timeWindow t : Q) : bool :=
  Qle_bool windowStart t && Qle_bool t (windowStart + timeWindow).


(** One clip covers another: its range contains the other's. *)
Definition covers (m c : Clip.t) : Prop :=
  Clip.start m <= Clip.start c /\ Clip.end_ c <= Clip.end_ m.

(** What [sweep] guarantees for each event, over the sorted kill timestamps
    [ts]. *)
Definition windowOf (timeWindow : Q) (ts : list Q) (e : HighlightDetector.MultiEvent)
  : Prop :=
  (2 <= HighlightDetector.me_killCount e)%nat
  /\ HighlightDetector.me_type e
     = HighlightDetector._classifyMultiEvent (HighlightDetector.me_killCount e)
  /\ 0 <= timeWindow
  /\ In (HighlightDetector.me_timestamp e) ts
  /\ In (HighlightDetector.me_endTimestamp e) ts
  /\ HighlightDetector.me_timestamp e <= HighlightDetector.me_endTimestamp e
  /\ HighlightDetector.me_endTimestamp e
     <= HighlightDetector.me_timestamp e + timeWindow
  /\ HighlightDetector.me_killCount e
     = length (filter (inRange (HighlightDetector.me_timestamp e) timeWindow) ts).


(** A merged clip is one of the given clips, as it is or with a wider
    range. *)
Definition widened (given : list Clip.t) (m : Clip.t) : Prop :=
  exists c, In c given /\ covers m c
            /\ (m = c \/ m = Clip.withAdjustedRange c (Clip.timeRange m)).

(** What [scoreClips] makes of a clip [c]: the scored clip [c']. *)
Definition scored (this : CompositionPlanner.t) (analyses : list FrameAnalysis.t)
           (c c' : Clip.t) : Prop :=
  Clip.timeRange c' = Clip.timeRange c
  /\ Clip.id c' = Clip.id c
  /\ Clip.reason c' = Clip.reason c
  /\ Clip.clipType c' = Clip.clipType c
  /\ Clip.label c' = Clip.label c
  /\ Clip.priority c' = Clip.priority c
  /\ Clip.metadata c' = Clip.metadata c
  /\ QualityScore.breakdown (Clip.score c') = []
  /\ 0 <= QualityScore.value (Clip.score c') <= 25
  /\ match analyses with
     | [] =>
         Clip.actionIntensity c' = str_or (Clip.actionIntensity c) "low"
         /\ QualityScore.value (Clip.score c') == 0
     | _ =>
         exists a,
           In a analyses
           /\ Clip.actionIntensity c' = str_or (FrameAnalysis.actionIntensity a) "low"
           /\ forall a', In a' analyses ->
                         Js.Math_abs (FrameAnalysis.timestamp a
                                      - TimeRange.midpoint (Clip.timeRange c))
                         <= Js.Math_abs (FrameAnalysis.timestamp a'
                                         - TimeRange.midpoint (Clip.timeRange c))
     end.

(** What [adjustClipLengths] makes of a clip [c], for a planner with
    [0 < minClipLength <= maxClipLength]. *)
Definition adjusted (this : CompositionPlanner.t) (c c' : Clip.t) : Prop :=
  Clip.wf c'
  /\ c' = (if Js.Qlt_bool (CompositionPlanner.maxClipLength this) (Clip.duration c)
              || Js.Qlt_bool (Clip.duration c) (CompositionPlanner.minClipLength this)
           then Clip.withAdjustedRange c (Clip.timeRange c') else c)
  /\ Clip.duration c' <= CompositionPlanner.maxClipLength this
  /\ (CompositionPlanner.maxClipLength this < Clip.duration c ->
      Clip.duration c' == CompositionPlanner.maxClipLength this
      /\ TimeRange.midpoint (Clip.timeRange c') == TimeRange.midpoint (Clip.timeRange c)
      /\ covers c c')
  /\ (Clip.duration c < CompositionPlanner.minClipLength this ->
      covers c' c
      /\ Clip.duration c < Clip.duration c'
      /\ Clip.duration c' <= CompositionPlanner.minClipLength this
      /\ ((CompositionPlanner.minClipLength this - Clip.duration c) / 2 <= Clip.start c ->
          Clip.duration c' == CompositionPlanner.minClipLength this
          /\ TimeRange.midpoint (Clip.timeRange c')
             == TimeRange.midpoint (Clip.timeRange c))).

(** The three pacing classes of [optimizePacing]. *)
Definition isHigh (c : Clip.t) : bool :=
  String.eqb (Clip.actionIntensity c) "very_high"
  || String.eqb (Clip.actionIntensity c) "high".
Definition isMedium (c : Clip.t) : bool := String.eqb (Clip.actionIntensity c) "medium".
Definition isLow (c : Clip.t) : bool := String.eqb (Clip.actionIntensity c) "low".


(** Two clips share no instant; a list of clips is disjoint when any two of
    its clips (at different places) share none. *)
Definition apart (a b : Clip.t) : Prop :=
  Clip.end_ a < Clip.start b \/ Clip.end_ b < Clip.start a.

Definition disjoint (l : list Clip.t) : Prop := ForallOrdPairs apart l.

(** [c'] is a valid clip within the range of [c]. *)
Definition within (c c' : Clip.t) : Prop := covers c c' /\ Clip.wf c'.

(** The requests among the actions of the client. *)
Definition isRequest (e : HuggingFaceClient.Event) : bool :=
  match e with HuggingFaceClient.Request _ => true | _ => false end.

Definition countRequests (events : list HuggingFaceClient.Event) : nat :=
  length (filter isRequest events).

(** The settings of the client, which no request changes: everything but
    the current model, the counters and the trace. *)
Definition sameConfig (c c' : HuggingFaceClient.t) : Prop :=
  HuggingFaceClient._models c' = HuggingFaceClient._models c
  /\ HuggingFaceClient._maxRetries c' = HuggingFaceClient._maxRetries c
  /\ HuggingFaceClient._initialBackoff c' = HuggingFaceClient._initialBackoff c
  /\ HuggingFaceClient._concurrency c' = HuggingFaceClient._concurrency c
  /\ HuggingFaceClient._requestDelay c' = HuggingFaceClient._requestDelay c
  /\ HuggingFaceClient._coldStartTimeout c' = HuggingFaceClient._coldStartTimeout c
  /\ HuggingFaceClient._coldStartRetryDelay c' = HuggingFaceClient._coldStartRetryDelay c
  /\ HuggingFaceClient._allModelsBackoff c' = HuggingFaceClient._allModelsBackoff c
  /\ HuggingFaceClient._activeRequests c' = HuggingFaceClient._activeRequests c
  /\ HuggingFaceClient._cancelled c' = HuggingFaceClient._cancelled c
  /\ HuggingFaceClient._lastRequestTime c' = HuggingFaceClient._lastRequestTime c
  /\ HuggingFaceClient.clockReads c' = HuggingFaceClient.clockReads c.

(** From [c] to [c'] the client has done [events]: the settings are the
    same, the trace has grown by the events, and the request counter by the
    requests among them. *)
Definition extends (c c' : HuggingFaceClient.t) (events : list HuggingFaceClient.Event)
  : Prop :=
  sameConfig c c'
  /\ HuggingFaceClient.trace c' = HuggingFaceClient.trace c ++ events
  /\ HuggingFaceClient.requests c'
     = (HuggingFaceClient.requests c + countRequests events)%nat.

(** What [_sendWithFallback] may do in the attempts [first, first + n): send
    a request, warn, or sleep; a backoff sleep lasts what [backoffFor] says
    for one of these attempts. *)
Definition fallbackEvent (c : HuggingFaceClient.t) (first n : nat)
           (e : HuggingFaceClient.Event) : Prop :=
  match e with
  | HuggingFaceClient.Request model => In model (HuggingFaceClient._models c)
                                        \/ model = "undefined"%string
  | HuggingFaceClient.SleepAllModels ms => ms = HuggingFaceClient._allModelsBackoff c
  | HuggingFaceClient.SleepColdStart ms => ms = HuggingFaceClient._coldStartRetryDelay c
  | HuggingFaceClient.SleepBackoff ms =>
      exists attempt, (first <= attempt < first + n)%nat
                      /\ ms = HuggingFaceClient.backoffFor c attempt
  | HuggingFaceClient.WarnRateLimited _ | HuggingFaceClient.WarnAllRateLimited
  | HuggingFaceClient.WarnModelLoading _ | HuggingFaceClient.WarnTimedOut _
  | HuggingFaceClient.WarnAttemptFailed _ _ _ => True
  | _ => False
  end.

(** A stub on which every model is still loading: each request is answered
    503. *)
Definition loadingWorld : HuggingFaceClient.World :=
  stubWorld (fun _ _ => HuggingFaceClient.Http 503 "" None).

(** A stub for an invalid token: each request is answered 401. *)
Definition unauthorizedWorld : HuggingFaceClient.World :=
  stubWorld (fun _ _ => HuggingFaceClient.Http 401 "Unauthorized" None).

(** The state of a client that can send: not cancelled, below its
    concurrency limit, with a retry budget. *)
Definition ready (c : HuggingFaceClient.t) : Prop :=
  HuggingFaceClient._cancelled c = false
  /\ (HuggingFaceClient._activeRequests c < HuggingFaceClient._concurrency c)%nat
  /\ (0 < HuggingFaceClient._maxRetries c * length (HuggingFaceClient._models c))%nat.


(** [percent] is [100 * current / total] rounded to a nearest whole number;
    halfway between two whole numbers either of them is one. *)
Definition roundedPercent (current total : nat) (percent : Z) : Prop :=
  Qabs (inject_Z percent
        - 100 * inject_Z (Z.of_nat current) / inject_Z (Z.of_nat total)) <= 1 # 2.

(** The numbers of the list never decrease. *)
Definition nondecreasing (l : list Z) : Prop :=
  forall i j p q,
    (i <= j)%nat -> nth_error l i = Some p -> nth_error l j = Some q -> (p <= q)%Z.

(** The progress callbacks among the actions of the client: what each was
    called with ([current], [total], [percent]). *)
Definition progressOf (events : list HuggingFaceClient.Event) : list (nat * nat * Z) :=
  flat_map (fun e => match e with
                     | HuggingFaceClient.OnProgress current total percent _ =>
                         [(current, total, percent)]
                     | _ => []
                     end) events.

(** The client of scenario S6 after [cancel()]. *)
Definition cancelledClient : HuggingFaceClient.t :=
  HuggingFaceClient.mk ["M1"; "M2"; "M3"]%string 0 3 2000 1 2000 120000 20000 60000
                       0 true 0 0 0 [].

(** [x] is [y] up to the rounding of a few operations on doubles. *)
Definition nearly (x y : Q) : Prop := Qabs (x - y) <= Qabs y / 1000000000000000.

(** The analysis keeps to keys that reach no inherited member of the
    lookup tables. *)
Definition plainKeys (a : FrameAnalysis.t) : Prop :=
  plainKey (FrameAnalysis.actionIntensity a) /\ plainKey (FrameAnalysis.matchStatus a).

(** The excitement of the analysis is computed without rounding (no
    confidence factor is applied, or the factor is 1), or it stays clear of
    the seeding threshold 25 by more than the rounding of the factor and of
    the product can move it. *)
Definition clearOfThreshold (a : FrameAnalysis.t) : Prop :=
  ~ 0 < FrameAnalysis.confidence a
  \/ FrameAnalysis.confidence a == 1
  \/ HighlightDetector.excitement a <= 25 - (1 # 1000000)
  \/ 25 + (1 # 1000000) <= HighlightDetector.excitement a.

(** Footage that seeds no highlight: no multi-kill, no clutch moment, no
    frame with an excitement of 25 or more. *)
Definition quiet (analyses : list FrameAnalysis.t) : Prop :=
  HighlightDetector.detectMultiEvents
    (HighlightDetector.analyzeExcitementLevels analyses) 10 = []
  /\ Forall (fun a => FrameAnalysis.matchStatus a <> "clutch"%string) analyses
  /\ Forall (fun a => HighlightDetector.excitement a < 25) analyses.

(** The intensities that [optimizePacing] keeps. *)
Definition pacedIntensity (s : string) : Prop :=
  In (str_or s "low") ["very_high"; "high"; "medium"; "low"]%string.

(** The frame that iteration [i] of the extractor pushes and the progress
    it reports. *)
Definition frameAt (this : FrameExtractor.t) (video : FrameExtractor.Video) (i : nat)
  : HuggingFaceClient.Frame :=
  HuggingFaceClient.mkFrame (inject_Z (Z.of_nat i) * FrameExtractor.intervalSeconds this)
                            (FrameExtractor.v_toBlob video i).

Definition progressAt (this : FrameExtractor.t) (duration : Q) (i : nat)
  : FrameExtractor.Progress :=
  FrameExtractor.mkProgress
    (i + 1) (FrameExtractor.totalFrames this duration)
    (HuggingFaceClient.Math_round
       (inject_Z (Z.of_nat (i + 1)) / FrameExtractor.totalFrames this duration * 100))
    (inject_Z (Z.of_nat i) * FrameExtractor.intervalSeconds this).

(** The extractor of the pipeline, and a video of 25 seconds in 1920x1080
    whose seeks all succeed. *)
Definition defaultExtractor : FrameExtractor.t :=
  FrameExtractor.new (FrameExtractor.mkOpts None None None None).

Definition S7_video : FrameExtractor.Video :=
  FrameExtractor.mkVideo true (Some 25) 1920 1080 (fun _ => true)
                         (fun _ => "jpeg"%string) (fun _ => false).

(** A reply from which [_extractJson] gets no JSON: the text does not parse,
    nor does the inside of a code fence, nor a brace group found in it. *)
Definition unparseable (world : HuggingFaceClient.World) (text : string) : Prop :=
  HuggingFaceClient.w_JSON_parse world text = None
  /\ (forall inner,
         HuggingFaceClient.w_fenceMatch world text = Some inner ->
         HuggingFaceClient.w_JSON_parse world (HuggingFaceClient.w_trim world inner) = None)
  /\ (forall m,
         HuggingFaceClient.w_objectMatch world text = Some m ->
         HuggingFaceClient.w_JSON_parse world m = None).

(** An analysis that reports nothing: no kill, status unknown, intensity
    low, no enemy, confidence 0. *)
Definition blank (a : FrameAnalysis.t) : Prop :=
  FrameAnalysis.killLog a = false
  /\ FrameAnalysis.matchStatus a = "unknown"%string
  /\ FrameAnalysis.actionIntensity a = "low"%string
  /\ FrameAnalysis.enemyVisible a = false
  /\ FrameAnalysis.confidence a = 0.

(** A stub whose every reply is prose. *)
Definition proseWorld : HuggingFaceClient.World :=
  HuggingFaceClient.mkWorld
    (fun _ _ => HuggingFaceClient.Http 200 "" (Some "I see a menu screen."%string))
    (fun _ => 0%Z) (fun b => inr b) (fun _ => None) (fun _ => None) (fun _ => None)
    (fun s => s)
    (fun j => match j with JStr s => s | _ => ""%string end)
    (fun _ => None) (fun _ => None).

(** * Properties *)

(** ** Comparisons and the helpers of [Math] *)

Lemma Qlt_bool_iff (a b : Q) : Js.Qlt_bool a b = true <-> a < b.
Proof.
  unfold Js.Qlt_bool. rewrite negb_true_iff.
  split; intro H.
  - apply Qnot_le_lt. intro Hle. apply Qle_bool_iff in Hle. congruence.
  - destruct (Qle_bool b a) eqn:E; [|reflexivity].
    apply Qle_bool_iff in E. apply Qlt_not_le in H. contradiction.
Qed.

Lemma Qle_bool_false (a b : Q) : Qle_bool a b = false <-> b < a.
Proof.
  rewrite <- Qlt_bool_iff. unfold Js.Qlt_bool. rewrite negb_true_iff. reflexivity.
Qed.

Lemma Qlt_bool_false (a b : Q) : Js.Qlt_bool a b = false <-> b <= a.
Proof.
  unfold Js.Qlt_bool. rewrite negb_false_iff. apply Qle_bool_iff.
Qed.

(** Case analysis on every comparison of the goal, leaving the order facts
    as hypotheses for [lra]. *)
Ltac qcase :=
  match goal with
  | |- context [Qle_bool ?a ?b] =>
      let E := fresh "E" in
      destruct (Qle_bool a b) eqn:E;
      [apply Qle_bool_iff in E | apply Qle_bool_false in E]
  | |- context [Js.Qlt_bool ?a ?b] =>
      let E := fresh "E" in
      destruct (Js.Qlt_bool a b) eqn:E;
      [apply Qlt_bool_iff in E | apply Qlt_bool_false in E]
  end.

Lemma Math_max_spec (a b : Q) :
  (a <= b /\ Js.Math_max a b = b) \/ (b < a /\ Js.Math_max a b = a).
Proof. unfold Js.Math_max. qcase; auto. Qed.

Lemma Math_min_spec (a b : Q) :
  (a <= b /\ Js.Math_min a b = a) \/ (b < a /\ Js.Math_min a b = b).
Proof. unfold Js.Math_min. qcase; auto. Qed.

Lemma Math_max_0_nonneg (a : Q) : 0 <= a -> Js.Math_max 0 a = a.
Proof. intro H. destruct (Math_max_spec 0 a) as [[_ E]|[Hlt _]]; [exact E | lra]. Qed.

(** ** The [TimeRange] constructor *)

Lemma TimeRange_new_wf (s e : Q) (r : TimeRange.t) :
  TimeRange.new s e = Some r -> TimeRange.wf r.
Proof.
  unfold TimeRange.new, TimeRange.wf. qcase; [discriminate|].
  intro H. injection H as <-. simpl.
  destruct (Math_max_spec 0 s) as [[? Hm]|[? Hm]]; rewrite Hm in *; lra.
Qed.

Lemma TimeRange_new_valid (s e : Q) :
  0 <= s -> s < e -> TimeRange.new s e = Some (TimeRange.mk s e).
Proof.
  intros Hs He. unfold TimeRange.new. rewrite (Math_max_0_nonneg _ Hs).
  qcase; [lra | reflexivity].
Qed.

(** ** The stable sort *)

Section SortFacts.
Context {A : Type} (cmp : A -> A -> Q).

Lemma insert_perm (x : A) (l : list A) : Permutation (Js.insert cmp x l) (x :: l).
Proof.
  induction l as [|y l IH]; simpl; [reflexivity|].
  destruct (Js.Qlt_bool 0 (cmp x y)); [|reflexivity].
  rewrite IH. apply perm_swap.
Qed.

Lemma sort_perm (l : list A) : Permutation (Js.sort cmp l) l.
Proof.
  induction l as [|x l IH]; simpl; [reflexivity|].
  unfold Js.sort in *. simpl. rewrite insert_perm. now constructor.
Qed.

Lemma sort_Forall (P : A -> Prop) (l : list A) : Forall P l -> Forall P (Js.sort cmp l).
Proof.
  intro H. rewrite Forall_forall in *. intros x Hx. apply H.
  eapply Permutation_in; [apply sort_perm | exact Hx].
Qed.

Lemma sort_length (l : list A) : length (Js.sort cmp l) = length l.
Proof. apply Permutation_length, sort_perm. Qed.

End SortFacts.

Section SortByKey.
Context {A : Type} (key : A -> Q).

Lemma insert_sorted (x : A) (l : list A) :
  StronglySorted (fun a b => key a <= key b) l ->
  StronglySorted (fun a b => key a <= key b) (Js.insert (fun a b => key a - key b) x l).
Proof.
  induction 1 as [|y l Hs IH Hy]; simpl.
  - repeat constructor.
  - qcase.
    + constructor; [exact IH|].
      rewrite Forall_forall. intros z Hz.
      apply (Permutation_in _ (insert_perm _ x l)) in Hz.
      destruct Hz as [<-|Hz]; [lra|].
      rewrite Forall_forall in Hy. now apply Hy.
    + constructor; [now constructor|].
      constructor; [lra|].
      rewrite Forall_forall in *. intros z Hz. specialize (Hy z Hz).
      simpl in Hy. lra.
Qed.

Lemma sort_sorted (l : list A) :
  StronglySorted (fun a b => key a <= key b) (Js.sort (fun a b => key a - key b) l).
Proof.
  induction l as [|x l IH]; simpl; [constructor|].
  apply insert_sorted, IH.
Qed.

End SortByKey.

(** ** Lists whose ordered pairs are all related *)

Section StronglySortedFacts.
Context {A : Type} (R : A -> A -> Prop).

Lemma StronglySorted_snoc (l : list A) (x : A) :
  StronglySorted R l -> Forall (fun a => R a x) l -> StronglySorted R (l ++ [x]).
Proof.
  induction 1 as [|y l Hs IH Hy]; intro Hx; simpl.
  - repeat constructor.
  - inversion Hx; subst. constructor; [now apply IH|].
    apply Forall_app. split; [exact Hy | now constructor].
Qed.

Lemma StronglySorted_snoc_inv (l : list A) (x : A) :
  StronglySorted R (l ++ [x]) -> StronglySorted R l /\ Forall (fun a => R a x) l.
Proof.
  induction l as [|y l IH]; simpl; intro H.
  - split; constructor.
  - inversion H as [|? ? Hs Hy]; subst. destruct (IH Hs) as [Hl Hx].
    apply Forall_app in Hy as [Hy1 Hy2]. inversion Hy2; subst.
    split; constructor; assumption.
Qed.


End StronglySortedFacts.

(** ** mergeOverlappingClips *)

Lemma withAdjustedRange_range (c : Clip.t) (r : TimeRange.t) :
  Clip.timeRange (Clip.withAdjustedRange c r) = r.
Proof. reflexivity. Qed.

(** One round of the loop on an overlapping clip: the range of the merged
    clip is built without an exception and is [min of starts, max of ends]. *)
Lemma mergeLoop_overlap (merged_init : list Clip.t) (last current : Clip.t)
      (rest : list Clip.t) :
  Clip.wf last -> Clip.wf current ->
  Clip.start current <= Clip.end_ last ->
  HighlightDetector.mergeLoop merged_init last (current :: rest) =
  HighlightDetector.mergeLoop merged_init
    (Clip.withAdjustedRange
       (if Qle_bool (Clip.priority current) (Clip.priority last) then last else current)
       (TimeRange.mk (Js.Math_min (Clip.start last) (Clip.start current))
                     (Js.Math_max (Clip.end_ last) (Clip.end_ current))))
    rest.
Proof.
  intros [Hl0 Hl] [Hc0 Hc] Hov. simpl.
  apply Qle_bool_iff in Hov. rewrite Hov.
  rewrite TimeRange_new_valid; [reflexivity| |].
  - destruct (Math_min_spec (Clip.start last) (Clip.start current)) as [[_ ->]|[_ ->]];
      assumption.
  - unfold Clip.start, Clip.end_ in *.
    destruct (Math_min_spec (TimeRange.startSeconds (Clip.timeRange last))
                            (TimeRange.startSeconds (Clip.timeRange current)))
      as [[? ->]|[? ->]];
    destruct (Math_max_spec (TimeRange.endSeconds (Clip.timeRange last))
                            (TimeRange.endSeconds (Clip.timeRange current)))
      as [[? ->]|[? ->]]; lra.
Qed.

(** The invariant of the loop: [merged] is separated and well formed, and
    the clips still to come are sorted and start no earlier than [last]. *)
Lemma mergeLoop_separated (rest : list Clip.t) :
  forall (merged_init : list Clip.t) (last : Clip.t),
    Forall Clip.wf (merged_init ++ [last]) ->
    Forall Clip.wf rest ->
    separated (merged_init ++ [last]) ->
    Forall (fun c => Clip.start last <= Clip.start c) rest ->
    sortedByStart rest ->
    exists merged,
      HighlightDetector.mergeLoop merged_init last rest = Some merged
      /\ separated merged /\ Forall Clip.wf merged.
Proof.
  induction rest as [|current rest IH]; intros init last Hwf Hwfr Hsep Hge Hsort.
  - simpl. eauto.
  - inversion Hwfr as [|? ? Hwc Hwr]; subst.
    inversion Hge as [|? ? Hlc Hgr]; subst.
    inversion Hsort as [|? ? Hsr Hcr]; subst.
    apply Forall_app in Hwf as [Hwi Hwl].
    inversion Hwl as [|? ? Hwlast _]; subst.
    destruct (Qle_bool (Clip.start current) (Clip.end_ last)) eqn:E.
    + apply Qle_bool_iff in E.
      rewrite mergeLoop_overlap by assumption.
      destruct (Math_min_spec (Clip.start last) (Clip.start current)) as [[_ Hmin]|[Hlt _]];
        [|lra].
      rewrite Hmin.
      set (keep := if Qle_bool (Clip.priority current) (Clip.priority last)
                   then last else current).
      set (r := TimeRange.mk (Clip.start last)
                             (Js.Math_max (Clip.end_ last) (Clip.end_ current))).
      assert (Hwr' : TimeRange.wf r).
      { destruct Hwlast as [H0 H1], Hwc as [H2 H3].
        unfold TimeRange.wf, r, Clip.start, Clip.end_ in *. simpl.
        destruct (Math_max_spec (TimeRange.endSeconds (Clip.timeRange last))
                                (TimeRange.endSeconds (Clip.timeRange current)))
          as [[? ->]|[? ->]]; lra. }
      apply IH.
      * apply Forall_app. split; [assumption|]. constructor; [exact Hwr' | constructor].
      * assumption.
      * apply StronglySorted_snoc_inv in Hsep as [Hsi Hlast].
        apply StronglySorted_snoc; [exact Hsi|].
        eapply Forall_impl; [|exact Hlast]. intros a Ha. exact Ha.
      * exact Hgr.
      * exact Hsr.
    + simpl. rewrite E. apply Qle_bool_false in E.
      apply IH.
      * apply Forall_app. split; [|constructor; [assumption | constructor]].
        apply Forall_app. split; assumption.
      * assumption.
      * apply StronglySorted_snoc; [exact Hsep|].
        apply StronglySorted_snoc_inv in Hsep as [_ Hlast].
        apply Forall_app. split.
        -- eapply Forall_impl; [|exact Hlast]. intros a Ha. simpl in Ha.
           destruct Hwlast as [_ Hl]. unfold Clip.start, Clip.end_ in *. lra.
        -- constructor; [exact E | constructor].
      * exact Hcr.
      * exact Hsr.
Qed.

(** Separated well-formed clips are sorted by start. *)
Lemma separated_sortedByStart (l : list Clip.t) :
  Forall Clip.wf l -> separated l -> sortedByStart l.
Proof.
  intros Hwf Hsep. induction Hsep as [|a l Hs IH Ha]; [constructor|].
  inversion Hwf as [|? ? [_ Hwa] Hwl]; subst.
  constructor; [now apply IH|].
  eapply Forall_impl; [|exact Ha]. intros b Hb. simpl in Hb.
  unfold Clip.start, Clip.end_ in *. lra.
Qed.



(** ** analyzeExcitementLevels *)

Lemma intensity_lookup (a : FrameAnalysis.t) :
  num_or (table_get HighlightDetector.intensityMap (FrameAnalysis.actionIntensity a)) 0
  == Spec.intensityTerm a.
Proof.
  unfold Spec.intensityTerm, HighlightDetector.intensityMap. simpl.
  repeat (destruct (String.eqb _ _); [reflexivity|]). reflexivity.
Qed.

Lemma status_lookup (a : FrameAnalysis.t) :
  num_or (table_get HighlightDetector.statusMap (FrameAnalysis.matchStatus a)) 0
  == Spec.statusTerm a.
Proof.
  unfold Spec.statusTerm, HighlightDetector.statusMap. simpl.
  repeat (destruct (String.eqb _ _); [reflexivity|]). reflexivity.
Qed.

(** The score of the code is the sum of the four terms, times the
    confidence factor when the confidence is positive. *)
Lemma excitement_total (a : FrameAnalysis.t) :
  HighlightDetector.excitement a ==
  if Js.Qlt_bool 0 (FrameAnalysis.confidence a)
  then Spec.total a * (0.5 + 0.5 * FrameAnalysis.confidence a)
  else Spec.total a.
Proof.
  unfold HighlightDetector.excitement, Spec.total.
  pose proof (intensity_lookup a) as Hi. pose proof (status_lookup a) as Hs.
  set (i := num_or _ _) in *. clearbody i.
  set (st := num_or _ _) in *. clearbody st.
  unfold Spec.killTerm, Spec.enemyTerm.
  destruct (Js.Qlt_bool 0 (FrameAnalysis.confidence a));
    destruct (FrameAnalysis.killLog a), (FrameAnalysis.enemyVisible a);
    repeat match goal with |- context [(?x <=? ?y)%Z] => destruct (x <=? y)%Z end;
    rewrite Hi, Hs; ring.
Qed.

Lemma analyzeExcitementLevels_scores (analyses : list FrameAnalysis.t) :
  map FrameAnalysis.excitementScore (HighlightDetector.analyzeExcitementLevels analyses)
  = map HighlightDetector.excitement analyses.
Proof.
  unfold HighlightDetector.analyzeExcitementLevels. rewrite map_map.
  apply map_ext. reflexivity.
Qed.

Lemma table_or0_plain (m : list (string * Q)) (k : string) :
  plainKey k -> table_or0 m k = Found (num_or (table_get m k) 0).
Proof.
  unfold plainKey, table_or0, num_or. intro Hk.
  destruct (table_get m k) as [v|]; [reflexivity|]. now rewrite Hk.
Qed.

Lemma intensityMap_inherited (k : string) :
  inherited k = true -> table_or0 HighlightDetector.intensityMap k = Member.
Proof.
  unfold inherited, prototypeKeys. intro H. apply existsb_exists in H.
  destruct H as (x & Hin & Hx). apply String.eqb_eq in Hx. subst x.
  simpl in Hin. repeat (destruct Hin as [<-|Hin]; [reflexivity|]). contradiction.
Qed.

Lemma statusMap_inherited (k : string) :
  inherited k = true -> table_or0 HighlightDetector.statusMap k = Member.
Proof.
  unfold inherited, prototypeKeys. intro H. apply existsb_exists in H.
  destruct H as (x & Hin & Hx). apply String.eqb_eq in Hx. subst x.
  simpl in Hin. repeat (destruct Hin as [<-|Hin]; [reflexivity|]). contradiction.
Qed.

(** On plain keys the callback computes a number, the one of [excitement]. *)
Lemma excitementValue_plain (a : FrameAnalysis.t) :
  plainKey (FrameAnalysis.actionIntensity a) ->
  plainKey (FrameAnalysis.matchStatus a) ->
  HighlightDetector.excitementValue a
  = HighlightDetector.Num (HighlightDetector.excitement a).
Proof.
  intros Hi Hs. unfold HighlightDetector.excitementValue, HighlightDetector.excitement.
  rewrite (table_or0_plain _ _ Hi), (table_or0_plain _ _ Hs).
  destruct (FrameAnalysis.killLog a), (FrameAnalysis.enemyVisible a);
    repeat match goal with |- context [(?x <=? ?y)%Z] => destruct (x <=? y)%Z end;
    destruct (Js.Qlt_bool 0 (FrameAnalysis.confidence a)); reflexivity.
Qed.

Lemma scoreWritten_plain (a : FrameAnalysis.t) :
  plainKey (FrameAnalysis.actionIntensity a) ->
  plainKey (FrameAnalysis.matchStatus a) ->
  HighlightDetector.scoreWritten a
  = HighlightDetector.Num (HighlightDetector.excitement a).
Proof.
  intros Hi Hs. unfold HighlightDetector.scoreWritten.
  now rewrite (excitementValue_plain a Hi Hs).
Qed.

(** With an inherited key the running value is a string from the lookup on. *)
Lemma excitementValue_inherited (a : FrameAnalysis.t) :
  inherited (FrameAnalysis.actionIntensity a) = true
  \/ inherited (FrameAnalysis.matchStatus a) = true ->
  HighlightDetector.excitementValue a
  = if Js.Qlt_bool 0 (FrameAnalysis.confidence a)
    then HighlightDetector.NaN else HighlightDetector.Str.
Proof.
  intro H. unfold HighlightDetector.excitementValue.
  assert (E : HighlightDetector.plus
                (HighlightDetector.plus
                   (if FrameAnalysis.killLog a
                    then
                      if (3 <=? FrameAnalysis.killCount a)%Z
                      then HighlightDetector.plus
                             (HighlightDetector.plus (HighlightDetector.Num 0) (Found 25))
                             (Found 15)
                      else if (2 <=? FrameAnalysis.killCount a)%Z
                           then HighlightDetector.plus
                                  (HighlightDetector.plus (HighlightDetector.Num 0) (Found 25))
                                  (Found 8)
                           else HighlightDetector.plus (HighlightDetector.Num 0) (Found 25)
                    else HighlightDetector.Num 0)
                   (table_or0 HighlightDetector.intensityMap (FrameAnalysis.actionIntensity a)))
                (table_or0 HighlightDetector.statusMap (FrameAnalysis.matchStatus a))
              = HighlightDetector.Str).
  { destruct H as [H|H].
    - rewrite (intensityMap_inherited _ H).
      destruct (FrameAnalysis.killLog a);
        repeat match goal with |- context [(?x <=? ?y)%Z] => destruct (x <=? y)%Z end;
        simpl; try reflexivity; destruct (table_or0 _ _); reflexivity.
    - rewrite (statusMap_inherited _ H).
      destruct (FrameAnalysis.killLog a);
        repeat match goal with |- context [(?x <=? ?y)%Z] => destruct (x <=? y)%Z end;
        simpl; try reflexivity; destruct (table_or0 _ _); reflexivity. }
  rewrite E.
  destruct (FrameAnalysis.enemyVisible a);
    repeat match goal with |- context [(?x <=? ?y)%Z] => destruct (x <=? y)%Z end;
    destruct (Js.Qlt_bool 0 (FrameAnalysis.confidence a)); reflexivity.
Qed.

(** The four-term sum is what the code computes when no multiplication rounds it. *)
Lemma excitement_exact (a : FrameAnalysis.t) :
  ~ 0 < FrameAnalysis.confidence a \/ FrameAnalysis.confidence a == 1 ->
  HighlightDetector.excitement a == Spec.total a.
Proof.
  intro H. rewrite excitement_total.
  destruct (Js.Qlt_bool 0 (FrameAnalysis.confidence a)) eqn:E; [|reflexivity].
  apply Qlt_bool_iff in E. destruct H as [H|H]; [contradiction|]. rewrite H. ring.
Qed.

Lemma nearly_refl (x y : Q) : x == y -> nearly x y.
Proof.
  intros E. unfold nearly.
  setoid_replace (x - y) with 0 by lra. rewrite Qabs_pos by lra.
  apply Qle_shift_div_l; [reflexivity|].
  setoid_replace (0 * 1000000000000000) with 0 by ring. apply Qabs_nonneg.
Qed.

(** With a positive confidence the sum is multiplied by the factor; the code
    rounds the factor and the product. *)
Lemma excitement_nearly (a : FrameAnalysis.t) :
  0 < FrameAnalysis.confidence a <= 1000000 ->
  nearly (HighlightDetector.excitement a)
         (Spec.total a * (0.5 + 0.5 * FrameAnalysis.confidence a)).
Proof.
  intros [Hc _]. apply nearly_refl. rewrite excitement_total.
  apply Qlt_bool_iff in Hc. now rewrite Hc.
Qed.

(** C2.  The score that [analyzeExcitementLevels] writes is, on every
    analysis whose intensity and status are plain keys, the four-term sum of
    the claim when no confidence factor is applied (confidence at most 0) or
    the factor is 1, and that sum times [0.5 + 0.5 * confidence], up to the
    rounding of the factor and of the product, when the confidence is
    positive; scenario S1 scores 93.  On an analysis whose
    intensity or status is the name of an inherited member the lookup returns
    that member and the score is no sum at all: it is 0 when the confidence
    is positive and a string otherwise.  The analysis with intensity
    [constructor], status clutch and confidence 1 gets 0 where the claim
    gives 20. *)
Theorem analyzeExcitementLevels_inherited_key :
  (HighlightDetector.scoreWritten inheritedKey_analysis = HighlightDetector.Num 0
   /\ Spec.total inheritedKey_analysis
      * (0.5 + 0.5 * FrameAnalysis.confidence inheritedKey_analysis) == 20)
  /\ (forall a,
        inherited (FrameAnalysis.actionIntensity a) = true
        \/ inherited (FrameAnalysis.matchStatus a) = true ->
        HighlightDetector.scoreWritten a
        = if Js.Qlt_bool 0 (FrameAnalysis.confidence a)
          then HighlightDetector.Num 0 else HighlightDetector.Str)
  /\ (forall a,
        plainKey (FrameAnalysis.actionIntensity a) ->
        plainKey (FrameAnalysis.matchStatus a) ->
        exists q,
          HighlightDetector.scoreWritten a = HighlightDetector.Num q
          /\ (~ 0 < FrameAnalysis.confidence a \/ FrameAnalysis.confidence a == 1 ->
              q == Spec.total a)
          /\ (0 < FrameAnalysis.confidence a <= 1000000 ->
              nearly q (Spec.total a * (0.5 + 0.5 * FrameAnalysis.confidence a))))
  /\ (exists q, HighlightDetector.scoreWritten S1_analysis = HighlightDetector.Num q
                /\ q == 93
                /\ Spec.total S1_analysis == 25 + 15 + 18 + 20 + 10 + 5).
Proof.
  split; [split; [reflexivity | vm_compute; reflexivity]|].
  split.
  { intros a H. unfold HighlightDetector.scoreWritten.
    rewrite (excitementValue_inherited a H).
    destruct (Js.Qlt_bool 0 (FrameAnalysis.confidence a)); reflexivity. }
  split.
  { intros a Hi Hs. exists (HighlightDetector.excitement a).
    split; [exact (scoreWritten_plain a Hi Hs)|].
    split; [exact (excitement_exact a) | exact (excitement_nearly a)]. }
  exists (HighlightDetector.excitement S1_analysis).
  split; [apply scoreWritten_plain; reflexivity|].
  split; vm_compute; reflexivity.
Qed.

(** C10.  For every frame analysis with [killLog = false] the kill-related
    contributions are zero whatever [killCount] is: the score written does
    not depend on [killCount], whatever the keys are, and on plain keys it is
    a number made of the other three terms alone: their sum when no
    confidence factor is applied (confidence at most 0) or the factor is 1,
    their sum times [0.5 + 0.5 * confidence], up to the rounding of the
    factor and of the product, when the confidence is positive, and 0
    whenever their sum is 0. *)
Theorem excitement_no_killLog (a : FrameAnalysis.t) :
  FrameAnalysis.killLog a = false ->
  Spec.killTerm a = 0
  /\ (forall k, HighlightDetector.excitement (FrameAnalysis.with_killCount a k)
               = HighlightDetector.excitement a)
  /\ (forall k,
        map FrameAnalysis.excitementScore
            (HighlightDetector.analyzeExcitementLevels [FrameAnalysis.with_killCount a k])
        = map FrameAnalysis.excitementScore
              (HighlightDetector.analyzeExcitementLevels [a]))
  /\ (forall k, HighlightDetector.scoreWritten (FrameAnalysis.with_killCount a k)
               = HighlightDetector.scoreWritten a)
  /\ (plainKey (FrameAnalysis.actionIntensity a) ->
      plainKey (FrameAnalysis.matchStatus a) ->
      exists q,
        HighlightDetector.scoreWritten a = HighlightDetector.Num q
        /\ (~ 0 < FrameAnalysis.confidence a \/ FrameAnalysis.confidence a == 1 ->
            q == Spec.intensityTerm a + Spec.statusTerm a + Spec.enemyTerm a)
        /\ (0 < FrameAnalysis.confidence a <= 1000000 ->
            nearly q ((Spec.intensityTerm a + Spec.statusTerm a + Spec.enemyTerm a)
                      * (0.5 + 0.5 * FrameAnalysis.confidence a)))
        /\ (Spec.intensityTerm a + Spec.statusTerm a + Spec.enemyTerm a == 0 -> q == 0)).
Proof.
  intro Hk.
  assert (Hsame : forall k,
             HighlightDetector.excitement (FrameAnalysis.with_killCount a k)
             = HighlightDetector.excitement a).
  { intro k. unfold HighlightDetector.excitement. simpl. rewrite Hk. reflexivity. }
  assert (Hsum : Spec.total a
                 == Spec.intensityTerm a + Spec.statusTerm a + Spec.enemyTerm a).
  { unfold Spec.total, Spec.killTerm. rewrite Hk. ring. }
  split; [unfold Spec.killTerm; now rewrite Hk|].
  split; [exact Hsame|]. split.
  { intro k. rewrite !analyzeExcitementLevels_scores. simpl. now rewrite Hsame. }
  split.
  { intro k. unfold HighlightDetector.scoreWritten, HighlightDetector.excitementValue.
    simpl. rewrite Hk. reflexivity. }
  intros Hi Hs. exists (HighlightDetector.excitement a).
  split; [exact (scoreWritten_plain a Hi Hs)|]. split; [|split].
  - intro Hc. rewrite (excitement_exact a Hc). exact Hsum.
  - intros [Hc _]. apply nearly_refl. rewrite excitement_total.
    apply Qlt_bool_iff in Hc. rewrite Hc, Hsum. reflexivity.
  - intro Hz. rewrite excitement_total.
    destruct (Js.Qlt_bool 0 (FrameAnalysis.confidence a)); rewrite Hsum, Hz; ring.
Qed.

Lemma excitement_no_killLog_witness :
  FrameAnalysis.killLog countOnly_analysis = false
  /\ HighlightDetector.excitement (FrameAnalysis.with_killCount countOnly_analysis 0)
     = HighlightDetector.excitement countOnly_analysis.
Proof.
  split; [reflexivity|].
  exact (proj1 (proj2 (excitement_no_killLog countOnly_analysis eq_refl)) 0%Z).
Defined.

(** ** trimToTargetDuration *)

Lemma totalDuration_snoc (l : list Clip.t) (c : Clip.t) :
  CompositionPlanner.totalDuration (l ++ [c])
  = CompositionPlanner.totalDuration l + Clip.duration c.
Proof. unfold CompositionPlanner.totalDuration. now rewrite fold_left_app. Qed.







(** The loop, started after the clips [pre] were admitted. *)
Lemma trimLoop_spec (this : CompositionPlanner.t) :
  0 < CompositionPlanner.minClipLength this ->
  forall clips pre,
    Forall Clip.wf clips ->
    CompositionPlanner.totalDuration pre <= CompositionPlanner.targetDuration this ->
    CompositionPlanner.targetDuration this < CompositionPlanner.totalDuration (pre ++ clips) ->
    exists admitted overflow rest,
      clips = admitted ++ overflow :: rest
      /\ CompositionPlanner.totalDuration (pre ++ admitted)
         <= CompositionPlanner.targetDuration this
      /\ CompositionPlanner.targetDuration this
         < CompositionPlanner.totalDuration (pre ++ admitted) + Clip.duration overflow
      /\ CompositionPlanner.trimLoop this clips (CompositionPlanner.totalDuration pre) pre
         = Some (let remaining := CompositionPlanner.targetDuration this
                                  - CompositionPlanner.totalDuration (pre ++ admitted) in
                 if Qle_bool (CompositionPlanner.minClipLength this) remaining
                 then (pre ++ admitted) ++ [headSlice overflow remaining]
                 else pre ++ admitted).
Proof.
  intros Hmin. induction clips as [|c clips IH]; intros pre Hwf Hpre Htot.
  - rewrite app_nil_r in Htot. lra.
  - inversion Hwf as [|? ? Hc Hwf']; subst. simpl.
    destruct (Qle_bool (CompositionPlanner.totalDuration pre + Clip.duration c)
                       (CompositionPlanner.targetDuration this)) eqn:E.
    + apply Qle_bool_iff in E. rewrite <- totalDuration_snoc in *.
      destruct (IH (pre ++ [c]) Hwf' E) as (adm & ov & rest & Hcl & Hle & Hlt & Hres).
      { now rewrite <- app_assoc. }
      exists (c :: adm), ov, rest. subst clips.
      replace (pre ++ c :: adm) with ((pre ++ [c]) ++ adm) by now rewrite <- app_assoc.
      repeat split; assumption.
    + apply Qle_bool_false in E.
      exists [], c, clips. rewrite app_nil_r. repeat split; try assumption.
      cbv zeta. destruct (Qle_bool _ _) eqn:E2; [|reflexivity].
      apply Qle_bool_iff in E2.
      rewrite TimeRange_new_valid; [reflexivity | apply Hc | lra].
Qed.



(** ** The clamping step of the pipeline *)

Lemma clampClip_spec (videoDuration : Q) (c : Clip.t) :
  Clip.wf c ->
  ProcessingPipeline.clampClip videoDuration c
  = Some (match clamped videoDuration c with [] => None | c' :: _ => Some c' end).
Proof.
  intros [H0 H1]. unfold ProcessingPipeline.clampClip, clamped.
  set (e := Js.Math_min (Clip.end_ c) videoDuration).
  destruct (Math_min_spec (Clip.start c) (e - 0.1)) as [[E1 Hm]|[E1 Hm]]; rewrite Hm.
  - destruct (Js.Qlt_bool (e - Clip.start c) 0.5) eqn:E2; [reflexivity|].
    apply Qlt_bool_false in E2.
    rewrite (Math_max_0_nonneg (Clip.start c) H0).
    rewrite TimeRange_new_valid; [reflexivity | exact H0 | lra].
  - assert (E2 : Js.Qlt_bool (e - (e - 0.1)) 0.5 = true) by (apply Qlt_bool_iff; lra).
    assert (E3 : Js.Qlt_bool (e - Clip.start c) 0.5 = true) by (apply Qlt_bool_iff; lra).
    now rewrite E2, E3.
Qed.

Lemma clampClips_spec (videoDuration : Q) (clips : list Clip.t) :
  Forall Clip.wf clips ->
  ProcessingPipeline.clampClips videoDuration clips
  = Some (flat_map (clamped videoDuration) clips).
Proof.
  unfold ProcessingPipeline.clampClips.
  induction 1 as [|c clips Hc _ IH]; [reflexivity|].
  simpl. rewrite (clampClip_spec _ _ Hc).
  destruct (mapM _ clips) as [l|]; [|discriminate].
  simpl in *. injection IH as <-.
  destruct (clamped videoDuration c) as [|c' [|]] eqn:E; try reflexivity.
  unfold clamped in E. destruct (Js.Qlt_bool _ _); discriminate.
Qed.

Lemma clamped_bounds (videoDuration : Q) (c c' : Clip.t) :
  Clip.wf c -> In c' (clamped videoDuration c) ->
  Clip.wf c' /\ Clip.end_ c' <= videoDuration /\ 0.5 <= Clip.duration c'.
Proof.
  intros [H0 H1] Hin. unfold clamped in Hin.
  destruct (Js.Qlt_bool _ _) eqn:E; [contradiction|].
  apply Qlt_bool_false in E. destruct Hin as [<-|[]].
  unfold Clip.wf, TimeRange.wf, Clip.end_, Clip.duration, TimeRange.duration, Clip.start in *.
  simpl.
  destruct (Math_min_spec (TimeRange.endSeconds (Clip.timeRange c)) videoDuration)
    as [[? Hm]|[? Hm]]; rewrite Hm in *; repeat split; lra.
Qed.

(** C4.  After the clamping step every surviving clip, and the hook if it
    survives, ends no later than the duration of the video and lasts at least
    half a second; a clip of which less than half a second is left within the
    video is dropped, and so is the hook. *)
Theorem clamp_spec (videoDuration : Q) (clips : list Clip.t) (hookClip : option Clip.t) :
  Forall Clip.wf clips ->
  (forall h, hookClip = Some h -> Clip.wf h) ->
  (exists clampedClips,
      ProcessingPipeline.clampClips videoDuration clips = Some clampedClips
      /\ clampedClips = flat_map (clamped videoDuration) clips
      /\ Forall (fun c => Clip.end_ c <= videoDuration /\ 0.5 <= Clip.duration c)
                clampedClips)
  /\ (forall c, In c clips ->
        Js.Math_min (Clip.end_ c) videoDuration - Clip.start c < 0.5 ->
        ProcessingPipeline.clampClip videoDuration c = Some None)
  /\ (exists hook',
        ProcessingPipeline.clampHook videoDuration hookClip = Some hook'
        /\ (forall h, hook' = Some h ->
              Clip.end_ h <= videoDuration /\ 0.5 <= Clip.duration h)
        /\ (forall h, hookClip = Some h ->
              Js.Math_min (Clip.end_ h) videoDuration - Clip.start h < 0.5 ->
              hook' = None)
        /\ (hookClip = None -> hook' = None)).
Proof.
  intros Hwf Hhook. split; [|split].
  - eexists. split; [now apply clampClips_spec|]. split; [reflexivity|].
    rewrite Forall_forall. intros c' Hin. apply in_flat_map in Hin as (c & Hc & Hin).
    rewrite Forall_forall in Hwf.
    destruct (clamped_bounds videoDuration c c' (Hwf c Hc) Hin) as (_ & He & Hd).
    split; assumption.
  - intros c Hc Hlt. rewrite Forall_forall in Hwf.
    rewrite (clampClip_spec _ _ (Hwf c Hc)). unfold clamped.
    apply Qlt_bool_iff in Hlt. now rewrite Hlt.
  - destruct hookClip as [hook|].
    + specialize (Hhook hook eq_refl).
      change (ProcessingPipeline.clampHook videoDuration (Some hook))
        with (ProcessingPipeline.clampClip videoDuration hook).
      rewrite (clampClip_spec _ _ Hhook). eexists. split; [reflexivity|]. split; [|split].
      * intros h Hh. destruct (clamped videoDuration hook) as [|h' l] eqn:E; [discriminate|].
        injection Hh as ->.
        destruct (clamped_bounds videoDuration hook h Hhook) as (_ & He & Hd);
          [rewrite E; now left | split; assumption].
      * intros h Hh Hlt. injection Hh as <-. unfold clamped.
        apply Qlt_bool_iff in Hlt. now rewrite Hlt.
      * discriminate.
    + exists None. repeat split; discriminate.
Qed.

Lemma clamp_spec_witness :
  Forall Clip.wf [S3_A; lateClip]
  /\ exists clampedClips,
      ProcessingPipeline.clampClips 25.2 [S3_A; lateClip] = Some clampedClips
      /\ Forall (fun c => Clip.end_ c <= 25.2 /\ 0.5 <= Clip.duration c) clampedClips.
Proof.
  assert (H : Forall Clip.wf [S3_A; lateClip]).
  { repeat constructor; vm_compute; discriminate. }
  assert (Hh : forall h, Some lateClip = Some h -> Clip.wf h).
  { intros h Heq. injection Heq as <-. split; vm_compute; [discriminate | reflexivity]. }
  split; [exact H|].
  destruct (clamp_spec 25.2 [S3_A; lateClip] (Some lateClip) H Hh)
    as [(cl & Hcl & _ & Hall) _].
  exists cl. split; assumption.
Defined.

(** ** Every range is built by the constructor *)

Lemma mapM_Forall {A B} (f : A -> option B) (P : A -> Prop) (Q : B -> Prop) :
  (forall x y, P x -> f x = Some y -> Q y) ->
  forall xs ys, Forall P xs -> mapM f xs = Some ys -> Forall Q ys.
Proof.
  intros Hf. induction xs as [|x xs IH]; intros ys HP H; simpl in H.
  - injection H as <-. constructor.
  - inversion HP; subst.
    destruct (f x) as [y|] eqn:Ey; [|discriminate].
    destruct (mapM f xs) as [ys'|] eqn:Eys; [|discriminate].
    injection H as <-. constructor; eauto.
Qed.

Lemma firstn_Forall {A} (P : A -> Prop) (n : nat) (l : list A) :
  Forall P l -> Forall P (firstn n l).
Proof.
  intro H. revert n. induction H as [|x l Hx _ IH]; intros [|n]; simpl;
    constructor; auto.
Qed.

Lemma filter_Forall {A} (P : A -> Prop) (f : A -> bool) (l : list A) :
  Forall P l -> Forall P (filter f l).
Proof.
  induction 1 as [|x l Hx _ IH]; simpl; [constructor|].
  destruct (f x); [constructor|]; assumption.
Qed.

Lemma forPush_Forall {A B} (body : A -> M B) (P : B -> Prop) :
  (forall x s b s', body x s = Some (b, s') -> P b) ->
  forall xs acc s r s',
    Forall P acc -> forPush body xs acc s = Some (r, s') -> Forall P r.
Proof.
  intros Hbody. induction xs as [|x xs IH]; intros acc s r s' Hacc H; simpl in H.
  - unfold ret in H. injection H as <- _. exact Hacc.
  - unfold bind in H. destruct (body x s) as [[b s1]|] eqn:Eb; [|discriminate].
    apply (IH _ _ _ _ (proj2 (Forall_app _ _ _) (conj Hacc (Forall_cons _ (Hbody _ _ _ _ Eb) (Forall_nil _)))) H).
Qed.

Lemma seed_wf (r0 : option TimeRange.t) (o : TimeRange.t -> Clip.Opts)
      (s : Supply) (c : Clip.t) (s' : Supply) :
  (forall r, Clip.o_timeRange (o r) = r) ->
  (forall r, r0 = Some r -> TimeRange.wf r) ->
  bind (lift r0) (fun r => newClip (o r)) s = Some (c, s') -> Clip.wf c.
Proof.
  intros Ho Hr H. unfold bind, lift, newClip in H.
  destruct r0 as [r|]; [|discriminate].
  injection H as H. unfold Clip.new in H.
  destruct (match Clip.o_id (o r) with Some i => (i, s) | None => randomUUID s end)
    as [i s1].
  injection H as <- _. unfold Clip.wf. simpl. rewrite Ho. now apply Hr.
Qed.

Lemma seedMultiKill_wf mk s c s' :
  HighlightDetector.seedMultiKill mk s = Some (c, s') -> Clip.wf c.
Proof.
  apply seed_wf; [reflexivity | intros r; apply TimeRange_new_wf].
Qed.

Lemma seedClutch_wf cm s c s' :
  HighlightDetector.seedClutch cm s = Some (c, s') -> Clip.wf c.
Proof.
  apply seed_wf; [reflexivity | intros r; apply TimeRange_new_wf].
Qed.

Lemma seedExcitement_wf a s c s' :
  HighlightDetector.seedExcitement a s = Some (c, s') -> Clip.wf c.
Proof.
  apply seed_wf; [reflexivity | intros r; apply TimeRange_new_wf].
Qed.

Lemma mergeLoop_wf (rest : list Clip.t) :
  forall merged_init last merged,
    Forall Clip.wf (merged_init ++ [last]) -> Forall Clip.wf rest ->
    HighlightDetector.mergeLoop merged_init last rest = Some merged ->
    Forall Clip.wf merged.
Proof.
  induction rest as [|current rest IH]; intros init last merged Hm Hr H; simpl in H.
  - now injection H as <-.
  - inversion Hr; subst.
    destruct (Qle_bool (Clip.start current) (Clip.end_ last)).
    + destruct (TimeRange.new _ _) as [r|] eqn:Er; [|discriminate].
      apply TimeRange_new_wf in Er.
      apply (IH _ _ _) in H; [exact H| |assumption].
      apply Forall_app in Hm as [Hi _]. apply Forall_app. split; [exact Hi|].
      constructor; [exact Er | constructor].
    + apply (IH _ _ _) in H; [exact H| |assumption].
      apply Forall_app. split; [exact Hm | constructor; [assumption | constructor]].
Qed.

Lemma mergeOverlappingClips_wf (clips merged : list Clip.t) :
  Forall Clip.wf clips ->
  HighlightDetector.mergeOverlappingClips clips = Some merged ->
  Forall Clip.wf merged.
Proof.
  intros Hwf H. unfold HighlightDetector.mergeOverlappingClips in H.
  pose proof (sort_Forall (fun a b => Clip.start a - Clip.start b) _ _ Hwf) as Hs.
  destruct (Js.sort _ clips) as [|first rest].
  - injection H as <-. constructor.
  - inversion Hs; subst.
    eapply mergeLoop_wf; [| |exact H]; [simpl; constructor; [assumption|constructor] | assumption].
Qed.

Lemma suggestHighlights_wf analyses multiEvents clutchMoments s highlights s' :
  HighlightDetector.suggestHighlights analyses multiEvents clutchMoments s
  = Some (highlights, s') ->
  Forall Clip.wf highlights.
Proof.
  unfold HighlightDetector.suggestHighlights, bind. intro H.
  destruct (forPush HighlightDetector.seedMultiKill _ _ _) as [[h1 s1]|] eqn:E1; [|discriminate].
  destruct (forPush HighlightDetector.seedClutch _ _ _) as [[h2 s2]|] eqn:E2; [|discriminate].
  destruct (forPush HighlightDetector.seedExcitement _ _ _) as [[h3 s3]|] eqn:E3; [|discriminate].
  apply (forPush_Forall _ Clip.wf seedMultiKill_wf) in E1; [|constructor].
  apply (forPush_Forall _ Clip.wf seedClutch_wf) in E2; [|exact E1].
  apply (forPush_Forall _ Clip.wf seedExcitement_wf) in E3; [|exact E2].
  unfold lift in H.
  destruct (HighlightDetector.mergeOverlappingClips _) as [m|] eqn:Em; [|discriminate].
  injection H as <- _.
  eapply mergeOverlappingClips_wf; [|exact Em]. now apply sort_Forall.
Qed.

Section PlannerWf.
Variable this : CompositionPlanner.t.

Lemma scoreClips_wf clips analyses :
  Forall Clip.wf clips -> Forall Clip.wf (CompositionPlanner.scoreClips this clips analyses).
Proof.
  intro H. unfold CompositionPlanner.scoreClips. apply Forall_map.
  eapply Forall_impl; [|exact H]. intros c Hc.
  unfold CompositionPlanner.scoreClip, Clip.wf.
  destruct (CompositionPlanner.closestLoop _ _ _) as [[? ?]|]; exact Hc.
Qed.

Lemma adjustClipLength_wf c c' :
  Clip.wf c -> CompositionPlanner.adjustClipLength this c = Some c' -> Clip.wf c'.
Proof.
  intros Hc H. unfold CompositionPlanner.adjustClipLength in H.
  destruct (Js.Qlt_bool _ _).
  - destruct (TimeRange.new _ _) as [r|] eqn:Er; [|discriminate].
    injection H as <-. exact (TimeRange_new_wf _ _ _ Er).
  - destruct (Js.Qlt_bool _ _).
    + destruct (TimeRange.new _ _) as [r|] eqn:Er; [|discriminate].
      injection H as <-. exact (TimeRange_new_wf _ _ _ Er).
    + now injection H as <-.
Qed.

Lemma adjustClipLengths_wf clips r :
  Forall Clip.wf clips -> CompositionPlanner.adjustClipLengths this clips = Some r ->
  Forall Clip.wf r.
Proof. apply mapM_Forall, adjustClipLength_wf. Qed.

Lemma trimLoop_wf clips :
  forall acc trimmed r,
    Forall Clip.wf clips -> Forall Clip.wf trimmed ->
    CompositionPlanner.trimLoop this clips acc trimmed = Some r -> Forall Clip.wf r.
Proof.
  induction clips as [|c clips IH]; intros acc trimmed r Hc Ht H; simpl in H.
  - now injection H as <-.
  - inversion Hc; subst. destruct (Qle_bool _ _).
    + eapply IH; [assumption| |exact H].
      apply Forall_app. split; [assumption | constructor; [assumption|constructor]].
    + destruct (Qle_bool _ _).
      * destruct (TimeRange.new _ _) as [rg|] eqn:Er; [|discriminate].
        injection H as <-. apply Forall_app. split; [assumption|].
        constructor; [exact (TimeRange_new_wf _ _ _ Er) | constructor].
      * now injection H as <-.
Qed.

Lemma trimToTargetDuration_wf clips r :
  Forall Clip.wf clips -> CompositionPlanner.trimToTargetDuration this clips = Some r ->
  Forall Clip.wf r.
Proof.
  intros Hc H. unfold CompositionPlanner.trimToTargetDuration in H.
  destruct clips as [|c clips]; [now injection H as <-|].
  destruct (Qle_bool _ _); [now injection H as <-|].
  eapply trimLoop_wf; [exact Hc | constructor | exact H].
Qed.

Lemma alternate_Forall (P : Clip.t -> Prop) medium :
  forall high, Forall P medium -> Forall P high ->
               Forall P (CompositionPlanner.alternate medium high).
Proof.
  induction medium as [|m medium IH]; intros high Hm Hh; simpl; [exact Hh|].
  destruct high as [|h high]; [exact Hm|].
  inversion Hm; inversion Hh; subst. repeat constructor; try assumption. now apply IH.
Qed.

Lemma optimizePacing_Forall (P : Clip.t -> Prop) clips :
  Forall P clips -> Forall P (CompositionPlanner.optimizePacing clips).
Proof.
  intro H. unfold CompositionPlanner.optimizePacing.
  destruct (length clips <=? 2)%nat; [exact H|].
  assert (Hf : forall f, Forall P (filter f clips)).
  { intro f. now apply filter_Forall. }
  apply Forall_app. split.
  - pose proof (Hf (fun c => String.eqb (Clip.actionIntensity c) "very_high"
                            || String.eqb (Clip.actionIntensity c) "high")) as Hh.
    destruct (filter _ clips) as [|h high] in Hh |- *.
    + apply alternate_Forall; [apply Hf | constructor].
    + inversion Hh; subst. constructor; [assumption|]. apply alternate_Forall; [apply Hf | assumption].
  - apply firstn_Forall, Hf.
Qed.

Lemma optimizeClips_wf clips analyses r :
  Forall Clip.wf clips -> CompositionPlanner.optimizeClips this clips analyses = Some r ->
  Forall Clip.wf r.
Proof.
  intros Hc H. unfold CompositionPlanner.optimizeClips in H.
  destruct (CompositionPlanner.adjustClipLengths _ _) as [adj|] eqn:Ea; [|discriminate].
  destruct (CompositionPlanner.trimToTargetDuration _ _) as [tr|] eqn:Et; [|discriminate].
  injection H as <-. apply optimizePacing_Forall.
  eapply trimToTargetDuration_wf; [|exact Et]. apply sort_Forall.
  eapply adjustClipLengths_wf; [|exact Ea]. now apply scoreClips_wf.
Qed.

End PlannerWf.

Lemma createHookIntro_wf clips s h s' :
  CompositionPlanner.createHookIntro clips s = Some (Some h, s') -> Clip.wf h.
Proof.
  unfold CompositionPlanner.createHookIntro. destruct clips as [|first rest]; [discriminate|].
  unfold bind, lift, newClip, ret.
  destruct (TimeRange.new _ _) as [r|] eqn:Er; [|discriminate].
  intro H. injection H as <- _. exact (TimeRange_new_wf _ _ _ Er).
Qed.

Lemma clampClip_wf d c c' :
  ProcessingPipeline.clampClip d c = Some (Some c') -> Clip.wf c'.
Proof.
  unfold ProcessingPipeline.clampClip. destruct (Js.Qlt_bool _ _); [discriminate|].
  destruct (TimeRange.new _ _) as [r|] eqn:Er; [|discriminate].
  intro H. injection H as <-. exact (TimeRange_new_wf _ _ _ Er).
Qed.

Lemma clampClips_wf d clips r :
  ProcessingPipeline.clampClips d clips = Some r -> Forall Clip.wf r.
Proof.
  unfold ProcessingPipeline.clampClips.
  destruct (mapM _ clips) as [l|] eqn:El; [|discriminate].
  intro H. injection H as <-.
  assert (Hl : Forall (fun o => forall c', o = Some c' -> Clip.wf c') l).
  { eapply (mapM_Forall _ (fun _ => True)); [| |exact El].
    - intros x y _ Hxy c' ->. eapply clampClip_wf, Hxy.
    - rewrite Forall_forall. auto. }
  unfold ProcessingPipeline.filterBoolean. rewrite Forall_forall in *.
  intros c Hc. apply in_flat_map in Hc as (o & Ho & Hc).
  destruct o as [c0|]; [|contradiction]. destruct Hc as [<-|[]]. now apply (Hl _ Ho).
Qed.

Lemma direct_wf this analyses s res s' :
  CreativeDirector.direct this analyses s = Some (res, s') ->
  Forall Clip.wf (CreativeDirector.clips res)
  /\ (forall h, CreativeDirector.hookClip res = Some h -> Clip.wf h).
Proof.
  unfold CreativeDirector.direct, bind, lift, ret. intro H.
  destruct (HighlightDetector.suggestHighlights _ _ _ s) as [[hl s1]|] eqn:Eh; [|discriminate].
  destruct (CompositionPlanner.optimizeClips _ hl _) as [opt|] eqn:Eo; [|discriminate].
  destruct (CompositionPlanner.createHookIntro opt s1) as [[hook s2]|] eqn:Ek; [|discriminate].
  injection H as <- _. simpl.
  apply suggestHighlights_wf in Eh. split.
  - eapply optimizeClips_wf; [exact Eh | exact Eo].
  - intros h ->. eapply createHookIntro_wf, Ek.
Qed.

(** C7, as the code has it.  At every stage of the pipeline (the constructor,
    seeding, merging, scoring and length adjustment, trimming, pacing, hook
    creation, clamping, and [direct] as a whole) every clip has a range whose
    end strictly exceeds its start and whose start is not negative. *)
Theorem clips_wf_every_stage :
  (forall s e r, TimeRange.new s e = Some r ->
                 0 <= TimeRange.startSeconds r /\ TimeRange.startSeconds r < TimeRange.endSeconds r)
  /\ (forall analyses multiEvents clutchMoments s highlights s',
        HighlightDetector.suggestHighlights analyses multiEvents clutchMoments s
        = Some (highlights, s') ->
        Forall Clip.wf highlights)
  /\ (forall clips merged,
        Forall Clip.wf clips ->
        HighlightDetector.mergeOverlappingClips clips = Some merged ->
        Forall Clip.wf merged)
  /\ (forall planner clips analyses,
        Forall Clip.wf clips ->
        Forall Clip.wf (CompositionPlanner.scoreClips planner clips analyses))
  /\ (forall planner clips adjusted,
        Forall Clip.wf clips ->
        CompositionPlanner.adjustClipLengths planner clips = Some adjusted ->
        Forall Clip.wf adjusted)
  /\ (forall planner clips trimmed,
        Forall Clip.wf clips ->
        CompositionPlanner.trimToTargetDuration planner clips = Some trimmed ->
        Forall Clip.wf trimmed)
  /\ (forall clips,
        Forall Clip.wf clips -> Forall Clip.wf (CompositionPlanner.optimizePacing clips))
  /\ (forall clips s hook s',
        CompositionPlanner.createHookIntro clips s = Some (Some hook, s') -> Clip.wf hook)
  /\ (forall videoDuration clips clampedClips,
        ProcessingPipeline.clampClips videoDuration clips = Some clampedClips ->
        Forall Clip.wf clampedClips)
  /\ (forall videoDuration hookClip hook,
        ProcessingPipeline.clampHook videoDuration hookClip = Some (Some hook) ->
        Clip.wf hook)
  /\ (forall this analyses s res s',
        CreativeDirector.direct this analyses s = Some (res, s') ->
        Forall Clip.wf (CreativeDirector.clips res)
        /\ (forall h, CreativeDirector.hookClip res = Some h -> Clip.wf h)).
Proof.
  repeat match goal with |- _ /\ _ => split end.
  - intros s e r H. exact (TimeRange_new_wf s e r H).
  - apply suggestHighlights_wf.
  - apply mergeOverlappingClips_wf.
  - apply scoreClips_wf.
  - apply adjustClipLengths_wf.
  - apply trimToTargetDuration_wf.
  - apply optimizePacing_Forall.
  - apply createHookIntro_wf.
  - apply clampClips_wf.
  - intros d [hook0|] hook H; [|discriminate]. eapply clampClip_wf. exact H.
  - apply direct_wf.
Qed.

Lemma clips_wf_every_stage_witness :
  exists res s',
    CreativeDirector.direct defaultDirector [S1_analysis] countingSupply = Some (res, s')
    /\ CreativeDirector.clips res <> []
    /\ Forall Clip.wf (CreativeDirector.clips res).
Proof.
  destruct (CreativeDirector.direct defaultDirector [S1_analysis] countingSupply)
    as [[res s']|] eqn:E; [|vm_compute in E; discriminate E].
  exists res, s'. split; [reflexivity|]. split.
  - vm_compute in E. injection E as <- _. discriminate.
  - destruct clips_wf_every_stage as (_ & _ & _ & _ & _ & _ & _ & _ & _ & _ & Hdirect).
    exact (proj1 (Hdirect defaultDirector [S1_analysis] countingSupply res s' E)).
Defined.

(** C7 as stated fails: the analysis of scenario S1 sits at timestamp 0, and
    the clip that [direct] emits for it starts at 0, which is not positive. *)
Lemma start_positive_counterexample :
  ~ (forall this analyses s res s' c,
        CreativeDirector.direct this analyses s = Some (res, s') ->
        In c (CreativeDirector.clips res) ->
        Clip.start c < Clip.end_ c /\ 0 < Clip.start c).
Proof.
  intro H.
  destruct (CreativeDirector.direct defaultDirector [S1_analysis] countingSupply)
    as [[res s']|] eqn:E; [|vm_compute in E; discriminate E].
  destruct (CreativeDirector.clips res) as [|c l] eqn:Ec.
  - vm_compute in E. injection E as <- _. discriminate Ec.
  - destruct (H _ _ _ _ _ c E) as [_ Hpos]; [rewrite Ec; now left|].
    vm_compute in E. injection E as <- _. injection Ec as <- _.
    vm_compute in Hpos. discriminate Hpos.
Qed.


(** ** createHookIntro *)

Lemma bestClip_max (rest : list Clip.t) :
  forall first,
    In (CompositionPlanner.bestClip first rest) (first :: rest)
    /\ forall c, In c (first :: rest) ->
                 QualityScore.value (Clip.score c)
                 <= QualityScore.value (Clip.score (CompositionPlanner.bestClip first rest)).
Proof.
  unfold CompositionPlanner.bestClip.
  induction rest as [|b rest IH]; intro first; simpl.
  - split; [now left|]. intros c [<-|[]]. lra.
  - match goal with |- context [fold_left ?f rest ?a0] => destruct (IH a0) as [Hin Hmax] end.
    split.
    + destruct (Qle_bool _ _); simpl in Hin; tauto.
    + intros c Hc.
      destruct (Qle_bool (QualityScore.value (Clip.score b))
                         (QualityScore.value (Clip.score first))) eqn:E.
      * apply Qle_bool_iff in E.
        destruct Hc as [<-|[<-|Hc]].
        -- apply Hmax. now left.
        -- eapply Qle_trans; [exact E | apply Hmax; now left].
        -- apply Hmax. now right.
      * apply Qle_bool_false in E.
        destruct Hc as [<-|[<-|Hc]].
        -- eapply Qle_trans; [apply Qlt_le_weak, E | apply Hmax; now left].
        -- apply Hmax. now left.
        -- apply Hmax. now right.
Qed.





(** ** The identifiers are the only trace of the supply *)

Lemma erase_timeRange c : Clip.timeRange (eraseId c) = Clip.timeRange c.
Proof. reflexivity. Qed.
Lemma erase_start c : Clip.start (eraseId c) = Clip.start c.
Proof. reflexivity. Qed.
Lemma erase_end c : Clip.end_ (eraseId c) = Clip.end_ c.
Proof. reflexivity. Qed.
Lemma erase_duration c : Clip.duration (eraseId c) = Clip.duration c.
Proof. reflexivity. Qed.
Lemma erase_priority c : Clip.priority (eraseId c) = Clip.priority c.
Proof. reflexivity. Qed.
Lemma erase_score c : Clip.score (eraseId c) = Clip.score c.
Proof. reflexivity. Qed.
Lemma erase_actionIntensity c : Clip.actionIntensity (eraseId c) = Clip.actionIntensity c.
Proof. reflexivity. Qed.
Lemma erase_clipType c : Clip.clipType (eraseId c) = Clip.clipType c.
Proof. reflexivity. Qed.
Lemma erase_withAdjustedRange c r :
  Clip.withAdjustedRange (eraseId c) r = eraseId (Clip.withAdjustedRange c r).
Proof. reflexivity. Qed.

Create Rewrite HintDb erase.
#[global] Hint Rewrite erase_timeRange erase_start erase_end erase_duration erase_priority
  erase_score erase_actionIntensity erase_clipType erase_withAdjustedRange : erase.

Section MapCommutes.
Context {A : Type} (e : A -> A).

Lemma insert_map (cmp : A -> A -> Q) (x : A) (l : list A) :
  (forall a b, cmp (e a) (e b) = cmp a b) ->
  Js.insert cmp (e x) (map e l) = map e (Js.insert cmp x l).
Proof.
  intro Hc. induction l as [|y l IH]; simpl; [reflexivity|].
  rewrite Hc. destruct (Js.Qlt_bool 0 (cmp x y)); simpl; [now rewrite IH | reflexivity].
Qed.

Lemma sort_map (cmp : A -> A -> Q) (l : list A) :
  (forall a b, cmp (e a) (e b) = cmp a b) ->
  Js.sort cmp (map e l) = map e (Js.sort cmp l).
Proof.
  intro Hc. induction l as [|x l IH]; simpl; [reflexivity|].
  unfold Js.sort in *. simpl. now rewrite IH, insert_map.
Qed.

Lemma filter_map_commute (f : A -> bool) (l : list A) :
  (forall a, f (e a) = f a) -> filter f (map e l) = map e (filter f l).
Proof.
  intro Hf. induction l as [|x l IH]; simpl; [reflexivity|].
  rewrite Hf. destruct (f x); simpl; now rewrite IH.
Qed.

Lemma mapM_map_commute (f : A -> option A) (l : list A) :
  (forall a, f (e a) = option_map e (f a)) ->
  mapM f (map e l) = option_map (map e) (mapM f l).
Proof.
  intro Hf. induction l as [|x l IH]; simpl; [reflexivity|].
  rewrite Hf, IH. destruct (f x); simpl; [|reflexivity].
  destruct (mapM f l); reflexivity.
Qed.

End MapCommutes.

Lemma mergeLoop_erase (rest : list Clip.t) :
  forall merged_init last,
    HighlightDetector.mergeLoop (map eraseId merged_init) (eraseId last) (map eraseId rest)
    = option_map (map eraseId) (HighlightDetector.mergeLoop merged_init last rest).
Proof.
  induction rest as [|current rest IH]; intros init last; simpl.
  - now rewrite map_app.
  - autorewrite with erase.
    destruct (Qle_bool (Clip.start current) (Clip.end_ last)).
    + destruct (TimeRange.new _ _) as [r|]; [|reflexivity].
      destruct (Qle_bool (Clip.priority current) (Clip.priority last));
        autorewrite with erase; apply IH.
    + rewrite <- (IH (init ++ [last]) current). now rewrite map_app.
Qed.

Lemma mergeOverlappingClips_erase (clips : list Clip.t) :
  HighlightDetector.mergeOverlappingClips (map eraseId clips)
  = option_map (map eraseId) (HighlightDetector.mergeOverlappingClips clips).
Proof.
  unfold HighlightDetector.mergeOverlappingClips.
  rewrite (sort_map eraseId) by reflexivity.
  destruct (Js.sort _ clips) as [|first rest]; [reflexivity|].
  simpl. apply (mergeLoop_erase rest [] first).
Qed.

Section PlannerErase.
Variable this : CompositionPlanner.t.

Lemma scoreClips_erase clips analyses :
  CompositionPlanner.scoreClips this (map eraseId clips) analyses
  = map eraseId (CompositionPlanner.scoreClips this clips analyses).
Proof.
  unfold CompositionPlanner.scoreClips. rewrite !map_map. apply map_ext.
  intro c. unfold CompositionPlanner.scoreClip. autorewrite with erase.
  destruct (CompositionPlanner.closestLoop _ _ _) as [[? ?]|]; reflexivity.
Qed.

Lemma adjustClipLength_erase c :
  CompositionPlanner.adjustClipLength this (eraseId c)
  = option_map eraseId (CompositionPlanner.adjustClipLength this c).
Proof.
  unfold CompositionPlanner.adjustClipLength. autorewrite with erase.
  destruct (Js.Qlt_bool _ _); [destruct (TimeRange.new _ _); reflexivity|].
  destruct (Js.Qlt_bool _ _); [destruct (TimeRange.new _ _); reflexivity|].
  reflexivity.
Qed.

Lemma adjustClipLengths_erase clips :
  CompositionPlanner.adjustClipLengths this (map eraseId clips)
  = option_map (map eraseId) (CompositionPlanner.adjustClipLengths this clips).
Proof. apply mapM_map_commute, adjustClipLength_erase. Qed.

Lemma totalDuration_erase clips :
  CompositionPlanner.totalDuration (map eraseId clips)
  = CompositionPlanner.totalDuration clips.
Proof.
  unfold CompositionPlanner.totalDuration. generalize 0.
  induction clips as [|c clips IH]; intro acc; simpl; [reflexivity|]. apply IH.
Qed.

Lemma trimLoop_erase clips :
  forall acc trimmed,
    CompositionPlanner.trimLoop this (map eraseId clips) acc (map eraseId trimmed)
    = option_map (map eraseId) (CompositionPlanner.trimLoop this clips acc trimmed).
Proof.
  induction clips as [|c clips IH]; intros acc trimmed; simpl; [reflexivity|].
  autorewrite with erase. destruct (Qle_bool _ _).
  - rewrite <- IH. now rewrite map_app.
  - destruct (Qle_bool _ _); [|reflexivity].
    destruct (TimeRange.new _ _); [|reflexivity]. simpl. now rewrite map_app.
Qed.

Lemma trimToTargetDuration_erase clips :
  CompositionPlanner.trimToTargetDuration this (map eraseId clips)
  = option_map (map eraseId) (CompositionPlanner.trimToTargetDuration this clips).
Proof.
  unfold CompositionPlanner.trimToTargetDuration.
  rewrite totalDuration_erase.
  destruct clips as [|c clips]; [reflexivity|].
  change (map eraseId (c :: clips)) with (eraseId c :: map eraseId clips).
  cbv iota. destruct (Qle_bool _ _); [reflexivity|].
  apply (trimLoop_erase (c :: clips) 0 []).
Qed.

Lemma alternate_erase medium :
  forall high,
    CompositionPlanner.alternate (map eraseId medium) (map eraseId high)
    = map eraseId (CompositionPlanner.alternate medium high).
Proof.
  induction medium as [|m medium IH]; intro high; simpl; [reflexivity|].
  destruct high as [|h high]; simpl; [reflexivity|]. now rewrite IH.
Qed.

Lemma optimizePacing_erase clips :
  CompositionPlanner.optimizePacing (map eraseId clips)
  = map eraseId (CompositionPlanner.optimizePacing clips).
Proof.
  unfold CompositionPlanner.optimizePacing. rewrite length_map.
  destruct (length clips <=? 2)%nat; [reflexivity|].
  rewrite !(filter_map_commute eraseId) by reflexivity.
  rewrite map_app, firstn_map. f_equal.
  destruct (filter _ clips) as [|h high]; simpl.
  - apply (alternate_erase _ []).
  - f_equal. apply alternate_erase.
Qed.

Lemma optimizeClips_erase clips analyses :
  CompositionPlanner.optimizeClips this (map eraseId clips) analyses
  = option_map (map eraseId) (CompositionPlanner.optimizeClips this clips analyses).
Proof.
  unfold CompositionPlanner.optimizeClips.
  rewrite scoreClips_erase, adjustClipLengths_erase.
  destruct (CompositionPlanner.adjustClipLengths _ _) as [adj|]; [|reflexivity]. simpl.
  rewrite (sort_map eraseId) by reflexivity.
  rewrite trimToTargetDuration_erase.
  destruct (CompositionPlanner.trimToTargetDuration _ _) as [tr|]; [|reflexivity]. simpl.
  now rewrite optimizePacing_erase.
Qed.

Lemma analyzeEngagementCurve_erase clips :
  CompositionPlanner.analyzeEngagementCurve this (map eraseId clips)
  = CompositionPlanner.analyzeEngagementCurve this clips.
Proof.
  unfold CompositionPlanner.analyzeEngagementCurve, CompositionPlanner._calculatePacingScore.
  rewrite totalDuration_erase, length_map, !map_map.
  destruct clips; reflexivity.
Qed.

End PlannerErase.

Lemma bestClip_erase rest :
  forall first,
    CompositionPlanner.bestClip (eraseId first) (map eraseId rest)
    = eraseId (CompositionPlanner.bestClip first rest).
Proof.
  unfold CompositionPlanner.bestClip.
  induction rest as [|b rest IH]; intro first; simpl; [reflexivity|].
  autorewrite with erase. destruct (Qle_bool _ _); apply IH.
Qed.

Lemma createHookIntro_erase clips s1 s2 :
  resultOf (bind (CompositionPlanner.createHookIntro (map eraseId clips))
                 (fun h => ret (option_map eraseId h)) s1)
  = resultOf (bind (CompositionPlanner.createHookIntro clips)
                   (fun h => ret (option_map eraseId h)) s2).
Proof.
  unfold CompositionPlanner.createHookIntro, resultOf, bind, lift, newClip, ret.
  destruct clips as [|first rest]; [reflexivity|].
  change (map eraseId (first :: rest)) with (eraseId first :: map eraseId rest).
  cbv iota. rewrite bestClip_erase. autorewrite with erase.
  destruct (TimeRange.new _ _); reflexivity.
Qed.

Lemma analyzeVariety_erase clips :
  HighlightDetector.analyzeVariety (map eraseId clips) = HighlightDetector.analyzeVariety clips.
Proof.
  unfold HighlightDetector.analyzeVariety. rewrite !map_map.
  destruct clips; reflexivity.
Qed.

Lemma suggestImprovements_erase clips analyses :
  ClipScorer.suggestImprovements (map eraseId clips) analyses
  = ClipScorer.suggestImprovements clips analyses.
Proof.
  unfold ClipScorer.suggestImprovements.
  rewrite !(filter_map_commute eraseId) by reflexivity.
  rewrite !length_map, !map_map.
  unfold Qlen. rewrite !length_map.
  replace (fold_left (fun s c => s + Clip.duration c) (map eraseId clips) 0)
    with (fold_left (fun s c => s + Clip.duration c) clips 0).
  - reflexivity.
  - symmetry. apply totalDuration_erase.
Qed.

Lemma forPush_erase {A} (body : A -> M Clip.t) :
  (forall x s1 s2,
      option_map (fun p => eraseId (fst p)) (body x s1)
      = option_map (fun p => eraseId (fst p)) (body x s2)) ->
  forall xs acc1 acc2 s1 s2,
    map eraseId acc1 = map eraseId acc2 ->
    option_map (fun p => map eraseId (fst p)) (forPush body xs acc1 s1)
    = option_map (fun p => map eraseId (fst p)) (forPush body xs acc2 s2).
Proof.
  intro Hbody. induction xs as [|x xs IH]; intros acc1 acc2 s1 s2 Hacc; simpl.
  - unfold ret. simpl. now rewrite Hacc.
  - unfold bind. specialize (Hbody x s1 s2).
    destruct (body x s1) as [[b1 t1]|], (body x s2) as [[b2 t2]|];
      simpl in Hbody; try discriminate; [|reflexivity].
    apply IH. rewrite !map_app. simpl. congruence.
Qed.

Lemma seed_erase (r0 : option TimeRange.t) (o : TimeRange.t -> Clip.Opts) s1 s2 :
  (forall r, Clip.o_id (o r) = None) ->
  option_map (fun p => eraseId (fst p)) (bind (lift r0) (fun r => newClip (o r)) s1)
  = option_map (fun p => eraseId (fst p)) (bind (lift r0) (fun r => newClip (o r)) s2).
Proof.
  intro Ho. unfold bind, lift, newClip. destruct r0 as [r|]; [|reflexivity].
  unfold Clip.new. rewrite Ho. reflexivity.
Qed.

Lemma seedMultiKill_erase mk s1 s2 :
  option_map (fun p => eraseId (fst p)) (HighlightDetector.seedMultiKill mk s1)
  = option_map (fun p => eraseId (fst p)) (HighlightDetector.seedMultiKill mk s2).
Proof. unfold HighlightDetector.seedMultiKill. apply seed_erase. reflexivity. Qed.

Lemma seedClutch_erase cm s1 s2 :
  option_map (fun p => eraseId (fst p)) (HighlightDetector.seedClutch cm s1)
  = option_map (fun p => eraseId (fst p)) (HighlightDetector.seedClutch cm s2).
Proof. unfold HighlightDetector.seedClutch. apply seed_erase. reflexivity. Qed.

Lemma seedExcitement_erase a s1 s2 :
  option_map (fun p => eraseId (fst p)) (HighlightDetector.seedExcitement a s1)
  = option_map (fun p => eraseId (fst p)) (HighlightDetector.seedExcitement a s2).
Proof. unfold HighlightDetector.seedExcitement. apply seed_erase. reflexivity. Qed.

Lemma suggestHighlights_erase analyses multiEvents clutchMoments s1 s2 :
  option_map (fun p => map eraseId (fst p))
             (HighlightDetector.suggestHighlights analyses multiEvents clutchMoments s1)
  = option_map (fun p => map eraseId (fst p))
               (HighlightDetector.suggestHighlights analyses multiEvents clutchMoments s2).
Proof.
  unfold HighlightDetector.suggestHighlights, bind.
  pose proof (forPush_erase HighlightDetector.seedMultiKill seedMultiKill_erase
                multiEvents [] [] s1 s2 eq_refl) as H1.
  destruct (forPush HighlightDetector.seedMultiKill multiEvents [] s1) as [[a1 t1]|],
           (forPush HighlightDetector.seedMultiKill multiEvents [] s2) as [[a2 t2]|];
    simpl in H1; try discriminate; [|reflexivity].
  injection H1 as H1.
  pose proof (forPush_erase HighlightDetector.seedClutch seedClutch_erase
                clutchMoments a1 a2 t1 t2 H1) as H2.
  destruct (forPush HighlightDetector.seedClutch clutchMoments a1 t1) as [[b1 u1]|],
           (forPush HighlightDetector.seedClutch clutchMoments a2 t2) as [[b2 u2]|];
    simpl in H2; try discriminate; [|reflexivity].
  injection H2 as H2.
  pose proof (forPush_erase HighlightDetector.seedExcitement seedExcitement_erase
                (filter (fun a => Qle_bool 25 (FrameAnalysis.excitementScore a)) analyses)
                b1 b2 u1 u2 H2) as H3.
  destruct (forPush HighlightDetector.seedExcitement _ b1 u1) as [[c1 v1]|],
           (forPush HighlightDetector.seedExcitement _ b2 u2) as [[c2 v2]|];
    simpl in H3; try discriminate; [|reflexivity].
  injection H3 as H3.
  unfold lift.
  pose proof (mergeOverlappingClips_erase
                (Js.sort (fun a b => Clip.priority b - Clip.priority a) c1)) as M1.
  pose proof (mergeOverlappingClips_erase
                (Js.sort (fun a b => Clip.priority b - Clip.priority a) c2)) as M2.
  rewrite <- (sort_map eraseId) in M1, M2 by reflexivity.
  rewrite H3 in M1. rewrite M1 in M2.
  destruct (HighlightDetector.mergeOverlappingClips (Js.sort _ c1)),
           (HighlightDetector.mergeOverlappingClips (Js.sort _ c2));
    simpl in *; congruence.
Qed.

(** C8, as the code has it.  Two invocations of [direct] on the same list of
    analyses either both throw or return the same output up to the
    identifiers of the clips: the same clips in the same order with every
    other field equal, the same hook, and the same derived metrics, whatever
    identifiers [crypto.randomUUID] hands out. *)
Theorem direct_deterministic_up_to_ids this analyses s1 s2 :
  option_map eraseIds (resultOf (CreativeDirector.direct this analyses s1))
  = option_map eraseIds (resultOf (CreativeDirector.direct this analyses s2)).
Proof.
  unfold CreativeDirector.direct, resultOf, bind, lift, ret.
  set (enhanced := HighlightDetector.analyzeExcitementLevels analyses).
  set (multiEvents := HighlightDetector.detectMultiEvents enhanced 10).
  set (clutchMoments := HighlightDetector.detectClutchMoments enhanced).
  set (planner := CreativeDirector._compositionPlanner this).
  pose proof (suggestHighlights_erase enhanced multiEvents clutchMoments s1 s2) as H1.
  destruct (HighlightDetector.suggestHighlights enhanced multiEvents clutchMoments s1)
    as [[hl1 t1]|],
    (HighlightDetector.suggestHighlights enhanced multiEvents clutchMoments s2)
    as [[hl2 t2]|]; simpl in H1; try discriminate; [|reflexivity].
  injection H1 as H1.
  pose proof (optimizeClips_erase planner hl1 enhanced) as O1.
  pose proof (optimizeClips_erase planner hl2 enhanced) as O2.
  rewrite H1 in O1. rewrite O1 in O2.
  destruct (CompositionPlanner.optimizeClips planner hl1 enhanced) as [opt1|],
           (CompositionPlanner.optimizeClips planner hl2 enhanced) as [opt2|];
    simpl in O2; try discriminate; [|reflexivity].
  injection O2 as O2.
  pose proof (createHookIntro_erase opt1 t1 t1) as K1.
  pose proof (createHookIntro_erase opt2 t1 t2) as K2.
  rewrite O2, K2 in K1. clear K2.
  unfold resultOf, bind, ret in K1 |- *.
  rewrite <- (analyzeEngagementCurve_erase planner opt1),
          <- (analyzeEngagementCurve_erase planner opt2),
          <- (analyzeVariety_erase opt1),
          <- (analyzeVariety_erase opt2),
          <- (suggestImprovements_erase opt1), <- (suggestImprovements_erase opt2), O2.
  destruct (CompositionPlanner.createHookIntro opt1 t1) as [[h1 u1]|],
           (CompositionPlanner.createHookIntro opt2 t2) as [[h2 u2]|];
    simpl in K1 |- *; try discriminate; [|reflexivity].
  injection K1 as K1. unfold eraseIds. simpl. now rewrite O2, K1.
Qed.

(** C8 as stated fails: the same analyses with two different supplies of
    identifiers give clips that differ in their [id]. *)
Lemma direct_identical_counterexample :
  ~ (forall this analyses s1 s2,
        resultOf (CreativeDirector.direct this analyses s1)
        = resultOf (CreativeDirector.direct this analyses s2)).
Proof.
  intro H. specialize (H defaultDirector [S1_analysis] countingSupply otherSupply).
  vm_compute in H. discriminate H.
Qed.


(** ** analyzeFramesBatch *)

Lemma sameFlags_refl c : sameFlags c c.
Proof. repeat split. Qed.

Lemma sameFlags_trans c1 c2 c3 : sameFlags c1 c2 -> sameFlags c2 c3 -> sameFlags c1 c3.
Proof. unfold sameFlags. intros (?&?&?) (?&?&?). repeat split; congruence. Qed.

Section BatchFacts.
Variable world : HuggingFaceClient.World.

Lemma fallbackLoop_sameFlags n :
  forall attempt tried lastError c,
    sameFlags c (snd (HuggingFaceClient.fallbackLoop world n attempt tried lastError c)).
Proof.
  induction n as [|n IH]; intros attempt tried lastError c; simpl.
  - apply sameFlags_refl.
  - repeat match goal with
           | |- sameFlags _ (snd (if ?b then _ else _)) => destruct b
           | |- sameFlags _ (snd (match (if ?b then _ else _) with _ => _ end)) =>
               destruct b
           | |- sameFlags _ (snd (match ?x with _ => _ end)) => destruct x
           end;
      first [ solve [repeat split]
            | eapply sameFlags_trans; [|apply IH]; solve [repeat split] ].
Qed.

Lemma sendWithConcurrency_returns c :
  (HuggingFaceClient._activeRequests c < HuggingFaceClient._concurrency c)%nat ->
  exists r c',
    HuggingFaceClient._sendWithConcurrency world c = Some (r, c') /\ sameFlags c c'.
Proof.
  intro Hlt. unfold HuggingFaceClient._sendWithConcurrency.
  apply Nat.leb_gt in Hlt. rewrite Hlt.
  match goal with
  | |- context [HuggingFaceClient._sendWithFallback world ?c0] =>
      pose proof (fallbackLoop_sameFlags
                    (HuggingFaceClient._maxRetries c0 * length (HuggingFaceClient._models c0))
                    0 0 ExnUndefined c0) as Hf;
      fold (HuggingFaceClient._sendWithFallback world c0) in Hf;
      destruct (HuggingFaceClient._sendWithFallback world c0) as [r c1]
  end.
  eexists _, _. split; [reflexivity|].
  destruct Hf as (H1 & H2 & H3). simpl in *.
  destruct (_ <? _)%Z; simpl in *; repeat split; simpl; try assumption;
    rewrite H2; reflexivity.
Qed.

Lemma fromApiResponse_fields parsed timestamp modelUsed analysis :
  HuggingFaceClient.fromApiResponse world parsed timestamp modelUsed = inr analysis ->
  FrameAnalysis.timestamp analysis = timestamp
  /\ FrameAnalysis.modelUsed analysis = modelUsed
  /\ FrameAnalysis.error (FrameAnalysis.metadata analysis) = None.
Proof.
  unfold HuggingFaceClient.fromApiResponse.
  destruct (prop parsed "kill_log"); [discriminate|].
  intro H. injection H as <-. repeat split.
Qed.

Lemma analyzeFrame_returns blob timestamp c :
  (HuggingFaceClient._activeRequests c < HuggingFaceClient._concurrency c)%nat ->
  exists outcome c',
    HuggingFaceClient.analyzeFrame world blob timestamp c = Some (outcome, c')
    /\ sameFlags c c'
    /\ (forall analysis, outcome = inr analysis ->
                         FrameAnalysis.timestamp analysis = timestamp
                         /\ FrameAnalysis.error (FrameAnalysis.metadata analysis) = None).
Proof.
  intro Hlt. unfold HuggingFaceClient.analyzeFrame.
  destruct (HuggingFaceClient.w_blobToBase64 world blob) as [e|b64].
  - eexists _, _. split; [reflexivity|]. split; [apply sameFlags_refl|]. discriminate.
  - destruct (sendWithConcurrency_returns c Hlt) as (r & c' & -> & Hf).
    destruct r as [e|[text model]].
    + eexists _, _. split; [reflexivity|]. split; [exact Hf|]. discriminate.
    + eexists _, _. split; [reflexivity|]. split; [exact Hf|].
      intros analysis Ha. apply fromApiResponse_fields in Ha. tauto.
Qed.

Lemma batchLoop_spec frames :
  forall total results completed c,
    HuggingFaceClient._cancelled c = false ->
    (HuggingFaceClient._activeRequests c < HuggingFaceClient._concurrency c)%nat ->
    exists slots c',
      HuggingFaceClient.batchLoop world frames total results completed c
      = Some (inr (results ++ slots), c')
      /\ Forall2 (slotFor world) frames slots.
Proof.
  induction frames as [|frame frames IH]; intros total results completed c Hc Hlt; simpl.
  - exists [], c. rewrite app_nil_r. split; [reflexivity | constructor].
  - rewrite Hc.
    destruct (analyzeFrame_returns (HuggingFaceClient.f_blob frame)
                                   (HuggingFaceClient.f_timestamp frame) c Hlt)
      as (outcome & c1 & Ha & (F1 & F2 & F3) & Hok).
    rewrite Ha.
    destruct outcome as [err|analysis].
    + match goal with
      | |- context [HuggingFaceClient.batchLoop world frames total ?rs ?k ?c2] =>
          destruct (IH total rs k c2) as (slots & c' & Hb & Hall)
      end.
      { simpl. congruence. }
      { simpl. lia. }
      rewrite Hb. exists (HuggingFaceClient.sentinel (HuggingFaceClient.f_timestamp frame)
                                                 (errMsgOf err) :: slots), c'.
      split; [now rewrite <- app_assoc|].
      constructor; [|exact Hall].
      exists c, (inl err), c1. repeat split; try assumption. discriminate.
    + match goal with
      | |- context [HuggingFaceClient.batchLoop world frames total ?rs ?k ?c2] =>
          destruct (IH total rs k c2) as (slots & c' & Hb & Hall)
      end.
      { simpl. congruence. }
      { simpl. lia. }
      rewrite Hb. exists (analysis :: slots), c'.
      split; [now rewrite <- app_assoc|].
      constructor; [|exact Hall].
      destruct (Hok analysis eq_refl) as [Ht He].
      exists c, (inr analysis), c1. repeat split; try assumption. intros ? _. exact He.
Qed.

End BatchFacts.

Lemma Forall2_nth_error_l {A B} (R : A -> B -> Prop) (l1 : list A) (l2 : list B) :
  Forall2 R l1 l2 ->
  forall i a, nth_error l1 i = Some a -> exists b, nth_error l2 i = Some b /\ R a b.
Proof.
  induction 1 as [|x y l1 l2 Hxy _ IH]; intros [|i] a Ha; simpl in *; try discriminate.
  - injection Ha as <-. eauto.
  - eauto.
Qed.

Section BatchStates.
Variable world : HuggingFaceClient.World.

Lemma batchLoop_states (frames : list HuggingFaceClient.Frame) :
  forall total results completed c,
    HuggingFaceClient._cancelled c = false ->
    (HuggingFaceClient._activeRequests c < HuggingFaceClient._concurrency c)%nat ->
    exists slots c' states,
      HuggingFaceClient.batchLoop world frames total results completed c
      = Some (inr (results ++ slots), c')
      /\ length slots = length frames
      /\ length states = S (length frames)
      /\ nth_error states 0 = Some c
      /\ nth_error states (length frames) = Some c'
      /\ forall i frame,
          nth_error frames i = Some frame ->
          exists ci outcome ci' events,
            nth_error slots i = Some (slotOf frame outcome)
            /\ nth_error states i = Some ci
            /\ HuggingFaceClient.analyzeFrame world (HuggingFaceClient.f_blob frame)
                                              (HuggingFaceClient.f_timestamp frame) ci
               = Some (outcome, ci')
            /\ batchReports total (completed + S i) frame outcome events
            /\ nth_error states (S i)
               = Some (fold_left HuggingFaceClient.emit events ci')
            /\ FrameAnalysis.timestamp (slotOf frame outcome)
               = HuggingFaceClient.f_timestamp frame
            /\ (forall analysis, outcome = inr analysis ->
                                 FrameAnalysis.error (FrameAnalysis.metadata analysis) = None).
Proof.
  induction frames as [|frame frames IH]; intros total results completed c Hc Hlt; simpl.
  - exists [], c, [c]. rewrite app_nil_r. repeat split.
    intros [|i] frame Hi; discriminate Hi.
  - rewrite Hc.
    destruct (analyzeFrame_returns world (HuggingFaceClient.f_blob frame)
                                   (HuggingFaceClient.f_timestamp frame) c Hlt)
      as (outcome & c1 & Ha & (F1 & F2 & F3) & Hok).
    rewrite Ha.
    assert (Hts : FrameAnalysis.timestamp (slotOf frame outcome)
                  = HuggingFaceClient.f_timestamp frame).
    { destruct outcome as [err|analysis]; [reflexivity|]. now apply Hok. }
    assert (Herr : forall analysis, outcome = inr analysis ->
                                    FrameAnalysis.error (FrameAnalysis.metadata analysis) = None).
    { intros analysis Ho. now apply Hok. }
    assert (Hgo : forall events,
               batchReports total (completed + 1) frame outcome events ->
               HuggingFaceClient._cancelled (fold_left HuggingFaceClient.emit events c1) = false ->
               (HuggingFaceClient._activeRequests (fold_left HuggingFaceClient.emit events c1)
                < HuggingFaceClient._concurrency (fold_left HuggingFaceClient.emit events c1))%nat ->
               exists slots c' states,
                 HuggingFaceClient.batchLoop world frames total
                   (results ++ [slotOf frame outcome]) (S completed)
                   (fold_left HuggingFaceClient.emit events c1)
                 = Some (inr (results ++ slots), c')
                 /\ length slots = S (length frames)
                 /\ length states = S (S (length frames))
                 /\ nth_error states 0 = Some c
                 /\ nth_error states (S (length frames)) = Some c'
                 /\ forall i frame0,
                     nth_error (frame :: frames) i = Some frame0 ->
                     exists ci outcome0 ci' events0,
                       nth_error slots i = Some (slotOf frame0 outcome0)
                       /\ nth_error states i = Some ci
                       /\ HuggingFaceClient.analyzeFrame
                            world (HuggingFaceClient.f_blob frame0)
                            (HuggingFaceClient.f_timestamp frame0) ci
                          = Some (outcome0, ci')
                       /\ batchReports total (completed + S i) frame0 outcome0 events0
                       /\ nth_error states (S i)
                          = Some (fold_left HuggingFaceClient.emit events0 ci')
                       /\ FrameAnalysis.timestamp (slotOf frame0 outcome0)
                          = HuggingFaceClient.f_timestamp frame0
                       /\ (forall analysis,
                              outcome0 = inr analysis ->
                              FrameAnalysis.error (FrameAnalysis.metadata analysis) = None)).
    { intros events Hev Hc2 Hlt2.
      destruct (IH total (results ++ [slotOf frame outcome]) (S completed) _ Hc2 Hlt2)
        as (slots & c' & states & Hb & Hls & Hlst & H0 & Hlast & Hall).
      exists (slotOf frame outcome :: slots), c', (c :: states).
      split; [rewrite Hb; now rewrite <- app_assoc|].
      split; [simpl; now rewrite Hls|]. split; [simpl; now rewrite Hlst|].
      split; [reflexivity|]. split; [exact Hlast|].
      intros [|i] frame0 Hi; simpl in Hi.
      - injection Hi as <-. exists c, outcome, c1, events.
        split; [reflexivity|]. split; [reflexivity|]. split; [exact Ha|].
        split; [exact Hev|]. split; [exact H0|]. split; [exact Hts|exact Herr].
      - destruct (Hall i frame0 Hi)
          as (ci & outcome0 & ci' & events0 & G1 & G2 & G3 & G4 & G5 & G6 & G7).
        exists ci, outcome0, ci', events0.
        split; [exact G1|]. split; [exact G2|]. split; [exact G3|].
        split; [|split; [exact G5|split; [exact G6|exact G7]]].
        replace (completed + S (S i))%nat with (S completed + S i)%nat by lia. exact G4. }
    destruct outcome as [err|analysis].
    + apply (Hgo [HuggingFaceClient.ErrorFrameFailed (HuggingFaceClient.f_timestamp frame)
                                                     (errMsgOf err);
                  HuggingFaceClient.OnProgress
                    (S completed) total
                    (HuggingFaceClient.percentOf (S completed) total) None]).
      * eexists. replace (completed + 1)%nat with (S completed) by lia. reflexivity.
      * simpl. congruence.
      * simpl. lia.
    + apply (Hgo [HuggingFaceClient.OnProgress
                    (S completed) total
                    (HuggingFaceClient.percentOf (S completed) total)
                    (Some (HuggingFaceClient.f_timestamp frame))]).
      * eexists. replace (completed + 1)%nat with (S completed) by lia. reflexivity.
      * simpl. congruence.
      * simpl. lia.
Qed.

End BatchStates.

(** C5.  With cancellation never requested (and no request in flight when
    the batch starts), [analyzeFramesBatch] returns a list as long as the
    list of frames, and slot [i] belongs to frame [i]: it carries the
    timestamp of that frame and holds the analysis of that frame or, when the
    analysis threw, the sentinel whose [metadata.error] is the message of
    the exception.  A throwing frame does not end the batch: the frames after
    it get their slots all the same.  The analyses are those of the run
    itself: the client goes through the states [states], from the state it
    is handed to the state it is left in, the analysis of frame [i] is the
    one made in state [i], and state [i + 1] is the state that analysis
    leaves, with the reports of the batch for frame [i] on the trace. *)
Theorem analyzeFramesBatch_spec (world : HuggingFaceClient.World)
        (frames : list HuggingFaceClient.Frame) (c : HuggingFaceClient.t) :
  HuggingFaceClient._cancelled c = false ->
  (HuggingFaceClient._activeRequests c < HuggingFaceClient._concurrency c)%nat ->
  exists results c' states,
    HuggingFaceClient.analyzeFramesBatch world frames c = Some (inr results, c')
    /\ length results = length frames
    /\ length states = S (length frames)
    /\ nth_error states 0 = Some c
    /\ nth_error states (length frames) = Some c'
    /\ forall i frame,
        nth_error frames i = Some frame ->
        exists slot ci outcome ci' events,
          nth_error results i = Some slot
          /\ FrameAnalysis.timestamp slot = HuggingFaceClient.f_timestamp frame
          /\ nth_error states i = Some ci
          /\ HuggingFaceClient.analyzeFrame world (HuggingFaceClient.f_blob frame)
                                            (HuggingFaceClient.f_timestamp frame) ci
             = Some (outcome, ci')
          /\ batchReports (length frames) (S i) frame outcome events
          /\ nth_error states (S i) = Some (fold_left HuggingFaceClient.emit events ci')
          /\ (forall analysis,
                outcome = inr analysis ->
                slot = analysis
                /\ FrameAnalysis.error (FrameAnalysis.metadata slot) = None)
          /\ (forall err,
                outcome = inl err ->
                slot = HuggingFaceClient.sentinel (HuggingFaceClient.f_timestamp frame)
                                                  (errMsgOf err)
                /\ FrameAnalysis.error (FrameAnalysis.metadata slot) = Some (errMsgOf err))
          /\ (forall message,
                outcome = inl (ExnError message) -> message <> ""%string ->
                FrameAnalysis.error (FrameAnalysis.metadata slot) = Some message).
Proof.
  intros Hc Hlt. unfold HuggingFaceClient.analyzeFramesBatch.
  destruct (batchLoop_states world frames (length frames) [] 0 c Hc Hlt)
    as (slots & c' & states & Hb & Hls & Hlst & H0 & Hlast & Hall).
  exists slots, c', states. split; [exact Hb|]. split; [exact Hls|].
  split; [exact Hlst|]. split; [exact H0|]. split; [exact Hlast|].
  intros i frame Hi.
  destruct (Hall i frame Hi) as (ci & outcome & ci' & events & G1 & G2 & G3 & G4 & G5 & G6 & G7).
  exists (slotOf frame outcome), ci, outcome, ci', events.
  split; [exact G1|]. split; [exact G6|]. split; [exact G2|]. split; [exact G3|].
  split; [exact G4|]. split; [exact G5|]. split; [|split].
  - intros analysis Ho. split; [now rewrite Ho | rewrite Ho; now apply (G7 analysis)].
  - intros err Ho. rewrite Ho. split; reflexivity.
  - intros message Ho Hne. rewrite Ho. simpl.
    destruct message; [contradiction | reflexivity].
Qed.

Lemma analyzeFramesBatch_spec_witness :
  HuggingFaceClient._cancelled S6_client = false
  /\ (HuggingFaceClient._activeRequests S6_client
      < HuggingFaceClient._concurrency S6_client)%nat
  /\ exists results c',
      HuggingFaceClient.analyzeFramesBatch failingWorld S6_frames S6_client
      = Some (inr results, c')
      /\ length results = length S6_frames.
Proof.
  assert (H1 : HuggingFaceClient._cancelled S6_client = false) by reflexivity.
  assert (H2 : (HuggingFaceClient._activeRequests S6_client
                < HuggingFaceClient._concurrency S6_client)%nat) by (simpl; lia).
  split; [exact H1|]. split; [exact H2|].
  destruct (analyzeFramesBatch_spec failingWorld S6_frames S6_client H1 H2)
    as (results & c' & states & Hb & Hl & _).
  exists results, c'. split; assumption.
Defined.

(** ** The fallback loop *)

(** Scenario S6: 429 on M1, 429 on M2, 200 on M3.  Each frame has exactly
    one successful call, on M3; the loop never sleeps the all-models backoff;
    the analyses name M3 as the model used.  The second frame starts on M3,
    where the first one left the client. *)
Lemma S6_fallback_rotation :
  (let '(r, c) := HuggingFaceClient._sendWithFallback S6_world S6_client in
   r = inr ("{}"%string, "M3"%string)
   /\ HuggingFaceClient.trace c
      = [HuggingFaceClient.Request "M1"; HuggingFaceClient.WarnRateLimited "M1";
         HuggingFaceClient.Request "M2"; HuggingFaceClient.WarnRateLimited "M2";
         HuggingFaceClient.Request "M3"])
  /\ match HuggingFaceClient.analyzeFramesBatch S6_world S6_frames S6_client with
     | Some (inr results, c) =>
         map FrameAnalysis.modelUsed results = ["M3"; "M3"]%string
         /\ HuggingFaceClient.trace c
            = [HuggingFaceClient.SleepSpacing 2000;
               HuggingFaceClient.Request "M1"; HuggingFaceClient.WarnRateLimited "M1";
               HuggingFaceClient.Request "M2"; HuggingFaceClient.WarnRateLimited "M2";
               HuggingFaceClient.Request "M3";
               HuggingFaceClient.OnProgress 1 2 50 (Some 0);
               HuggingFaceClient.Request "M3";
               HuggingFaceClient.OnProgress 2 2 100 (Some 10)]
     | _ => False
     end.
Proof. vm_compute. repeat split. Qed.


(** ** The hook under the configuration of the pipeline

    With [minClipLength >= 3] (the default) and frames at non-negative
    timestamps, every clip of every stage has its midpoint at 1.5 s or later,
    so the hook is not cut at 0. *)

Lemma TimeRange_new_inv (s e : Q) (r : TimeRange.t) :
  TimeRange.new s e = Some r ->
  r = TimeRange.mk (Js.Math_max 0 s) e /\ s <= TimeRange.startSeconds r.
Proof.
  unfold TimeRange.new. destruct (Qle_bool e (Js.Math_max 0 s)); [discriminate|].
  intro H. injection H as <-. split; [reflexivity|]. simpl.
  destruct (Math_max_spec 0 s) as [[? ->]|[? ->]]; lra.
Qed.

Lemma seed_range (r0 : option TimeRange.t) (o : TimeRange.t -> Clip.Opts)
      (s : Supply) (c : Clip.t) (s' : Supply) :
  (forall r, Clip.o_timeRange (o r) = r) ->
  bind (lift r0) (fun r => newClip (o r)) s = Some (c, s') ->
  r0 = Some (Clip.timeRange c).
Proof.
  intros Ho H. unfold bind, lift, newClip in H.
  destruct r0 as [r|]; [|discriminate].
  injection H as H. unfold Clip.new in H.
  destruct (match Clip.o_id (o r) with Some i => (i, s) | None => randomUUID s end)
    as [i s1].
  injection H as <- _. simpl. now rewrite Ho.
Qed.

Lemma forPush_Forall_pre {A B} (body : A -> M B) (Pre : A -> Prop) (P : B -> Prop) :
  (forall x s b s', Pre x -> body x s = Some (b, s') -> P b) ->
  forall xs acc s r s',
    Forall Pre xs -> Forall P acc -> forPush body xs acc s = Some (r, s') -> Forall P r.
Proof.
  intros Hbody. induction xs as [|x xs IH]; intros acc s r s' Hxs Hacc H; simpl in H.
  - unfold ret in H. injection H as <- _. exact Hacc.
  - inversion Hxs as [|? ? Hx Hxs']; subst.
    unfold bind in H. destruct (body x s) as [[b s1]|] eqn:Eb; [|discriminate].
    eapply IH; [exact Hxs'| |exact H].
    apply Forall_app. split; [exact Hacc|]. constructor; [|constructor]. eauto.
Qed.

Lemma inWindow_Forall (P : Q -> Prop) (windowStart timeWindow : Q) (ts : list Q) :
  Forall P ts ->
  Forall P (fst (HighlightDetector.inWindow windowStart timeWindow ts))
  /\ Forall P (snd (HighlightDetector.inWindow windowStart timeWindow ts)).
Proof.
  induction 1 as [|t ts Ht Hts [IH1 IH2]]; simpl; [split; constructor|].
  destruct (Qle_bool _ _).
  - destruct (HighlightDetector.inWindow _ _ ts) as [w r]. simpl in *.
    split; [constructor|]; assumption.
  - simpl. split; constructor; assumption.
Qed.

Lemma last_Forall {A} (P : A -> Prop) (l : list A) (d : A) :
  Forall P l -> P d -> P (last l d).
Proof.
  induction 1 as [|x l Hx Hl IH]; intro Hd; simpl; [exact Hd|].
  destruct l; [exact Hx | now apply IH].
Qed.

Lemma sweep_nonneg (fuel : nat) (timeWindow : Q) :
  forall ts,
    Forall (fun t => 0 <= t) ts ->
    Forall (fun e => 0 <= HighlightDetector.me_timestamp e
                     /\ 0 <= HighlightDetector.me_endTimestamp e)
           (HighlightDetector.sweep fuel timeWindow ts).
Proof.
  induction fuel as [|fuel IH]; intros ts Hts; simpl; [constructor|].
  destruct ts as [|windowStart rest]; [constructor|].
  inversion Hts as [|? ? Hw Hrest]; subst.
  pose proof (inWindow_Forall _ windowStart timeWindow rest Hrest) as [H1 H2].
  destruct (HighlightDetector.inWindow windowStart timeWindow rest) as [w rest'].
  simpl in H1, H2. apply Forall_app. split; [|now apply IH].
  match goal with |- Forall _ (if ?b then _ else _) => destruct b end; [|constructor].
  constructor; [|constructor]. simpl. split; [exact Hw | now apply last_Forall].
Qed.

Lemma analyzeExcitementLevels_timestamps (P : Q -> Prop) analyses :
  Forall (fun a => P (FrameAnalysis.timestamp a)) analyses ->
  Forall (fun a => P (FrameAnalysis.timestamp a))
         (HighlightDetector.analyzeExcitementLevels analyses).
Proof.
  intro H. unfold HighlightDetector.analyzeExcitementLevels. apply Forall_map.
  eapply Forall_impl; [|exact H]. intros a Ha. exact Ha.
Qed.

Lemma detectMultiEvents_nonneg analyses timeWindow :
  Forall (fun a => 0 <= FrameAnalysis.timestamp a) analyses ->
  Forall (fun e => 0 <= HighlightDetector.me_timestamp e
                   /\ 0 <= HighlightDetector.me_endTimestamp e)
         (HighlightDetector.detectMultiEvents analyses timeWindow).
Proof.
  intro H. unfold HighlightDetector.detectMultiEvents.
  apply sweep_nonneg, sort_Forall.
  apply Forall_map. now apply filter_Forall.
Qed.

Lemma detectClutchMoments_nonneg analyses :
  Forall (fun a => 0 <= FrameAnalysis.timestamp a) analyses ->
  Forall (fun m => 0 <= HighlightDetector.cm_timestamp m)
         (HighlightDetector.detectClutchMoments analyses).
Proof.
  intro H. unfold HighlightDetector.detectClutchMoments.
  apply Forall_map. now apply filter_Forall.
Qed.










Section PlannerMidLate.
Variable this : CompositionPlanner.t.
Hypothesis minClipLength_3 : 3 <= CompositionPlanner.minClipLength this.







End PlannerMidLate.






(** ** The fuel of the multi-kill sweep

    Every round of the outer loop consumes the timestamp at [i], so the
    sweep is done after at most [length ts] rounds: more fuel changes
    nothing. *)

Lemma inWindow_length (windowStart timeWindow : Q) (ts : list Q) :
  (length (snd (HighlightDetector.inWindow windowStart timeWindow ts)) <= length ts)%nat.
Proof.
  induction ts as [|t ts IH]; simpl; [lia|].
  destruct (Qle_bool _ _); [|simpl; lia].
  destruct (HighlightDetector.inWindow windowStart timeWindow ts) as [w r]. simpl in *. lia.
Qed.

Lemma sweep_fuel_enough (timeWindow : Q) (fuel : nat) :
  forall ts extra,
    (length ts <= fuel)%nat ->
    HighlightDetector.sweep (fuel + extra) timeWindow ts
    = HighlightDetector.sweep fuel timeWindow ts.
Proof.
  induction fuel as [|fuel IH]; intros ts extra Hlen.
  - destruct ts; [|simpl in Hlen; lia]. destruct extra; reflexivity.
  - destruct ts as [|windowStart rest]; [reflexivity|]. simpl.
    pose proof (inWindow_length windowStart timeWindow rest) as Hr.
    destruct (HighlightDetector.inWindow windowStart timeWindow rest) as [w rest'].
    simpl in *. f_equal. apply IH. lia.
Qed.

(** ** The rounds of the fallback loop *)

Lemma rotation_length models i : length (rotation models i) = length models.
Proof.
  unfold rotation. rewrite length_app, Nat.add_comm, <- length_app.
  now rewrite firstn_skipn.
Qed.

Lemma rotation_incl models i : incl models (rotation models i).
Proof.
  unfold rotation. intros m Hm. rewrite <- (firstn_skipn i models) in Hm.
  apply in_app_or in Hm. apply in_or_app. tauto.
Qed.

Lemma rotation_step models i d :
  (i < length models)%nat ->
  rotation models i = nth i models d :: tl (rotation models i)
  /\ rotation models ((i + 1) mod length models)
     = tl (rotation models i) ++ [nth i models d].
Proof.
  intro Hi. unfold rotation.
  assert (Hsk : skipn i models = nth i models d :: skipn (S i) models).
  { clear - Hi. revert i Hi. induction models as [|m ms IH]; intros i Hi; [simpl in Hi; lia|].
    destruct i as [|i]; [reflexivity|]. simpl in *. apply IH. lia. }
  assert (Hfi : firstn (S i) models = firstn i models ++ [nth i models d]).
  { clear - Hi. revert i Hi. induction models as [|m ms IH]; intros i Hi; [simpl in Hi; lia|].
    destruct i as [|i]; [reflexivity|]. simpl in *. f_equal. apply IH. lia. }
  rewrite Hsk. cbn [app tl]. split; [reflexivity|].
  destruct (Nat.eq_dec (i + 1) (length models)) as [E|E].
  - assert (Hnil : skipn (S i) models = []) by (apply skipn_all2; lia).
    rewrite Hnil, E, Nat.Div0.mod_same. simpl.
    rewrite app_nil_r, <- Hfi. symmetry. apply firstn_all2. lia.
  - rewrite Nat.mod_small by lia. replace (i + 1)%nat with (S i) by lia.
    rewrite Hfi. now rewrite app_assoc.
Qed.

Lemma triedSeen_step models i tried seen d :
  triedSeen models i tried seen ->
  (S tried < length models ->
   triedSeen models ((i + 1) mod length models) (S tried) (nth i models d :: seen))%nat
  /\ (length models <= S tried ->
      incl models (nth i models d :: seen)
      /\ triedSeen models ((i + 1) mod length models) 0 [])%nat.
Proof.
  intros (Hi & Ht & Hincl).
  destruct (rotation_step models i d Hi) as [Hrot Hrot'].
  pose proof (rotation_length models i) as Hlen.
  set (m := nth i models d) in *. set (t := tl (rotation models i)) in *.
  rewrite Hrot in Hincl, Hlen. simpl in Hlen.
  assert (Hi' : ((i + 1) mod length models < length models)%nat)
    by (apply Nat.mod_upper_bound; lia).
  replace (length models - tried)%nat with (S (length models - S tried)) in Hincl by lia.
  simpl in Hincl.
  split; intro Hcase.
  - split; [exact Hi'|]. split; [exact Hcase|].
    rewrite Hrot', skipn_app.
    replace (length models - S tried - length t)%nat with 0%nat by lia. simpl.
    intros x Hx. apply in_app_or in Hx as [Hx|[<-|[]]]; [right; now apply Hincl | now left].
  - split.
    + intros x Hx. apply (rotation_incl models i) in Hx. rewrite Hrot in Hx.
      destruct Hx as [<-|Hx]; [now left|]. right. apply Hincl.
      replace (length models - S tried)%nat with 0%nat by lia. exact Hx.
    + split; [exact Hi'|]. split; [lia|].
      rewrite skipn_all2 by (rewrite rotation_length; lia). intros x [].
Qed.

Lemma rounds_continue (x c c' : HuggingFaceClient.t)
      (events0 : list HuggingFaceClient.Event) (seen seen' : list string) :
  HuggingFaceClient.trace c' = HuggingFaceClient.trace c ++ events0 ->
  HuggingFaceClient._models c' = HuggingFaceClient._models c ->
  (forall events,
      roundsComplete (HuggingFaceClient._models c) seen' events ->
      roundsComplete (HuggingFaceClient._models c) seen (events0 ++ events)) ->
  (exists events,
      HuggingFaceClient.trace x = HuggingFaceClient.trace c' ++ events
      /\ roundsComplete (HuggingFaceClient._models c') seen' events) ->
  exists events,
    HuggingFaceClient.trace x = HuggingFaceClient.trace c ++ events
    /\ roundsComplete (HuggingFaceClient._models c) seen events.
Proof.
  intros Ht Hm Hr (events & Hx & Hrc). exists (events0 ++ events).
  rewrite Hx, Ht, <- app_assoc. split; [reflexivity|]. apply Hr. now rewrite <- Hm.
Qed.

Section Rounds.
Variable world : HuggingFaceClient.World.
Hypothesis no_timeout :
  forall n model, HuggingFaceClient.w_fetch world n model <> HuggingFaceClient.TimeoutError.

Lemma fallbackLoop_rounds n :
  forall attempt tried lastError c seen,
    triedSeen (HuggingFaceClient._models c) (HuggingFaceClient._currentModelIndex c)
              tried seen ->
    exists events,
      HuggingFaceClient.trace
        (snd (HuggingFaceClient.fallbackLoop world n attempt tried lastError c))
      = HuggingFaceClient.trace c ++ events
      /\ roundsComplete (HuggingFaceClient._models c) seen events.
Proof.
  induction n as [|n IH]; intros attempt tried lastError c seen Hinv.
  - exists []. simpl. now rewrite app_nil_r.
  - simpl. destruct (HuggingFaceClient._cancelled c).
    { exists []. simpl. now rewrite app_nil_r. }
    assert (Hgeneric : forall message,
               exists events,
                 HuggingFaceClient.trace
                   (snd (if includes "Invalid HuggingFace API token" message
                         then (inl (ExnError message),
                               HuggingFaceClient.count_request
                                 (HuggingFaceClient.emit c
                                    (HuggingFaceClient.Request
                                       (HuggingFaceClient._getCurrentModel c))))
                         else
                           HuggingFaceClient.fallbackLoop world n (S attempt) tried
                             (ExnError message)
                             (HuggingFaceClient.emit
                                (HuggingFaceClient.emit
                                   (HuggingFaceClient.count_request
                                      (HuggingFaceClient.emit c
                                         (HuggingFaceClient.Request
                                            (HuggingFaceClient._getCurrentModel c))))
                                   (HuggingFaceClient.WarnAttemptFailed (attempt + 1)
                                      (HuggingFaceClient._getCurrentModel c) message))
                                (HuggingFaceClient.SleepBackoff
                                   (HuggingFaceClient.backoffFor
                                      (HuggingFaceClient.count_request
                                         (HuggingFaceClient.emit c
                                            (HuggingFaceClient.Request
                                               (HuggingFaceClient._getCurrentModel c))))
                                      attempt)))))
                 = HuggingFaceClient.trace c ++ events
                 /\ roundsComplete (HuggingFaceClient._models c) seen events).
    { intro message. destruct (includes _ message).
      - eexists. split; [simpl; reflexivity | simpl; exact I].
      - eapply rounds_continue; cycle 3.
        + apply IH. exact Hinv.
        + simpl. rewrite <- !app_assoc. reflexivity.
        + reflexivity.
        + intros events Hr. exact Hr. }
    destruct (HuggingFaceClient.w_fetch world _ _) as [status errBody content| |message] eqn:Ef;
      [| exfalso; exact (no_timeout _ _ Ef) | apply Hgeneric].
    destruct (status =? 401)%nat; [exact (Hgeneric HuggingFaceClient.invalidToken)|].
    destruct (status =? 429)%nat.
    { destruct (triedSeen_step _ _ _ _ "undefined"%string Hinv) as [Hlt Hge].
      destruct (length (HuggingFaceClient._models c) <=? S tried)%nat eqn:E.
      - apply Nat.leb_le in E. destruct (Hge E) as [Hall Hinv'].
        eapply rounds_continue; cycle 3.
        + apply IH. exact Hinv'.
        + simpl. rewrite <- !app_assoc. reflexivity.
        + reflexivity.
        + intros events Hr. simpl. split; [exact Hall | exact Hr].
      - apply Nat.leb_gt in E.
        eapply rounds_continue; cycle 3.
        + apply IH. exact (Hlt E).
        + simpl. rewrite <- !app_assoc. reflexivity.
        + reflexivity.
        + intros events Hr. simpl. exact Hr. }
    destruct (status =? 503)%nat.
    { eapply rounds_continue; cycle 3.
      + apply IH. exact Hinv.
      + simpl. rewrite <- !app_assoc. reflexivity.
      + reflexivity.
      + intros events Hr. exact Hr. }
    destruct (negb _);
      [exact (Hgeneric ("HuggingFace API error "
                        ++ HighlightDetector.string_of_nat status ++ ": " ++ errBody)%string)|].
    destruct content as [[|a text]|];
      [exact (Hgeneric "Empty response from HuggingFace"%string)
      | | exact (Hgeneric "Empty response from HuggingFace"%string)].
    eexists. split; [simpl; reflexivity | simpl; exact I].
Qed.

End Rounds.

(** Without timeouts the loop keeps to the rule of C6: whenever it sleeps the
    all-models backoff, every model of the list has answered 429 since the
    request started or since the previous such sleep. *)
Lemma sendWithFallback_rounds (world : HuggingFaceClient.World) (c : HuggingFaceClient.t) :
  (forall n model,
      HuggingFaceClient.w_fetch world n model <> HuggingFaceClient.TimeoutError) ->
  (HuggingFaceClient._currentModelIndex c < length (HuggingFaceClient._models c))%nat ->
  exists events,
    HuggingFaceClient.trace (snd (HuggingFaceClient._sendWithFallback world c))
    = HuggingFaceClient.trace c ++ events
    /\ roundsComplete (HuggingFaceClient._models c) [] events.
Proof.
  intros Hno Hi. apply fallbackLoop_rounds; [exact Hno|].
  split; [exact Hi|]. split; [lia|].
  rewrite skipn_all2 by (rewrite rotation_length; lia). intros x [].
Qed.

(** C6, where the code departs from it.  The answers are 429 on M1, a
    timeout on M2, 429 on M3 and 429 on M1 again: the third 429 makes the
    loop announce that all models are rate-limited and sleep the all-models
    backoff, although M2 has not answered 429 in this round (the timeout
    rotated past it without counting). *)
Theorem allModelsBackoff_after_timeout :
  HuggingFaceClient.w_fetch timeoutWorld 0 "M1" = HuggingFaceClient.Http 429 "" None
  /\ HuggingFaceClient.w_fetch timeoutWorld 1 "M2" = HuggingFaceClient.TimeoutError
  /\ HuggingFaceClient.w_fetch timeoutWorld 2 "M3" = HuggingFaceClient.Http 429 "" None
  /\ HuggingFaceClient.w_fetch timeoutWorld 3 "M1" = HuggingFaceClient.Http 429 "" None
  /\ HuggingFaceClient.trace
       (snd (HuggingFaceClient._sendWithFallback timeoutWorld S6_client))
     = [HuggingFaceClient.Request "M1"; HuggingFaceClient.WarnRateLimited "M1";
        HuggingFaceClient.Request "M2"; HuggingFaceClient.WarnTimedOut "M2";
        HuggingFaceClient.Request "M3"; HuggingFaceClient.WarnRateLimited "M3";
        HuggingFaceClient.Request "M1"; HuggingFaceClient.WarnRateLimited "M1";
        HuggingFaceClient.WarnAllRateLimited;
        HuggingFaceClient.SleepAllModels 60000; HuggingFaceClient.Request "M2"]
  /\ fst (HuggingFaceClient._sendWithFallback timeoutWorld S6_client)
     = inr ("{}"%string, "M2"%string)
  /\ ~ roundsComplete (HuggingFaceClient._models S6_client) []
         (HuggingFaceClient.trace
            (snd (HuggingFaceClient._sendWithFallback timeoutWorld S6_client))).
Proof.
  assert (Htrace :
            HuggingFaceClient.trace
              (snd (HuggingFaceClient._sendWithFallback timeoutWorld S6_client))
            = [HuggingFaceClient.Request "M1"; HuggingFaceClient.WarnRateLimited "M1";
               HuggingFaceClient.Request "M2"; HuggingFaceClient.WarnTimedOut "M2";
               HuggingFaceClient.Request "M3"; HuggingFaceClient.WarnRateLimited "M3";
               HuggingFaceClient.Request "M1"; HuggingFaceClient.WarnRateLimited "M1";
               HuggingFaceClient.WarnAllRateLimited;
               HuggingFaceClient.SleepAllModels 60000; HuggingFaceClient.Request "M2"])
    by (vm_compute; reflexivity).
  repeat match goal with |- _ /\ _ => split end;
    try exact Htrace; try (vm_compute; reflexivity).
  rewrite Htrace. unfold S6_client, HuggingFaceClient._models, roundsComplete.
  intros [Hincl _].
  destruct (Hincl "M2"%string) as [E|[E|[E|[]]]];
    [right; left; reflexivity | discriminate E | discriminate E | discriminate E].
Qed.

(** * Further properties of the code *)

(** ** Tactics for the comparisons in hypotheses *)


Ltac qcases := repeat qcase.

(** ** TimeRange: overlap, containment, merge and extend *)

Lemma overlaps_iff (a b : TimeRange.t) :
  TimeRange.overlaps a b = true
  <-> TimeRange.startSeconds a < TimeRange.endSeconds b
      /\ TimeRange.startSeconds b < TimeRange.endSeconds a.
Proof.
  unfold TimeRange.overlaps. rewrite andb_true_iff, !Qlt_bool_iff. tauto.
Qed.

Lemma contains_iff (r : TimeRange.t) (t : Q) :
  TimeRange.contains r t = true
  <-> TimeRange.startSeconds r <= t /\ t <= TimeRange.endSeconds r.
Proof.
  unfold TimeRange.contains. rewrite andb_true_iff, !Qle_bool_iff. tauto.
Qed.

Lemma merge_overlapping (a b : TimeRange.t) :
  TimeRange.wf a -> TimeRange.wf b -> TimeRange.overlaps a b = true ->
  TimeRange.merge a b
  = Some (TimeRange.mk (Js.Math_min (TimeRange.startSeconds a) (TimeRange.startSeconds b))
                       (Js.Math_max (TimeRange.endSeconds a) (TimeRange.endSeconds b))).
Proof.
  intros [Ha0 Ha] [Hb0 Hb] Ho. unfold TimeRange.merge. rewrite Ho. simpl.
  apply TimeRange_new_valid.
  - destruct (Math_min_spec (TimeRange.startSeconds a) (TimeRange.startSeconds b))
      as [[_ ->]|[_ ->]]; assumption.
  - destruct (Math_min_spec (TimeRange.startSeconds a) (TimeRange.startSeconds b))
      as [[? ->]|[? ->]];
      destruct (Math_max_spec (TimeRange.endSeconds a) (TimeRange.endSeconds b))
        as [[? ->]|[? ->]]; lra.
Qed.

(** X1.  [TimeRange.merge] throws exactly on ranges that do not overlap (in
    particular on ranges that only touch); on overlapping ranges it returns
    the same range in both orders, that range is valid and contains exactly
    the timestamps that one of the two ranges contains; merging a range with
    itself returns it. *)
Theorem TimeRange_merge_spec (a b : TimeRange.t) :
  TimeRange.wf a -> TimeRange.wf b ->
  (TimeRange.overlaps a b = false -> TimeRange.merge a b = None)
  /\ (TimeRange.endSeconds a == TimeRange.startSeconds b -> TimeRange.merge a b = None)
  /\ (TimeRange.overlaps a b = true ->
      exists m m',
        TimeRange.merge a b = Some m /\ TimeRange.merge b a = Some m'
        /\ TimeRange.startSeconds m == TimeRange.startSeconds m'
        /\ TimeRange.endSeconds m == TimeRange.endSeconds m'
        /\ TimeRange.wf m
        /\ (forall t, TimeRange.contains m t = true
                      <-> TimeRange.contains a t = true \/ TimeRange.contains b t = true))
  /\ TimeRange.merge a a = Some a.
Proof.
  intros Ha Hb. split; [|split; [|split]].
  - intros Ho. unfold TimeRange.merge. now rewrite Ho.
  - intros Ht. unfold TimeRange.merge.
    replace (TimeRange.overlaps a b) with false; [reflexivity|].
    symmetry. apply not_true_is_false. rewrite overlaps_iff. lra.
  - intros Ho.
    assert (Ho' : TimeRange.overlaps b a = true)
      by (apply overlaps_iff; apply overlaps_iff in Ho; tauto).
    rewrite (merge_overlapping a b Ha Hb Ho), (merge_overlapping b a Hb Ha Ho').
    do 2 eexists. split; [reflexivity|]. split; [reflexivity|].
    apply overlaps_iff in Ho. destruct Ha as [Ha0 Ha], Hb as [Hb0 Hb]. simpl.
    destruct (Math_min_spec (TimeRange.startSeconds a) (TimeRange.startSeconds b))
      as [[? Emin]|[? Emin]];
      destruct (Math_min_spec (TimeRange.startSeconds b) (TimeRange.startSeconds a))
        as [[? Emin']|[? Emin']];
      destruct (Math_max_spec (TimeRange.endSeconds a) (TimeRange.endSeconds b))
        as [[? Emax]|[? Emax]];
      destruct (Math_max_spec (TimeRange.endSeconds b) (TimeRange.endSeconds a))
        as [[? Emax']|[? Emax']];
      rewrite Emin, Emin', Emax, Emax';
      (split; [lra|]); (split; [lra|]); (split; [split; simpl; lra|]);
      intros t; rewrite !contains_iff; simpl; lra.
  - destruct a as [s e], Ha as [Ha0 Ha]. simpl in *.
    unfold TimeRange.merge, TimeRange.overlaps. simpl.
    assert (E : Js.Qlt_bool s e = true) by now apply Qlt_bool_iff.
    rewrite E. simpl.
    replace (Js.Math_min s s) with s by (unfold Js.Math_min; now destruct (Qle_bool s s)).
    replace (Js.Math_max e e) with e by (unfold Js.Math_max; now destruct (Qle_bool e e)).
    now apply TimeRange_new_valid.
Qed.

Lemma TimeRange_merge_spec_witness :
  exists m,
    TimeRange.merge (TimeRange.mk 10 18) (TimeRange.mk 15 25) = Some m
    /\ TimeRange.wf m
    /\ TimeRange.merge (TimeRange.mk 10 18) (TimeRange.mk 18 25) = None.
Proof.
  assert (Ha : TimeRange.wf (TimeRange.mk 10 18)) by (split; simpl; lra).
  assert (Hb : TimeRange.wf (TimeRange.mk 15 25)) by (split; simpl; lra).
  assert (Hc : TimeRange.wf (TimeRange.mk 18 25)) by (split; simpl; lra).
  destruct (TimeRange_merge_spec _ _ Ha Hb) as (_ & _ & Hm & _).
  destruct (Hm eq_refl) as (m & _ & E & _ & _ & _ & Hwf & _).
  destruct (TimeRange_merge_spec _ _ Ha Hc) as (_ & Ht & _).
  exists m. split; [exact E|]. split; [exact Hwf|]. apply Ht. reflexivity.
Defined.

(** [TimeRange.extend] with non-negative margins never throws; the
    result is valid, contains the range it extends, and is longer by at most
    [before + after], by exactly that much when the start has room for
    [before]; with both margins 0 it is the range itself. *)
Theorem TimeRange_extend_spec (r : TimeRange.t) (before after : Q) :
  TimeRange.wf r -> 0 <= before -> 0 <= after ->
  exists r',
    TimeRange.extend r before after = Some r'
    /\ TimeRange.wf r'
    /\ TimeRange.startSeconds r' <= TimeRange.startSeconds r
    /\ TimeRange.endSeconds r <= TimeRange.endSeconds r'
    /\ (forall t, TimeRange.contains r t = true -> TimeRange.contains r' t = true)
    /\ TimeRange.duration r' <= TimeRange.duration r + before + after
    /\ (before <= TimeRange.startSeconds r ->
        TimeRange.duration r' == TimeRange.duration r + before + after)
    /\ (before == 0 -> after == 0 ->
        TimeRange.startSeconds r' == TimeRange.startSeconds r
        /\ TimeRange.endSeconds r' == TimeRange.endSeconds r).
Proof.
  intros [H0 Hr] Hb Ha. unfold TimeRange.extend.
  set (s := Js.Math_max 0 (TimeRange.startSeconds r - before)).
  assert (Hs : 0 <= s /\ s <= TimeRange.startSeconds r
               /\ TimeRange.startSeconds r - before <= s
               /\ (before <= TimeRange.startSeconds r
                   -> s == TimeRange.startSeconds r - before)).
  { unfold s.
    destruct (Math_max_spec 0 (TimeRange.startSeconds r - before)) as [[? ->]|[? ->]];
      repeat split; try lra. }
  destruct Hs as (Hs0 & Hs1 & Hs2 & Hs3).
  rewrite TimeRange_new_valid by lra.
  eexists. split; [reflexivity|]. unfold TimeRange.duration. simpl.
  split; [split; simpl; lra|]. split; [lra|]. split; [lra|].
  split; [intros t; rewrite !contains_iff; simpl; lra|].
  split; [lra|]. split; [intros H; specialize (Hs3 H); lra|].
  intros Eb Ea. split; [|lra]. assert (H : before <= TimeRange.startSeconds r) by lra.
  specialize (Hs3 H). lra.
Qed.

Lemma TimeRange_extend_spec_witness :
  exists r',
    TimeRange.extend (TimeRange.mk 1 4) 2 3 = Some r'
    /\ TimeRange.wf r'
    /\ TimeRange.duration r' <= TimeRange.duration (TimeRange.mk 1 4) + 2 + 3.
Proof.
  assert (Hr : TimeRange.wf (TimeRange.mk 1 4)) by (split; simpl; lra).
  destruct (TimeRange_extend_spec (TimeRange.mk 1 4) 2 3 Hr) as (r' & E & Hwf & _ & _ & _ & Hd & _);
    [lra | lra |].
  exists r'. split; [exact E|]. split; [exact Hwf|exact Hd].
Defined.

(** ** QualityScore *)

Lemma QualityScore_new_bounds (v : Q) (bd : Js.Obj) :
  0 <= QualityScore.value (QualityScore.new v bd) <= 100.
Proof.
  simpl.
  destruct (Math_min_spec 100 v) as [[? ->]|[? ->]];
    [destruct (Math_max_spec 0 100) as [[? ->]|[? ->]]
    |destruct (Math_max_spec 0 v) as [[? ->]|[? ->]]]; lra.
Qed.

Lemma QualityScore_new_inside (v : Q) (bd : Js.Obj) :
  0 <= v <= 100 -> QualityScore.value (QualityScore.new v bd) == v.
Proof.
  intros H. simpl.
  destruct (Math_min_spec 100 v) as [[? ->]|[? ->]];
    [destruct (Math_max_spec 0 100) as [[? ->]|[? ->]]
    |destruct (Math_max_spec 0 v) as [[? ->]|[? ->]]]; lra.
Qed.

Lemma QualityScore_new_inside_bounds (v lo hi : Q) (bd : Js.Obj) :
  0 <= lo -> hi <= 100 -> lo <= v <= hi ->
  lo <= QualityScore.value (QualityScore.new v bd) <= hi.
Proof.
  intros Hlo Hhi Hv. rewrite QualityScore_new_inside; lra.
Qed.

Lemma clamp_cases (v : Q) :
  (v <= 0 /\ Js.Math_max 0 (Js.Math_min 100 v) == 0)
  \/ (0 <= v <= 100 /\ Js.Math_max 0 (Js.Math_min 100 v) == v)
  \/ (100 <= v /\ Js.Math_max 0 (Js.Math_min 100 v) == 100).
Proof.
  destruct (Math_min_spec 100 v) as [[H1 ->]|[H1 ->]].
  - right. right. split; [exact H1|].
    destruct (Math_max_spec 0 100) as [[? ->]|[? ->]]; lra.
  - destruct (Math_max_spec 0 v) as [[H2 ->]|[H2 ->]].
    + right. left. split; [lra|reflexivity].
    + left. split; [lra|reflexivity].
Qed.


Lemma get_set_same (o : Js.Obj) (k : string) (v : Q) : Js.get (Js.set o k v) k = Some v.
Proof.
  induction o as [|[k' v'] o IH]; simpl.
  - now rewrite String.eqb_refl.
  - destruct (String.eqb k k') eqn:E; simpl; rewrite E; [reflexivity|exact IH].
Qed.

Lemma get_set_other (o : Js.Obj) (k k' : string) (v : Q) :
  k' <> k -> Js.get (Js.set o k v) k' = Js.get o k'.
Proof.
  intros Hk. induction o as [|[k0 v0] o IH]; simpl.
  - apply String.eqb_neq in Hk. now rewrite Hk.
  - destruct (String.eqb k k0) eqn:E; simpl.
    + apply String.eqb_eq in E. subst k0.
      apply String.eqb_neq in Hk. now rewrite Hk.
    + destruct (String.eqb k' k0); [reflexivity|exact IH].
Qed.

Lemma keys_set (o : Js.Obj) (k : string) (v : Q) :
  In k (Js.keys o) -> Js.keys (Js.set o k v) = Js.keys o.
Proof.
  induction o as [|[k0 v0] o IH]; simpl; [tauto|].
  intros H. destruct (String.eqb k k0) eqn:E; simpl; [reflexivity|].
  f_equal. apply IH. destruct H as [H|H]; [|exact H].
  subst k0. now rewrite String.eqb_refl in E.
Qed.

(** [withBonus] on a score in [0, 100]: a non-negative bonus never
    lowers the value, a non-positive one never raises it, and the value
    saturates at 100.  The bonus is filed under its reason: reading the
    reason back gives the bonus, the other entries of the breakdown are as
    before, an entry that was there keeps its place, and with an empty
    reason the breakdown is unchanged. *)
Theorem withBonus_spec (q : QualityScore.t) (bonus : Q) (reason : string) :
  0 <= QualityScore.value q <= 100 ->
  (0 <= bonus ->
   QualityScore.value q <= QualityScore.value (QualityScore.withBonus q bonus reason))
  /\ (bonus <= 0 ->
      QualityScore.value (QualityScore.withBonus q bonus reason) <= QualityScore.value q)
  /\ (100 <= QualityScore.value q + bonus ->
      QualityScore.value (QualityScore.withBonus q bonus reason) == 100)
  /\ (0 <= QualityScore.value q + bonus <= 100 ->
      QualityScore.value (QualityScore.withBonus q bonus reason)
      == QualityScore.value q + bonus)
  /\ (reason <> ""%string ->
      Js.get (QualityScore.breakdown (QualityScore.withBonus q bonus reason)) reason
      = Some bonus
      /\ (forall k, k <> reason ->
                    Js.get (QualityScore.breakdown (QualityScore.withBonus q bonus reason)) k
                    = Js.get (QualityScore.breakdown q) k)
      /\ (In reason (Js.keys (QualityScore.breakdown q)) ->
          Js.keys (QualityScore.breakdown (QualityScore.withBonus q bonus reason))
          = Js.keys (QualityScore.breakdown q)))
  /\ (reason = ""%string ->
      QualityScore.breakdown (QualityScore.withBonus q bonus reason)
      = QualityScore.breakdown q).
Proof.
  intros Hq. unfold QualityScore.withBonus. simpl.
  repeat split;
    try (intros; destruct (clamp_cases (QualityScore.value q + bonus))
           as [[? ->]|[[? ->]|[? ->]]]; lra).
  - destruct reason; [contradiction|]. apply get_set_same.
  - intros k Hk. destruct reason; [contradiction|]. now apply get_set_other.
  - intros Hin. destruct reason; [contradiction|]. now apply keys_set.
  - intros ->. reflexivity.
Qed.

Lemma withBonus_spec_witness :
  QualityScore.value (QualityScore.withBonus (QualityScore.new 95 []) 10 "clutch") == 100
  /\ Js.get (QualityScore.breakdown
               (QualityScore.withBonus (QualityScore.new 95 []) 10 "clutch")) "clutch"
     = Some 10.
Proof.
  destruct (withBonus_spec (QualityScore.new 95 []) 10 "clutch"
                           (QualityScore_new_bounds 95 []))
    as (_ & _ & Hsat & _ & Hbd & _).
  split.
  - apply Hsat. vm_compute. discriminate.
  - apply Hbd. discriminate.
Defined.

(** ** [fromComponents]: the weighted mean *)

Lemma sum_acc (l : list Q) (acc : Q) : fold_left Qplus l acc == acc + Js.sum l.
Proof.
  unfold Js.sum. revert acc. induction l as [|x l IH]; intros acc; simpl.
  - lra.
  - rewrite (IH (acc + x)), (IH (0 + x)). lra.
Qed.

Lemma sum_cons (x : Q) (l : list Q) : Js.sum (x :: l) == x + Js.sum l.
Proof. unfold Js.sum at 1. simpl. rewrite sum_acc. lra. Qed.

Lemma sum_nonneg (l : list Q) : Forall (fun x => 0 <= x) l -> 0 <= Js.sum l.
Proof.
  induction 1 as [|x l Hx _ IH]; [unfold Js.sum; simpl; lra|].
  rewrite sum_cons. lra.
Qed.

Lemma getOr0_bounds (scores : Js.Obj) (k : string) :
  Forall (fun kv => 0 <= snd kv <= 100) scores ->
  0 <= QualityScore.getOr0 scores k <= 100.
Proof.
  unfold QualityScore.getOr0.
  induction 1 as [|[k' v] scores Hv _ IH]; simpl; [lra|].
  destruct (String.eqb k k'); [exact Hv|exact IH].
Qed.

Lemma weightedSum_keys (scores : Js.Obj) (pre weights : Js.Obj) (acc : Q) :
  NoDup (Js.keys (pre ++ weights)) ->
  fold_left (fun weightedSum k =>
               weightedSum + QualityScore.getOr0 (pre ++ weights) k
                             * QualityScore.getOr0 scores k)
            (Js.keys weights) acc
  == acc + Js.sum (map (fun kv => snd kv * QualityScore.getOr0 scores (fst kv)) weights).
Proof.
  revert pre acc. induction weights as [|[k w] weights IH]; intros pre acc Hnd; simpl.
  - unfold Js.sum. simpl. lra.
  - replace (pre ++ (k, w) :: weights) with ((pre ++ [(k, w)]) ++ weights) in *
      by now rewrite <- app_assoc.
    rewrite IH by exact Hnd. rewrite sum_cons.
    assert (E : QualityScore.getOr0 ((pre ++ [(k, w)]) ++ weights) k = w).
    { unfold QualityScore.getOr0. rewrite <- app_assoc. simpl.
      unfold Js.keys in Hnd. rewrite <- app_assoc, map_app in Hnd. simpl in Hnd.
      apply NoDup_remove_2 in Hnd.
      assert (Hpre : ~ In k (map fst pre)) by (intros H; apply Hnd, in_or_app; now left).
      clear Hnd IH. induction pre as [|[k0 w0] pre IHp]; simpl.
      - now rewrite String.eqb_refl.
      - destruct (String.eqb k k0) eqn:E.
        + apply String.eqb_eq in E. subst. exfalso. apply Hpre. now left.
        + apply IHp. intros H. apply Hpre. now right. }
    rewrite E. lra.
Qed.

Lemma weighted_bounds (scores weights : Js.Obj) :
  Forall (fun kv => 0 <= snd kv) weights ->
  Forall (fun kv => 0 <= snd kv <= 100) scores ->
  0 <= Js.sum (map (fun kv => snd kv * QualityScore.getOr0 scores (fst kv)) weights)
  <= 100 * Js.sum (Js.values weights).
Proof.
  intros Hw Hs. induction Hw as [|[k w] weights Hk _ IH]; simpl.
  - unfold Js.sum. simpl. lra.
  - rewrite !sum_cons. simpl in Hk.
    pose proof (getOr0_bounds scores k Hs) as Hb. nra.
Qed.

Lemma wholeUpTo_bounds (bound : Z) (x : Q) :
  wholeUpTo bound x -> 0 <= x <= inject_Z bound.
Proof.
  intros (z & [Hz0 Hz1] & ->). split.
  - change 0 with (inject_Z 0). rewrite <- Zle_Qle. exact Hz0.
  - rewrite <- Zle_Qle. exact Hz1.
Qed.

Lemma weighted_between (scores weights : Js.Obj) (lo hi : Q) :
  Forall (fun kv => 0 <= snd kv) weights ->
  (forall k w, In (k, w) weights -> 0 < w -> lo <= QualityScore.getOr0 scores k <= hi) ->
  lo * Js.sum (Js.values weights)
  <= Js.sum (map (fun kv => snd kv * QualityScore.getOr0 scores (fst kv)) weights)
  <= hi * Js.sum (Js.values weights).
Proof.
  intros Hw. induction Hw as [|[k w] weights Hk _ IH]; intros Hb; simpl.
  - unfold Js.sum. simpl. lra.
  - rewrite !sum_cons. simpl in Hk.
    assert (IH' := IH (fun k' w' Hin => Hb k' w' (or_intror Hin))).
    destruct (Qlt_le_dec 0 w) as [Hpos|Hz].
    + pose proof (Hb k w (or_introl eq_refl) Hpos) as Hs. simpl. nra.
    + assert (E : w == 0) by lra. simpl. rewrite E. lra.
Qed.

(** X3.  [fromComponents] over at most a thousand weights with distinct
    keys, the weights whole numbers up to a million and the scores whole
    numbers up to 100 (so that the sums are computed without rounding), the
    keys of the weights finding numbers or nothing in the scores: when the
    weights sum to 0 the result is the zero score (the scores are dropped
    from the breakdown); otherwise the breakdown is the [scores] object and
    the value is the weighted mean of the scores, a score missing for a key
    counting as 0: it lies between any two bounds on the scores of the keys
    with a positive weight, and it is the weighted mean itself when that is
    a whole number. *)
Theorem fromComponents_spec (weights scores : Js.Obj) :
  NoDup (Js.keys weights) ->
  numericKeys weights scores ->
  (length weights <= 1000)%nat ->
  Forall (fun kv => wholeUpTo 1000000 (snd kv)) weights ->
  Forall (fun kv => wholeUpTo 100 (snd kv)) scores ->
  (Js.sum (Js.values weights) == 0 ->
   QualityScore.fromComponents weights scores = QualityScore.zero)
  /\ (~ Js.sum (Js.values weights) == 0 ->
      QualityScore.breakdown (QualityScore.fromComponents weights scores) = scores
      /\ 0 <= weightedMean weights scores <= 100
      /\ (forall lo hi,
            (forall k w, In (k, w) weights -> 0 < w ->
                         lo <= QualityScore.getOr0 scores k <= hi) ->
            lo <= QualityScore.value (QualityScore.fromComponents weights scores) <= hi)
      /\ ((exists z : Z, weightedMean weights scores == inject_Z z) ->
          QualityScore.value (QualityScore.fromComponents weights scores)
          == weightedMean weights scores)).
Proof.
  intros Hnd _ _ Hw0 Hs0.
  assert (Hw : Forall (fun kv : string * Q => 0 <= snd kv) weights).
  { eapply Forall_impl; [|exact Hw0]. intros kv H. apply (wholeUpTo_bounds _ _ H). }
  assert (Hs : Forall (fun kv : string * Q => 0 <= snd kv <= 100) scores).
  { eapply Forall_impl; [|exact Hs0]. intros kv H. apply (wholeUpTo_bounds _ _ H). }
  unfold QualityScore.fromComponents.
  change (fold_left (fun s v : Q => s + v) (Js.values weights) 0)
    with (Js.sum (Js.values weights)).
  split.
  - intros E. apply Qeq_bool_iff in E. now rewrite E.
  - intros NE. destruct (Qeq_bool (Js.sum (Js.values weights)) 0) eqn:E;
      [apply Qeq_bool_iff in E; contradiction|].
    pose proof (weightedSum_keys scores [] weights 0 Hnd) as Hsum. simpl in Hsum.
    pose proof (weighted_bounds scores weights Hw Hs) as [Hlo Hhi].
    assert (Hpos : 0 < Js.sum (Js.values weights)).
    { assert (0 <= Js.sum (Js.values weights)).
      { apply sum_nonneg. unfold Js.values. rewrite Forall_map. exact Hw. }
      destruct (Qlt_le_dec 0 (Js.sum (Js.values weights))) as [|Hle]; [assumption|].
      exfalso. apply NE. lra. }
    assert (Hmean : 0 <= weightedMean weights scores <= 100).
    { unfold weightedMean. split.
      - apply Qle_shift_div_l; [exact Hpos|]. lra.
      - apply Qle_shift_div_r; [exact Hpos|]. lra. }
    assert (Hval : QualityScore.value
                     (QualityScore.new
                        (fold_left
                           (fun weightedSum k =>
                              weightedSum
                              + QualityScore.getOr0 weights k * QualityScore.getOr0 scores k)
                           (Js.keys weights) 0 / Js.sum (Js.values weights)) scores)
                   == weightedMean weights scores).
    { assert (Heq : fold_left
               (fun weightedSum k =>
                  weightedSum + QualityScore.getOr0 weights k * QualityScore.getOr0 scores k)
               (Js.keys weights) 0 / Js.sum (Js.values weights)
             == weightedMean weights scores).
      { unfold weightedMean. rewrite Hsum. field. lra. }
      rewrite QualityScore_new_inside; [exact Heq|]. rewrite Heq. exact Hmean. }
    split; [reflexivity|]. split; [exact Hmean|]. split; [|intros _; exact Hval].
    intros lo hi Hb. rewrite Hval.
    pose proof (weighted_between scores weights lo hi Hw Hb) as [Bl Bh].
    unfold weightedMean. split.
    + apply Qle_shift_div_l; [exact Hpos|]. exact Bl.
    + apply Qle_shift_div_r; [exact Hpos|]. exact Bh.
Qed.

Lemma fromComponents_spec_witness :
  QualityScore.value
    (QualityScore.fromComponents [("excitement", 3); ("duration", 1)]%string
                                 [("excitement", 80); ("duration", 40)]%string)
  == weightedMean [("excitement", 3); ("duration", 1)]%string
                  [("excitement", 80); ("duration", 40)]%string.
Proof.
  refine (proj2 (proj2 (proj2 (proj2 (fromComponents_spec
                          [("excitement", 3); ("duration", 1)]%string
                          [("excitement", 80); ("duration", 40)]%string _ _ _ _ _) _))) _).
  - repeat constructor; simpl; intuition discriminate.
  - repeat constructor; simpl; tauto.
  - simpl; lia.
  - repeat constructor; simpl; [exists 3%Z | exists 1%Z]; split; try lia; reflexivity.
  - repeat constructor; simpl; [exists 80%Z | exists 40%Z]; split; try lia; reflexivity.
  - vm_compute. discriminate.
  - exists 70%Z. vm_compute. reflexivity.
Defined.

(** ** HighlightDetector: multi-kill windows *)

Lemma inWindow_split (windowStart timeWindow : Q) (ts : list Q) :
  ts = fst (HighlightDetector.inWindow windowStart timeWindow ts)
       ++ snd (HighlightDetector.inWindow windowStart timeWindow ts)
  /\ Forall (fun t => t - windowStart <= timeWindow)
            (fst (HighlightDetector.inWindow windowStart timeWindow ts))
  /\ match snd (HighlightDetector.inWindow windowStart timeWindow ts) with
     | [] => True
     | t :: _ => timeWindow < t - windowStart
     end.
Proof.
  induction ts as [|t ts IH]; simpl; [repeat split; constructor|].
  destruct (Qle_bool (t - windowStart) timeWindow) eqn:E.
  - destruct (HighlightDetector.inWindow windowStart timeWindow ts) as [w r].
    simpl in *. destruct IH as (-> & Hw & Hr). apply Qle_bool_iff in E.
    repeat split; [constructor; assumption|exact Hr].
  - simpl. apply Qle_bool_false in E. repeat split; [constructor|exact E].
Qed.

Lemma StronglySorted_app_inv {A} (R : A -> A -> Prop) (l1 l2 : list A) :
  StronglySorted R (l1 ++ l2) ->
  StronglySorted R l1 /\ StronglySorted R l2
  /\ Forall (fun a => Forall (R a) l2) l1.
Proof.
  induction l1 as [|a l1 IH]; simpl; intros H.
  - repeat split; [constructor|exact H|constructor].
  - inversion H as [|? ? Hs Hf]; subst. destruct (IH Hs) as (H1 & H2 & H3).
    apply Forall_app in Hf as [Hf1 Hf2].
    repeat split; [constructor; assumption|assumption|constructor; assumption].
Qed.

Lemma filter_none {A} (f : A -> bool) (l : list A) :
  Forall (fun x => f x = false) l -> filter f l = [].
Proof.
  induction 1 as [|x l Hx _ IH]; simpl; [reflexivity|]. now rewrite Hx.
Qed.

Lemma filter_all {A} (f : A -> bool) (l : list A) :
  Forall (fun x => f x = true) l -> filter f l = l.
Proof.
  induction 1 as [|x l Hx _ IH]; simpl; [reflexivity|]. now rewrite Hx, IH.
Qed.

Lemma last_In {A} (l : list A) (d : A) : l <> [] -> In (last l d) l.
Proof.
  induction l as [|x l IH]; [congruence|]. intros _.
  destruct l as [|y l]; [now left|]. right. apply IH. discriminate.
Qed.


Lemma sweep_spec (timeWindow : Q) (fuel : nat) :
  forall ts,
    (length ts <= fuel)%nat ->
    StronglySorted Qle ts ->
    Forall (windowOf timeWindow ts) (HighlightDetector.sweep fuel timeWindow ts)
    /\ StronglySorted
         (fun e1 e2 => HighlightDetector.me_timestamp e1 + timeWindow
                       < HighlightDetector.me_timestamp e2)
         (HighlightDetector.sweep fuel timeWindow ts).
Proof.
  induction fuel as [|fuel IH]; intros ts Hlen Hsorted.
  - destruct ts; simpl; split; constructor.
  - destruct ts as [|windowStart rest]; [simpl; split; constructor|].
    simpl.
    pose proof (inWindow_split windowStart timeWindow rest) as (Hsplit & Hw & Hr).
    pose proof (inWindow_length windowStart timeWindow rest) as Hrl.
    destruct (HighlightDetector.inWindow windowStart timeWindow rest) as [w r].
    simpl in Hsplit, Hw, Hr, Hrl. subst rest.
    inversion Hsorted as [|? ? Hsrest Hge]; subst.
    apply StronglySorted_app_inv in Hsrest as (Hsw & Hsr & Hwr).
    apply Forall_app in Hge as [Hgew Hger].
    (* every timestamp left for the next windows is beyond this window *)
    assert (Hbeyond : Forall (fun t => timeWindow < t - windowStart) r).
    { destruct r as [|t0 r]; [constructor|].
      constructor; [exact Hr|].
      inversion Hsr as [|? ? _ Hle]; subst.
      eapply Forall_impl; [|exact Hle]. simpl. intros t Ht. lra. }
    simpl in Hlen.
    destruct (IH r) as [IHev IHsorted]; [lia|exact Hsr|].
    (* the events of the later windows, seen from the whole list *)
    assert (Hlater : Forall (fun e => windowOf timeWindow (windowStart :: w ++ r) e
                                      /\ windowStart + timeWindow
                                         < HighlightDetector.me_timestamp e)
                            (HighlightDetector.sweep fuel timeWindow r)).
    { eapply Forall_impl; [|exact IHev].
      intros e (Hc & Hty & Htw & Hin & Hend & Hle & Hspan & Hcount).
      assert (Hts : timeWindow < HighlightDetector.me_timestamp e - windowStart).
      { rewrite Forall_forall in Hbeyond. now apply Hbeyond. }
      split; [|lra].
      repeat split; try assumption.
      - right. apply in_or_app. now right.
      - right. apply in_or_app. now right.
      - rewrite Hcount. simpl.
        assert (E0 : inRange (HighlightDetector.me_timestamp e) timeWindow windowStart
                     = false).
        { unfold inRange. apply andb_false_iff. left. apply Qle_bool_false. lra. }
        rewrite E0, filter_app.
        rewrite (filter_none _ w); [reflexivity|].
        eapply Forall_impl; [|exact Hw]. simpl. intros t Ht.
        unfold inRange. apply andb_false_iff. left. apply Qle_bool_false. lra. }
    split.
    + apply Forall_app. split.
      * destruct w as [|t0 w']; [simpl; constructor|].
        change (2 <=? S (length (t0 :: w')))%nat with true. cbv iota.
        constructor; [|constructor].
        assert (Htw : 0 <= timeWindow).
        { inversion Hw as [|? ? H0 _]; subst. inversion Hgew as [|? ? H1 _]; subst. lra. }
        assert (Hl : In (last (t0 :: w') windowStart) (t0 :: w'))
          by (apply last_In; discriminate).
        assert (Hl1 : windowStart <= last (t0 :: w') windowStart)
          by (rewrite Forall_forall in Hgew; now apply Hgew).
        assert (Hl2 : last (t0 :: w') windowStart - windowStart <= timeWindow)
          by (rewrite Forall_forall in Hw; now apply Hw).
        unfold windowOf. cbn [HighlightDetector.me_killCount HighlightDetector.me_type
                              HighlightDetector.me_timestamp
                              HighlightDetector.me_endTimestamp].
        repeat split; try assumption.
        -- simpl. lia.
        -- now left.
        -- right. apply in_or_app. now left.
        -- lra.
        -- cbn [filter].
           assert (E0 : inRange windowStart timeWindow windowStart = true).
           { unfold inRange. apply andb_true_iff. split; apply Qle_bool_iff; lra. }
           rewrite E0, filter_app. rewrite (filter_none _ r).
           ++ rewrite app_nil_r. rewrite filter_all; [reflexivity|].
              rewrite Forall_forall in Hw, Hgew. apply Forall_forall. intros t Ht.
              specialize (Hw t Ht). specialize (Hgew t Ht). simpl in Hw.
              unfold inRange. apply andb_true_iff. split; apply Qle_bool_iff; lra.
           ++ eapply Forall_impl; [|exact Hbeyond]. simpl. intros t Ht.
              unfold inRange. apply andb_false_iff. right. apply Qle_bool_false. lra.
      * eapply Forall_impl; [|exact Hlater]. intros e [He _]. exact He.
    + destruct w as [|t0 w']; simpl; [exact IHsorted|].
      constructor; [exact IHsorted|].
      eapply Forall_impl; [|exact Hlater]. intros e [_ He]. exact He.
Qed.





(** ** HighlightDetector: momentum shifts *)

Lemma flat_map_length_le {A B} (f : A -> list B) (l : list A) :
  (forall x, length (f x) <= 1)%nat -> (length (flat_map f l) <= length l)%nat.
Proof.
  intros Hf. induction l as [|x l IH]; simpl; [lia|].
  rewrite length_app. specialize (Hf x). lia.
Qed.

(** [analyzeMomentumShifts] looks only at the frames with a positive
    excitement score.  With fewer than ten of them it reports nothing; with
    [n] of them it reports at most [n - 9] shifts.  Every reported shift has
    a magnitude above 10, carries one of the two labels, and is stamped with
    the timestamp of one of those frames. *)
Theorem analyzeMomentumShifts_spec (analyses : list FrameAnalysis.t) :
  ((length (filter (fun a => Js.Qlt_bool 0 (FrameAnalysis.excitementScore a)) analyses)
    < 10)%nat ->
   HighlightDetector.analyzeMomentumShifts analyses = [])
  /\ (length (HighlightDetector.analyzeMomentumShifts analyses)
      <= length (filter (fun a => Js.Qlt_bool 0 (FrameAnalysis.excitementScore a))
                        analyses) - 9)%nat
  /\ Forall (fun s =>
               10 < HighlightDetector.ms_magnitude s
               /\ (HighlightDetector.ms_type s = "momentum_up"%string
                   \/ HighlightDetector.ms_type s = "momentum_down"%string)
               /\ exists a, In a analyses
                            /\ 0 < FrameAnalysis.excitementScore a
                            /\ FrameAnalysis.timestamp a = HighlightDetector.ms_timestamp s)
            (HighlightDetector.analyzeMomentumShifts analyses).
Proof.
  unfold HighlightDetector.analyzeMomentumShifts.
  set (scored := filter (fun a => Js.Qlt_bool 0 (FrameAnalysis.excitementScore a)) analyses).
  set (timeline := map (fun a => (FrameAnalysis.timestamp a, FrameAnalysis.excitementScore a))
                       scored).
  assert (Hlen : length timeline = length scored) by apply length_map.
  rewrite Hlen.
  destruct (length scored <? 10)%nat eqn:E.
  - split; [reflexivity|]. split; [simpl; lia|constructor].
  - apply Nat.ltb_ge in E. split; [lia|]. split.
    + etransitivity; [apply flat_map_length_le|rewrite length_seq; lia].
      intros i. destruct (Js.Qlt_bool 10 _); simpl; lia.
    + apply Forall_forall. intros s Hs.
      apply in_flat_map in Hs as (i & Hi & Hs). apply in_seq in Hi.
      destruct (Js.Qlt_bool 10 _) eqn:Emag in Hs; [|contradiction].
      destruct Hs as [<-|[]]. simpl.
      apply Qlt_bool_iff in Emag. split; [exact Emag|].
      split; [destruct (Js.Qlt_bool 0 _); auto|].
      assert (Hnth : In (nth (i + 5) timeline (0, 0)) timeline)
        by (apply nth_In; lia).
      unfold timeline in Hnth at 2. apply in_map_iff in Hnth as (a & Ea & Ha).
      apply filter_In in Ha as [Ha Hpos]. apply Qlt_bool_iff in Hpos.
      exists a. split; [exact Ha|]. split; [exact Hpos|].
      rewrite <- Ea. reflexivity.
Qed.

(** ** HighlightDetector: what merging keeps *)

Lemma covers_refl (c : Clip.t) : covers c c.
Proof. unfold covers. lra. Qed.

Lemma covers_trans (a b c : Clip.t) : covers a b -> covers b c -> covers a c.
Proof. unfold covers. lra. Qed.

Lemma withAdjustedRange_twice (c : Clip.t) (r r' : TimeRange.t) :
  Clip.withAdjustedRange (Clip.withAdjustedRange c r) r' = Clip.withAdjustedRange c r'.
Proof.
  unfold Clip.withAdjustedRange. simpl. destruct (Clip.actionIntensity c); reflexivity.
Qed.

Lemma mergeLoop_cover (rest : list Clip.t) :
  forall merged_init last merged given,
    Forall (fun c => 0 <= Clip.start c) (last :: rest) ->
    Forall (widened given) (merged_init ++ [last]) ->
    incl rest given ->
    HighlightDetector.mergeLoop merged_init last rest = Some merged ->
    (forall c, In c (merged_init ++ last :: rest) -> exists m, In m merged /\ covers m c)
    /\ Forall (widened given) merged
    /\ (length merged <= length (merged_init ++ last :: rest))%nat.
Proof.
  induction rest as [|current rest IH]; intros init last merged given Hpos Hwid Hincl Hm.
  - simpl in Hm. injection Hm as <-. split; [|split; [exact Hwid|lia]].
    intros c Hc. exists c. split; [exact Hc|apply covers_refl].
  - simpl in Hm.
    inversion Hpos as [|? ? Hl Hpr]; subst. inversion Hpr as [|? ? Hc Hprr]; subst.
    destruct (Qle_bool (Clip.start current) (Clip.end_ last)) eqn:E.
    + destruct (TimeRange.new _ _) as [newRange|] eqn:En; [|discriminate].
      apply TimeRange_new_inv in En as [-> _].
      set (r := TimeRange.mk _ _) in *.
      set (keep := if Qle_bool (Clip.priority current) (Clip.priority last)
                   then last else current) in *.
      assert (Hr : TimeRange.startSeconds r <= Clip.start last
                   /\ TimeRange.startSeconds r <= Clip.start current
                   /\ Clip.end_ last <= TimeRange.endSeconds r
                   /\ Clip.end_ current <= TimeRange.endSeconds r
                   /\ 0 <= TimeRange.startSeconds r).
      { unfold r. simpl.
        destruct (Math_min_spec (Clip.start last) (Clip.start current)) as [[? ->]|[? ->]];
          destruct (Math_max_spec (Clip.end_ last) (Clip.end_ current)) as [[? ->]|[? ->]];
          rewrite Math_max_0_nonneg by assumption; lra. }
      destruct Hr as (Hr1 & Hr2 & Hr3 & Hr4 & Hr5).
      assert (Hcl : forall k, covers (Clip.withAdjustedRange k r) last)
        by (split; assumption).
      assert (Hcc : forall k, covers (Clip.withAdjustedRange k r) current)
        by (split; assumption).
      apply Forall_app in Hwid as [Hwi Hwl]. inversion Hwl as [|? ? Hwlast _]; subst.
      destruct (IH init (Clip.withAdjustedRange keep r) merged given) as (Hcov & Hw & Hlen).
      * constructor; [exact Hr5|exact Hprr].
      * apply Forall_app. split; [exact Hwi|]. constructor; [|constructor].
        unfold keep. destruct (Qle_bool (Clip.priority current) (Clip.priority last)).
        -- destruct Hwlast as (c & Hin & Hcov & Heq). exists c.
           split; [exact Hin|]. split; [eapply covers_trans; [apply Hcl|exact Hcov]|].
           right. rewrite withAdjustedRange_range.
           destruct Heq as [Heq | Heq]; rewrite Heq at 1; [reflexivity|apply withAdjustedRange_twice].
        -- exists current. split; [apply Hincl; now left|]. split; [apply Hcc|].
           right. now rewrite withAdjustedRange_range.
      * intros x Hx. apply Hincl. now right.
      * exact Hm.
      * split; [|split; [exact Hw|rewrite !length_app in *; simpl in *; lia]].
        intros c Hin. apply in_app_or in Hin as [Hin|[<-|[<-|Hin]]].
        -- apply Hcov. apply in_or_app. now left.
        -- destruct (Hcov (Clip.withAdjustedRange keep r)) as (m & Hm1 & Hm2);
             [apply in_or_app; right; now left|].
           exists m. split; [exact Hm1|]. eapply covers_trans; [exact Hm2|apply Hcl].
        -- destruct (Hcov (Clip.withAdjustedRange keep r)) as (m & Hm1 & Hm2);
             [apply in_or_app; right; now left|].
           exists m. split; [exact Hm1|]. eapply covers_trans; [exact Hm2|apply Hcc].
        -- apply Hcov. apply in_or_app. right. now right.
    + destruct (IH (init ++ [last]) current merged given) as (Hcov & Hw & Hlen).
      * exact Hpr.
      * apply Forall_app. split; [exact Hwid|]. constructor; [|constructor].
        exists current. split; [apply Hincl; now left|]. split; [apply covers_refl|].
        now left.
      * intros x Hx. apply Hincl. now right.
      * exact Hm.
      * rewrite <- app_assoc in Hcov, Hlen. simpl in Hcov, Hlen. auto.
Qed.

Lemma mergeOverlappingClips_separated (clips : list Clip.t) :
  Forall Clip.wf clips ->
  exists merged,
    HighlightDetector.mergeOverlappingClips clips = Some merged
    /\ separated merged /\ Forall Clip.wf merged.
Proof.
  intros Hwf. unfold HighlightDetector.mergeOverlappingClips.
  pose proof (sort_sorted Clip.start clips) as Hsorted.
  pose proof (sort_Forall (fun a b => Clip.start a - Clip.start b) _ _ Hwf) as Hwfs.
  destruct (Js.sort (fun a b => Clip.start a - Clip.start b) clips) as [|first rest].
  - exists []. repeat split; constructor.
  - inversion Hsorted as [|? ? Hsr Hfr]; subst.
    inversion Hwfs as [|? ? Hwfirst Hwrest]; subst.
    apply (mergeLoop_separated rest [] first).
    + simpl. constructor; [assumption | constructor].
    + assumption.
    + simpl. repeat constructor.
    + exact Hfr.
    + exact Hsr.
Qed.

(** X5.  Merging loses no footage and invents no clip.  For clips with
    valid ranges [mergeOverlappingClips] returns; every given clip lies
    within the range of some returned clip; every returned clip is one of
    the given clips, as it is or with a wider range that contains the
    original one; there are at most as many clips as before, and at least
    one unless none was given. *)
Theorem mergeOverlappingClips_covers (clips : list Clip.t) :
  Forall Clip.wf clips ->
  exists merged,
    HighlightDetector.mergeOverlappingClips clips = Some merged
    /\ (forall c, In c clips -> exists m, In m merged /\ covers m c)
    /\ Forall (widened clips) merged
    /\ (length merged <= length clips)%nat
    /\ (clips <> [] -> merged <> []).
Proof.
  intros Hwf.
  destruct (mergeOverlappingClips_separated clips Hwf) as (merged & Hm & _ & _).
  exists merged. split; [exact Hm|].
  unfold HighlightDetector.mergeOverlappingClips in Hm.
  pose proof (sort_perm (fun a b => Clip.start a - Clip.start b) clips) as Hperm.
  pose proof (sort_Forall (fun a b => Clip.start a - Clip.start b) _ _ Hwf) as Hwfs.
  destruct (Js.sort (fun a b => Clip.start a - Clip.start b) clips) as [|first rest].
  - apply Permutation_nil in Hperm. subst clips. injection Hm as <-.
    repeat split; [intros c []|constructor|simpl; lia|congruence].
  - assert (Hcover :
              (forall c, In c ([] ++ first :: rest) -> exists m, In m merged /\ covers m c)
              /\ Forall (widened clips) merged
              /\ (length merged <= length ([] ++ first :: rest))%nat).
    { apply mergeLoop_cover.
      - eapply Forall_impl; [|exact Hwfs]. intros c [H0 _]. exact H0.
      - simpl. constructor; [|constructor].
        exists first. split; [apply (Permutation_in _ Hperm); now left|].
        split; [apply covers_refl|now left].
      - intros x Hx. apply (Permutation_in _ Hperm). now right.
      - exact Hm. }
    destruct Hcover as (Hcov & Hw & Hlen). simpl in Hcov, Hlen.
    assert (Hc : forall c, In c clips -> exists m, In m merged /\ covers m c).
    { intros c Hc. apply Hcov. apply (Permutation_in _ (Permutation_sym Hperm)). exact Hc. }
    split; [exact Hc|]. split; [exact Hw|].
    split; [rewrite <- (Permutation_length Hperm); exact Hlen|].
    intros Hne ->. destruct clips as [|c clips]; [congruence|].
    destruct (Hc c (or_introl eq_refl)) as (m & [] & _).
Qed.

Lemma mergeOverlappingClips_covers_witness :
  exists merged,
    HighlightDetector.mergeOverlappingClips [S3_A; S3_B] = Some merged
    /\ (forall c, In c [S3_A; S3_B] -> exists m, In m merged /\ covers m c)
    /\ (length merged <= 2)%nat.
Proof.
  assert (Hwf : Forall Clip.wf [S3_A; S3_B])
    by (repeat constructor; simpl; lra).
  destruct (mergeOverlappingClips_covers [S3_A; S3_B] Hwf)
    as (merged & Hm & Hcov & _ & Hlen & _).
  exists merged. split; [exact Hm|]. split; [exact Hcov|exact Hlen].
Defined.

Section SortSorted.
Context {A : Type} (key : A -> Q).

Lemma insert_least (x : A) (l : list A) :
  Forall (fun y => key x <= key y) l ->
  Js.insert (fun a b => key a - key b) x l = x :: l.
Proof.
  intros H. destruct l as [|y l]; [reflexivity|]. simpl.
  inversion H as [|? ? Hy _]; subst.
  replace (Js.Qlt_bool 0 (key x - key y)) with false; [reflexivity|].
  symmetry. apply Qlt_bool_false. lra.
Qed.

Lemma sort_sorted_id (l : list A) :
  StronglySorted (fun a b => key a <= key b) l ->
  Js.sort (fun a b => key a - key b) l = l.
Proof.
  induction 1 as [|x l Hs IH Hx]; [reflexivity|].
  change (Js.sort (fun a b => key a - key b) (x :: l))
    with (Js.insert (fun a b => key a - key b) x (Js.sort (fun a b => key a - key b) l)).
  rewrite IH. now apply insert_least.
Qed.

End SortSorted.

Lemma mergeLoop_separated_id (rest : list Clip.t) :
  forall merged_init last,
    separated (last :: rest) ->
    HighlightDetector.mergeLoop merged_init last rest
    = Some (merged_init ++ last :: rest).
Proof.
  induction rest as [|current rest IH]; intros init last Hsep; [reflexivity|].
  inversion Hsep as [|? ? Hs Hl]; subst. inversion Hl as [|? ? Hlc _]; subst.
  simpl. replace (Qle_bool (Clip.start current) (Clip.end_ last)) with false
    by (symmetry; now apply Qle_bool_false).
  rewrite IH by exact Hs. now rewrite <- app_assoc.
Qed.

(** X6.  The result of [mergeOverlappingClips] is a fixed point: merging
    it again returns it unchanged. *)
Theorem mergeOverlappingClips_idempotent (clips merged : list Clip.t) :
  Forall Clip.wf clips ->
  HighlightDetector.mergeOverlappingClips clips = Some merged ->
  HighlightDetector.mergeOverlappingClips merged = Some merged.
Proof.
  intros Hwf Hm.
  destruct (mergeOverlappingClips_separated clips Hwf) as (merged' & Hm' & Hsep & Hwfm).
  rewrite Hm in Hm'. injection Hm' as <-.
  unfold HighlightDetector.mergeOverlappingClips.
  rewrite (sort_sorted_id Clip.start merged (separated_sortedByStart merged Hwfm Hsep)).
  destruct merged as [|first rest]; [reflexivity|].
  now apply (mergeLoop_separated_id rest []).
Qed.

Lemma mergeOverlappingClips_idempotent_witness :
  HighlightDetector.mergeOverlappingClips [Clip.withAdjustedRange S3_B (TimeRange.mk 10 25)]
  = Some [Clip.withAdjustedRange S3_B (TimeRange.mk 10 25)].
Proof.
  apply (mergeOverlappingClips_idempotent [S3_A; S3_B]).
  - repeat constructor; simpl; lra.
  - reflexivity.
Defined.

(** ** The variance helper and [analyzeVariety] *)

Lemma Qlen_cons {A} (x : A) (l : list A) : Qlen (x :: l) == 1 + Qlen l.
Proof.
  unfold Qlen. simpl length. rewrite Nat2Z.inj_succ, <- Z.add_1_l, inject_Z_plus.
  reflexivity.
Qed.


Lemma Qlen_ge {A} (l : list A) (n : nat) :
  (n <= length l)%nat -> inject_Z (Z.of_nat n) <= Qlen l.
Proof. intros H. unfold Qlen. rewrite <- Zle_Qle. lia. Qed.

Lemma Qsq (x : Q) : x ^ 2 == x * x.
Proof. simpl. reflexivity. Qed.

Lemma Qsq_nonneg (x : Q) : 0 <= x ^ 2.
Proof. rewrite (Qsq x). nra. Qed.

Lemma Qsq_zero (x : Q) : x ^ 2 == 0 -> x == 0.
Proof.
  rewrite (Qsq x). intros H. destruct (Qmult_integral _ _ H); assumption.
Qed.

Lemma squares_nonneg (mean : Q) (arr : list Q) :
  forall acc, 0 <= acc -> 0 <= fold_left (fun s v => s + (v - mean) ^ 2) arr acc.
Proof.
  induction arr as [|v arr IH]; intros acc Hacc; cbn [fold_left]; [exact Hacc|].
  apply IH. pose proof (Qsq_nonneg (v - mean)). lra.
Qed.

Lemma squares_const (mean : Q) (arr : list Q) :
  Forall (fun v => v == mean) arr ->
  forall acc, fold_left (fun s v => s + (v - mean) ^ 2) arr acc == acc.
Proof.
  induction 1 as [|v arr Hv _ IH]; intros acc; cbn [fold_left]; [reflexivity|].
  rewrite IH, (Qsq (v - mean)), Hv. ring.
Qed.

Lemma squares_zero (mean : Q) (arr : list Q) :
  forall acc,
    0 <= acc ->
    fold_left (fun s v => s + (v - mean) ^ 2) arr acc == 0 ->
    acc == 0 /\ Forall (fun v => v == mean) arr.
Proof.
  induction arr as [|v arr IH]; intros acc Hacc H; cbn [fold_left] in H.
  - split; [exact H|constructor].
  - pose proof (Qsq_nonneg (v - mean)) as Hsq.
    assert (Hacc' : 0 <= acc + (v - mean) ^ 2) by lra.
    destruct (IH _ Hacc' H) as [H0 Hall].
    assert (Hv : (v - mean) ^ 2 == 0) by lra.
    apply Qsq_zero in Hv.
    split; [lra|]. constructor; [lra|exact Hall].
Qed.

Lemma sum_const (c : Q) (arr : list Q) :
  Forall (fun v => v == c) arr -> Js.sum arr == Qlen arr * c.
Proof.
  induction 1 as [|v arr Hv _ IH].
  - unfold Js.sum, Qlen. simpl. ring.
  - rewrite sum_cons, Qlen_cons, IH, Hv. ring.
Qed.

Lemma variance_nonneg (arr : list Q) : 0 <= _variance arr.
Proof.
  unfold _variance. destruct (length arr <? 2)%nat eqn:E; [lra|].
  apply Nat.ltb_ge in E.
  assert (Hn : 2 <= Qlen arr) by exact (Qlen_ge arr 2 E).
  pose proof (squares_nonneg (Js.sum arr / Qlen arr) arr 0 ltac:(lra)) as Hsq.
  apply Qle_shift_div_l; lra.
Qed.

Lemma variance_zero_iff (arr : list Q) :
  _variance arr == 0 <-> forall v w, In v arr -> In w arr -> v == w.
Proof.
  unfold _variance. destruct (length arr <? 2)%nat eqn:E.
  - apply Nat.ltb_lt in E. split; [|reflexivity].
    intros _ v w Hv Hw. destruct arr as [|x [|y arr]]; simpl in *; [contradiction| |lia].
    destruct Hv as [<-|[]], Hw as [<-|[]]. reflexivity.
  - apply Nat.ltb_ge in E.
    set (mean := Js.sum arr / Qlen arr).
    assert (Hn : 2 <= Qlen arr) by exact (Qlen_ge arr 2 E).
    pose proof (squares_nonneg mean arr 0 ltac:(lra)) as Hsq.
    split.
    + intros H0.
      assert (Hz : fold_left (fun s v => s + (v - mean) ^ 2) arr 0 == 0).
      { setoid_replace (fold_left (fun s v => s + (v - mean) ^ 2) arr 0)
          with (fold_left (fun s v => s + (v - mean) ^ 2) arr 0 / (Qlen arr - 1)
                * (Qlen arr - 1)) by (field; lra).
        rewrite H0. ring. }
      destruct (squares_zero mean arr 0 ltac:(lra) Hz) as [_ Hall].
      rewrite Forall_forall in Hall.
      intros v w Hv Hw. rewrite (Hall v Hv), (Hall w Hw). reflexivity.
    + intros Hall.
      destruct arr as [|c arr']; [simpl in E; lia|].
      assert (Hc : Forall (fun v => v == c) (c :: arr')).
      { apply Forall_forall. intros v Hv. apply Hall; [exact Hv|now left]. }
      assert (Hmean : mean == c).
      { unfold mean. rewrite (sum_const c _ Hc). field. lra. }
      assert (Hm : Forall (fun v => v == mean) (c :: arr')).
      { eapply Forall_impl; [|exact Hc]. simpl. intros v Hv. rewrite Hv, Hmean.
        reflexivity. }
      rewrite (squares_const mean _ Hm 0). field. lra.
Qed.

(** X7.  The sample variance [_variance] is never negative and is 0 for
    fewer than two numbers.  For at most a thousand whole numbers up to a
    million, whose sum and mean are computed without rounding, it is 0
    exactly when all the numbers are equal. *)
Theorem variance_spec (arr : list Q) :
  0 <= _variance arr
  /\ ((length arr < 2)%nat -> _variance arr = 0)
  /\ ((length arr <= 1000)%nat ->
      Forall (wholeUpTo 1000000) arr ->
      (_variance arr == 0 <-> forall v w, In v arr -> In w arr -> v == w)).
Proof.
  split; [apply variance_nonneg|]. split.
  - intro H. unfold _variance. apply Nat.ltb_lt in H. now rewrite H.
  - intros _ _. apply variance_zero_iff.
Qed.

Lemma nodup_length_bounds (l : list string) :
  l <> [] -> (1 <= length (nodup string_dec l) <= length l)%nat.
Proof.
  intros Hne. split.
  - destruct l as [|x l]; [congruence|].
    assert (Hin : In x (nodup string_dec (x :: l))) by (apply nodup_In; now left).
    destruct (nodup string_dec (x :: l)); [contradiction|simpl; lia].
  - apply NoDup_incl_length; [apply NoDup_nodup|].
    intros x Hx. now apply nodup_In in Hx.
Qed.

(** X8.  [analyzeVariety]: for no clips the score is 0 with the single
    issue [no_clips].  Otherwise the number of clip types is between 1 and
    the number of clips, the duration variance is not negative, and the
    score lies in [20, 100]; [low_type_variety] is raised exactly when all
    clips have one type, [uniform_clip_lengths] exactly when the variance is
    below 2, and [no_clips] never.  A single clip always gets both issues
    and the score 20. *)
Theorem analyzeVariety_spec (clips : list Clip.t) :
  (clips = [] ->
   HighlightDetector.analyzeVariety clips
   = HighlightDetector.mkVarietyAnalysis 0 None None ["no_clips"%string])
  /\ (clips <> [] ->
      exists u v,
        HighlightDetector.uniqueTypes (HighlightDetector.analyzeVariety clips) = Some u
        /\ HighlightDetector.durationVariance (HighlightDetector.analyzeVariety clips)
           = Some v
        /\ (1 <= u <= length clips)%nat
        /\ 0 <= v
        /\ 20 <= HighlightDetector.varietyScore (HighlightDetector.analyzeVariety clips)
           <= 100
        /\ (In "low_type_variety"%string
               (HighlightDetector.issues (HighlightDetector.analyzeVariety clips))
            <-> u = 1%nat)
        /\ (In "uniform_clip_lengths"%string
               (HighlightDetector.issues (HighlightDetector.analyzeVariety clips))
            <-> v < 2)
        /\ ~ In "no_clips"%string
                (HighlightDetector.issues (HighlightDetector.analyzeVariety clips))
        /\ (length clips = 1%nat ->
            HighlightDetector.issues (HighlightDetector.analyzeVariety clips)
            = ["low_type_variety"; "uniform_clip_lengths"]%string
            /\ HighlightDetector.varietyScore (HighlightDetector.analyzeVariety clips)
               == 20)).
Proof.
  split; [intros ->; reflexivity|].
  intros Hne. destruct clips as [|c0 clips0]; [congruence|].
  set (clips := c0 :: clips0) in *.
  unfold HighlightDetector.analyzeVariety. fold clips.
  set (types := map (fun c => str_or (Clip.clipType c) "unknown") clips).
  set (u := length (nodup string_dec types)).
  set (v := if (1 <? length (map Clip.duration clips))%nat
            then _variance (map Clip.duration clips) else 0).
  assert (Hu : (1 <= u <= length clips)%nat).
  { unfold u. rewrite <- (length_map (fun c => str_or (Clip.clipType c) "unknown") clips).
    apply nodup_length_bounds. unfold types, clips. simpl. discriminate. }
  assert (Hv : 0 <= v).
  { unfold v. destruct (1 <? _)%nat; [apply variance_nonneg|lra]. }
  assert (Huq : 1 <= inject_Z (Z.of_nat u)).
  { change 1 with (inject_Z 1). rewrite <- Zle_Qle. lia. }
  exists u, v. unfold clips at 1. cbv beta iota. fold clips types u v.
  cbn [HighlightDetector.uniqueTypes HighlightDetector.durationVariance
       HighlightDetector.varietyScore HighlightDetector.issues].
  split; [reflexivity|]. split; [reflexivity|]. split; [exact Hu|]. split; [exact Hv|].
  assert (Hscore : 20 <= Js.Math_min 100 (inject_Z (Z.of_nat u) * 20
                                          + Js.Math_min 30 (v * 5)) <= 100).
  { destruct (Math_min_spec 30 (v * 5)) as [[? ->]|[? ->]];
      destruct (Math_min_spec 100 (inject_Z (Z.of_nat u) * 20 + 30)) as [[? E1]|[? E1]];
      destruct (Math_min_spec 100 (inject_Z (Z.of_nat u) * 20 + v * 5)) as [[? E2]|[? E2]];
      rewrite ?E1, ?E2; lra. }
  split; [exact Hscore|].
  split.
  { destruct (u <? 2)%nat eqn:E.
    - apply Nat.ltb_lt in E. split; [lia|]. intros _. now left.
    - apply Nat.ltb_ge in E. simpl. split; [|lia].
      destruct (Js.Qlt_bool v 2); simpl; intuition discriminate. }
  split.
  { destruct (Js.Qlt_bool v 2) eqn:E.
    - apply Qlt_bool_iff in E. split; [intros _; exact E|].
      intros _. apply in_or_app. right. now left.
    - apply Qlt_bool_false in E. split; [|lra].
      destruct (u <? 2)%nat; simpl; intuition discriminate. }
  split.
  { destruct (u <? 2)%nat, (Js.Qlt_bool v 2); simpl; intuition discriminate. }
  intros Hone.
  assert (Hu1 : u = 1%nat) by lia.
  assert (Hv0 : v = 0).
  { unfold v. rewrite length_map, Hone. reflexivity. }
  rewrite Hu1, Hv0. split; [reflexivity|]. vm_compute. reflexivity.
Qed.

(** ** CompositionPlanner: scoring *)


Lemma closestLoop_spec (midTime : Q) (analyses : list FrameAnalysis.t) :
  forall closest,
    match closest with
    | None => True
    | Some (a, d) => d = Js.Math_abs (FrameAnalysis.timestamp a - midTime)
    end ->
    match CompositionPlanner.closestLoop midTime analyses closest with
    | None => closest = None /\ analyses = []
    | Some (a, d) =>
        d = Js.Math_abs (FrameAnalysis.timestamp a - midTime)
        /\ (closest = Some (a, d) \/ In a analyses)
        /\ (forall a', In a' analyses ->
                       d <= Js.Math_abs (FrameAnalysis.timestamp a' - midTime))
        /\ match closest with Some (_, d0) => d <= d0 | None => True end
    end.
Proof.
  induction analyses as [|a analyses IH]; intros closest Hc; simpl.
  - destruct closest as [[a0 d0]|]; [|auto].
    repeat split; [exact Hc|now left|intros a' []|lra].
  - set (d := Js.Math_abs (FrameAnalysis.timestamp a - midTime)).
    set (next := if match closest with
                    | Some (_, closestDist) => Js.Qlt_bool d closestDist
                    | None => true
                    end then Some (a, d) else closest).
    assert (Hnext : match next with
                    | None => True
                    | Some (a1, d1) => d1 = Js.Math_abs (FrameAnalysis.timestamp a1 - midTime)
                    end).
    { unfold next. destruct closest as [[a0 d0]|]; [|reflexivity].
      destruct (Js.Qlt_bool d d0); [reflexivity|exact Hc]. }
    assert (Hle : match next with
                  | Some (a1, d1) =>
                      d1 <= d
                      /\ (next = closest \/ a1 = a)
                      /\ match closest with Some (_, d0) => d1 <= d0 | None => True end
                  | None => False
                  end).
    { unfold next. destruct closest as [[a0 d0]|]; [|repeat split; auto; lra].
      destruct (Js.Qlt_bool d d0) eqn:E.
      - apply Qlt_bool_iff in E. repeat split; auto; lra.
      - apply Qlt_bool_false in E. repeat split; auto; lra. }
    specialize (IH next Hnext).
    destruct (CompositionPlanner.closestLoop midTime analyses next) as [[a2 d2]|].
    + destruct IH as (Hd & Hin & Hmin & Hprev).
      destruct next as [[a1 d1]|]; [|contradiction].
      destruct Hle as (Hle1 & Hor & Hle0).
      split; [exact Hd|]. split.
      * destruct Hin as [Hin|Hin]; [|right; now right].
        injection Hin as <- <-.
        destruct Hor as [Hor|Hor]; [left; now rewrite <- Hor|right; left; now symmetry].
      * split.
        -- intros a' [<-|Ha']; [fold d; lra|now apply Hmin].
        -- destruct closest as [[a0 d0]|]; [lra|exact I].
    + destruct IH as [-> _]. contradiction.
Qed.

Lemma intensityScores_bounds (s : string) :
  0 <= num_or (table_get CompositionPlanner.intensityScores s) 0 <= 8.
Proof.
  unfold CompositionPlanner.intensityScores. simpl.
  repeat (destruct (String.eqb s _); [simpl; lra|]). simpl. lra.
Qed.

(** What [scoreClip] makes of a clip. *)
Lemma scoreClip_spec (this : CompositionPlanner.t) (analyses : list FrameAnalysis.t)
      (c : Clip.t) :
  scored this analyses c (CompositionPlanner.scoreClip this analyses c).
Proof.
  unfold scored, CompositionPlanner.scoreClip.
  pose proof (closestLoop_spec (TimeRange.midpoint (Clip.timeRange c)) analyses None I)
    as Hclosest.
  destruct (CompositionPlanner.closestLoop _ analyses None) as [[a d]|].
  - destruct Hclosest as (Hd & Hin & Hmin & _).
    destruct Hin as [Hin|Hin]; [discriminate|].
    cbn [Clip.timeRange Clip.id Clip.reason Clip.clipType Clip.label Clip.priority
         Clip.metadata Clip.score Clip.actionIntensity].
    repeat (split; [reflexivity|]).
    split.
    + pose proof (intensityScores_bounds (FrameAnalysis.actionIntensity a)) as Hi.
      set (i := num_or _ 0) in *.
      apply QualityScore_new_inside_bounds; [lra|lra|].
      destruct (FrameAnalysis.killLog a);
        destruct (String.eqb (FrameAnalysis.matchStatus a) "victory");
        destruct (String.eqb (FrameAnalysis.matchStatus a) "clutch");
        destruct (Js.Qlt_bool (CompositionPlanner.maxClipLength this) (Clip.duration c));
        destruct (Js.Qlt_bool (Clip.duration c) (CompositionPlanner.minClipLength this));
        match goal with
        | |- context [Js.Math_max 0 ?x] =>
            destruct (Math_max_spec 0 x) as [[? ->]|[? ->]]; lra
        end.
    + destruct analyses as [|a0 analyses0]; [contradiction|].
      exists a. split; [exact Hin|]. split; [reflexivity|].
      intros a' Ha'. rewrite <- Hd. now apply Hmin.
  - destruct Hclosest as [_ ->].
    cbn [Clip.timeRange Clip.id Clip.reason Clip.clipType Clip.label Clip.priority
         Clip.metadata Clip.score Clip.actionIntensity].
    repeat (split; [reflexivity|]).
    split.
    + apply QualityScore_new_inside_bounds; [lra|lra|].
      destruct (Js.Qlt_bool (CompositionPlanner.maxClipLength this) (Clip.duration c));
        destruct (Js.Qlt_bool (Clip.duration c) (CompositionPlanner.minClipLength this));
        match goal with
        | |- context [Js.Math_max 0 ?x] =>
            destruct (Math_max_spec 0 x) as [[? ->]|[? ->]]; lra
        end.
    + split; [reflexivity|].
      destruct (Js.Qlt_bool (CompositionPlanner.maxClipLength this) (Clip.duration c));
        destruct (Js.Qlt_bool (Clip.duration c) (CompositionPlanner.minClipLength this));
        vm_compute; reflexivity.
Qed.

Lemma scoreClips_spec_aux (this : CompositionPlanner.t) (clips : list Clip.t)
      (analyses : list FrameAnalysis.t) :
  Forall2 (scored this analyses) clips (CompositionPlanner.scoreClips this clips analyses).
Proof.
  unfold CompositionPlanner.scoreClips.
  induction clips as [|c clips IH]; simpl; constructor; [apply scoreClip_spec|exact IH].
Qed.

(** X9.  [scoreClips], for analyses whose action intensity reaches no
    inherited member of the score table, with timestamps and clip bounds
    that are whole numbers of seconds (up to 10^9, so that midpoints and
    distances are computed without rounding): it keeps the clips in number
    and order and, for each clip, its range, identifier, reason, type,
    label, priority and metadata.  The score it writes replaces the one the
    clip had; it has no breakdown and lies in [0, 25].  With analyses, the
    action intensity becomes the one of an analysis whose timestamp is
    nearest to the midpoint of the clip; without any, the score is 0 and the
    intensity stays. *)
Theorem scoreClips_spec (this : CompositionPlanner.t) (clips : list Clip.t)
        (analyses : list FrameAnalysis.t) :
  Forall (fun a => plainKey (FrameAnalysis.actionIntensity a)) analyses ->
  Forall (fun a => wholeUpTo 1000000000 (FrameAnalysis.timestamp a)) analyses ->
  Forall (fun c => wholeUpTo 1000000000 (Clip.start c)
                   /\ wholeUpTo 1000000000 (Clip.end_ c)) clips ->
  length (CompositionPlanner.scoreClips this clips analyses) = length clips
  /\ forall i c,
      nth_error clips i = Some c ->
      exists c',
        nth_error (CompositionPlanner.scoreClips this clips analyses) i = Some c'
        /\ scored this analyses c c'.
Proof.
  intros _ _ _.
  pose proof (scoreClips_spec_aux this clips analyses) as H. split.
  - symmetry. eapply Forall2_length, H.
  - intros i c Hi. exact (Forall2_nth_error_l _ _ _ H i c Hi).
Qed.

Lemma scoreClips_spec_witness :
  length (CompositionPlanner.scoreClips S4_planner [S3_A; S3_B]
                                        [S1_analysis; countOnly_analysis])
  = 2%nat.
Proof.
  refine (proj1 (scoreClips_spec S4_planner [S3_A; S3_B]
                                 [S1_analysis; countOnly_analysis] _ _ _)).
  - repeat constructor.
  - repeat constructor; [exists 0%Z | exists 20%Z]; split; try lia; reflexivity.
  - repeat constructor; simpl;
      [exists 10%Z | exists 18%Z | exists 15%Z | exists 25%Z]; split; try lia; reflexivity.
Defined.

Lemma scoreClips_wf_scores (this : CompositionPlanner.t) (clips : list Clip.t)
      (analyses : list FrameAnalysis.t) :
  Forall (fun c => 0 <= QualityScore.value (Clip.score c) <= 25
                   /\ QualityScore.breakdown (Clip.score c) = [])
         (CompositionPlanner.scoreClips this clips analyses).
Proof.
  unfold CompositionPlanner.scoreClips. apply Forall_map, Forall_forall.
  intros c _. destruct (scoreClip_spec this analyses c)
    as (_ & _ & _ & _ & _ & _ & _ & Hb & Hv & _).
  split; assumption.
Qed.

(** ** CompositionPlanner: clip lengths *)

Lemma mapM_Forall2 {A B} (f : A -> option B) (R : A -> B -> Prop) (P : A -> Prop) :
  (forall x, P x -> exists y, f x = Some y /\ R x y) ->
  forall xs, Forall P xs -> exists ys, mapM f xs = Some ys /\ Forall2 R xs ys.
Proof.
  intros Hf. induction 1 as [|x xs Hx _ (ys & E & H2)]; simpl.
  - exists []. split; [reflexivity|constructor].
  - destruct (Hf x Hx) as (y & Ey & Hy). rewrite Ey, E.
    exists (y :: ys). split; [reflexivity|now constructor].
Qed.

Ltac halve t name H :=
  set (name := t / 2) in *;
  assert (H : name * 2 == t) by (unfold name; field);
  clearbody name.

Lemma Qhalf_eq (a b : Q) : a == b * 2 -> a / 2 == b.
Proof. intros ->. field. Qed.

Lemma adjustClipLength_spec (this : CompositionPlanner.t) (c : Clip.t) :
  0 < CompositionPlanner.minClipLength this ->
  CompositionPlanner.minClipLength this <= CompositionPlanner.maxClipLength this ->
  Clip.wf c ->
  exists c', CompositionPlanner.adjustClipLength this c = Some c' /\ adjusted this c c'.
Proof.
  intros Hmin Hmax [H0 Hc]. unfold CompositionPlanner.adjustClipLength, adjusted.
  unfold Clip.duration, TimeRange.duration, TimeRange.midpoint, Clip.wf, TimeRange.wf,
    covers, Clip.start, Clip.end_ in *.
  set (s := TimeRange.startSeconds (Clip.timeRange c)) in *.
  set (e := TimeRange.endSeconds (Clip.timeRange c)) in *.
  set (mx := CompositionPlanner.maxClipLength this) in *.
  set (mn := CompositionPlanner.minClipLength this) in *.
  destruct (Js.Qlt_bool mx (e - s)) eqn:E1.
  - apply Qlt_bool_iff in E1. clearbody s e mx mn.
    halve (s + e) center Hcenter. halve mx half Hhalf.
    assert (Es : Js.Math_max s (center - half) == center - half)
      by (destruct (Math_max_spec s (center - half)) as [[? ->]|[? ->]]; lra).
    assert (Ee : Js.Math_min e (center + half) == center + half)
      by (destruct (Math_min_spec e (center + half)) as [[? ->]|[? ->]]; lra).
    rewrite TimeRange_new_valid by (rewrite ?Es, ?Ee; lra).
    eexists. split; [reflexivity|]. simpl.
    set (s' := Js.Math_max s (center - half)) in *.
    set (e' := Js.Math_min e (center + half)) in *.
    clearbody s' e'.
    split; [split; simpl; lra|]. split; [reflexivity|].
    split; [lra|].
    split; [intros _; split; [lra|split; [apply Qhalf_eq; lra|split; lra]]|].
    intros H. lra.
  - apply Qlt_bool_false in E1. destruct (Js.Qlt_bool (e - s) mn) eqn:E2.
    + apply Qlt_bool_iff in E2. clearbody s e mx mn.
      halve (s + e) center Hcenter. halve (mn - (e - s)) ext Hext.
      assert (Es : 0 <= Js.Math_max 0 (s - ext)
                   /\ Js.Math_max 0 (s - ext) <= s
                   /\ s - ext <= Js.Math_max 0 (s - ext)
                   /\ (ext <= s -> Js.Math_max 0 (s - ext) == s - ext)).
      { destruct (Math_max_spec 0 (s - ext)) as [[? ->]|[? ->]];
          repeat split; try lra; intros; lra. }
      set (s' := Js.Math_max 0 (s - ext)) in *. clearbody s'.
      destruct Es as (Es0 & Es1 & Es2 & Es3).
      rewrite TimeRange_new_valid by lra.
      eexists. split; [reflexivity|]. simpl.
      split; [split; simpl; lra|]. split; [reflexivity|].
      split; [lra|]. split; [intros H; lra|]. intros _.
      split; [split; lra|]. split; [lra|]. split; [lra|].
      intros Hroom. specialize (Es3 Hroom). split; [lra|]. apply Qhalf_eq. lra.
    + apply Qlt_bool_false in E2. exists c. split; [reflexivity|]. simpl.
      split; [split; assumption|]. split; [reflexivity|]. split; [exact E1|].
      split; intros H; lra.
Qed.



(** ** CompositionPlanner: trimming is idempotent *)

Lemma trimToTargetDuration_fits (this : CompositionPlanner.t) (clips : list Clip.t) :
  CompositionPlanner.totalDuration clips <= CompositionPlanner.targetDuration this ->
  CompositionPlanner.trimToTargetDuration this clips = Some clips.
Proof.
  intros H. unfold CompositionPlanner.trimToTargetDuration.
  destruct clips as [|c clips]; [reflexivity|].
  apply Qle_bool_iff in H. now rewrite H.
Qed.




(** ** CompositionPlanner: pacing *)

Lemma pacing_classes (c : Clip.t) :
  (isHigh c = true -> isMedium c = false /\ isLow c = false)
  /\ (isMedium c = true -> isHigh c = false /\ isLow c = false)
  /\ (isLow c = true -> isHigh c = false /\ isMedium c = false).
Proof.
  unfold isHigh, isMedium, isLow.
  destruct (String.eqb (Clip.actionIntensity c) "very_high") eqn:E1;
    destruct (String.eqb (Clip.actionIntensity c) "high") eqn:E2;
    destruct (String.eqb (Clip.actionIntensity c) "medium") eqn:E3;
    destruct (String.eqb (Clip.actionIntensity c) "low") eqn:E4;
    simpl; repeat split; intros; try reflexivity; try discriminate;
    repeat match goal with
           | H : String.eqb _ _ = true |- _ => apply String.eqb_eq in H
           end; congruence.
Qed.

Lemma alternate_filter_high (f : Clip.t -> bool) (medium : list Clip.t) :
  forall high,
    Forall (fun c => f c = false) medium -> Forall (fun c => f c = true) high ->
    filter f (CompositionPlanner.alternate medium high) = high.
Proof.
  induction medium as [|m medium IH]; intros high Hm Hh; simpl.
  - now apply filter_all.
  - inversion Hm as [|? ? Hfm Hm']; subst.
    destruct high as [|h high]; simpl.
    + rewrite Hfm. now apply filter_none.
    + inversion Hh as [|? ? Hfh Hh']; subst. rewrite Hfm, Hfh. f_equal. now apply IH.
Qed.

Lemma alternate_filter_medium (f : Clip.t -> bool) (medium : list Clip.t) :
  forall high,
    Forall (fun c => f c = true) medium -> Forall (fun c => f c = false) high ->
    filter f (CompositionPlanner.alternate medium high) = medium.
Proof.
  induction medium as [|m medium IH]; intros high Hm Hh; simpl.
  - now apply filter_none.
  - inversion Hm as [|? ? Hfm Hm']; subst.
    destruct high as [|h high]; simpl.
    + rewrite Hfm. f_equal. now apply filter_all.
    + inversion Hh as [|? ? Hfh Hh']; subst. rewrite Hfm, Hfh. f_equal. now apply IH.
Qed.

Lemma alternate_perm (medium : list Clip.t) :
  forall high, Permutation (CompositionPlanner.alternate medium high) (high ++ medium).
Proof.
  induction medium as [|m medium IH]; intros high; simpl.
  - now rewrite app_nil_r.
  - destruct high as [|h high]; simpl; [reflexivity|].
    rewrite perm_swap. constructor. rewrite (IH high).
    apply Permutation_middle.
Qed.

Lemma filter_class (f : Clip.t -> bool) (clips : list Clip.t) :
  Forall (fun c => f c = true) (filter f clips).
Proof.
  apply Forall_forall. intros c Hc. now apply filter_In in Hc.
Qed.

Lemma filter_other_class (f g : Clip.t -> bool) (clips : list Clip.t) :
  (forall c, f c = true -> g c = false) ->
  Forall (fun c => g c = false) (filter f clips).
Proof.
  intros H. apply Forall_forall. intros c Hc. apply filter_In in Hc as [_ Hc]. auto.
Qed.

(** The clips that [optimizePacing] puts before the low ones. *)
Lemma paced_head (clips : list Clip.t) :
  let paced := match filter isHigh clips with
               | [] => CompositionPlanner.alternate (filter isMedium clips) []
               | h :: high' => h :: CompositionPlanner.alternate (filter isMedium clips) high'
               end in
  filter isHigh paced = filter isHigh clips
  /\ filter isMedium paced = filter isMedium clips
  /\ Forall (fun c => isLow c = false) paced
  /\ Permutation paced (filter isHigh clips ++ filter isMedium clips)
  /\ hd_error paced = hd_error (filter isHigh clips ++ filter isMedium clips).
Proof.
  pose proof (filter_class isHigh clips) as Hh.
  pose proof (filter_class isMedium clips) as Hm.
  assert (Hhm : Forall (fun c => isMedium c = false) (filter isHigh clips))
    by (apply filter_other_class; intros c Hc; now apply pacing_classes in Hc).
  assert (Hhl : Forall (fun c => isLow c = false) (filter isHigh clips))
    by (apply filter_other_class; intros c Hc; now apply pacing_classes in Hc).
  assert (Hmh : Forall (fun c => isHigh c = false) (filter isMedium clips))
    by (apply filter_other_class; intros c Hc; now apply pacing_classes in Hc).
  assert (Hml : Forall (fun c => isLow c = false) (filter isMedium clips))
    by (apply filter_other_class; intros c Hc; now apply pacing_classes in Hc).
  destruct (filter isHigh clips) as [|h high']; simpl.
  - repeat split.
    + now apply alternate_filter_high.
    + now apply alternate_filter_medium.
    + apply alternate_Forall; [exact Hml|constructor].
    + apply alternate_perm.
    + destruct (filter isMedium clips); reflexivity.
  - inversion Hh as [|? ? Eh Hh']; subst. inversion Hhm as [|? ? Em Hhm']; subst.
    inversion Hhl as [|? ? El Hhl']; subst.
    rewrite Eh, Em. repeat split.
    + f_equal. now apply alternate_filter_high.
    + now apply alternate_filter_medium.
    + constructor; [exact El|]. now apply alternate_Forall.
    + constructor. apply alternate_perm.
Qed.

Lemma firstn_filter_all {A} (f : A -> bool) (n : nat) (l : list A) :
  Forall (fun x => f x = true) l -> filter f (firstn n l) = firstn n l.
Proof. intros H. apply filter_all. now apply firstn_Forall. Qed.

Lemma classes_perm (clips : list Clip.t) :
  Permutation clips
    (filter isHigh clips ++ filter isMedium clips ++ filter isLow clips
     ++ filter (fun c => negb (isHigh c || isMedium c || isLow c)) clips).
Proof.
  induction clips as [|c clips IH]; simpl; [constructor|].
  pose proof (pacing_classes c) as (Hh & Hm & Hl).
  destruct (isHigh c) eqn:Eh.
  - destruct (Hh eq_refl) as [-> ->]. simpl. now constructor.
  - destruct (isMedium c) eqn:Em.
    + destruct (Hm eq_refl) as [_ ->]. simpl.
      rewrite <- Permutation_middle. now constructor.
    + destruct (isLow c) eqn:El; simpl.
      * rewrite app_assoc, <- Permutation_middle, <- app_assoc. now constructor.
      * rewrite !app_assoc, <- Permutation_middle, <- !app_assoc. now constructor.
Qed.

Lemma optimizePacing_perm (clips : list Clip.t) :
  (2 < length clips)%nat ->
  Permutation (CompositionPlanner.optimizePacing clips)
              (filter isHigh clips ++ filter isMedium clips
               ++ firstn 2 (filter isLow clips)).
Proof.
  intros Hlen. unfold CompositionPlanner.optimizePacing.
  replace (length clips <=? 2)%nat with false by (symmetry; apply Nat.leb_gt; lia).
  destruct (paced_head clips) as (_ & _ & _ & Hperm & _).
  fold isHigh isMedium isLow in *.
  change (fun c => String.eqb (Clip.actionIntensity c) "very_high"
                   || String.eqb (Clip.actionIntensity c) "high") with isHigh.
  change (fun c => String.eqb (Clip.actionIntensity c) "medium") with isMedium.
  change (fun c => String.eqb (Clip.actionIntensity c) "low") with isLow.
  rewrite app_assoc. apply Permutation_app_tail. exact Hperm.
Qed.

(** X12.  [optimizePacing]: up to two clips are returned as they are.  Of more
    clips, all the high ([very_high] or [high]) and all the medium ones are
    kept, each class in the order it had, the first clip being the first
    high one if there is any; of the low ones only the first two are kept,
    at the end; a clip with any other intensity is dropped.  No clip is
    invented or repeated. *)
Theorem optimizePacing_spec (clips : list Clip.t) :
  ((length clips <= 2)%nat -> CompositionPlanner.optimizePacing clips = clips)
  /\ ((2 < length clips)%nat ->
      filter isHigh (CompositionPlanner.optimizePacing clips) = filter isHigh clips
      /\ filter isMedium (CompositionPlanner.optimizePacing clips) = filter isMedium clips
      /\ filter isLow (CompositionPlanner.optimizePacing clips)
         = firstn 2 (filter isLow clips)
      /\ Forall (fun c => isHigh c || isMedium c || isLow c = true)
                (CompositionPlanner.optimizePacing clips)
      /\ (forall h, hd_error (filter isHigh clips) = Some h ->
                    hd_error (CompositionPlanner.optimizePacing clips) = Some h)
      /\ (exists paced,
             CompositionPlanner.optimizePacing clips
             = paced ++ firstn 2 (filter isLow clips)
             /\ Forall (fun c => isLow c = false) paced)
      /\ Permutation (CompositionPlanner.optimizePacing clips)
                     (filter isHigh clips ++ filter isMedium clips
                      ++ firstn 2 (filter isLow clips)))
  /\ (forall c, In c (CompositionPlanner.optimizePacing clips) -> In c clips)
  /\ (length (CompositionPlanner.optimizePacing clips) <= length clips)%nat.
Proof.
  assert (Hsmall : (length clips <= 2)%nat -> CompositionPlanner.optimizePacing clips = clips).
  { intros H. unfold CompositionPlanner.optimizePacing.
    apply Nat.leb_le in H. now rewrite H. }
  split; [exact Hsmall|].
  assert (Hin : forall c, In c (CompositionPlanner.optimizePacing clips) -> In c clips).
  { pose proof (optimizePacing_Forall (fun c => In c clips) clips) as H.
    rewrite !Forall_forall in H. intros c Hc. apply H; auto. }
  split; [|split; [exact Hin|]].
  - intros Hlen. pose proof (optimizePacing_perm clips Hlen) as Hperm.
    unfold CompositionPlanner.optimizePacing in *.
    replace (length clips <=? 2)%nat with false in *
      by (symmetry; apply Nat.leb_gt; lia).
    change (fun c => String.eqb (Clip.actionIntensity c) "very_high"
                     || String.eqb (Clip.actionIntensity c) "high") with isHigh in *.
    change (fun c => String.eqb (Clip.actionIntensity c) "medium") with isMedium in *.
    change (fun c => String.eqb (Clip.actionIntensity c) "low") with isLow in *.
    destruct (paced_head clips) as (Hh & Hm & Hl & _ & Hhd).
    set (paced := match filter isHigh clips with
                  | [] => CompositionPlanner.alternate (filter isMedium clips) []
                  | h :: high' =>
                      h :: CompositionPlanner.alternate (filter isMedium clips) high'
                  end) in *.
    pose proof (filter_class isLow clips) as Hlow.
    assert (Hlh : Forall (fun c => isHigh c = false) (firstn 2 (filter isLow clips))).
    { apply firstn_Forall, filter_other_class. intros c Hc. now apply pacing_classes in Hc. }
    assert (Hlm : Forall (fun c => isMedium c = false) (firstn 2 (filter isLow clips))).
    { apply firstn_Forall, filter_other_class. intros c Hc. now apply pacing_classes in Hc. }
    split; [rewrite filter_app, Hh, (filter_none _ _ Hlh); apply app_nil_r|].
    split; [rewrite filter_app, Hm, (filter_none _ _ Hlm); apply app_nil_r|].
    split; [rewrite filter_app, (filter_none _ _ Hl), firstn_filter_all by exact Hlow;
            reflexivity|].
    split.
    { apply Forall_forall. intros c Hc.
      apply (Permutation_in _ Hperm) in Hc.
      apply in_app_or in Hc as [Hc|Hc]; [|apply in_app_or in Hc as [Hc|Hc]].
      - apply filter_In in Hc as [_ ->]. reflexivity.
      - apply filter_In in Hc as [_ ->]. apply orb_true_iff. left. apply orb_true_r.
      - pose proof (firstn_Forall _ 2 _ Hlow) as Hl2. rewrite Forall_forall in Hl2.
        rewrite (Hl2 c Hc). apply orb_true_r. }
    split.
    { intros h Hhead. destruct (filter isHigh clips) as [|h0 high'] eqn:E; [discriminate|].
      injection Hhead as ->. reflexivity. }
    split; [exists paced; split; [reflexivity|exact Hl]|exact Hperm].
  - destruct (Nat.le_gt_cases (length clips) 2) as [H|H].
    + rewrite (Hsmall H). lia.
    + rewrite (Permutation_length (optimizePacing_perm clips H)).
      rewrite (Permutation_length (classes_perm clips)).
      rewrite !length_app. pose proof (length_firstn 2 (filter isLow clips)). lia.
Qed.

(** ** CompositionPlanner: the engagement curve *)






(** ** ClipScorer: the score of one clip *)




(** ** CreativeDirector: [direct] returns *)



Lemma Math_max_0_bounds (a : Q) : 0 <= Js.Math_max 0 a /\ a <= Js.Math_max 0 a.
Proof. destruct (Math_max_spec 0 a) as [[? ->]|[? ->]]; lra. Qed.




Lemma detectMultiEvents_ordered (analyses : list FrameAnalysis.t) (timeWindow : Q) :
  Forall (fun e => HighlightDetector.me_timestamp e <= HighlightDetector.me_endTimestamp e)
         (HighlightDetector.detectMultiEvents analyses timeWindow).
Proof.
  unfold HighlightDetector.detectMultiEvents.
  set (ts := Js.sort _ _).
  assert (Hsorted : StronglySorted Qle ts) by exact (sort_sorted (fun x => x) _).
  destruct (sweep_spec timeWindow (length ts) ts (le_n _) Hsorted) as [Hev _].
  eapply Forall_impl; [|exact Hev]. intros e He. apply He.
Qed.

Lemma Forall_and {A} (P Q : A -> Prop) (l : list A) :
  Forall P l -> Forall Q l -> Forall (fun x => P x /\ Q x) l.
Proof.
  induction 1 as [|x l Hx _ IH]; intros HQ; [constructor|].
  inversion HQ; subst. constructor; auto.
Qed.


Section PlannerReturns.
Variable this : CompositionPlanner.t.
Hypothesis Hmin : 0 < CompositionPlanner.minClipLength this.
Hypothesis Hmax : 0 < CompositionPlanner.maxClipLength this.





End PlannerReturns.



(** ** CreativeDirector: what the composition keeps *)

(** A property of clips that does not depend on the range is kept by every
    stage after scoring. *)
Section RangeInvariant.
Variable this : CompositionPlanner.t.
Variable P : Clip.t -> Prop.
Hypothesis P_range : forall c r, P c -> P (Clip.withAdjustedRange c r).

Lemma adjustClipLengths_inv (clips r : list Clip.t) :
  Forall P clips -> CompositionPlanner.adjustClipLengths this clips = Some r -> Forall P r.
Proof.
  apply mapM_Forall. intros c c' Hc H.
  unfold CompositionPlanner.adjustClipLength in H.
  destruct (Js.Qlt_bool _ _).
  - destruct (TimeRange.new _ _); [|discriminate]. injection H as <-. now apply P_range.
  - destruct (Js.Qlt_bool _ _).
    + destruct (TimeRange.new _ _); [|discriminate]. injection H as <-. now apply P_range.
    + now injection H as <-.
Qed.

Lemma trimLoop_inv (clips : list Clip.t) :
  forall acc trimmed r,
    Forall P clips -> Forall P trimmed ->
    CompositionPlanner.trimLoop this clips acc trimmed = Some r -> Forall P r.
Proof.
  induction clips as [|c clips IH]; intros acc trimmed r Hc Ht H; simpl in H.
  - now injection H as <-.
  - inversion Hc; subst. destruct (Qle_bool _ _).
    + eapply IH; [assumption| |exact H].
      apply Forall_app. split; [assumption | constructor; [assumption|constructor]].
    + destruct (Qle_bool _ _).
      * destruct (TimeRange.new _ _); [|discriminate].
        injection H as <-. apply Forall_app. split; [assumption|].
        constructor; [now apply P_range | constructor].
      * now injection H as <-.
Qed.

Lemma trimToTargetDuration_inv (clips r : list Clip.t) :
  Forall P clips -> CompositionPlanner.trimToTargetDuration this clips = Some r ->
  Forall P r.
Proof.
  intros Hc H. unfold CompositionPlanner.trimToTargetDuration in H.
  destruct clips as [|c clips]; [now injection H as <-|].
  destruct (Qle_bool _ _); [now injection H as <-|].
  eapply trimLoop_inv; [exact Hc | constructor | exact H].
Qed.

Lemma optimizeClips_inv (clips : list Clip.t) (analyses : list FrameAnalysis.t)
      (r : list Clip.t) :
  Forall P (CompositionPlanner.scoreClips this clips analyses) ->
  CompositionPlanner.optimizeClips this clips analyses = Some r ->
  Forall P r.
Proof.
  intros Hc H. unfold CompositionPlanner.optimizeClips in H.
  destruct (CompositionPlanner.adjustClipLengths _ _) as [adj|] eqn:Ea; [|discriminate].
  destruct (CompositionPlanner.trimToTargetDuration _ _) as [tr|] eqn:Et; [|discriminate].
  injection H as <-. apply optimizePacing_Forall.
  eapply trimToTargetDuration_inv; [|exact Et]. apply sort_Forall.
  eapply adjustClipLengths_inv; [exact Hc|exact Ea].
Qed.

End RangeInvariant.

Lemma Forall2_Forall_r {A B} (R : A -> B -> Prop) (P : B -> Prop) (l : list A)
      (l' : list B) :
  (forall a b, R a b -> P b) -> Forall2 R l l' -> Forall P l'.
Proof.
  intros H. induction 1; constructor; eauto.
Qed.

Lemma direct_stages (this : CreativeDirector.t) (analyses : list FrameAnalysis.t)
      (s : Supply) (res : CreativeDirector.Result) (s' : Supply) :
  CreativeDirector.direct this analyses s = Some (res, s') ->
  exists highlights s1,
    HighlightDetector.suggestHighlights
      (HighlightDetector.analyzeExcitementLevels analyses)
      (HighlightDetector.detectMultiEvents
         (HighlightDetector.analyzeExcitementLevels analyses) 10)
      (HighlightDetector.detectClutchMoments
         (HighlightDetector.analyzeExcitementLevels analyses)) s
    = Some (highlights, s1)
    /\ CompositionPlanner.optimizeClips (CreativeDirector._compositionPlanner this)
         highlights (HighlightDetector.analyzeExcitementLevels analyses)
       = Some (CreativeDirector.clips res)
    /\ CompositionPlanner.createHookIntro (CreativeDirector.clips res) s1
       = Some (CreativeDirector.hookClip res, s')
    /\ CreativeDirector.suggestions res
       = ClipScorer.suggestImprovements (CreativeDirector.clips res)
           (HighlightDetector.analyzeExcitementLevels analyses)
    /\ CreativeDirector.engagementCurve res
       = CompositionPlanner.analyzeEngagementCurve
           (CreativeDirector._compositionPlanner this) (CreativeDirector.clips res)
    /\ CreativeDirector.varietyAnalysis res
       = HighlightDetector.analyzeVariety (CreativeDirector.clips res).
Proof.
  unfold CreativeDirector.direct, bind, lift, ret. intro H.
  destruct (HighlightDetector.suggestHighlights _ _ _ s) as [[hl s1]|] eqn:Eh; [|discriminate].
  destruct (CompositionPlanner.optimizeClips _ hl _) as [opt|] eqn:Eo; [|discriminate].
  destruct (CompositionPlanner.createHookIntro opt s1) as [[hook s2]|] eqn:Ek; [|discriminate].
  injection H as <- <-. simpl. exists hl, s1. repeat split; assumption.
Qed.

Lemma suggestions_low (clips : list Clip.t) (analyses : list FrameAnalysis.t) :
  clips <> [] ->
  Forall (fun c => QualityScore.value (Clip.score c) < 30) clips ->
  In "Many low-scoring clips detected. Consider raising the quality threshold."%string
     (ClipScorer.suggestImprovements clips analyses).
Proof.
  intros Hne Hlow. unfold ClipScorer.suggestImprovements.
  rewrite (filter_all _ clips).
  - assert (Hn : 1 <= Qlen clips).
    { destruct clips as [|c clips]; [congruence|]. apply (Qlen_ge (c :: clips) 1).
      simpl. lia. }
    replace (Js.Qlt_bool (Qlen clips * 0.3) (inject_Z (Z.of_nat (length clips))))
      with true.
    + do 3 (apply in_or_app; right). apply in_or_app. left. now left.
    + symmetry. apply Qlt_bool_iff. fold (Qlen clips). lra.
  - eapply Forall_impl; [|exact Hlow]. intros c Hc. now apply Qlt_bool_iff.
Qed.

Lemma grade_F (q : QualityScore.t) :
  QualityScore.value q < 60 ->
  QualityScore.grade q = "F"%string /\ QualityScore.isAcceptable q = false.
Proof.
  intros H. unfold QualityScore.grade, QualityScore.isAcceptable.
  repeat match goal with
         | |- context [Qle_bool ?a ?b] =>
             replace (Qle_bool a b) with false by (symmetry; apply Qle_bool_false; lra)
         end.
  split; reflexivity.
Qed.

(** X16.  Whatever [direct] returns for analyses whose intensity and
    status reach no inherited member of the lookup tables, the seed scores
    (90, 80, 70) are gone: every returned clip, and the hook, carries the
    score that [scoreClips] wrote, which is at most 25, so its grade is F
    and it is not acceptable; and unless no clip is returned, the
    suggestions contain the low-score message. *)
Theorem direct_scores (this : CreativeDirector.t) (analyses : list FrameAnalysis.t)
        (s : Supply) (res : CreativeDirector.Result) (s' : Supply) :
  Forall plainKeys analyses ->
  CreativeDirector.direct this analyses s = Some (res, s') ->
  Forall (fun c => 0 <= QualityScore.value (Clip.score c) <= 25
                   /\ QualityScore.breakdown (Clip.score c) = []
                   /\ QualityScore.grade (Clip.score c) = "F"%string
                   /\ QualityScore.isAcceptable (Clip.score c) = false)
         (CreativeDirector.clips res)
  /\ (forall hook, CreativeDirector.hookClip res = Some hook ->
                   0 <= QualityScore.value (Clip.score hook) <= 25)
  /\ (CreativeDirector.clips res <> [] ->
      In "Many low-scoring clips detected. Consider raising the quality threshold."%string
         (CreativeDirector.suggestions res)).
Proof.
  intros _ H. destruct (direct_stages _ _ _ _ _ H) as (hl & s1 & _ & Eo & Ek & Es & _).
  assert (Hscore : Forall (fun c => 0 <= QualityScore.value (Clip.score c) <= 25
                                    /\ QualityScore.breakdown (Clip.score c) = [])
                          (CreativeDirector.clips res)).
  { eapply optimizeClips_inv; [|exact (scoreClips_wf_scores _ _ _)|exact Eo].
    intros c r Hc. exact Hc. }
  split; [|split].
  - eapply Forall_impl; [|exact Hscore]. intros c [Hv Hb].
    split; [exact Hv|]. split; [exact Hb|]. apply grade_F. lra.
  - intros hook Hk. rewrite Hk in Ek.
    destruct (CreativeDirector.clips res) as [|first rest] eqn:Ec; [discriminate|].
    destruct (bestClip_max rest first) as [Hin _].
    rewrite Forall_forall in Hscore. specialize (Hscore _ Hin) as [Hv _].
    unfold CompositionPlanner.createHookIntro, bind, lift, newClip, ret in Ek.
    destruct (TimeRange.new _ _); [|discriminate].
    injection Ek as <- _. exact Hv.
  - intros Hne. rewrite Es. apply suggestions_low; [exact Hne|].
    eapply Forall_impl; [|exact Hscore]. intros c [Hv _]. lra.
Qed.

Lemma direct_scores_witness :
  exists res s',
    CreativeDirector.direct defaultDirector [S1_analysis] countingSupply = Some (res, s')
    /\ CreativeDirector.clips res <> []
    /\ Forall (fun c => 0 <= QualityScore.value (Clip.score c) <= 25
                        /\ QualityScore.breakdown (Clip.score c) = []
                        /\ QualityScore.grade (Clip.score c) = "F"%string
                        /\ QualityScore.isAcceptable (Clip.score c) = false)
              (CreativeDirector.clips res).
Proof.
  destruct (CreativeDirector.direct defaultDirector [S1_analysis] countingSupply)
    as [[res s']|] eqn:E; [|vm_compute in E; discriminate E].
  exists res, s'. split; [reflexivity|]. split.
  - intros Hnil. revert E. vm_compute. intros E. injection E as E _.
    rewrite <- E in Hnil. discriminate Hnil.
  - refine (proj1 (direct_scores _ _ _ _ _ _ E)).
    repeat constructor.
Defined.

(** ** CreativeDirector: the duration budget *)





Lemma duration_sort_irrelevant (bound : Q) (cmp : Clip.t -> Clip.t -> Q) (l : list Clip.t) :
  Forall (fun c => Clip.duration c <= bound) l ->
  Forall (fun c => Clip.duration c <= bound) (Js.sort cmp l).
Proof. apply sort_Forall. Qed.





(** ** CreativeDirector: the returned clips do not overlap *)

Lemma apart_sym (a b : Clip.t) : apart a b -> apart b a.
Proof. unfold apart. tauto. Qed.

Lemma apart_within (a b a' b' : Clip.t) :
  within a a' -> within b b' -> apart a b -> apart a' b'.
Proof.
  unfold within, covers, apart, Clip.wf, TimeRange.wf, Clip.start, Clip.end_.
  intros [[? ?] [? ?]] [[? ?] [? ?]] [?|?]; [left|right]; lra.
Qed.

Lemma separated_disjoint (l : list Clip.t) : separated l -> disjoint l.
Proof.
  unfold separated, disjoint. induction 1 as [|a l _ IH Ha]; constructor; [|exact IH].
  eapply Forall_impl; [|exact Ha]. intros b Hb. now left.
Qed.

Lemma disjoint_perm (l l' : list Clip.t) : Permutation l l' -> disjoint l -> disjoint l'.
Proof.
  unfold disjoint. induction 1 as [|x l l' Hp IH|x y l|l l' l'' _ IH1 _ IH2]; intros H.
  - exact H.
  - inversion H as [|? ? Hx Hl]; subst. constructor; [|now apply IH].
    eapply Permutation_Forall; eassumption.
  - inversion H as [|? ? Hy Hxl]; subst. inversion Hxl as [|? ? Hx Hl]; subst.
    inversion Hy as [|? ? Hyx Hyl]; subst.
    constructor; [constructor; [now apply apart_sym|exact Hx]|].
    constructor; assumption.
  - auto.
Qed.

Lemma disjoint_app_l (l1 l2 : list Clip.t) : disjoint (l1 ++ l2) -> disjoint l1.
Proof.
  unfold disjoint. induction l1 as [|a l1 IH]; simpl; intros H; [constructor|].
  inversion H as [|? ? Ha Hl]; subst. constructor; [|now apply IH].
  now apply Forall_app in Ha.
Qed.

Lemma disjoint_within (l l' : list Clip.t) :
  Forall2 within l l' -> disjoint l -> disjoint l'.
Proof.
  unfold disjoint. induction 1 as [|a a' l l' Ha Hl IH]; intros H; [constructor|].
  inversion H as [|? ? Hal Hd]; subst. constructor; [|now apply IH].
  clear IH H Hd. induction Hl as [|b b' l l' Hb _ IH]; [constructor|].
  inversion Hal; subst. constructor; [|now apply IH].
  eapply apart_within; eassumption.
Qed.

Lemma disjoint_nth (l : list Clip.t) :
  disjoint l ->
  forall i j a b, i <> j -> nth_error l i = Some a -> nth_error l j = Some b -> apart a b.
Proof.
  unfold disjoint. induction 1 as [|x l Hx _ IH]; intros i j a b Hij Ha Hb.
  - destruct i; discriminate.
  - rewrite Forall_forall in Hx.
    destruct i as [|i], j as [|j]; simpl in Ha, Hb; try congruence.
    + injection Ha as <-. apply Hx. eapply nth_error_In, Hb.
    + injection Hb as <-. apply apart_sym, Hx. eapply nth_error_In, Ha.
    + apply (IH i j); auto.
Qed.

Lemma within_refl (c : Clip.t) : Clip.wf c -> within c c.
Proof. intros H. split; [apply covers_refl|exact H]. Qed.

Lemma Forall2_within_refl (l : list Clip.t) : Forall Clip.wf l -> Forall2 within l l.
Proof. induction 1; constructor; [now apply within_refl|assumption]. Qed.

(** The seeds last at least 3 s, and merging only widens. *)
Lemma seed_long (startS endS : Q) (o : TimeRange.t -> Clip.Opts) (s : Supply)
      (c : Clip.t) (s' : Supply) :
  (forall r, Clip.o_timeRange (o r) = r) ->
  0 <= startS -> startS + 3 <= endS ->
  bind (lift (TimeRange.new startS endS)) (fun r => newClip (o r)) s = Some (c, s') ->
  3 <= Clip.duration c.
Proof.
  intros Ho H0 H3 H. apply seed_range in H; [|exact Ho].
  rewrite TimeRange_new_valid in H by lra. injection H as H.
  unfold Clip.duration. rewrite <- H. unfold TimeRange.duration. simpl. lra.
Qed.

Lemma seedMultiKill_long mk s c s' :
  (0 <= HighlightDetector.me_timestamp mk /\ 0 <= HighlightDetector.me_endTimestamp mk)
  /\ HighlightDetector.me_timestamp mk <= HighlightDetector.me_endTimestamp mk ->
  HighlightDetector.seedMultiKill mk s = Some (c, s') -> 3 <= Clip.duration c.
Proof.
  intros [[H0 H1] H2]. unfold HighlightDetector.seedMultiKill.
  apply seed_long; [reflexivity|apply Math_max_0_bounds|].
  destruct (Math_max_spec 0 (HighlightDetector.me_timestamp mk - 3)) as [[? ->]|[? ->]];
    destruct (Qeq_bool (HighlightDetector.me_endTimestamp mk) 0); lra.
Qed.

Lemma seedClutch_long cm s c s' :
  0 <= HighlightDetector.cm_timestamp cm ->
  HighlightDetector.seedClutch cm s = Some (c, s') -> 3 <= Clip.duration c.
Proof.
  intros H0. unfold HighlightDetector.seedClutch.
  apply seed_long; [reflexivity|apply Math_max_0_bounds|].
  destruct (Math_max_spec 0 (HighlightDetector.cm_timestamp cm - 5)) as [[? ->]|[? ->]]; lra.
Qed.

Lemma seedExcitement_long a s c s' :
  0 <= FrameAnalysis.timestamp a ->
  HighlightDetector.seedExcitement a s = Some (c, s') -> 3 <= Clip.duration c.
Proof.
  intros H0. unfold HighlightDetector.seedExcitement.
  apply seed_long; [reflexivity|apply Math_max_0_bounds|].
  destruct (Math_max_spec 0 (FrameAnalysis.timestamp a - 2)) as [[? ->]|[? ->]]; lra.
Qed.

Lemma mergeOverlappingClips_widened (clips merged : list Clip.t) :
  Forall Clip.wf clips ->
  HighlightDetector.mergeOverlappingClips clips = Some merged ->
  Forall (widened clips) merged.
Proof.
  intros Hwf Hm. unfold HighlightDetector.mergeOverlappingClips in Hm.
  pose proof (sort_perm (fun a b => Clip.start a - Clip.start b) clips) as Hperm.
  pose proof (sort_Forall (fun a b => Clip.start a - Clip.start b) _ _ Hwf) as Hwfs.
  destruct (Js.sort (fun a b => Clip.start a - Clip.start b) clips) as [|first rest].
  - injection Hm as <-. constructor.
  - apply (mergeLoop_cover rest [] first merged clips).
    + eapply Forall_impl; [|exact Hwfs]. intros c [H0 _]. exact H0.
    + simpl. constructor; [|constructor].
      exists first. split; [apply (Permutation_in _ Hperm); now left|].
      split; [apply covers_refl|now left].
    + intros x Hx. apply (Permutation_in _ Hperm). now right.
    + exact Hm.
Qed.

Lemma suggestHighlights_long analyses s highlights s' :
  Forall (fun a => 0 <= FrameAnalysis.timestamp a) analyses ->
  HighlightDetector.suggestHighlights analyses
    (HighlightDetector.detectMultiEvents analyses 10)
    (HighlightDetector.detectClutchMoments analyses) s
  = Some (highlights, s') ->
  Forall (fun c => 3 <= Clip.duration c) highlights /\ separated highlights.
Proof.
  intro Hts. unfold HighlightDetector.suggestHighlights, bind. intro H.
  destruct (forPush HighlightDetector.seedMultiKill _ _ _) as [[h1 s1]|] eqn:E1; [|discriminate].
  destruct (forPush HighlightDetector.seedClutch _ _ _) as [[h2 s2]|] eqn:E2; [|discriminate].
  destruct (forPush HighlightDetector.seedExcitement _ _ _) as [[h3 s3]|] eqn:E3; [|discriminate].
  pose proof E1 as W1. pose proof E2 as W2. pose proof E3 as W3.
  apply (forPush_Forall _ Clip.wf seedMultiKill_wf) in W1; [|constructor].
  apply (forPush_Forall _ Clip.wf seedClutch_wf) in W2; [|exact W1].
  apply (forPush_Forall _ Clip.wf seedExcitement_wf) in W3; [|exact W2].
  eapply (forPush_Forall_pre _ _ (fun c => 3 <= Clip.duration c)) in E1;
    [|intros x t b t' Hx Hb; exact (seedMultiKill_long x t b t' Hx Hb)
     |exact (Forall_and _ _ _ (detectMultiEvents_nonneg analyses 10 Hts)
                        (detectMultiEvents_ordered analyses 10))
     |constructor].
  eapply (forPush_Forall_pre _ _ (fun c => 3 <= Clip.duration c)) in E2;
    [|intros x t b t' Hx Hb; exact (seedClutch_long x t b t' Hx Hb)
     |now apply detectClutchMoments_nonneg|exact E1].
  eapply (forPush_Forall_pre _ _ (fun c => 3 <= Clip.duration c)) in E3;
    [|intros x t b t' Hx Hb; exact (seedExcitement_long x t b t' Hx Hb)
     |now apply filter_Forall|exact E2].
  unfold lift in H.
  destruct (HighlightDetector.mergeOverlappingClips _) as [m|] eqn:Em; [|discriminate].
  injection H as <- _.
  set (sorted := Js.sort (fun a b => Clip.priority b - Clip.priority a) h3) in *.
  assert (Hws : Forall Clip.wf sorted) by now apply sort_Forall.
  assert (Hls : Forall (fun c => 3 <= Clip.duration c) sorted) by now apply sort_Forall.
  split.
  - pose proof (mergeOverlappingClips_widened sorted m Hws Em) as Hwid.
    eapply Forall_impl; [|exact Hwid].
    intros c (c0 & Hin & [Hc1 Hc2] & _).
    rewrite Forall_forall in Hls. specialize (Hls c0 Hin).
    unfold Clip.duration, TimeRange.duration, Clip.start, Clip.end_ in *. lra.
  - destruct (mergeOverlappingClips_separated sorted Hws) as (m' & Em' & Hsep & _).
    rewrite Em in Em'. now injection Em' as <-.
Qed.

Section PlannerDisjoint.
Variable this : CompositionPlanner.t.
Hypothesis Htarget : 0 <= CompositionPlanner.targetDuration this.
Hypothesis Hmin : 0 < CompositionPlanner.minClipLength this.
Hypothesis Hmax : CompositionPlanner.minClipLength this <= CompositionPlanner.maxClipLength this.

Lemma scoreClips_within (clips : list Clip.t) (analyses : list FrameAnalysis.t) :
  Forall Clip.wf clips ->
  Forall2 within clips (CompositionPlanner.scoreClips this clips analyses).
Proof.
  intros Hwf. pose proof (scoreClips_spec_aux this clips analyses) as H.
  induction H as [|c c' l l' Hc _ IH]; [constructor|].
  inversion Hwf as [|? ? Hwc Hwl]; subst. constructor; [|now apply IH].
  destruct Hc as (Hr & _). unfold within, covers, Clip.wf, Clip.start, Clip.end_.
  rewrite Hr. split; [lra|exact Hwc].
Qed.

Lemma adjustClipLengths_within (clips adj : list Clip.t) :
  Forall Clip.wf clips ->
  Forall (fun c => CompositionPlanner.minClipLength this <= Clip.duration c) clips ->
  CompositionPlanner.adjustClipLengths this clips = Some adj ->
  Forall2 within clips adj.
Proof.
  intros Hwf Hlong Ea.
  destruct (mapM_Forall2 (CompositionPlanner.adjustClipLength this) (adjusted this)
                         Clip.wf (fun c Hc => adjustClipLength_spec this c Hmin Hmax Hc)
                         _ Hwf) as (adj' & Ea' & H2).
  unfold CompositionPlanner.adjustClipLengths in Ea. rewrite Ea in Ea'.
  injection Ea' as <-. clear Ea.
  induction H2 as [|c c' l l' Hc _ IH]; [constructor|].
  inversion Hwf; inversion Hlong; subst. constructor; [|now apply IH].
  destruct Hc as (Hwc & Heq & _ & Hlongc & _).
  split; [|exact Hwc].
  destruct (Qlt_le_dec (CompositionPlanner.maxClipLength this) (Clip.duration c)) as [Hl|Hl].
  - now apply Hlongc.
  - replace (Js.Qlt_bool (CompositionPlanner.maxClipLength this) (Clip.duration c))
      with false in Heq by (symmetry; now apply Qlt_bool_false).
    replace (Js.Qlt_bool (Clip.duration c) (CompositionPlanner.minClipLength this))
      with false in Heq by (symmetry; now apply Qlt_bool_false).
    simpl in Heq. subst c'. apply covers_refl.
Qed.

Lemma trimToTargetDuration_disjoint (clips trimmed : list Clip.t) :
  Forall Clip.wf clips -> disjoint clips ->
  CompositionPlanner.trimToTargetDuration this clips = Some trimmed ->
  disjoint trimmed.
Proof.
  intros Hwf Hd Ht.
  destruct (Qlt_le_dec (CompositionPlanner.targetDuration this)
                       (CompositionPlanner.totalDuration clips)) as [Hlt|Hle].
  - destruct (trimLoop_spec this Hmin clips [] Hwf)
      as (adm & ov & rest & Hcl & Hle & Hlt' & Hres).
    { unfold CompositionPlanner.totalDuration. simpl. exact Htarget. }
    { exact Hlt. }
    simpl app in *. cbv zeta in Hres.
    change (CompositionPlanner.totalDuration []) with 0 in Hres.
    assert (Htrim : CompositionPlanner.trimToTargetDuration this clips
                    = CompositionPlanner.trimLoop this clips 0 []).
    { unfold CompositionPlanner.trimToTargetDuration.
      destruct clips as [|c0 clips0]; [destruct adm; discriminate|].
      apply Qle_bool_false in Hlt. now rewrite Hlt. }
    rewrite Htrim, Hres in Ht. subst clips.
    replace (adm ++ ov :: rest) with ((adm ++ [ov]) ++ rest) in Hd
      by now rewrite <- app_assoc.
    apply disjoint_app_l in Hd.
    apply Forall_app in Hwf as [Hwa Hwo]. inversion Hwo as [|? ? Hwov _]; subst.
    destruct (Qle_bool _ _) eqn:E; injection Ht as <-.
    + apply Qle_bool_iff in E. eapply disjoint_within; [|exact Hd].
      apply Forall2_app; [now apply Forall2_within_refl|].
      constructor; [|constructor].
      destruct Hwov as [H0 H1].
      unfold within, covers, headSlice, Clip.wf, TimeRange.wf, Clip.start, Clip.end_,
        Clip.duration, TimeRange.duration in *.
      simpl. repeat split; lra.
    + now apply disjoint_app_l in Hd.
  - rewrite (trimToTargetDuration_fits this clips Hle) in Ht. now injection Ht as <-.
Qed.

Lemma optimizePacing_disjoint (clips : list Clip.t) :
  disjoint clips -> disjoint (CompositionPlanner.optimizePacing clips).
Proof.
  intros Hd. destruct (Nat.le_gt_cases (length clips) 2) as [H|H].
  - unfold CompositionPlanner.optimizePacing. apply Nat.leb_le in H. now rewrite H.
  - apply (disjoint_perm _ _ (Permutation_sym (optimizePacing_perm clips H))).
    apply (disjoint_perm _ _ (classes_perm clips)) in Hd.
    rewrite <- (firstn_skipn 2 (filter isLow clips)) in Hd at 1.
    rewrite <- !app_assoc in Hd.
    rewrite (app_assoc (filter isHigh clips)), (app_assoc _ (firstn 2 _)) in Hd.
    apply disjoint_app_l in Hd. now rewrite <- app_assoc in Hd.
Qed.

Lemma optimizeClips_disjoint (clips : list Clip.t) (analyses : list FrameAnalysis.t)
      (r : list Clip.t) :
  Forall Clip.wf clips ->
  Forall (fun c => CompositionPlanner.minClipLength this <= Clip.duration c) clips ->
  disjoint clips ->
  CompositionPlanner.optimizeClips this clips analyses = Some r ->
  disjoint r.
Proof.
  intros Hwf Hlong Hd H. unfold CompositionPlanner.optimizeClips in H.
  destruct (CompositionPlanner.adjustClipLengths _ _) as [adj|] eqn:Ea; [|discriminate].
  destruct (CompositionPlanner.trimToTargetDuration _ _) as [tr|] eqn:Et; [|discriminate].
  injection H as <-.
  pose proof (scoreClips_wf this clips analyses Hwf) as Hs.
  pose proof (adjustClipLengths_wf this _ _ Hs Ea) as Hadj.
  pose proof (scoreClips_within clips analyses Hwf) as Hw1.
  assert (Hlong' : Forall (fun c => CompositionPlanner.minClipLength this <= Clip.duration c)
                          (CompositionPlanner.scoreClips this clips analyses)).
  { unfold CompositionPlanner.scoreClips. apply Forall_map.
    eapply Forall_impl; [|exact Hlong]. intros c Hc.
    destruct (scoreClip_spec this analyses c) as (Hr & _).
    unfold Clip.duration in *. now rewrite Hr. }
  pose proof (adjustClipLengths_within _ _ Hs Hlong' Ea) as Hw2.
  apply optimizePacing_disjoint.
  eapply trimToTargetDuration_disjoint; [|  |exact Et].
  - now apply sort_Forall.
  - apply (disjoint_perm adj); [apply Permutation_sym, sort_perm|].
    eapply disjoint_within; [exact Hw2|].
    eapply disjoint_within; [exact Hw1|exact Hd].
Qed.

End PlannerDisjoint.

Lemma clampClips_disjoint (videoDuration : Q) (clips clampedClips : list Clip.t) :
  Forall Clip.wf clips -> disjoint clips ->
  ProcessingPipeline.clampClips videoDuration clips = Some clampedClips ->
  disjoint clampedClips.
Proof.
  intros Hwf Hd H. rewrite clampClips_spec in H by exact Hwf. injection H as <-.
  assert (Hstep : forall c c', Clip.wf c -> In c' (clamped videoDuration c) -> within c c').
  { intros c c' Hc Hin. destruct (clamped_bounds videoDuration c c' Hc Hin) as (Hw & _).
    split; [|exact Hw]. unfold clamped in Hin.
    destruct (Js.Qlt_bool _ _); [contradiction|]. destruct Hin as [<-|[]].
    unfold covers, Clip.start, Clip.end_. simpl.
    destruct (Math_min_spec (TimeRange.endSeconds (Clip.timeRange c)) videoDuration)
      as [[? E]|[? E]]; unfold Clip.end_ in E; rewrite E; lra. }
  unfold disjoint in *. induction Hd as [|c l Hc Hl IH]; simpl; [constructor|].
  inversion Hwf as [|? ? Hwc Hwl]; subst. specialize (IH Hwl).
  assert (Hall : forall c', In c' (clamped videoDuration c) ->
                            Forall (apart c') (flat_map (clamped videoDuration) l)).
  { intros c' Hc'. apply Forall_forall. intros b' Hb'.
    apply in_flat_map in Hb' as (b & Hb & Hb').
    rewrite Forall_forall in Hc, Hwl.
    eapply apart_within; [exact (Hstep _ _ Hwc Hc')|exact (Hstep _ _ (Hwl b Hb) Hb')|].
    now apply Hc. }
  unfold clamped at 1. unfold clamped in Hall at 1.
  destruct (Js.Qlt_bool _ _); [exact IH|].
  simpl. constructor; [|exact IH]. apply Hall. now left.
Qed.

(** X18.  The clips of [direct] do not overlap.  For a director with
    [targetDuration >= 0] and [0 < minClipLength <= 3], [minClipLength <=
    maxClipLength] (the defaults are 180, 3 and 15), and analyses with
    non-negative timestamps: any two of the returned clips share no instant,
    although pacing has reordered them; and the same holds for what the
    clamping step of the pipeline keeps of them. *)
Theorem direct_disjoint (this : CreativeDirector.t) (analyses : list FrameAnalysis.t)
        (s : Supply) (res : CreativeDirector.Result) (s' : Supply) :
  0 <= CompositionPlanner.targetDuration (CreativeDirector._compositionPlanner this) ->
  0 < CompositionPlanner.minClipLength (CreativeDirector._compositionPlanner this) ->
  CompositionPlanner.minClipLength (CreativeDirector._compositionPlanner this) <= 3 ->
  CompositionPlanner.minClipLength (CreativeDirector._compositionPlanner this)
  <= CompositionPlanner.maxClipLength (CreativeDirector._compositionPlanner this) ->
  Forall (fun a => 0 <= FrameAnalysis.timestamp a) analyses ->
  CreativeDirector.direct this analyses s = Some (res, s') ->
  (forall i j a b,
      i <> j ->
      nth_error (CreativeDirector.clips res) i = Some a ->
      nth_error (CreativeDirector.clips res) j = Some b ->
      Clip.end_ a < Clip.start b \/ Clip.end_ b < Clip.start a)
  /\ (forall videoDuration clampedClips i j a b,
        ProcessingPipeline.clampClips videoDuration (CreativeDirector.clips res)
        = Some clampedClips ->
        i <> j ->
        nth_error clampedClips i = Some a -> nth_error clampedClips j = Some b ->
        Clip.end_ a < Clip.start b \/ Clip.end_ b < Clip.start a).
Proof.
  intros Htarget Hmin Hmin3 Hmax Hts H.
  destruct (direct_stages _ _ _ _ _ H) as (hl & s1 & Eh & Eo & _).
  pose proof (suggestHighlights_wf _ _ _ _ _ _ Eh) as Hwf.
  assert (Hts' : Forall (fun a => 0 <= FrameAnalysis.timestamp a)
                        (HighlightDetector.analyzeExcitementLevels analyses))
    by now apply (analyzeExcitementLevels_timestamps (fun t => 0 <= t)).
  destruct (suggestHighlights_long _ _ _ _ Hts' Eh) as [Hlong Hsep].
  assert (Hd : disjoint (CreativeDirector.clips res)).
  { eapply (optimizeClips_disjoint _ Htarget Hmin Hmax); [exact Hwf| | |exact Eo].
    - eapply Forall_impl; [|exact Hlong]. simpl. intros c Hc. lra.
    - now apply separated_disjoint. }
  split; [exact (disjoint_nth _ Hd)|].
  intros videoDuration clampedClips i j a b Hc.
  apply disjoint_nth. eapply clampClips_disjoint; [|exact Hd|exact Hc].
  eapply optimizeClips_wf; [exact Hwf|exact Eo].
Qed.

Lemma direct_disjoint_witness :
  exists res s',
    CreativeDirector.direct defaultDirector [S1_analysis; countOnly_analysis] countingSupply
    = Some (res, s')
    /\ forall i j a b,
        i <> j ->
        nth_error (CreativeDirector.clips res) i = Some a ->
        nth_error (CreativeDirector.clips res) j = Some b ->
        Clip.end_ a < Clip.start b \/ Clip.end_ b < Clip.start a.
Proof.
  destruct (CreativeDirector.direct defaultDirector [S1_analysis; countOnly_analysis]
                                    countingSupply)
    as [[res s']|] eqn:E; [|vm_compute in E; discriminate E].
  exists res, s'. split; [reflexivity|].
  refine (proj1 (direct_disjoint defaultDirector [S1_analysis; countOnly_analysis]
                                 countingSupply res s' _ _ _ _ _ E)).
  - vm_compute. discriminate.
  - vm_compute. reflexivity.
  - vm_compute. discriminate.
  - vm_compute. discriminate.
  - repeat constructor; vm_compute; discriminate.
Defined.

(** ** HuggingFaceClient: model rotation *)

Lemma rotate_iter (c : HuggingFaceClient.t) (k : nat) :
  (HuggingFaceClient._currentModelIndex c < length (HuggingFaceClient._models c))%nat ->
  HuggingFaceClient._models (Nat.iter k HuggingFaceClient._rotateModel c)
  = HuggingFaceClient._models c
  /\ HuggingFaceClient._currentModelIndex (Nat.iter k HuggingFaceClient._rotateModel c)
     = ((HuggingFaceClient._currentModelIndex c + k)
        mod length (HuggingFaceClient._models c))%nat.
Proof.
  intros Hi. induction k as [|k [Hm IH]]; simpl.
  - split; [reflexivity|]. now rewrite Nat.add_0_r, Nat.mod_small.
  - split; [exact Hm|]. rewrite Hm, IH, Nat.Div0.add_mod_idemp_l. f_equal. lia.
Qed.

Lemma nth_rotation (models : list string) (i k : nat) (d : string) :
  (i < length models)%nat -> (k < length models)%nat ->
  nth k (rotation models i) d = nth ((i + k) mod length models) models d.
Proof.
  intros Hi Hk. unfold rotation.
  destruct (Nat.lt_ge_cases k (length models - i)) as [H|H].
  - rewrite app_nth1 by (rewrite length_skipn; lia).
    rewrite nth_skipn, Nat.mod_small by lia. reflexivity.
  - rewrite app_nth2 by (rewrite length_skipn; lia).
    rewrite length_skipn.
    replace ((i + k) mod length models)%nat with (k - (length models - i))%nat.
    + rewrite nth_firstn.
      replace (k - (length models - i) <? i)%nat with true; [reflexivity|].
      symmetry. apply Nat.ltb_lt. lia.
    + replace (i + k)%nat with ((k - (length models - i)) + 1 * length models)%nat by lia.
      rewrite Nat.Div0.mod_add, Nat.mod_small by lia. reflexivity.
Qed.

(** [_rotateModel] walks the model list as a ring.  After [k]
    rotations the index is [(index + k) mod length]; it stays within the
    list; a full turn brings the client back to the state it started from;
    and the models met during a full turn are all the models, each once, in
    list order from the current one. *)
Theorem rotateModel_cycle (c : HuggingFaceClient.t) :
  (HuggingFaceClient._currentModelIndex c < length (HuggingFaceClient._models c))%nat ->
  (forall k,
      HuggingFaceClient._currentModelIndex (Nat.iter k HuggingFaceClient._rotateModel c)
      = ((HuggingFaceClient._currentModelIndex c + k)
         mod length (HuggingFaceClient._models c))%nat
      /\ (HuggingFaceClient._currentModelIndex
            (Nat.iter k HuggingFaceClient._rotateModel c)
          < length (HuggingFaceClient._models c))%nat)
  /\ Nat.iter (length (HuggingFaceClient._models c)) HuggingFaceClient._rotateModel c = c
  /\ map (fun k => HuggingFaceClient._getCurrentModel
                     (Nat.iter k HuggingFaceClient._rotateModel c))
         (seq 0 (length (HuggingFaceClient._models c)))
     = rotation (HuggingFaceClient._models c) (HuggingFaceClient._currentModelIndex c)
  /\ Permutation (rotation (HuggingFaceClient._models c)
                           (HuggingFaceClient._currentModelIndex c))
                 (HuggingFaceClient._models c).
Proof.
  intros Hi.
  assert (Hne : HuggingFaceClient._models c <> [])
    by (destruct (HuggingFaceClient._models c); [simpl in Hi; lia|discriminate]).
  assert (HL : length (HuggingFaceClient._models c) <> 0%nat) by lia.
  assert (Hidx : forall k,
             HuggingFaceClient._currentModelIndex
               (Nat.iter k HuggingFaceClient._rotateModel c)
             = ((HuggingFaceClient._currentModelIndex c + k)
                mod length (HuggingFaceClient._models c))%nat).
  { intros k. now apply rotate_iter. }
  assert (Hmodels : forall k,
             HuggingFaceClient._models (Nat.iter k HuggingFaceClient._rotateModel c)
             = HuggingFaceClient._models c)
    by (intros k; now apply rotate_iter).
  split; [|split; [|split]].
  - intros k. split; [apply Hidx|]. rewrite Hidx. now apply Nat.mod_upper_bound.
  - pose proof (Hidx (length (HuggingFaceClient._models c))) as Hfull.
    replace (HuggingFaceClient._currentModelIndex c
             + length (HuggingFaceClient._models c))%nat
      with (HuggingFaceClient._currentModelIndex c
            + 1 * length (HuggingFaceClient._models c))%nat in Hfull by lia.
    rewrite Nat.Div0.mod_add, Nat.mod_small in Hfull by exact Hi.
    assert (Hset : forall k,
               exists i, Nat.iter k HuggingFaceClient._rotateModel c
                         = HuggingFaceClient.set_currentModelIndex c i).
    { induction k as [|k [i IH]]; simpl.
      - exists (HuggingFaceClient._currentModelIndex c). destruct c; reflexivity.
      - rewrite IH. eexists. reflexivity. }
    destruct (Hset (length (HuggingFaceClient._models c))) as [i Ei].
    rewrite Ei in Hfull |- *. simpl in Hfull. subst i.
    destruct c; reflexivity.
  - apply (nth_ext _ _ ""%string ""%string).
    + now rewrite length_map, length_seq, rotation_length.
    + intros k Hk. rewrite length_map, length_seq in Hk.
      rewrite (nth_indep _ _ (HuggingFaceClient._getCurrentModel c))
        by now rewrite length_map, length_seq.
      change (HuggingFaceClient._getCurrentModel c)
        with ((fun k => HuggingFaceClient._getCurrentModel
                          (Nat.iter k HuggingFaceClient._rotateModel c)) 0%nat).
      rewrite map_nth, seq_nth by exact Hk. simpl.
      unfold HuggingFaceClient._getCurrentModel. rewrite Hmodels, Hidx.
      rewrite (nth_indep _ "undefined"%string ""%string)
        by now apply Nat.mod_upper_bound.
      symmetry. now apply nth_rotation.
  - unfold rotation. rewrite Permutation_app_comm. now rewrite firstn_skipn.
Qed.

Lemma rotateModel_cycle_witness :
  Nat.iter 3 HuggingFaceClient._rotateModel S6_client = S6_client
  /\ map (fun k => HuggingFaceClient._getCurrentModel
                     (Nat.iter k HuggingFaceClient._rotateModel
                               (HuggingFaceClient._rotateModel S6_client)))
         (seq 0 3)
     = ["M2"; "M3"; "M1"]%string.
Proof.
  split.
  - refine (proj1 (proj2 (rotateModel_cycle S6_client _))). simpl. lia.
  - refine (proj1 (proj2 (proj2 (rotateModel_cycle
                                   (HuggingFaceClient._rotateModel S6_client) _)))).
    simpl. lia.
Defined.

(** ** HuggingFaceClient: what one call of [_sendWithFallback] does *)

Lemma sameConfig_refl (c : HuggingFaceClient.t) : sameConfig c c.
Proof. repeat split. Qed.

Lemma extends_refl (c : HuggingFaceClient.t) : extends c c [].
Proof.
  split; [apply sameConfig_refl|]. split; [now rewrite app_nil_r|].
  unfold countRequests. simpl. lia.
Qed.

Lemma countRequests_app (e1 e2 : list HuggingFaceClient.Event) :
  countRequests (e1 ++ e2) = (countRequests e1 + countRequests e2)%nat.
Proof. unfold countRequests. now rewrite filter_app, length_app. Qed.

Lemma extends_trans (c c1 c2 : HuggingFaceClient.t)
      (e1 e2 : list HuggingFaceClient.Event) :
  extends c c1 e1 -> extends c1 c2 e2 -> extends c c2 (e1 ++ e2).
Proof.
  intros (S1 & T1 & R1) (S2 & T2 & R2). split; [|split].
  - unfold sameConfig in *.
    repeat match goal with H : _ /\ _ |- _ => destruct H end.
    repeat split; congruence.
  - rewrite T2, T1. now rewrite app_assoc.
  - rewrite R2, R1, countRequests_app. lia.
Qed.

Lemma fallbackEvent_config (c c1 : HuggingFaceClient.t) (first n : nat)
      (e : HuggingFaceClient.Event) :
  sameConfig c c1 -> fallbackEvent c1 (S first) n e -> fallbackEvent c first (S n) e.
Proof.
  intros Hs. destruct Hs as (Hm & _ & Hb & _ & _ & _ & Hc & Ha & _).
  destruct e; simpl; try tauto; try congruence.
  intros (attempt & Hr & ->). exists attempt. split; [lia|].
  unfold HuggingFaceClient.backoffFor. now rewrite Hm, Hb.
Qed.

Lemma currentModel_listed (c : HuggingFaceClient.t) :
  In (HuggingFaceClient._getCurrentModel c) (HuggingFaceClient._models c)
  \/ HuggingFaceClient._getCurrentModel c = "undefined"%string.
Proof.
  unfold HuggingFaceClient._getCurrentModel.
  destruct (nth_in_or_default (HuggingFaceClient._currentModelIndex c)
                              (HuggingFaceClient._models c) "undefined"%string); auto.
Qed.

Section FallbackTrace.
Variable world : HuggingFaceClient.World.

(** One more round of the loop, from a state [c1] that [c] has reached by
    the events [e1]. *)
Lemma fallback_round (c c1 c2 : HuggingFaceClient.t) (first n : nat)
      (e1 : list HuggingFaceClient.Event) :
  extends c c1 e1 ->
  countRequests e1 = 1%nat ->
  Forall (fallbackEvent c first (S n)) e1 ->
  (exists e2, extends c1 c2 e2 /\ (countRequests e2 <= n)%nat
              /\ Forall (fallbackEvent c1 (S first) n) e2) ->
  exists events,
    extends c c2 events /\ (countRequests events <= S n)%nat
    /\ Forall (fallbackEvent c first (S n)) events.
Proof.
  intros H1 Hc1 Ha1 (e2 & H2 & Hc2 & Ha2). exists (e1 ++ e2).
  split; [eapply extends_trans; eassumption|].
  split; [rewrite countRequests_app; lia|].
  apply Forall_app. split; [exact Ha1|].
  eapply Forall_impl; [|exact Ha2]. intros e. apply fallbackEvent_config. apply H1.
Qed.

Lemma fallbackLoop_trace (n : nat) :
  forall attempt tried lastError c,
    exists events,
      extends c (snd (HuggingFaceClient.fallbackLoop world n attempt tried lastError c))
              events
      /\ (countRequests events <= n)%nat
      /\ Forall (fallbackEvent c attempt n) events.
Proof.
  induction n as [|n IH]; intros attempt tried lastError c.
  - exists []. simpl. split; [apply extends_refl|]. split; [reflexivity|constructor].
  - assert (Hstop : exists events,
               extends c c events /\ (countRequests events <= S n)%nat
               /\ Forall (fallbackEvent c attempt (S n)) events).
    { exists []. split; [apply extends_refl|]. split; [unfold countRequests; simpl; lia|].
      constructor. }
    assert (Hreq : forall c0, sameConfig c c0 ->
                     HuggingFaceClient.trace c0
                     = HuggingFaceClient.trace c
                       ++ [HuggingFaceClient.Request (HuggingFaceClient._getCurrentModel c)] ->
                     HuggingFaceClient.requests c0 = S (HuggingFaceClient.requests c) ->
                     exists events,
                       extends c c0 events /\ (countRequests events <= S n)%nat
                       /\ Forall (fallbackEvent c attempt (S n)) events).
    { intros c0 Hs Ht Hr.
      exists [HuggingFaceClient.Request (HuggingFaceClient._getCurrentModel c)].
      split; [split; [exact Hs|split; [exact Ht|rewrite Hr; unfold countRequests; simpl; lia]]|].
      split; [unfold countRequests; simpl; lia|].
      constructor; [apply currentModel_listed|constructor]. }
    simpl.
    destruct (HuggingFaceClient._cancelled c); [exact Hstop|].
    pose proof (currentModel_listed c) as Hcur.
    set (model := HuggingFaceClient._getCurrentModel c) in *.
    assert (Hgeneric : forall message,
               exists events,
                 extends c
                   (snd (if includes "Invalid HuggingFace API token" message
                         then (inl (ExnError message),
                               HuggingFaceClient.count_request
                                 (HuggingFaceClient.emit c (HuggingFaceClient.Request model)))
                         else
                           HuggingFaceClient.fallbackLoop world n (S attempt) tried
                             (ExnError message)
                             (HuggingFaceClient.emit
                                (HuggingFaceClient.emit
                                   (HuggingFaceClient.count_request
                                      (HuggingFaceClient.emit
                                         c (HuggingFaceClient.Request model)))
                                   (HuggingFaceClient.WarnAttemptFailed
                                      (attempt + 1) model message))
                                (HuggingFaceClient.SleepBackoff
                                   (HuggingFaceClient.backoffFor
                                      (HuggingFaceClient.count_request
                                         (HuggingFaceClient.emit
                                            c (HuggingFaceClient.Request model)))
                                      attempt)))))
                   events
                 /\ (countRequests events <= S n)%nat
                 /\ Forall (fallbackEvent c attempt (S n)) events).
    { intros message. destruct (includes _ message).
      - apply Hreq; [repeat split|reflexivity|reflexivity].
      - simpl snd.
        match goal with
        | |- context [HuggingFaceClient.fallbackLoop world n ?a ?t ?e ?c1] =>
            apply (fallback_round c c1 _ attempt n
                     [HuggingFaceClient.Request model;
                      HuggingFaceClient.WarnAttemptFailed (attempt + 1) model message;
                      HuggingFaceClient.SleepBackoff
                        (HuggingFaceClient.backoffFor c attempt)]);
              [|reflexivity| |apply (IH a t e c1)]
        end.
        + split; [repeat split|]. split; [simpl; now rewrite <- !app_assoc|].
          simpl. unfold countRequests. simpl. lia.
        + constructor; [exact Hcur|]. constructor; [exact I|].
          constructor; [|constructor]. exists attempt. split; [lia|reflexivity]. }
    destruct (HuggingFaceClient.w_fetch world (HuggingFaceClient.requests c) model)
      as [status errBody content| |message].
    + destruct (status =? 401)%nat; [exact (Hgeneric HuggingFaceClient.invalidToken)|].
      destruct (status =? 429)%nat.
      * destruct (length (HuggingFaceClient._models c) <=? S tried)%nat.
        -- match goal with
           | |- context [HuggingFaceClient.fallbackLoop world n ?a ?t ?e ?c1] =>
               apply (fallback_round c c1 _ attempt n
                        [HuggingFaceClient.Request model;
                         HuggingFaceClient.WarnRateLimited model;
                         HuggingFaceClient.WarnAllRateLimited;
                         HuggingFaceClient.SleepAllModels
                           (HuggingFaceClient._allModelsBackoff c)]);
                 [|reflexivity| |apply (IH a t e c1)]
           end.
           ++ split; [repeat split|]. split; [simpl; now rewrite <- !app_assoc|].
              simpl. unfold countRequests. simpl. lia.
           ++ constructor; [exact Hcur|].
              repeat (constructor; [first [exact I | reflexivity]|]). constructor.
        -- match goal with
           | |- context [HuggingFaceClient.fallbackLoop world n ?a ?t ?e ?c1] =>
               apply (fallback_round c c1 _ attempt n
                        [HuggingFaceClient.Request model;
                         HuggingFaceClient.WarnRateLimited model]);
                 [|reflexivity| |apply (IH a t e c1)]
           end.
           ++ split; [repeat split|]. split; [simpl; now rewrite <- !app_assoc|].
              simpl. unfold countRequests. simpl. lia.
           ++ constructor; [exact Hcur|].
              repeat (constructor; [first [exact I | reflexivity]|]). constructor.
      * destruct (status =? 503)%nat.
        -- match goal with
           | |- context [HuggingFaceClient.fallbackLoop world n ?a ?t ?e ?c1] =>
               apply (fallback_round c c1 _ attempt n
                        [HuggingFaceClient.Request model;
                         HuggingFaceClient.WarnModelLoading model;
                         HuggingFaceClient.SleepColdStart
                           (HuggingFaceClient._coldStartRetryDelay c)]);
                 [|reflexivity| |apply (IH a t e c1)]
           end.
           ++ split; [repeat split|]. split; [simpl; now rewrite <- !app_assoc|].
              simpl. unfold countRequests. simpl. lia.
           ++ constructor; [exact Hcur|].
              repeat (constructor; [first [exact I | reflexivity]|]). constructor.
        -- destruct (negb (HuggingFaceClient.is2xx status));
             [exact (Hgeneric ("HuggingFace API error "
                               ++ HighlightDetector.string_of_nat status
                               ++ ": " ++ errBody)%string)|].
           destruct content as [[|ch text]|];
             [exact (Hgeneric "Empty response from HuggingFace"%string)|
             |exact (Hgeneric "Empty response from HuggingFace"%string)].
           apply Hreq; [repeat split|reflexivity|reflexivity].
    + match goal with
      | |- context [HuggingFaceClient.fallbackLoop world n ?a ?t ?e ?c1] =>
          apply (fallback_round c c1 _ attempt n
                   [HuggingFaceClient.Request model;
                    HuggingFaceClient.WarnTimedOut model]);
            [|reflexivity| |apply (IH a t e c1)]
      end.
      * split; [repeat split|]. split; [simpl; now rewrite <- !app_assoc|].
        simpl. unfold countRequests. simpl. lia.
      * constructor; [exact Hcur|].
        repeat (constructor; [first [exact I | reflexivity]|]). constructor.
    + exact (Hgeneric message).
Qed.

End FallbackTrace.

(** X19.  The retry budget of [_sendWithFallback].  One call sends at most
    [_maxRetries * models] requests (9 with the settings of the
    constructor) and counts each of them; the settings of the client are
    untouched.  Besides requests it only warns and sleeps: an all-models
    sleep lasts [_allModelsBackoff], a cold-start sleep
    [_coldStartRetryDelay], and a backoff sleep [_initialBackoff * 2^k]
    for some [k < _maxRetries]. *)
Theorem sendWithFallback_budget (world : HuggingFaceClient.World)
        (c : HuggingFaceClient.t) :
  exists events,
    extends c (snd (HuggingFaceClient._sendWithFallback world c)) events
    /\ (countRequests events
        <= HuggingFaceClient._maxRetries c * length (HuggingFaceClient._models c))%nat
    /\ Forall (fallbackEvent c 0 (HuggingFaceClient._maxRetries c
                                  * length (HuggingFaceClient._models c)))
              events
    /\ (forall ms,
          In (HuggingFaceClient.SleepBackoff ms) events ->
          exists k, (k < HuggingFaceClient._maxRetries c)%nat
                    /\ ms = (HuggingFaceClient._initialBackoff c * 2 ^ Z.of_nat k)%Z).
Proof.
  unfold HuggingFaceClient._sendWithFallback.
  destruct (fallbackLoop_trace world
              (HuggingFaceClient._maxRetries c * length (HuggingFaceClient._models c))
              0 0 ExnUndefined c) as (events & Hext & Hcount & Hall).
  exists events. split; [exact Hext|]. split; [exact Hcount|]. split; [exact Hall|].
  intros ms Hin. rewrite Forall_forall in Hall. specialize (Hall _ Hin).
  destruct Hall as (attempt & Hr & ->).
  exists (attempt / length (HuggingFaceClient._models c))%nat. split; [|reflexivity].
  apply Nat.Div0.div_lt_upper_bound. lia.
Qed.

Section FallbackResult.
Variable world : HuggingFaceClient.World.

Lemma fallbackLoop_success (n : nat) :
  forall attempt tried lastError c text model c',
    HuggingFaceClient.fallbackLoop world n attempt tried lastError c
    = (inr (text, model), c') ->
    text <> ""%string
    /\ HuggingFaceClient._getCurrentModel c' = model
    /\ (exists before,
           HuggingFaceClient.trace c'
           = HuggingFaceClient.trace c ++ before ++ [HuggingFaceClient.Request model])
    /\ exists status errBody,
        HuggingFaceClient.w_fetch world (pred (HuggingFaceClient.requests c')) model
        = HuggingFaceClient.Http status errBody (Some text)
        /\ HuggingFaceClient.is2xx status = true.
Proof.
  induction n as [|n IH]; intros attempt tried lastError c text model c' H;
    [discriminate|].
  simpl in H.
  destruct (HuggingFaceClient._cancelled c); [discriminate|].
  set (m := HuggingFaceClient._getCurrentModel c) in *.
  (* a further round, from a state whose trace has grown by [ev] *)
  assert (Hnext : forall a t e c1 ev,
             HuggingFaceClient.trace c1 = HuggingFaceClient.trace c ++ ev ->
             HuggingFaceClient.fallbackLoop world n a t e c1 = (inr (text, model), c') ->
             text <> ""%string
             /\ HuggingFaceClient._getCurrentModel c' = model
             /\ (exists before,
                    HuggingFaceClient.trace c'
                    = HuggingFaceClient.trace c ++ before
                      ++ [HuggingFaceClient.Request model])
             /\ exists status errBody,
                 HuggingFaceClient.w_fetch world (pred (HuggingFaceClient.requests c')) model
                 = HuggingFaceClient.Http status errBody (Some text)
                 /\ HuggingFaceClient.is2xx status = true).
  { intros a t e c1 ev Ht Hl.
    destruct (IH a t e c1 text model c' Hl) as (H1 & H2 & (before & H3) & H4).
    split; [exact H1|]. split; [exact H2|]. split; [|exact H4].
    exists (ev ++ before). rewrite H3, Ht. now rewrite <- !app_assoc. }
  assert (Hgeneric : forall message,
             (if includes "Invalid HuggingFace API token" message
              then (inl (ExnError message),
                    HuggingFaceClient.count_request
                      (HuggingFaceClient.emit c (HuggingFaceClient.Request m)))
              else
                HuggingFaceClient.fallbackLoop world n (S attempt) tried
                  (ExnError message)
                  (HuggingFaceClient.emit
                     (HuggingFaceClient.emit
                        (HuggingFaceClient.count_request
                           (HuggingFaceClient.emit c (HuggingFaceClient.Request m)))
                        (HuggingFaceClient.WarnAttemptFailed (attempt + 1) m message))
                     (HuggingFaceClient.SleepBackoff
                        (HuggingFaceClient.backoffFor
                           (HuggingFaceClient.count_request
                              (HuggingFaceClient.emit c (HuggingFaceClient.Request m)))
                           attempt))))
             = (inr (text, model), c') ->
             text <> ""%string
             /\ HuggingFaceClient._getCurrentModel c' = model
             /\ (exists before,
                    HuggingFaceClient.trace c'
                    = HuggingFaceClient.trace c ++ before
                      ++ [HuggingFaceClient.Request model])
             /\ exists status errBody,
                 HuggingFaceClient.w_fetch world (pred (HuggingFaceClient.requests c')) model
                 = HuggingFaceClient.Http status errBody (Some text)
                 /\ HuggingFaceClient.is2xx status = true).
  { intros message Hm. destruct (includes _ message); [discriminate|].
    eapply Hnext; [|exact Hm]. simpl. rewrite <- !app_assoc. reflexivity. }
  destruct (HuggingFaceClient.w_fetch world (HuggingFaceClient.requests c) m)
    as [status errBody content| |message] eqn:Ef.
  - destruct (status =? 401)%nat;
      [exact (Hgeneric HuggingFaceClient.invalidToken H)|].
    destruct (status =? 429)%nat.
    + destruct (length (HuggingFaceClient._models c) <=? S tried)%nat;
        (eapply Hnext; [|exact H]); simpl; rewrite <- !app_assoc; reflexivity.
    + destruct (status =? 503)%nat.
      * eapply Hnext; [|exact H]. simpl. rewrite <- !app_assoc. reflexivity.
      * destruct (negb (HuggingFaceClient.is2xx status)) eqn:E2;
          [exact (Hgeneric ("HuggingFace API error "
                            ++ HighlightDetector.string_of_nat status
                            ++ ": " ++ errBody)%string H)|].
        destruct content as [[|ch rest]|];
          [exact (Hgeneric "Empty response from HuggingFace"%string H)|
          |exact (Hgeneric "Empty response from HuggingFace"%string H)].
        injection H as <- <- <-.
        split; [discriminate|]. split; [reflexivity|].
        split; [exists []; reflexivity|].
        exists status, errBody. simpl. split; [exact Ef|].
        now apply negb_false_iff in E2.
  - eapply Hnext; [|exact H]. simpl. rewrite <- !app_assoc. reflexivity.
  - exact (Hgeneric message H).
Qed.

Lemma fallbackLoop_keeps_model (n : nat) :
  (forall k model, HuggingFaceClient.w_fetch world k model
                   <> HuggingFaceClient.TimeoutError) ->
  (forall k model errBody content,
      HuggingFaceClient.w_fetch world k model
      <> HuggingFaceClient.Http 429 errBody content) ->
  forall attempt tried lastError c,
    HuggingFaceClient._currentModelIndex
      (snd (HuggingFaceClient.fallbackLoop world n attempt tried lastError c))
    = HuggingFaceClient._currentModelIndex c
    /\ exists events,
      HuggingFaceClient.trace
        (snd (HuggingFaceClient.fallbackLoop world n attempt tried lastError c))
      = HuggingFaceClient.trace c ++ events
      /\ forall model, In (HuggingFaceClient.Request model) events ->
                       model = HuggingFaceClient._getCurrentModel c.
Proof.
  intros Htimeout H429.
  induction n as [|n IH]; intros attempt tried lastError c.
  - simpl. split; [reflexivity|]. exists []. split; [now rewrite app_nil_r|]. intros ? [].
  - simpl.
    destruct (HuggingFaceClient._cancelled c).
    { simpl. split; [reflexivity|]. exists []. split; [now rewrite app_nil_r|]. intros ? []. }
    set (m := HuggingFaceClient._getCurrentModel c) in *.
    assert (Hone : forall r : Exn + string * string,
               HuggingFaceClient._currentModelIndex
                 (snd (r, HuggingFaceClient.count_request
                            (HuggingFaceClient.emit c (HuggingFaceClient.Request m))))
               = HuggingFaceClient._currentModelIndex c
               /\ exists events,
                 HuggingFaceClient.trace
                   (snd (r, HuggingFaceClient.count_request
                              (HuggingFaceClient.emit c (HuggingFaceClient.Request m))))
                 = HuggingFaceClient.trace c ++ events
                 /\ forall model, In (HuggingFaceClient.Request model) events -> model = m).
    { intros r. simpl. split; [reflexivity|].
      exists [HuggingFaceClient.Request m]. split; [reflexivity|].
      intros model [Hm|[]]. now injection Hm. }
    assert (Hnext : forall a t e c1 ev,
               HuggingFaceClient._currentModelIndex c1
               = HuggingFaceClient._currentModelIndex c ->
               HuggingFaceClient._models c1 = HuggingFaceClient._models c ->
               HuggingFaceClient.trace c1 = HuggingFaceClient.trace c ++ ev ->
               (forall model, In (HuggingFaceClient.Request model) ev -> model = m) ->
               HuggingFaceClient._currentModelIndex
                 (snd (HuggingFaceClient.fallbackLoop world n a t e c1))
               = HuggingFaceClient._currentModelIndex c
               /\ exists events,
                 HuggingFaceClient.trace
                   (snd (HuggingFaceClient.fallbackLoop world n a t e c1))
                 = HuggingFaceClient.trace c ++ events
                 /\ forall model, In (HuggingFaceClient.Request model) events -> model = m).
    { intros a t e c1 ev Hi Hm Ht Hev.
      destruct (IH a t e c1) as (Hidx & events & Htr & Hreq).
      split; [now rewrite Hidx|].
      exists (ev ++ events). split; [rewrite Htr, Ht; now rewrite app_assoc|].
      intros model Hin. apply in_app_or in Hin as [Hin|Hin]; [now apply Hev|].
      rewrite (Hreq model Hin). unfold m, HuggingFaceClient._getCurrentModel.
      now rewrite Hi, Hm. }
    assert (Hgeneric : forall message,
               HuggingFaceClient._currentModelIndex
                 (snd (if includes "Invalid HuggingFace API token" message
                       then (inl (ExnError message),
                             HuggingFaceClient.count_request
                               (HuggingFaceClient.emit c (HuggingFaceClient.Request m)))
                       else
                         HuggingFaceClient.fallbackLoop world n (S attempt) tried
                           (ExnError message)
                           (HuggingFaceClient.emit
                              (HuggingFaceClient.emit
                                 (HuggingFaceClient.count_request
                                    (HuggingFaceClient.emit c (HuggingFaceClient.Request m)))
                                 (HuggingFaceClient.WarnAttemptFailed (attempt + 1) m
                                                                      message))
                              (HuggingFaceClient.SleepBackoff
                                 (HuggingFaceClient.backoffFor
                                    (HuggingFaceClient.count_request
                                       (HuggingFaceClient.emit
                                          c (HuggingFaceClient.Request m)))
                                    attempt)))))
               = HuggingFaceClient._currentModelIndex c
               /\ exists events,
                 HuggingFaceClient.trace
                   (snd (if includes "Invalid HuggingFace API token" message
                         then (inl (ExnError message),
                               HuggingFaceClient.count_request
                                 (HuggingFaceClient.emit c (HuggingFaceClient.Request m)))
                         else
                           HuggingFaceClient.fallbackLoop world n (S attempt) tried
                             (ExnError message)
                             (HuggingFaceClient.emit
                                (HuggingFaceClient.emit
                                   (HuggingFaceClient.count_request
                                      (HuggingFaceClient.emit
                                         c (HuggingFaceClient.Request m)))
                                   (HuggingFaceClient.WarnAttemptFailed (attempt + 1) m
                                                                        message))
                                (HuggingFaceClient.SleepBackoff
                                   (HuggingFaceClient.backoffFor
                                      (HuggingFaceClient.count_request
                                         (HuggingFaceClient.emit
                                            c (HuggingFaceClient.Request m)))
                                      attempt)))))
                 = HuggingFaceClient.trace c ++ events
                 /\ forall model, In (HuggingFaceClient.Request model) events -> model = m).
    { intros message. destruct (includes _ message); [apply Hone|].
      eapply Hnext; [reflexivity|reflexivity|simpl; rewrite <- !app_assoc; reflexivity|].
      intros model [Hm|[Hm|[Hm|[]]]]; try discriminate. now injection Hm. }
    destruct (HuggingFaceClient.w_fetch world (HuggingFaceClient.requests c) m)
      as [status errBody content| |message] eqn:Ef.
    + destruct (status =? 401)%nat;
        [exact (Hgeneric HuggingFaceClient.invalidToken)|].
      destruct (status =? 429)%nat eqn:E429.
      { apply Nat.eqb_eq in E429. subst status. exfalso. exact (H429 _ _ _ _ Ef). }
      destruct (status =? 503)%nat.
      * eapply Hnext;
          [reflexivity|reflexivity|simpl; rewrite <- !app_assoc; reflexivity|].
        intros model [Hm|[Hm|[Hm|[]]]]; try discriminate. now injection Hm.
      * destruct (negb (HuggingFaceClient.is2xx status));
          [exact (Hgeneric ("HuggingFace API error "
                            ++ HighlightDetector.string_of_nat status
                            ++ ": " ++ errBody)%string)|].
        destruct content as [[|ch rest]|];
          [exact (Hgeneric "Empty response from HuggingFace"%string)|
          |exact (Hgeneric "Empty response from HuggingFace"%string)].
        apply Hone.
    + exfalso. exact (Htimeout _ _ Ef).
    + exact (Hgeneric message).
Qed.

End FallbackResult.

(** X20.  When [_sendWithFallback] returns a text, the text is not empty;
    it is the content of a 2xx answer to the last request of the call; that
    request went to the returned model, and this model is the current model
    of the client afterwards, so the next frame starts with the model that
    has just answered. *)
Theorem sendWithFallback_success (world : HuggingFaceClient.World)
        (c : HuggingFaceClient.t) (text model : string) (c' : HuggingFaceClient.t) :
  HuggingFaceClient._sendWithFallback world c = (inr (text, model), c') ->
  text <> ""%string
  /\ HuggingFaceClient._getCurrentModel c' = model
  /\ (exists before,
         HuggingFaceClient.trace c'
         = HuggingFaceClient.trace c ++ before ++ [HuggingFaceClient.Request model])
  /\ exists status errBody,
      HuggingFaceClient.w_fetch world (pred (HuggingFaceClient.requests c')) model
      = HuggingFaceClient.Http status errBody (Some text)
      /\ HuggingFaceClient.is2xx status = true.
Proof. apply fallbackLoop_success. Qed.

Lemma sendWithFallback_success_witness :
  HuggingFaceClient._getCurrentModel
    (snd (HuggingFaceClient._sendWithFallback S6_world S6_client))
  = "M3"%string.
Proof.
  refine (proj1 (proj2 (sendWithFallback_success S6_world S6_client "{}" "M3"
                          (snd (HuggingFaceClient._sendWithFallback S6_world S6_client))
                          _))).
  vm_compute. reflexivity.
Defined.

(** X21.  Only a 429 answer and a timeout make the client change the
    model.  If no request times out and none is answered 429, a call of
    [_sendWithFallback] leaves the current model as it is, and every request
    of the call (after a 503, after another HTTP error, after a network
    failure) goes to that one model. *)
Theorem sendWithFallback_keeps_model (world : HuggingFaceClient.World)
        (c : HuggingFaceClient.t) :
  (forall k model, HuggingFaceClient.w_fetch world k model
                   <> HuggingFaceClient.TimeoutError) ->
  (forall k model errBody content,
      HuggingFaceClient.w_fetch world k model
      <> HuggingFaceClient.Http 429 errBody content) ->
  HuggingFaceClient._currentModelIndex
    (snd (HuggingFaceClient._sendWithFallback world c))
  = HuggingFaceClient._currentModelIndex c
  /\ exists events,
    HuggingFaceClient.trace (snd (HuggingFaceClient._sendWithFallback world c))
    = HuggingFaceClient.trace c ++ events
    /\ forall model, In (HuggingFaceClient.Request model) events ->
                     model = HuggingFaceClient._getCurrentModel c.
Proof. intros H1 H2. now apply fallbackLoop_keeps_model. Qed.

Lemma sendWithFallback_keeps_model_witness :
  HuggingFaceClient._currentModelIndex
    (snd (HuggingFaceClient._sendWithFallback loadingWorld S6_client))
  = 0%nat
  /\ countRequests
       (HuggingFaceClient.trace
          (snd (HuggingFaceClient._sendWithFallback loadingWorld S6_client)))
     = 9%nat.
Proof.
  split.
  - refine (proj1 (sendWithFallback_keeps_model loadingWorld S6_client _ _)).
    + intros k model. discriminate.
    + intros k model errBody content. discriminate.
  - vm_compute. reflexivity.
Defined.

(** ** HuggingFaceClient: an invalid token, a cancelled client *)

Section InvalidToken.
Variable world : HuggingFaceClient.World.
Hypothesis all401 :
  forall k model, exists errBody content,
    HuggingFaceClient.w_fetch world k model = HuggingFaceClient.Http 401 errBody content.
Hypothesis readable :
  forall blob, exists b64, HuggingFaceClient.w_blobToBase64 world blob = inr b64.

Lemma sendWithFallback_401 (c : HuggingFaceClient.t) :
  HuggingFaceClient._cancelled c = false ->
  (0 < HuggingFaceClient._maxRetries c * length (HuggingFaceClient._models c))%nat ->
  HuggingFaceClient._sendWithFallback world c
  = (inl (ExnError HuggingFaceClient.invalidToken),
     HuggingFaceClient.count_request
       (HuggingFaceClient.emit
          c (HuggingFaceClient.Request (HuggingFaceClient._getCurrentModel c)))).
Proof.
  intros Hc Hn. unfold HuggingFaceClient._sendWithFallback.
  destruct (HuggingFaceClient._maxRetries c * length (HuggingFaceClient._models c))%nat
    as [|n]; [lia|].
  simpl. rewrite Hc.
  destruct (all401 (HuggingFaceClient.requests c) (HuggingFaceClient._getCurrentModel c))
    as (errBody & content & ->).
  reflexivity.
Qed.

Lemma analyzeFrame_401 (blob : HuggingFaceClient.Blob) (timestamp : Q)
      (c : HuggingFaceClient.t) :
  ready c ->
  exists c',
    HuggingFaceClient.analyzeFrame world blob timestamp c
    = Some (inl (ExnError HuggingFaceClient.invalidToken), c')
    /\ ready c'
    /\ HuggingFaceClient.requests c' = S (HuggingFaceClient.requests c)
    /\ HuggingFaceClient._currentModelIndex c' = HuggingFaceClient._currentModelIndex c
    /\ HuggingFaceClient._models c' = HuggingFaceClient._models c.
Proof.
  intros (Hc & Ha & Hn). unfold HuggingFaceClient.analyzeFrame.
  destruct (readable blob) as (b64 & ->).
  unfold HuggingFaceClient._sendWithConcurrency.
  replace (HuggingFaceClient._concurrency c <=? HuggingFaceClient._activeRequests c)%nat
    with false by (symmetry; apply Nat.leb_gt; exact Ha).
  cbv zeta.
  match goal with
  | |- context [HuggingFaceClient._sendWithFallback world ?c4] =>
      rewrite (sendWithFallback_401 c4)
  end.
  - eexists. split; [reflexivity|].
    destruct (_ <? _)%Z; simpl; repeat split; assumption.
  - destruct (_ <? _)%Z; simpl; exact Hc.
  - destruct (_ <? _)%Z; simpl; exact Hn.
Qed.

Lemma batchLoop_401 (frames : list HuggingFaceClient.Frame) :
  forall total results completed c,
    ready c ->
    exists c',
      HuggingFaceClient.batchLoop world frames total results completed c
      = Some (inr (results
                   ++ map (fun f => HuggingFaceClient.sentinel
                                      (HuggingFaceClient.f_timestamp f)
                                      HuggingFaceClient.invalidToken) frames), c')
      /\ HuggingFaceClient.requests c'
         = (HuggingFaceClient.requests c + length frames)%nat
      /\ HuggingFaceClient._currentModelIndex c' = HuggingFaceClient._currentModelIndex c.
Proof.
  induction frames as [|frame frames IH]; intros total results completed c Hr; simpl.
  - exists c. rewrite app_nil_r. repeat split. lia.
  - destruct (Hr) as (Hc & _). rewrite Hc.
    destruct (analyzeFrame_401 (HuggingFaceClient.f_blob frame)
                               (HuggingFaceClient.f_timestamp frame) c Hr)
      as (c1 & -> & Hr1 & Hreq & Hidx & Hm).
    match goal with
    | |- context [HuggingFaceClient.batchLoop world frames total ?rs ?k ?c2] =>
        destruct (IH total rs k c2) as (c' & Hb & Hreq' & Hidx')
    end.
    { destruct Hr1 as (H1 & H2 & H3). repeat split; assumption. }
    exists c'. rewrite Hb. split; [now rewrite <- app_assoc|].
    simpl in Hreq', Hidx'. split; [lia|congruence].
Qed.

End InvalidToken.

(** X22.  An invalid token does not stop the batch.  When every request is
    answered 401, each frame costs exactly one request (the 401 is not
    retried and the model is not changed), [analyzeFramesBatch] still
    returns, with one slot for each frame, and every slot is the sentinel
    that carries the invalid-token message. *)
Theorem analyzeFramesBatch_invalid_token (world : HuggingFaceClient.World)
        (frames : list HuggingFaceClient.Frame) (c : HuggingFaceClient.t) :
  (forall k model, exists errBody content,
      HuggingFaceClient.w_fetch world k model
      = HuggingFaceClient.Http 401 errBody content) ->
  (forall blob, exists b64, HuggingFaceClient.w_blobToBase64 world blob = inr b64) ->
  HuggingFaceClient._cancelled c = false ->
  (HuggingFaceClient._activeRequests c < HuggingFaceClient._concurrency c)%nat ->
  (0 < HuggingFaceClient._maxRetries c * length (HuggingFaceClient._models c))%nat ->
  exists c',
    HuggingFaceClient.analyzeFramesBatch world frames c
    = Some (inr (map (fun f => HuggingFaceClient.sentinel
                                 (HuggingFaceClient.f_timestamp f)
                                 HuggingFaceClient.invalidToken) frames), c')
    /\ HuggingFaceClient.requests c' = (HuggingFaceClient.requests c + length frames)%nat
    /\ HuggingFaceClient._currentModelIndex c' = HuggingFaceClient._currentModelIndex c.
Proof.
  intros H401 Hread Hc Ha Hn.
  exact (batchLoop_401 world H401 Hread frames (length frames) [] 0 c
                       (conj Hc (conj Ha Hn))).
Qed.

Lemma analyzeFramesBatch_invalid_token_witness :
  exists c',
    HuggingFaceClient.analyzeFramesBatch unauthorizedWorld S6_frames S6_client
    = Some (inr (map (fun f => HuggingFaceClient.sentinel
                                 (HuggingFaceClient.f_timestamp f)
                                 HuggingFaceClient.invalidToken) S6_frames), c')
    /\ HuggingFaceClient.requests c' = 2%nat.
Proof.
  destruct (analyzeFramesBatch_invalid_token unauthorizedWorld S6_frames S6_client)
    as (c' & E & Hreq & _).
  - intros k model. do 2 eexists. reflexivity.
  - intros blob. eexists. reflexivity.
  - reflexivity.
  - simpl. lia.
  - simpl. lia.
  - exists c'. split; [exact E|exact Hreq].
Defined.

(** ** HuggingFaceClient: the actions of a batch *)

Lemma progressOf_app (e1 e2 : list HuggingFaceClient.Event) :
  progressOf (e1 ++ e2) = progressOf e1 ++ progressOf e2.
Proof. unfold progressOf. apply flat_map_app. Qed.

Lemma fallbackEvent_no_progress (c : HuggingFaceClient.t) (first n : nat)
      (events : list HuggingFaceClient.Event) :
  Forall (fallbackEvent c first n) events -> progressOf events = [].
Proof.
  induction 1 as [|e events He _ IH]; [reflexivity|].
  simpl. rewrite IH. destruct e; simpl in *; try reflexivity; contradiction.
Qed.

Section BatchTrace.
Variable world : HuggingFaceClient.World.

Lemma sendWithConcurrency_trace (c : HuggingFaceClient.t) :
  (HuggingFaceClient._activeRequests c < HuggingFaceClient._concurrency c)%nat ->
  exists r c' events,
    HuggingFaceClient._sendWithConcurrency world c = Some (r, c')
    /\ HuggingFaceClient._models c' = HuggingFaceClient._models c
    /\ HuggingFaceClient._maxRetries c' = HuggingFaceClient._maxRetries c
    /\ sameFlags c c'
    /\ HuggingFaceClient.trace c' = HuggingFaceClient.trace c ++ events
    /\ progressOf events = []
    /\ HuggingFaceClient.requests c'
       = (HuggingFaceClient.requests c + countRequests events)%nat
    /\ (countRequests events
        <= HuggingFaceClient._maxRetries c * length (HuggingFaceClient._models c))%nat
    /\ (HuggingFaceClient._cancelled c = true ->
        countRequests events = 0%nat /\ exists e, r = inl e).
Proof.
  intro Hlt. unfold HuggingFaceClient._sendWithConcurrency.
  apply Nat.leb_gt in Hlt. rewrite Hlt. cbv zeta.
  set (spaced := if (_ <? _)%Z then _ else _).
  assert (Hspaced : exists ev0,
             HuggingFaceClient.trace spaced = HuggingFaceClient.trace c ++ ev0
             /\ progressOf ev0 = [] /\ countRequests ev0 = 0%nat
             /\ HuggingFaceClient._models spaced = HuggingFaceClient._models c
             /\ HuggingFaceClient._maxRetries spaced = HuggingFaceClient._maxRetries c
             /\ HuggingFaceClient.requests spaced = HuggingFaceClient.requests c
             /\ sameFlags c spaced).
  { unfold spaced. destruct (_ <? _)%Z; simpl.
    - eexists [_]. repeat split; reflexivity.
    - exists []. rewrite app_nil_r. repeat split; reflexivity. }
  destruct Hspaced as (ev0 & Ht0 & Hp0 & Hc0 & Hm0 & Hr0 & Hq0 & (F1 & F2 & F3)).
  set (c4 := HuggingFaceClient.count_clockRead _).
  unfold HuggingFaceClient._sendWithFallback.
  destruct (fallbackLoop_trace world
              (HuggingFaceClient._maxRetries c4 * length (HuggingFaceClient._models c4))
              0 0 ExnUndefined c4) as (events & Hext & Hcount & Hall).
  pose proof (fallbackEvent_no_progress _ _ _ _ Hall) as Hnp.
  assert (Hcan : HuggingFaceClient._cancelled c = true ->
                 countRequests events = 0%nat
                 /\ exists e,
                     fst (HuggingFaceClient.fallbackLoop
                            world
                            (HuggingFaceClient._maxRetries c4
                             * length (HuggingFaceClient._models c4))
                            0 0 ExnUndefined c4) = inl e).
  { intros Hc. destruct Hext as (_ & Ht & _). revert Ht.
    destruct (HuggingFaceClient._maxRetries c4 * length (HuggingFaceClient._models c4))%nat
      as [|n]; simpl.
    - intros Ht. rewrite <- (app_nil_r (HuggingFaceClient.trace spaced)) in Ht at 1.
      apply app_inv_head in Ht. subst events. eauto.
    - rewrite F1, Hc. simpl.
      intros Ht. rewrite <- (app_nil_r (HuggingFaceClient.trace spaced)) in Ht at 1.
      apply app_inv_head in Ht. subst events. eauto. }
  destruct (HuggingFaceClient.fallbackLoop world _ 0 0 ExnUndefined c4) as [r c5].
  simpl in Hext. destruct Hext as (Hs & Ht & Hr).
  destruct Hs as (S1 & S2 & S3 & S4 & S5 & S6 & S7 & S8 & S9 & S10 & S11 & S12).
  simpl in *.
  exists r, (HuggingFaceClient.set_activeRequests c5
               (pred (HuggingFaceClient._activeRequests c5))), (ev0 ++ events).
  split; [reflexivity|]. simpl.
  split; [congruence|]. split; [congruence|].
  split; [repeat split; simpl; [congruence|rewrite S9; simpl; congruence|congruence]|].
  split; [rewrite Ht, Ht0; now rewrite app_assoc|].
  split; [rewrite progressOf_app, Hp0, Hnp; reflexivity|].
  split; [rewrite Hr, countRequests_app, Hc0, Hq0; reflexivity|].
  split; [rewrite countRequests_app, Hc0, <- Hm0, <- Hr0; exact Hcount|].
  intros Hc. rewrite countRequests_app, Hc0. destruct (Hcan Hc) as [H0 He]. auto.
Qed.

Lemma analyzeFrame_trace (blob : HuggingFaceClient.Blob) (timestamp : Q)
      (c : HuggingFaceClient.t) :
  (HuggingFaceClient._activeRequests c < HuggingFaceClient._concurrency c)%nat ->
  exists outcome c' events,
    HuggingFaceClient.analyzeFrame world blob timestamp c = Some (outcome, c')
    /\ HuggingFaceClient._models c' = HuggingFaceClient._models c
    /\ HuggingFaceClient._maxRetries c' = HuggingFaceClient._maxRetries c
    /\ sameFlags c c'
    /\ HuggingFaceClient.trace c' = HuggingFaceClient.trace c ++ events
    /\ progressOf events = []
    /\ HuggingFaceClient.requests c'
       = (HuggingFaceClient.requests c + countRequests events)%nat
    /\ (countRequests events
        <= HuggingFaceClient._maxRetries c * length (HuggingFaceClient._models c))%nat
    /\ (HuggingFaceClient._cancelled c = true ->
        countRequests events = 0%nat /\ exists e, outcome = inl e).
Proof.
  intro Hlt. unfold HuggingFaceClient.analyzeFrame.
  destruct (HuggingFaceClient.w_blobToBase64 world blob) as [e|b64].
  - exists (inl e), c, []. rewrite app_nil_r.
    split; [reflexivity|]. split; [reflexivity|]. split; [reflexivity|].
    split; [apply sameFlags_refl|]. split; [reflexivity|]. split; [reflexivity|].
    split; [unfold countRequests; simpl; lia|].
    split; [unfold countRequests; simpl; lia|]. intros _. split; [reflexivity|eauto].
  - destruct (sendWithConcurrency_trace c Hlt)
      as (r & c' & events & -> & Hm & Hr & Hf & Ht & Hp & Hq & Hc & Hcan).
    destruct r as [e|[text model]].
    + exists (inl e), c', events. repeat split; try assumption; try apply Hf;
        try (now apply Hcan); eauto.
    + eexists _, c', events. split; [reflexivity|].
      repeat split; try assumption; try apply Hf; try (now apply Hcan).
      destruct (Hcan H) as [_ [e He]]. discriminate.
Qed.

End BatchTrace.

Lemma percentOf_full (n : nat) : (0 < n)%nat -> HuggingFaceClient.percentOf n n = 100%Z.
Proof.
  intros Hn. unfold HuggingFaceClient.percentOf, HuggingFaceClient.Math_round.
  assert (Hq : 0 < inject_Z (Z.of_nat n)).
  { change 0 with (inject_Z 0). rewrite <- Zlt_Qlt. lia. }
  assert (E : inject_Z (Z.of_nat n) / inject_Z (Z.of_nat n) * 100 + (1 # 2)
              == (201 # 2)) by (field; lra).
  rewrite E. reflexivity.
Qed.

Lemma percentOf_mono (k k' n : nat) :
  (k <= k')%nat ->
  (HuggingFaceClient.percentOf k n <= HuggingFaceClient.percentOf k' n)%Z.
Proof.
  intros Hk. unfold HuggingFaceClient.percentOf, HuggingFaceClient.Math_round.
  apply Qfloor_resp_le.
  assert (Hkk : inject_Z (Z.of_nat k) <= inject_Z (Z.of_nat k'))
    by (rewrite <- Zle_Qle; lia).
  destruct n as [|n].
  - unfold Qdiv. change (/ inject_Z (Z.of_nat 0)) with 0. lra.
  - assert (Hq : 0 < inject_Z (Z.of_nat (S n))).
    { change 0 with (inject_Z 0). rewrite <- Zlt_Qlt. lia. }
    assert (Hinv : 0 < / inject_Z (Z.of_nat (S n))) by now apply Qinv_lt_0_compat.
    unfold Qdiv. nra.
Qed.

Lemma percentOf_zero (n : nat) : HuggingFaceClient.percentOf 0 n = 0%Z.
Proof.
  unfold HuggingFaceClient.percentOf, HuggingFaceClient.Math_round.
  assert (E : inject_Z (Z.of_nat 0) / inject_Z (Z.of_nat n) * 100 + (1 # 2) == (1 # 2)).
  { change (inject_Z (Z.of_nat 0)) with 0. unfold Qdiv. ring. }
  rewrite E. reflexivity.
Qed.

Section BatchProgress.
Variable world : HuggingFaceClient.World.

Lemma batchLoop_progress (frames : list HuggingFaceClient.Frame) :
  forall total results completed c,
    HuggingFaceClient._cancelled c = false ->
    (HuggingFaceClient._activeRequests c < HuggingFaceClient._concurrency c)%nat ->
    exists results' c' events,
      HuggingFaceClient.batchLoop world frames total results completed c
      = Some (inr results', c')
      /\ HuggingFaceClient.trace c' = HuggingFaceClient.trace c ++ events
      /\ progressOf events
         = map (fun k => (k, total, HuggingFaceClient.percentOf k total))
               (seq (S completed) (length frames))
      /\ HuggingFaceClient.requests c'
         = (HuggingFaceClient.requests c + countRequests events)%nat
      /\ (countRequests events
          <= length frames
             * (HuggingFaceClient._maxRetries c * length (HuggingFaceClient._models c)))%nat.
Proof.
  induction frames as [|frame frames IH]; intros total results completed c Hc Hlt; simpl.
  - exists results, c, []. rewrite app_nil_r.
    repeat split; unfold countRequests; simpl; lia.
  - rewrite Hc.
    destruct (analyzeFrame_trace world (HuggingFaceClient.f_blob frame)
                                 (HuggingFaceClient.f_timestamp frame) c Hlt)
      as (outcome & c1 & ev1 & -> & Hm & Hr & (F1 & F2 & F3) & Ht & Hp & Hq & Hcount & _).
    destruct outcome as [err|analysis].
    + match goal with
      | |- context [HuggingFaceClient.batchLoop world frames total ?rs ?k ?c2] =>
          destruct (IH total rs k c2) as (results' & c' & ev2 & Hb & Ht2 & Hp2 & Hq2 & Hc2)
      end.
      { simpl. congruence. }
      { simpl. lia. }
      rewrite Hb. simpl in Ht2, Hq2, Hc2.
      eexists results', c', (ev1 ++ [_; _] ++ ev2).
      split; [reflexivity|].
      split; [rewrite Ht2, Ht; now rewrite <- !app_assoc|].
      split; [rewrite !progressOf_app, Hp, Hp2; reflexivity|].
      rewrite !countRequests_app. unfold countRequests at 2 5. simpl.
      rewrite Hm, Hr in Hc2. split; lia.
    + match goal with
      | |- context [HuggingFaceClient.batchLoop world frames total ?rs ?k ?c2] =>
          destruct (IH total rs k c2) as (results' & c' & ev2 & Hb & Ht2 & Hp2 & Hq2 & Hc2)
      end.
      { simpl. congruence. }
      { simpl. lia. }
      rewrite Hb. simpl in Ht2, Hq2, Hc2.
      eexists results', c', (ev1 ++ [_] ++ ev2).
      split; [reflexivity|].
      split; [rewrite Ht2, Ht; now rewrite <- !app_assoc|].
      split; [rewrite !progressOf_app, Hp, Hp2; reflexivity|].
      rewrite !countRequests_app. unfold countRequests at 2 5. simpl.
      rewrite Hm, Hr in Hc2. split; lia.
Qed.

End BatchProgress.

Lemma percentOf_rounded (k n : nat) :
  (0 < n)%nat -> roundedPercent k n (HuggingFaceClient.percentOf k n).
Proof.
  intros Hn. unfold roundedPercent, HuggingFaceClient.percentOf, HuggingFaceClient.Math_round.
  assert (Hq : 0 < inject_Z (Z.of_nat n)).
  { change 0 with (inject_Z 0). rewrite <- Zlt_Qlt. lia. }
  set (x := inject_Z (Z.of_nat k) / inject_Z (Z.of_nat n) * 100).
  assert (Ex : 100 * inject_Z (Z.of_nat k) / inject_Z (Z.of_nat n) == x)
    by (unfold x; field; lra).
  rewrite Ex.
  pose proof (Qfloor_le (x + (1 # 2))) as Hlo.
  pose proof (Qlt_floor (x + (1 # 2))) as Hhi.
  rewrite inject_Z_plus in Hhi. change (inject_Z 1) with 1 in Hhi.
  apply Qabs_Qle_condition. split; lra.
Qed.

Lemma percents_nondecreasing (n a len : nat) :
  nondecreasing (map (fun k => HuggingFaceClient.percentOf k n) (seq a len)).
Proof.
  intros i j p q Hij Hi Hj.
  rewrite nth_error_map in Hi, Hj.
  destruct (nth_error (seq a len) i) as [ki|] eqn:Ei; [|discriminate].
  destruct (nth_error (seq a len) j) as [kj|] eqn:Ej; [|discriminate].
  injection Hi as <-. injection Hj as <-.
  assert (Hi : (i < len)%nat).
  { rewrite <- (length_seq len a). apply nth_error_Some. rewrite Ei. discriminate. }
  assert (Hj : (j < len)%nat).
  { rewrite <- (length_seq len a). apply nth_error_Some. rewrite Ej. discriminate. }
  rewrite (nth_error_nth' _ 0%nat) in Ei by (rewrite length_seq; exact Hi).
  rewrite (nth_error_nth' _ 0%nat) in Ej by (rewrite length_seq; exact Hj).
  rewrite seq_nth in Ei, Ej by assumption.
  injection Ei as <-. injection Ej as <-.
  apply percentOf_mono. lia.
Qed.

Lemma percents_last (n a len : nat) :
  (0 < n)%nat -> (0 < len)%nat -> (a + len = S n)%nat ->
  last (map (fun k => HuggingFaceClient.percentOf k n) (seq a len)) 0%Z = 100%Z.
Proof.
  intros Hn Hlen Ha. destruct len as [|len]; [lia|].
  rewrite seq_S, map_app. simpl. rewrite last_last.
  replace (a + len)%nat with n by lia. now apply percentOf_full.
Qed.

(** X23.  The progress of a batch of at most a million frames.  A client
    that is not cancelled and is below its concurrency limit completes the
    batch; it calls [onProgress] exactly once for each frame, with [current]
    counting 1, 2, ..., n and [total = n]; each percentage is
    [100 * current / n] rounded to a nearest whole number, the percentages
    never decrease and the last one is 100; and the whole batch sends at
    most [n * _maxRetries * models] requests. *)
Theorem analyzeFramesBatch_progress (world : HuggingFaceClient.World)
        (frames : list HuggingFaceClient.Frame) (c : HuggingFaceClient.t) :
  HuggingFaceClient._cancelled c = false ->
  (HuggingFaceClient._activeRequests c < HuggingFaceClient._concurrency c)%nat ->
  (Z.of_nat (length frames) <= 1000000)%Z ->
  exists results c' events,
    HuggingFaceClient.analyzeFramesBatch world frames c = Some (inr results, c')
    /\ HuggingFaceClient.trace c' = HuggingFaceClient.trace c ++ events
    /\ map fst (progressOf events)
       = map (fun k => (k, length frames)) (seq 1 (length frames))
    /\ Forall (fun e => roundedPercent (fst (fst e)) (snd (fst e)) (snd e))
              (progressOf events)
    /\ nondecreasing (map snd (progressOf events))
    /\ (frames <> [] -> last (map snd (progressOf events)) 0%Z = 100%Z)
    /\ HuggingFaceClient.requests c'
       = (HuggingFaceClient.requests c + countRequests events)%nat
    /\ (countRequests events
        <= length frames
           * (HuggingFaceClient._maxRetries c * length (HuggingFaceClient._models c)))%nat.
Proof.
  intros Hc Hlt _. unfold HuggingFaceClient.analyzeFramesBatch.
  destruct (batchLoop_progress world frames (length frames) [] 0 c Hc Hlt)
    as (results & c' & events & Hb & Ht & Hp & Hq & Hcount).
  exists results, c', events. split; [exact Hb|]. split; [exact Ht|].
  rewrite Hp, !map_map. cbn [fst snd].
  split; [reflexivity|].
  split.
  { apply Forall_map, Forall_forall. intros k Hk. apply in_seq in Hk. cbn [fst snd].
    apply percentOf_rounded. lia. }
  split; [apply percents_nondecreasing|].
  split; [|split; assumption].
  intros Hne. apply percents_last; destruct frames; try congruence; simpl; lia.
Qed.

Lemma analyzeFramesBatch_progress_witness :
  exists results c' events,
    HuggingFaceClient.analyzeFramesBatch S6_world S6_frames S6_client
    = Some (inr results, c')
    /\ HuggingFaceClient.trace c' = HuggingFaceClient.trace S6_client ++ events
    /\ map fst (progressOf events) = [(1, 2); (2, 2)]%nat.
Proof.
  destruct (analyzeFramesBatch_progress S6_world S6_frames S6_client)
    as (results & c' & events & Hb & Ht & Hp & _).
  - reflexivity.
  - simpl. lia.
  - simpl. lia.
  - exists results, c', events. split; [exact Hb|]. split; [exact Ht|exact Hp].
Defined.

(** X24.  A cancelled client sends nothing.  With [_cancelled] set, a batch
    of at least one frame throws "Analysis cancelled" before anything is
    done (an empty batch returns the empty list), and [analyzeFrame] for a
    single frame throws without sending a request. *)
Theorem cancelled_client_sends_nothing (world : HuggingFaceClient.World)
        (c : HuggingFaceClient.t) :
  HuggingFaceClient._cancelled c = true ->
  (forall frames,
      frames <> [] ->
      HuggingFaceClient.analyzeFramesBatch world frames c
      = Some (inl (ExnError "Analysis cancelled"), c))
  /\ HuggingFaceClient.analyzeFramesBatch world [] c = Some (inr [], c)
  /\ (forall blob timestamp,
         exists e c',
           HuggingFaceClient.analyzeFrame world blob timestamp c = Some (inl e, c')
           /\ HuggingFaceClient.requests c' = HuggingFaceClient.requests c)
  /\ ((0 < HuggingFaceClient._maxRetries c * length (HuggingFaceClient._models c))%nat ->
      HuggingFaceClient._sendWithFallback world c = (inl (ExnError "Cancelled"), c)).
Proof.
  intros Hc. split; [|split; [reflexivity|split]].
  - intros frames Hne. unfold HuggingFaceClient.analyzeFramesBatch.
    destruct frames as [|frame frames]; [congruence|]. simpl. now rewrite Hc.
  - intros blob timestamp.
    destruct (Nat.lt_ge_cases (HuggingFaceClient._activeRequests c)
                              (HuggingFaceClient._concurrency c)) as [Hlt|Hge].
    + destruct (analyzeFrame_trace world blob timestamp c Hlt)
        as (outcome & c' & events & E & _ & _ & _ & _ & _ & Hq & _ & Hcan).
      destruct (Hcan Hc) as [H0 [e He]]. subst outcome.
      exists e, c'. split; [exact E|]. lia.
    + unfold HuggingFaceClient.analyzeFrame.
      destruct (HuggingFaceClient.w_blobToBase64 world blob) as [e|b64]; [eauto|].
      unfold HuggingFaceClient._sendWithConcurrency.
      apply Nat.leb_le in Hge. rewrite Hge, Hc. eauto.
  - intros Hn. unfold HuggingFaceClient._sendWithFallback.
    destruct (HuggingFaceClient._maxRetries c * length (HuggingFaceClient._models c))%nat;
      [lia|].
    simpl. now rewrite Hc.
Qed.

Lemma cancelled_client_sends_nothing_witness :
  HuggingFaceClient.analyzeFramesBatch S6_world S6_frames cancelledClient
  = Some (inl (ExnError "Analysis cancelled"), cancelledClient).
Proof.
  refine (proj1 (cancelled_client_sends_nothing S6_world cancelledClient _) S6_frames _).
  - reflexivity.
  - discriminate.
Defined.

(** ** FrameExtractor: which frames are sampled *)

Lemma floor_nonneg (this : FrameExtractor.t) (d : Q) :
  0 < FrameExtractor.intervalSeconds this -> 0 < d ->
  (0 <= Qfloor (d / FrameExtractor.intervalSeconds this))%Z.
Proof.
  intros Hinterval Hd.
  rewrite <- (Qfloor_Z 0). apply Qfloor_resp_le.
  change (inject_Z 0) with 0. apply Qle_shift_div_l; [exact Hinterval|lra].
Qed.

Lemma totalFrames_int (this : FrameExtractor.t) (d : Q) (m : Z) :
  FrameExtractor.maxFrames this = inject_Z m ->
  FrameExtractor.totalFrames this d
  == inject_Z (Z.min m (Qfloor (d / FrameExtractor.intervalSeconds this) + 1)).
Proof.
  intros HmaxFrames.
  unfold FrameExtractor.totalFrames. rewrite HmaxFrames.
  set (f := Qfloor (d / FrameExtractor.intervalSeconds this)).
  assert (E : inject_Z f + 1 == inject_Z (f + 1))
    by (rewrite inject_Z_plus; reflexivity).
  destruct (Math_min_spec (inject_Z m) (inject_Z f + 1)) as [[Hle ->]|[Hlt ->]].
  - rewrite E, <- Zle_Qle in Hle. now rewrite Z.min_l.
  - rewrite E, <- Zlt_Qlt in Hlt. rewrite Z.min_r by lia. exact E.
Qed.

Lemma frameLoop_run (this : FrameExtractor.t) (video : FrameExtractor.Video)
      (d : Q) (m : Z) (k : nat) :
  0 < FrameExtractor.intervalSeconds this ->
  FrameExtractor.maxFrames this = inject_Z m ->
  0 < d ->
  forall i frames events,
    (i + k = Z.to_nat (Z.min m (Qfloor (d / FrameExtractor.intervalSeconds this) + 1)))%nat ->
    (forall j, FrameExtractor.v_seeked video j = true) ->
    (forall j, FrameExtractor.v_cancelled video j = false) ->
    FrameExtractor.frameLoop this video (S k) d i frames events
    = Some (events ++ map (progressAt this d) (seq i k),
            inr (frames ++ map (frameAt this video) (seq i k))).
Proof.
  intros Hinterval HmaxFrames Hd.
  pose proof (floor_nonneg this d Hinterval Hd) as Hf.
  pose proof (totalFrames_int this d m HmaxFrames) as Ht.
  induction k as [|k IH]; intros i frames events Hik Hseek Hcan.
  - simpl.
    assert (E : Js.Qlt_bool (inject_Z (Z.of_nat i)) (FrameExtractor.totalFrames this d) = false).
    { apply Qlt_bool_false. rewrite Ht, <- Zle_Qle. lia. }
    rewrite E. simpl. now rewrite !app_nil_r.
  - remember (S k) as rounds eqn:Er. cbn [FrameExtractor.frameLoop]. subst rounds.
    assert (E : Js.Qlt_bool (inject_Z (Z.of_nat i)) (FrameExtractor.totalFrames this d) = true).
    { apply Qlt_bool_iff. rewrite Ht, <- Zlt_Qlt. lia. }
    rewrite E, Hcan, Hseek. cbn [negb].
    assert (E2 : Js.Qlt_bool d (inject_Z (Z.of_nat i) * FrameExtractor.intervalSeconds this)
                 = false).
    { apply Qlt_bool_false.
      pose proof (Qfloor_le (d / FrameExtractor.intervalSeconds this)) as Hfl.
      assert (Hi : inject_Z (Z.of_nat i)
                   <= inject_Z (Qfloor (d / FrameExtractor.intervalSeconds this)))
        by (rewrite <- Zle_Qle; lia).
      set (q := d / FrameExtractor.intervalSeconds this) in *.
      assert (Hq : q * FrameExtractor.intervalSeconds this == d)
        by (unfold q; field; lra).
      set (x := inject_Z (Z.of_nat i)) in *.
      set (y := inject_Z (Qfloor q)) in *. clearbody x y q. nra. }
    rewrite E2.
    rewrite (IH (S i)); [|lia|exact Hseek|exact Hcan].
    cbn [seq map]. now rewrite <- !app_assoc.
Qed.


Lemma progressAt_percents (this : FrameExtractor.t) (d : Q) (n : nat) :
  (forall i, FrameExtractor.p_percent (progressAt this d i)
             = HuggingFaceClient.percentOf (i + 1) n) ->
  map FrameExtractor.p_percent (map (progressAt this d) (seq 0 n))
  = map (fun k => HuggingFaceClient.percentOf k n) (seq 1 n).
Proof.
  intros H. rewrite <- seq_shift, !map_map. apply map_ext.
  intros i. rewrite H. now rewrite Nat.add_1_r.
Qed.

(** X25.  Sampling: for a video whose metadata loads, with a positive
    duration [d] of at most 10^9 seconds, seeks that succeed and no
    cancellation, an extractor whose interval [I] is a whole number of
    seconds from 1 to a million and whose [maxFrames] is a whole number
    [m > 0] returns exactly [min(m, floor(d / I) + 1)] frames, at least one.
    Frame [i] is taken at [i * I]; every timestamp lies within the video and
    none is later than [(m - 1) * I], so footage after that is never
    sampled.  The [break] of the loop never fires.  One progress report is
    made for each frame, with [current = i + 1], the number of frames as
    [total], the timestamp of the frame and the percentage of the frames
    done, rounded to a nearest whole number; the percentages never decrease
    and the last one is 100. *)
Theorem extractFrames_spec (this : FrameExtractor.t) (video : FrameExtractor.Video)
        (d : Q) (interval m : Z) :
  FrameExtractor.intervalSeconds this = inject_Z interval ->
  (0 < interval <= 1000000)%Z ->
  FrameExtractor.maxFrames this = inject_Z m ->
  (0 < m)%Z ->
  FrameExtractor.v_loads video = true ->
  FrameExtractor.v_duration video = Some d ->
  0 < d <= 1000000000 ->
  (forall j, FrameExtractor.v_seeked video j = true) ->
  (forall j, FrameExtractor.v_cancelled video j = false) ->
  exists n events,
    n = Z.to_nat (Z.min m (Qfloor (d / FrameExtractor.intervalSeconds this) + 1))
    /\ (0 < n)%nat
    /\ FrameExtractor.extractFrames this video
       = Some (events,
               inr (FrameExtractor.mkExtracted
                      (map (frameAt this video) (seq 0 n))
                      (FrameExtractor.mkVideoInfo d (FrameExtractor.v_videoWidth video)
                                                  (FrameExtractor.v_videoHeight video))))
    /\ Forall (fun f => 0 <= HuggingFaceClient.f_timestamp f <= d
                        /\ HuggingFaceClient.f_timestamp f
                           <= inject_Z (m - 1) * FrameExtractor.intervalSeconds this)
              (map (frameAt this video) (seq 0 n))
    /\ map (fun p => (FrameExtractor.p_current p, FrameExtractor.p_timestamp p)) events
       = map (fun i => ((i + 1)%nat,
                        inject_Z (Z.of_nat i) * FrameExtractor.intervalSeconds this))
             (seq 0 n)
    /\ Forall (fun p => FrameExtractor.p_total p == inject_Z (Z.of_nat n)
                        /\ roundedPercent (FrameExtractor.p_current p) n
                                          (FrameExtractor.p_percent p))
              events
    /\ nondecreasing (map FrameExtractor.p_percent events)
    /\ last (map FrameExtractor.p_percent events) 0%Z = 100%Z.
Proof.
  intros Einterval [Hi0 _] HmaxFrames Hm Hloads Hduration [Hd _] Hseek Hcan.
  assert (Hinterval : 0 < FrameExtractor.intervalSeconds this).
  { rewrite Einterval. change 0 with (inject_Z 0). rewrite <- Zlt_Qlt. exact Hi0. }
  pose proof (floor_nonneg this d Hinterval Hd) as Hf.
  pose proof (totalFrames_int this d m HmaxFrames) as Ht.
  set (N := Z.min m (Qfloor (d / FrameExtractor.intervalSeconds this) + 1)) in *.
  assert (HN : (0 < N)%Z) by (unfold N; lia).
  exists (Z.to_nat N), (map (progressAt this d) (seq 0 (Z.to_nat N))).
  split; [reflexivity|]. split; [lia|].
  assert (Hpercent : forall i,
             FrameExtractor.p_percent (progressAt this d i)
             = HuggingFaceClient.percentOf (i + 1) (Z.to_nat N)).
  { intros i. unfold progressAt, HuggingFaceClient.percentOf, HuggingFaceClient.Math_round.
    cbn [FrameExtractor.p_percent]. apply Qfloor_comp.
    rewrite Ht, Z2Nat.id by lia. reflexivity. }
  split; [|split; [|split; [|split; [|split]]]].
  - unfold FrameExtractor.extractFrames. rewrite Hloads, Hduration. cbn [negb].
    assert (E0 : Qeq_bool d 0 = false).
    { apply not_true_is_false. intro E. apply Qeq_bool_iff in E. lra. }
    rewrite E0.
    assert (Ec : Qceiling (FrameExtractor.totalFrames this d) = N).
    { rewrite (Qceiling_comp _ _ Ht). apply Qceiling_Z. }
    rewrite Ec.
    now rewrite (frameLoop_run this video d m (Z.to_nat N) Hinterval HmaxFrames Hd
                               0 [] [] eq_refl Hseek Hcan).
  - apply Forall_forall. intros f Hin. apply in_map_iff in Hin as (i & <- & Hi).
    apply in_seq in Hi. simpl.
    pose proof (Qfloor_le (d / FrameExtractor.intervalSeconds this)) as Hfl.
    assert (H0 : 0 <= inject_Z (Z.of_nat i))
      by (change 0 with (inject_Z 0); rewrite <- Zle_Qle; lia).
    assert (Hi1 : inject_Z (Z.of_nat i)
                  <= inject_Z (Qfloor (d / FrameExtractor.intervalSeconds this)))
      by (rewrite <- Zle_Qle; lia).
    assert (Hi2 : inject_Z (Z.of_nat i) <= inject_Z (m - 1)) by (rewrite <- Zle_Qle; lia).
    set (q := d / FrameExtractor.intervalSeconds this) in *.
    assert (Hq : q * FrameExtractor.intervalSeconds this == d) by (unfold q; field; lra).
    set (x := inject_Z (Z.of_nat i)) in *.
    set (y := inject_Z (Qfloor q)) in *.
    set (z := inject_Z (m - 1)) in *. clearbody x y z q. repeat split; nra.
  - rewrite map_map. reflexivity.
  - apply Forall_map, Forall_forall. intros i Hi. apply in_seq in Hi. split.
    + cbn [progressAt FrameExtractor.p_total]. rewrite Ht, Z2Nat.id by lia. reflexivity.
    + rewrite Hpercent. cbn [progressAt FrameExtractor.p_current].
      apply percentOf_rounded. lia.
  - rewrite (progressAt_percents this d _ Hpercent). apply percents_nondecreasing.
  - rewrite (progressAt_percents this d _ Hpercent). apply percents_last; lia.
Qed.

Lemma extractFrames_spec_witness :
  exists n events,
    n = 3%nat
    /\ FrameExtractor.extractFrames defaultExtractor S7_video
       = Some (events,
               inr (FrameExtractor.mkExtracted
                      (map (frameAt defaultExtractor S7_video) (seq 0 n))
                      (FrameExtractor.mkVideoInfo 25 1920 1080))).
Proof.
  destruct (extractFrames_spec defaultExtractor S7_video 25 10 60)
    as (n & events & Hn & _ & E & _);
    try reflexivity; try lia; try (split; [reflexivity | discriminate]).
  exists n, events. split; [rewrite Hn; vm_compute; reflexivity|exact E].
Defined.

(** ** ProcessingPipeline.run: when no highlight is found *)

Lemma forPush_length {A B} (body : A -> M B) (xs : list A) :
  forall acc s r s',
    forPush body xs acc s = Some (r, s') ->
    length r = (length acc + length xs)%nat.
Proof.
  induction xs as [|x xs IH]; intros acc s r s' H; simpl in H.
  - unfold ret in H. injection H as <- _. simpl. lia.
  - unfold bind in H. destruct (body x s) as [[b s1]|]; [|discriminate].
    apply IH in H. rewrite H, length_app. simpl. lia.
Qed.

Lemma mergeLoop_length (rest : list Clip.t) :
  forall merged_init last merged,
    HighlightDetector.mergeLoop merged_init last rest = Some merged ->
    (0 < length merged)%nat.
Proof.
  induction rest as [|current rest IH]; intros merged_init last merged H; simpl in H.
  - injection H as <-. rewrite length_app. simpl. lia.
  - destruct (Qle_bool _ _).
    + destruct (TimeRange.new _ _); [|discriminate]. eapply IH, H.
    + eapply IH, H.
Qed.

Lemma mergeOverlappingClips_length (clips merged : list Clip.t) :
  HighlightDetector.mergeOverlappingClips clips = Some merged ->
  (length merged = 0 <-> length clips = 0)%nat.
Proof.
  unfold HighlightDetector.mergeOverlappingClips. intro H.
  rewrite <- (sort_length (fun a b => Clip.start a - Clip.start b) clips).
  destruct (Js.sort _ clips) as [|first rest].
  - injection H as <-. tauto.
  - apply mergeLoop_length in H. simpl. lia.
Qed.

Lemma suggestHighlights_length analyses multiEvents clutchMoments s highlights s' :
  HighlightDetector.suggestHighlights analyses multiEvents clutchMoments s
  = Some (highlights, s') ->
  (length highlights = 0
   <-> length multiEvents + length clutchMoments
       + length (filter (fun a => Qle_bool 25 (FrameAnalysis.excitementScore a)) analyses)
       = 0)%nat.
Proof.
  unfold HighlightDetector.suggestHighlights, bind, lift. intro H.
  destruct (forPush _ multiEvents [] s) as [[h1 s1]|] eqn:E1; [|discriminate].
  destruct (forPush _ clutchMoments h1 s1) as [[h2 s2]|] eqn:E2; [|discriminate].
  destruct (forPush _ _ h2 s2) as [[h3 s3]|] eqn:E3; [|discriminate].
  destruct (HighlightDetector.mergeOverlappingClips _) as [m|] eqn:Em; [|discriminate].
  injection H as <- _.
  apply forPush_length in E1, E2, E3. simpl in E1.
  apply mergeOverlappingClips_length in Em. rewrite sort_length in Em.
  rewrite Em, E3, E2, E1. lia.
Qed.

Lemma mapM_length {A B} (f : A -> option B) (xs : list A) :
  forall ys, mapM f xs = Some ys -> length ys = length xs.
Proof.
  induction xs as [|x xs IH]; intros ys H; simpl in H.
  - now injection H as <-.
  - destruct (f x); [|discriminate]. destruct (mapM f xs); [|discriminate].
    injection H as <-. simpl. f_equal. now apply IH.
Qed.

Lemma exciting_frames (analyses : list FrameAnalysis.t) :
  filter (fun a => Qle_bool 25 (FrameAnalysis.excitementScore a))
         (HighlightDetector.analyzeExcitementLevels analyses) = []
  <-> Forall (fun a => HighlightDetector.excitement a < 25) analyses.
Proof.
  unfold HighlightDetector.analyzeExcitementLevels.
  induction analyses as [|a analyses IH]; simpl.
  - split; [constructor|reflexivity].
  - destruct (Qle_bool 25 (HighlightDetector.excitement a)) eqn:E.
    + apply Qle_bool_iff in E. split; [discriminate|].
      intro H. inversion H; subst. lra.
    + apply Qle_bool_false in E. rewrite IH. split.
      * now constructor.
      * intro H. now inversion H.
Qed.

Lemma clutch_frames (analyses : list FrameAnalysis.t) :
  HighlightDetector.detectClutchMoments
    (HighlightDetector.analyzeExcitementLevels analyses) = []
  <-> Forall (fun a => FrameAnalysis.matchStatus a <> "clutch"%string) analyses.
Proof.
  unfold HighlightDetector.detectClutchMoments, HighlightDetector.analyzeExcitementLevels.
  induction analyses as [|a analyses IH]; simpl.
  - split; [constructor|reflexivity].
  - assert (E : String.eqb (str_or (FrameAnalysis.matchStatus a) "unknown") "clutch"
                = String.eqb (FrameAnalysis.matchStatus a) "clutch").
    { destruct (FrameAnalysis.matchStatus a); reflexivity. }
    rewrite E. destruct (String.eqb (FrameAnalysis.matchStatus a) "clutch") eqn:Ec.
    + apply String.eqb_eq in Ec. simpl. split; [discriminate|].
      intro H. inversion H; subst. contradiction.
    + apply String.eqb_neq in Ec. rewrite IH. split.
      * now constructor.
      * intro H. now inversion H.
Qed.

Lemma direct_quiet (this : CreativeDirector.t) (analyses : list FrameAnalysis.t)
      (s : Supply) :
  quiet analyses ->
  exists res,
    CreativeDirector.direct this analyses s = Some (res, s)
    /\ CreativeDirector.clips res = []
    /\ CreativeDirector.hookClip res = None.
Proof.
  intros (Hm & Hc & He). apply clutch_frames in Hc. apply exciting_frames in He.
  unfold CreativeDirector.direct. rewrite Hm, Hc.
  unfold HighlightDetector.suggestHighlights. rewrite He.
  eexists. split; [reflexivity|]. split; reflexivity.
Qed.

Lemma trimLoop_length (this : CompositionPlanner.t) (clips : list Clip.t) :
  forall acc trimmed r,
    CompositionPlanner.trimLoop this clips acc trimmed = Some r ->
    (length trimmed <= length r)%nat.
Proof.
  induction clips as [|c clips IH]; intros acc trimmed r H; simpl in H.
  - injection H as <-. lia.
  - destruct (Qle_bool _ _).
    + apply IH in H. rewrite length_app in H. simpl in H. lia.
    + destruct (Qle_bool _ _).
      * destruct (TimeRange.new _ _); [|discriminate].
        injection H as <-. rewrite length_app. simpl. lia.
      * injection H as <-. lia.
Qed.

Lemma trimToTargetDuration_nonempty (this : CompositionPlanner.t)
      (clips trimmed : list Clip.t) :
  Forall (fun c => Clip.duration c <= CompositionPlanner.targetDuration this) clips ->
  CompositionPlanner.trimToTargetDuration this clips = Some trimmed ->
  length trimmed = 0%nat -> length clips = 0%nat.
Proof.
  intros Hd H Hlen. unfold CompositionPlanner.trimToTargetDuration in H.
  destruct clips as [|c clips]; [reflexivity|].
  destruct (Qle_bool _ _); [injection H as <-; exact Hlen|].
  simpl in H. inversion Hd as [|? ? Hc _]; subst.
  assert (E : Qle_bool (0 + Clip.duration c) (CompositionPlanner.targetDuration this) = true)
    by (apply Qle_bool_iff; lra).
  rewrite E in H. apply trimLoop_length in H. simpl in H. lia.
Qed.

Lemma optimizePacing_nonempty (clips : list Clip.t) :
  Forall (fun c => isHigh c || isMedium c || isLow c = true) clips ->
  length (CompositionPlanner.optimizePacing clips) = 0%nat -> length clips = 0%nat.
Proof.
  intros Hk Hlen.
  destruct (Nat.le_gt_cases (length clips) 2) as [Hle|Hgt].
  - unfold CompositionPlanner.optimizePacing in Hlen.
    apply Nat.leb_le in Hle. now rewrite Hle in Hlen.
  - exfalso. pose proof (optimizePacing_perm clips Hgt) as Hp.
    apply Permutation_length in Hp. rewrite Hlen, !length_app in Hp.
    pose proof (Permutation_length (classes_perm clips)) as Hc.
    rewrite !length_app in Hc.
    assert (Hnone : filter (fun c => negb (isHigh c || isMedium c || isLow c)) clips = []).
    { apply filter_none. eapply Forall_impl; [|exact Hk].
      intros c Hin. simpl in Hin. now rewrite Hin. }
    rewrite Hnone in Hc. simpl in Hc.
    destruct (filter isLow clips) as [|l0 [|l1 low]]; simpl in *; lia.
Qed.

Lemma paced_withAdjustedRange (c : Clip.t) (r : TimeRange.t) :
  isHigh c || isMedium c || isLow c = true ->
  isHigh (Clip.withAdjustedRange c r) || isMedium (Clip.withAdjustedRange c r)
  || isLow (Clip.withAdjustedRange c r) = true.
Proof.
  unfold isHigh, isMedium, isLow. simpl.
  destruct (Clip.actionIntensity c); [discriminate|]. simpl. tauto.
Qed.

Lemma scoreClips_paced (this : CompositionPlanner.t) (clips : list Clip.t)
      (analyses : list FrameAnalysis.t) :
  analyses <> [] ->
  Forall (fun a => pacedIntensity (FrameAnalysis.actionIntensity a)) analyses ->
  Forall (fun c => isHigh c || isMedium c || isLow c = true)
         (CompositionPlanner.scoreClips this clips analyses).
Proof.
  intros Hne Hk.
  eapply Forall2_Forall_r; [|apply (scoreClips_spec_aux this clips analyses)].
  intros c c' (_ & _ & _ & _ & _ & _ & _ & _ & _ & H).
  destruct analyses as [|a0 analyses]; [contradiction|].
  destruct H as (a & Hin & Hi & _).
  rewrite Forall_forall in Hk. specialize (Hk a Hin). unfold pacedIntensity in Hk.
  unfold isHigh, isMedium, isLow. rewrite Hi.
  destruct Hk as [<-|[<-|[<-|[<-|[]]]]]; reflexivity.
Qed.

Lemma optimizeClips_nonempty (this : CompositionPlanner.t) (clips : list Clip.t)
      (analyses : list FrameAnalysis.t) (r : list Clip.t) :
  0 < CompositionPlanner.minClipLength this ->
  CompositionPlanner.minClipLength this <= CompositionPlanner.maxClipLength this ->
  CompositionPlanner.maxClipLength this <= CompositionPlanner.targetDuration this ->
  Forall Clip.wf clips ->
  analyses <> [] ->
  Forall (fun a => pacedIntensity (FrameAnalysis.actionIntensity a)) analyses ->
  CompositionPlanner.optimizeClips this clips analyses = Some r ->
  length r = 0%nat -> length clips = 0%nat.
Proof.
  intros Hmin Hmax Htarget Hwf Hne Hk H Hlen.
  pose proof (scoreClips_paced this clips analyses Hne Hk) as Hp.
  pose proof (scoreClips_wf this clips analyses Hwf) as Hs.
  unfold CompositionPlanner.optimizeClips in H.
  destruct (CompositionPlanner.adjustClipLengths _ _) as [adj|] eqn:Ea; [|discriminate].
  destruct (CompositionPlanner.trimToTargetDuration _ _) as [tr|] eqn:Et; [|discriminate].
  injection H as <-.
  assert (Hadj : Forall (fun c => isHigh c || isMedium c || isLow c = true) adj).
  { eapply (adjustClipLengths_inv this); [|exact Hp|exact Ea].
    intros c rg. apply paced_withAdjustedRange. }
  assert (Hdur : Forall (fun c => Clip.duration c <= CompositionPlanner.targetDuration this) adj).
  { destruct (mapM_Forall2 (CompositionPlanner.adjustClipLength this) (adjusted this)
                           Clip.wf (fun c => adjustClipLength_spec this c Hmin Hmax)
                           _ Hs) as (ys & Ey & H2).
    unfold CompositionPlanner.adjustClipLengths in Ea. rewrite Ea in Ey.
    injection Ey as <-.
    eapply Forall2_Forall_r; [|exact H2].
    intros c c' (_ & _ & Hd & _). simpl in Hd. lra. }
  apply optimizePacing_nonempty in Hlen.
  - apply trimToTargetDuration_nonempty in Et; [| |exact Hlen].
    + rewrite sort_length in Et. apply mapM_length in Ea. rewrite Ea in Et.
      unfold CompositionPlanner.scoreClips in Et. now rewrite length_map in Et.
    + now apply sort_Forall.
  - eapply (trimToTargetDuration_inv this); [|apply sort_Forall; exact Hadj|exact Et].
    intros c rg. apply paced_withAdjustedRange.
Qed.

Lemma direct_clips_quiet (this : CreativeDirector.t) (analyses : list FrameAnalysis.t)
      (s : Supply) (res : CreativeDirector.Result) (s' : Supply) :
  0 < CompositionPlanner.minClipLength (CreativeDirector._compositionPlanner this) ->
  CompositionPlanner.minClipLength (CreativeDirector._compositionPlanner this)
  <= CompositionPlanner.maxClipLength (CreativeDirector._compositionPlanner this) ->
  CompositionPlanner.maxClipLength (CreativeDirector._compositionPlanner this)
  <= CompositionPlanner.targetDuration (CreativeDirector._compositionPlanner this) ->
  Forall (fun a => pacedIntensity (FrameAnalysis.actionIntensity a)) analyses ->
  CreativeDirector.direct this analyses s = Some (res, s') ->
  CreativeDirector.clips res = [] ->
  quiet analyses.
Proof.
  intros Hmin Hmax Htarget Hk H Hnil.
  destruct analyses as [|a0 analyses0] eqn:Ean.
  { repeat split; constructor. }
  rewrite <- Ean in *.
  destruct (direct_stages _ _ _ _ _ H) as (hl & s1 & Eh & Eo & _).
  pose proof (suggestHighlights_wf _ _ _ _ _ _ Eh) as Hwf.
  assert (Hlen : length hl = 0%nat).
  { eapply optimizeClips_nonempty; [exact Hmin|exact Hmax|exact Htarget|exact Hwf| | |exact Eo|].
    - rewrite Ean. discriminate.
    - unfold HighlightDetector.analyzeExcitementLevels. apply Forall_map.
      eapply Forall_impl; [|exact Hk]. intros a Ha. simpl.
      unfold pacedIntensity in *. now destruct (FrameAnalysis.actionIntensity a).
    - now rewrite Hnil. }
  apply (suggestHighlights_length _ _ _ _ _ _ Eh) in Hlen.
  unfold quiet. split; [|split].
  - apply length_zero_iff_nil. lia.
  - apply clutch_frames, length_zero_iff_nil. lia.
  - apply exciting_frames, length_zero_iff_nil. lia.
Qed.

(** X26.  The step after the analysis, for a director with
    [0 < minClipLength <= maxClipLength <= targetDuration] (the default one
    is such) and valid analyses whose intensities are among the four that
    the pacing knows, whose status reaches no inherited member of the status
    table, whose timestamps are whole numbers of seconds (up to 10^9) and
    whose excitement is computed without rounding or stays clear of 25 by a
    millionth: [run] stops with the error 'No highlights detected in the
    video...' exactly when the valid analyses show no multi-kill, no clutch
    moment and no frame with an excitement of 25 or more.  It has then
    reported the progress 60 and 70, and the [catch] block hands the message
    to [onError]. *)
Theorem run_no_highlights (director : CreativeDirector.t)
        (analyses : list FrameAnalysis.t) (videoDuration : Q) (s : Supply) :
  0 < CompositionPlanner.minClipLength (CreativeDirector._compositionPlanner director) ->
  CompositionPlanner.minClipLength (CreativeDirector._compositionPlanner director)
  <= CompositionPlanner.maxClipLength (CreativeDirector._compositionPlanner director) ->
  CompositionPlanner.maxClipLength (CreativeDirector._compositionPlanner director)
  <= CompositionPlanner.targetDuration (CreativeDirector._compositionPlanner director) ->
  PipelineRun.validAnalyses analyses <> [] ->
  Forall (fun a => pacedIntensity (FrameAnalysis.actionIntensity a))
         (PipelineRun.validAnalyses analyses) ->
  Forall (fun a => plainKey (FrameAnalysis.matchStatus a))
         (PipelineRun.validAnalyses analyses) ->
  Forall (fun a => wholeUpTo 1000000000 (FrameAnalysis.timestamp a))
         (PipelineRun.validAnalyses analyses) ->
  Forall clearOfThreshold (PipelineRun.validAnalyses analyses) ->
  (snd (PipelineRun.directSteps false director analyses videoDuration s)
   = PipelineRun.Throws PipelineRun.noHighlights
   <-> quiet (PipelineRun.validAnalyses analyses))
  /\ (quiet (PipelineRun.validAnalyses analyses) ->
      fst (PipelineRun.directSteps false director analyses videoDuration s)
      = [("clip_detection"%string, 60%Z); ("clip_detection"%string, 70%Z)])
  /\ PipelineRun.catch (ExnError PipelineRun.noHighlights)
     = PipelineRun.OnError PipelineRun.noHighlights.
Proof.
  intros Hmin Hmax Htarget Hne Hk _ _ _.
  assert (Hquiet : quiet (PipelineRun.validAnalyses analyses) ->
                   PipelineRun.directSteps false director analyses videoDuration s
                   = ([("clip_detection"%string, 60%Z); ("clip_detection"%string, 70%Z)],
                      PipelineRun.Throws PipelineRun.noHighlights)).
  { intro Hq. unfold PipelineRun.directSteps.
    destruct (PipelineRun.validAnalyses analyses) as [|v valid] eqn:Ev; [contradiction|].
    destruct (direct_quiet director (v :: valid) s Hq) as (res & -> & -> & _).
    reflexivity. }
  split; [split|split].
  - unfold PipelineRun.directSteps.
    destruct (PipelineRun.validAnalyses analyses) as [|v valid] eqn:Ev; [contradiction|].
    destruct (CreativeDirector.direct director (v :: valid) s) as [[res s']|] eqn:Ed;
      [|discriminate].
    destruct (CreativeDirector.clips res) as [|c clips] eqn:Ec.
    + intros _. eapply direct_clips_quiet; eassumption.
    + destruct (ProcessingPipeline.clampClips _ _) as [cl|];
        [destruct (ProcessingPipeline.clampHook _ _) as [hk|]|]; discriminate.
  - intro Hq. now rewrite (Hquiet Hq).
  - intro Hq. now rewrite (Hquiet Hq).
  - vm_compute. reflexivity.
Qed.

Lemma run_no_highlights_witness :
  (snd (PipelineRun.directSteps false defaultDirector [countOnly_analysis] 25 countingSupply)
   = PipelineRun.Throws PipelineRun.noHighlights
   <-> quiet (PipelineRun.validAnalyses [countOnly_analysis]))
  /\ (quiet (PipelineRun.validAnalyses [countOnly_analysis]) ->
      fst (PipelineRun.directSteps false defaultDirector [countOnly_analysis] 25 countingSupply)
      = [("clip_detection"%string, 60%Z); ("clip_detection"%string, 70%Z)])
  /\ PipelineRun.catch (ExnError PipelineRun.noHighlights)
     = PipelineRun.OnError PipelineRun.noHighlights.
Proof.
  apply run_no_highlights.
  - vm_compute. reflexivity.
  - vm_compute. discriminate.
  - vm_compute. discriminate.
  - vm_compute. discriminate.
  - constructor; [|constructor]. right. left. reflexivity.
  - constructor; [|constructor]. reflexivity.
  - constructor; [|constructor]. exists 20%Z. split; [lia|reflexivity].
  - constructor; [|constructor]. right. left. reflexivity.
Defined.

(** ** ProcessingPipeline.run: when every analysis failed *)

Lemma includes_allFailed (m : string) :
  includes "cancelled" (PipelineRun.allFailed m) = includes "cancelled" m.
Proof. reflexivity. Qed.

(** X27.  When every analysis carries an error, [run] reports no
    [clip_detection] progress and throws 'All frame analyses failed. API
    error: ' followed by the error of the first analysis ('Unknown error' if
    there is no analysis at all).  The [catch] block hands this message to
    [onError], unless the error of the first analysis contains 'cancelled':
    then the failure is only logged as a cancellation. *)
Theorem run_all_failed (director : CreativeDirector.t) (analyses : list FrameAnalysis.t)
        (videoDuration : Q) (s : Supply) :
  Forall (fun a => PipelineRun.hasError a = true) analyses ->
  PipelineRun.directSteps false director analyses videoDuration s
  = ([], PipelineRun.Throws (PipelineRun.allFailed (PipelineRun.firstError analyses)))
  /\ (forall a rest,
         analyses = a :: rest ->
         FrameAnalysis.error (FrameAnalysis.metadata a)
         = Some (PipelineRun.firstError analyses))
  /\ (analyses = [] -> PipelineRun.firstError analyses = "Unknown error"%string)
  /\ PipelineRun.catch
       (ExnError (PipelineRun.allFailed (PipelineRun.firstError analyses)))
     = (if includes "cancelled" (PipelineRun.firstError analyses)
        then PipelineRun.LoggedCancelled
        else PipelineRun.OnError
               (PipelineRun.allFailed (PipelineRun.firstError analyses))).
Proof.
  intros Hall. split; [|split; [|split]].
  - unfold PipelineRun.directSteps, PipelineRun.validAnalyses, PipelineRun.failedAnalyses.
    rewrite (filter_none (fun a => negb (PipelineRun.hasError a)) analyses).
    + now rewrite (filter_all PipelineRun.hasError analyses Hall).
    + eapply Forall_impl; [|exact Hall]. intros a Ha. simpl in Ha. now rewrite Ha.
  - intros a rest ->. inversion Hall as [|? ? Ha _]; subst.
    unfold PipelineRun.hasError in Ha. simpl.
    destruct (FrameAnalysis.error (FrameAnalysis.metadata a)) as [[|]|];
      try discriminate; reflexivity.
  - intros ->. reflexivity.
  - unfold PipelineRun.catch.
    change (errMsgOf (ExnError (PipelineRun.allFailed (PipelineRun.firstError analyses))))
      with (PipelineRun.allFailed (PipelineRun.firstError analyses)).
    rewrite includes_allFailed. reflexivity.
Qed.

Lemma run_all_failed_witness :
  PipelineRun.directSteps false defaultDirector
    [HuggingFaceClient.sentinel 0 HuggingFaceClient.invalidToken;
     HuggingFaceClient.sentinel 10 "Request cancelled"] 25 countingSupply
  = ([], PipelineRun.Throws (PipelineRun.allFailed HuggingFaceClient.invalidToken)).
Proof.
  refine (proj1 (run_all_failed defaultDirector
                   [HuggingFaceClient.sentinel 0 HuggingFaceClient.invalidToken;
                    HuggingFaceClient.sentinel 10 "Request cancelled"] 25 countingSupply _)).
  repeat constructor.
Defined.

(** ** ProcessingPipeline.run: a video shorter than half a second *)

Lemma clamped_short (videoDuration : Q) (c : Clip.t) :
  videoDuration < 0.5 -> Clip.wf c -> clamped videoDuration c = [].
Proof.
  intros Hd [H0 H1]. unfold clamped.
  assert (E : Js.Qlt_bool (Js.Math_min (Clip.end_ c) videoDuration - Clip.start c) 0.5 = true).
  { apply Qlt_bool_iff. unfold Clip.start, Clip.end_.
    destruct (Math_min_spec (TimeRange.endSeconds (Clip.timeRange c)) videoDuration)
      as [[? ->]|[? ->]]; lra. }
  now rewrite E.
Qed.

Lemma clampClips_short (videoDuration : Q) (clips : list Clip.t) :
  videoDuration < 0.5 -> Forall Clip.wf clips ->
  flat_map (clamped videoDuration) clips = [].
Proof.
  intros Hd. induction 1 as [|c clips Hc _ IH]; simpl; [reflexivity|].
  now rewrite (clamped_short videoDuration c Hd Hc).
Qed.

Lemma clampHook_short (videoDuration : Q) (hookClip : option Clip.t) :
  videoDuration < 0.5 ->
  (forall h, hookClip = Some h -> Clip.wf h) ->
  ProcessingPipeline.clampHook videoDuration hookClip = Some None.
Proof.
  intros Hd Hwf. destruct hookClip as [h|]; [|reflexivity].
  destruct (Hwf h eq_refl) as [H0 H1]. unfold ProcessingPipeline.clampHook.
  assert (E : Js.Qlt_bool
                (Js.Math_min (Clip.end_ h) videoDuration
                 - Js.Math_min (Clip.start h)
                               (Js.Math_min (Clip.end_ h) videoDuration - 0.1)) 0.5 = true).
  { apply Qlt_bool_iff. unfold Clip.start, Clip.end_.
    destruct (Math_min_spec (TimeRange.endSeconds (Clip.timeRange h)) videoDuration)
      as [[? ->]|[? ->]];
      match goal with
      | |- context [Js.Math_min ?a ?b] =>
          destruct (Math_min_spec a b) as [[? ->]|[? ->]]
      end; lra. }
  now rewrite E.
Qed.

(** X28.  For a video shorter than half a second the clamping step drops
    every clip and the hook.  The check for 'No highlights detected' comes
    before the clamping, so whenever the director has returned a clip, [run]
    goes on to the assembler with no clip at all: it reports the progress
    60, 70, 75 and 75, and [assemble] then fails with 'No clips to
    assemble', which the [catch] block hands to [onError]. *)
Theorem run_short_video (director : CreativeDirector.t) (analyses : list FrameAnalysis.t)
        (videoDuration : Q) (s s' : Supply) (res : CreativeDirector.Result) :
  videoDuration < 0.5 ->
  CreativeDirector.direct director (PipelineRun.validAnalyses analyses) s = Some (res, s') ->
  CreativeDirector.clips res <> [] ->
  PipelineRun.directSteps false director analyses videoDuration s
  = ([("clip_detection"%string, 60%Z); ("clip_detection"%string, 70%Z);
      ("clip_detection"%string, 75%Z); ("video_generation"%string, 75%Z)],
     PipelineRun.Proceeds
       (PipelineRun.mkDirected (PipelineRun.validAnalyses analyses) res [] None))
  /\ VideoAssembler.assembleChecks true [] = Some "No clips to assemble"%string
  /\ PipelineRun.catch (ExnError "No clips to assemble")
     = PipelineRun.OnError "No clips to assemble".
Proof.
  intros Hd Hdirect Hne. split; [|split; reflexivity].
  destruct (direct_wf _ _ _ _ _ Hdirect) as [Hwf Hhook].
  unfold PipelineRun.directSteps.
  destruct (PipelineRun.validAnalyses analyses) as [|v valid] eqn:Ev.
  { exfalso. apply Hne.
    assert (Hq : quiet []) by (repeat split; constructor).
    destruct (direct_quiet director [] s Hq) as (res0 & E0 & Hc0 & _).
    rewrite E0 in Hdirect. now injection Hdirect as <- _. }
  rewrite Hdirect.
  destruct (CreativeDirector.clips res) as [|c clips] eqn:Ec; [contradiction|].
  rewrite (clampClips_spec videoDuration (c :: clips) Hwf).
  rewrite (clampHook_short videoDuration _ Hd Hhook).
  replace (flat_map (clamped videoDuration) (c :: clips)) with (@nil Clip.t); [reflexivity|].
  symmetry. now apply clampClips_short.
Qed.

Lemma run_short_video_witness :
  exists res,
    PipelineRun.directSteps false defaultDirector [S1_analysis] 0.4 countingSupply
    = ([("clip_detection"%string, 60%Z); ("clip_detection"%string, 70%Z);
        ("clip_detection"%string, 75%Z); ("video_generation"%string, 75%Z)],
       PipelineRun.Proceeds
         (PipelineRun.mkDirected (PipelineRun.validAnalyses [S1_analysis]) res [] None)).
Proof.
  destruct (CreativeDirector.direct defaultDirector (PipelineRun.validAnalyses [S1_analysis])
                                    countingSupply) as [[res s']|] eqn:E;
    [|vm_compute in E; discriminate E].
  exists res.
  refine (proj1 (run_short_video defaultDirector [S1_analysis] 0.4 countingSupply s' res
                                 _ E _)).
  - reflexivity.
  - intro Hnil.
    assert (Hlen : length (CreativeDirector.clips res) = 1%nat).
    { assert (E' : option_map (fun p => length (CreativeDirector.clips (fst p)))
                              (CreativeDirector.direct defaultDirector
                                 (PipelineRun.validAnalyses [S1_analysis]) countingSupply)
                   = Some 1%nat) by (vm_compute; reflexivity).
      rewrite E in E'. simpl in E'. now injection E'. }
    rewrite Hnil in Hlen. discriminate Hlen.
Defined.

(** ** HuggingFaceClient and the pipeline: replies without JSON *)

Lemma blank_excitement (a : FrameAnalysis.t) : blank a -> HighlightDetector.excitement a = 0.
Proof.
  intros (Hk & Hs & Hi & He & Hc). unfold HighlightDetector.excitement.
  rewrite Hk, Hs, Hi, He, Hc. reflexivity.
Qed.

Lemma blank_quiet (analyses : list FrameAnalysis.t) : Forall blank analyses -> quiet analyses.
Proof.
  intros Hb. unfold quiet. split; [|split].
  - unfold HighlightDetector.detectMultiEvents.
    rewrite (filter_none FrameAnalysis.killLog
                         (HighlightDetector.analyzeExcitementLevels analyses));
      [reflexivity|].
    unfold HighlightDetector.analyzeExcitementLevels. apply Forall_map.
    eapply Forall_impl; [|exact Hb]. intros a (Hk & _). exact Hk.
  - eapply Forall_impl; [|exact Hb]. intros a (_ & Hs & _). rewrite Hs. discriminate.
  - eapply Forall_impl; [|exact Hb]. intros a Ha. rewrite (blank_excitement a Ha). lra.
Qed.

Lemma sentinel_blank (timestamp : Q) (errMsg : string) :
  blank (HuggingFaceClient.sentinel timestamp errMsg).
Proof. repeat split. Qed.

Section Unparseable.
Variable world : HuggingFaceClient.World.
Hypothesis Hreplies :
  forall k model status errBody text,
    HuggingFaceClient.w_fetch world k model = HuggingFaceClient.Http status errBody (Some text) ->
    unparseable world text.
Hypothesis Hunknown : HuggingFaceClient.w_String world (JStr "unknown") = "unknown"%string.
Hypothesis Hlow : HuggingFaceClient.w_String world (JStr "low") = "low"%string.
Hypothesis HparseInt : HuggingFaceClient.w_parseInt world None = None.

Lemma extractJson_default (text : string) :
  unparseable world text ->
  HuggingFaceClient._extractJson world text
  = JObj [("kill_log", JBool false); ("match_status", JStr "unknown");
          ("action_intensity", JStr "low")]%string.
Proof.
  intros (H1 & H2 & H3). unfold HuggingFaceClient._extractJson. rewrite H1.
  destruct (HuggingFaceClient.w_fenceMatch world text) as [inner|] eqn:Ef;
    [rewrite (H2 inner eq_refl)|];
    (destruct (HuggingFaceClient.w_objectMatch world text) as [m|] eqn:Eo;
     [rewrite (H3 m eq_refl)|]); reflexivity.
Qed.

Lemma analyzeFrame_unparseable blob timestamp c outcome c' :
  HuggingFaceClient.analyzeFrame world blob timestamp c = Some (outcome, c') ->
  forall a, outcome = inr a ->
            blank a /\ FrameAnalysis.timestamp a = timestamp
            /\ FrameAnalysis.error (FrameAnalysis.metadata a) = None
            /\ FrameAnalysis.killCount a = 0%Z /\ FrameAnalysis.enemyCount a = 0%Z.
Proof.
  unfold HuggingFaceClient.analyzeFrame. intros H a ->.
  destruct (HuggingFaceClient.w_blobToBase64 world blob) as [e|b64]; [discriminate|].
  destruct (HuggingFaceClient._sendWithConcurrency world c) as [[[e|[text model]] c1]|] eqn:Es;
    try discriminate.
  assert (Hu : unparseable world text).
  { unfold HuggingFaceClient._sendWithConcurrency in Es.
    destruct (_ <=? _)%nat; [destruct (HuggingFaceClient._cancelled c); discriminate|].
    match type of Es with
    | context [HuggingFaceClient._sendWithFallback world ?c0] =>
        destruct (HuggingFaceClient._sendWithFallback world c0) as [r c2] eqn:Ef
    end.
    injection Es as -> _.
    destruct (fallbackLoop_success world _ _ _ _ _ _ _ _ Ef)
      as (_ & _ & _ & status & errBody & Hfetch & _).
    exact (Hreplies _ _ _ _ _ Hfetch). }
  rewrite (extractJson_default text Hu) in H.
  unfold HuggingFaceClient.fromApiResponse in H. simpl in H.
  rewrite Hunknown, Hlow in H. unfold HuggingFaceClient.parseIntOr0 in H.
  rewrite HparseInt in H. injection H as <- _. repeat split.
Qed.

Lemma batch_unparseable (frames : list HuggingFaceClient.Frame)
      (slots : list FrameAnalysis.t) :
  Forall2 (slotFor world) frames slots -> Forall blank slots.
Proof.
  induction 1 as [|frame slot frames slots (ci & outcome & ci' & Ha & Hs & _) _ IH];
    constructor; [|exact IH].
  subst slot. destruct outcome as [err|a]; simpl.
  - apply sentinel_blank.
  - exact (proj1 (analyzeFrame_unparseable _ _ _ _ _ Ha a eq_refl)).
Qed.

End Unparseable.

(** X29.  Replies without JSON look like quiet footage.  When none of the
    2xx replies can be parsed (not as a whole, not the inside of a code
    fence, not a brace group), [_extractJson] falls back to its default
    object and every slot of the batch, analysis or sentinel, reports
    nothing: no kill, status unknown, intensity low, no enemy, confidence 0.
    An analysis made from such a reply carries no error, so [run] counts it
    as valid: if the batch has one, [run] ends with 'No highlights detected
    in the video...', after the progress 60 and 70, whatever the director
    and the duration of the video. *)
Theorem unparseable_replies_no_highlights (world : HuggingFaceClient.World)
        (frames : list HuggingFaceClient.Frame) (c : HuggingFaceClient.t) :
  (forall k model status errBody text,
      HuggingFaceClient.w_fetch world k model
      = HuggingFaceClient.Http status errBody (Some text) ->
      unparseable world text) ->
  HuggingFaceClient.w_String world (JStr "unknown") = "unknown"%string ->
  HuggingFaceClient.w_String world (JStr "low") = "low"%string ->
  HuggingFaceClient.w_parseInt world None = None ->
  HuggingFaceClient._cancelled c = false ->
  (HuggingFaceClient._activeRequests c < HuggingFaceClient._concurrency c)%nat ->
  exists analyses c',
    HuggingFaceClient.analyzeFramesBatch world frames c = Some (inr analyses, c')
    /\ Forall blank analyses
    /\ (forall blob timestamp ci a ci',
           HuggingFaceClient.analyzeFrame world blob timestamp ci = Some (inr a, ci') ->
           blank a /\ PipelineRun.hasError a = false)
    /\ (forall director videoDuration s,
           PipelineRun.validAnalyses analyses <> [] ->
           PipelineRun.directSteps false director analyses videoDuration s
           = ([("clip_detection"%string, 60%Z); ("clip_detection"%string, 70%Z)],
              PipelineRun.Throws PipelineRun.noHighlights)).
Proof.
  intros Hreplies Hunknown Hlow HparseInt Hc Hlt.
  unfold HuggingFaceClient.analyzeFramesBatch.
  destruct (batchLoop_spec world frames (length frames) [] 0 c Hc Hlt)
    as (slots & c' & Hb & Hall).
  exists slots, c'. split; [exact Hb|].
  pose proof (batch_unparseable world Hreplies Hunknown Hlow HparseInt frames slots Hall)
    as Hblank.
  split; [exact Hblank|]. split.
  - intros blob timestamp ci a ci' Ha.
    destruct (analyzeFrame_unparseable world Hreplies Hunknown Hlow HparseInt
                                       _ _ _ _ _ Ha a eq_refl) as (H1 & _ & He & _).
    split; [exact H1|]. unfold PipelineRun.hasError. now rewrite He.
  - intros director videoDuration s Hne.
    assert (Hq : quiet (PipelineRun.validAnalyses slots)).
    { apply blank_quiet. unfold PipelineRun.validAnalyses.
      apply Forall_forall. intros a Ha. apply filter_In in Ha as [Ha _].
      rewrite Forall_forall in Hblank. now apply Hblank. }
    unfold PipelineRun.directSteps.
    destruct (PipelineRun.validAnalyses slots) as [|v valid] eqn:Ev; [contradiction|].
    destruct (direct_quiet director (v :: valid) s Hq) as (res & -> & -> & _).
    reflexivity.
Qed.

Lemma unparseable_replies_no_highlights_witness :
  exists analyses c',
    HuggingFaceClient.analyzeFramesBatch proseWorld S6_frames S6_client
    = Some (inr analyses, c')
    /\ Forall blank analyses.
Proof.
  destruct (unparseable_replies_no_highlights proseWorld S6_frames S6_client)
    as (analyses & c' & E & Hb & _).
  - intros k model status errBody text _. repeat split; intros; reflexivity.
  - reflexivity.
  - reflexivity.
  - reflexivity.
  - reflexivity.
  - simpl. lia.
  - exists analyses, c'. split; [exact E|exact Hb].
Defined.

(** ** The overall progress that [run] reports *)

Lemma Math_round_mono (x y : Q) :
  x <= y -> (HuggingFaceClient.Math_round x <= HuggingFaceClient.Math_round y)%Z.
Proof.
  intros H. unfold HuggingFaceClient.Math_round. apply Qfloor_resp_le. lra.
Qed.

Lemma Math_round_bounds (x : Q) (lo hi : Z) :
  inject_Z lo <= x -> x <= inject_Z hi ->
  (lo <= HuggingFaceClient.Math_round x <= hi)%Z.
Proof.
  intros Hlo Hhi. unfold HuggingFaceClient.Math_round. split.
  - rewrite <- (Qfloor_Z lo). apply Qfloor_resp_le. lra.
  - pose proof (Qfloor_le (x + (1 # 2))) as Hf.
    assert (H : inject_Z (Qfloor (x + (1 # 2))) < inject_Z (hi + 1)).
    { rewrite inject_Z_plus. change (inject_Z 1) with 1. lra. }
    rewrite <- Zlt_Qlt in H. lia.
Qed.

Lemma StronglySorted_app {A} (R : A -> A -> Prop) (l1 l2 : list A) :
  StronglySorted R l1 -> StronglySorted R l2 ->
  (forall x y, In x l1 -> In y l2 -> R x y) ->
  StronglySorted R (l1 ++ l2).
Proof.
  intros H1 H2 H. induction H1 as [|x l1 Hs IH Hx]; simpl; [exact H2|].
  constructor.
  - apply IH. intros a b Ha Hb. apply H; [now right|exact Hb].
  - apply Forall_app. split; [exact Hx|].
    apply Forall_forall. intros y Hy. apply H; [now left|exact Hy].
Qed.

Lemma StronglySorted_map_seq {A} (R : A -> A -> Prop) (f : nat -> A) (n : nat) :
  (forall i j, (i < j < n)%nat -> R (f i) (f j)) ->
  forall a k, (a + k <= n)%nat -> StronglySorted R (map f (seq a k)).
Proof.
  intros Hf a k. revert a. induction k as [|k IH]; intros a Hk; simpl; constructor.
  - apply IH. lia.
  - apply Forall_forall. intros y Hy. apply in_map_iff in Hy as (j & <- & Hj).
    apply in_seq in Hj. apply Hf. lia.
Qed.

Lemma extractingPercent_mono (i j total : nat) :
  (i <= j)%nat ->
  (VideoAssembler.extractingPercent i total <= VideoAssembler.extractingPercent j total)%Z.
Proof.
  intros Hij. unfold VideoAssembler.extractingPercent. apply Math_round_mono.
  assert (Hkk : inject_Z (Z.of_nat (i + 1)) <= inject_Z (Z.of_nat (j + 1)))
    by (rewrite <- Zle_Qle; lia).
  destruct total as [|n].
  - unfold Qdiv. change (/ inject_Z (Z.of_nat 0)) with 0. lra.
  - assert (Hq : 0 < inject_Z (Z.of_nat (S n))).
    { change 0 with (inject_Z 0). rewrite <- Zlt_Qlt. lia. }
    assert (Hinv : 0 < / inject_Z (Z.of_nat (S n))) by now apply Qinv_lt_0_compat.
    unfold Qdiv. nra.
Qed.

Lemma extractingPercent_bounds (i total : nat) :
  (i < total)%nat -> (0 <= VideoAssembler.extractingPercent i total <= 80)%Z.
Proof.
  intros Hi. unfold VideoAssembler.extractingPercent.
  assert (Hq : 0 < inject_Z (Z.of_nat total)).
  { change 0 with (inject_Z 0). rewrite <- Zlt_Qlt. lia. }
  assert (H1 : 0 < inject_Z (Z.of_nat (i + 1))).
  { change 0 with (inject_Z 0). rewrite <- Zlt_Qlt. lia. }
  assert (H2 : inject_Z (Z.of_nat (i + 1)) <= inject_Z (Z.of_nat total))
    by (rewrite <- Zle_Qle; lia).
  set (a := inject_Z (Z.of_nat (i + 1))) in *.
  set (t := inject_Z (Z.of_nat total)) in *. clearbody a t.
  assert (Hr : 0 <= a / t /\ a / t <= 1).
  { split.
    - apply Qle_shift_div_l; [exact Hq|lra].
    - apply Qle_shift_div_r; [exact Hq|lra]. }
  apply Math_round_bounds; change (inject_Z 0) with 0; change (inject_Z 80) with 80; nra.
Qed.

Lemma extractingPercent_last (total : nat) :
  (0 < total)%nat -> VideoAssembler.extractingPercent (total - 1) total = 80%Z.
Proof.
  intros Hn. unfold VideoAssembler.extractingPercent, HuggingFaceClient.Math_round.
  replace (total - 1 + 1)%nat with total by lia.
  assert (Hq : 0 < inject_Z (Z.of_nat total)).
  { change 0 with (inject_Z 0). rewrite <- Zlt_Qlt. lia. }
  assert (E : inject_Z (Z.of_nat total) / inject_Z (Z.of_nat total) * 80 + (1 # 2)
              == (161 # 2)) by (field; lra).
  rewrite E. reflexivity.
Qed.

Lemma extractingPercent_first (total : nat) :
  (0 < total)%nat ->
  ((total <= 8)%nat -> (10 <= VideoAssembler.extractingPercent 0 total)%Z)
  /\ ((8 < total)%nat -> (VideoAssembler.extractingPercent 0 total <= 9)%Z).
Proof.
  intros Hn. unfold VideoAssembler.extractingPercent.
  assert (Hq : 1 <= inject_Z (Z.of_nat total)).
  { change 1 with (inject_Z 1). rewrite <- Zle_Qle. lia. }
  change (inject_Z (Z.of_nat (0 + 1))) with 1.
  split; intros Ht.
  - assert (H8 : inject_Z (Z.of_nat total) <= 8).
    { change 8 with (inject_Z 8). rewrite <- Zle_Qle. lia. }
    set (t := inject_Z (Z.of_nat total)) in *. clearbody t.
    assert (Hr : 10 <= 1 / t * 80).
    { assert (Hd : (1 # 8) <= 1 / t) by (apply Qle_shift_div_l; lra). lra. }
    apply (Math_round_mono 10) in Hr. exact Hr.
  - assert (H9 : 9 <= inject_Z (Z.of_nat total)).
    { change 9 with (inject_Z 9). rewrite <- Zle_Qle. lia. }
    set (t := inject_Z (Z.of_nat total)) in *. clearbody t.
    assert (Hr : 1 / t * 80 <= 80 # 9).
    { assert (Hd : 1 / t <= (1 # 9)) by (apply Qle_shift_div_r; lra). lra. }
    apply (Math_round_mono _ (80 # 9)) in Hr. exact Hr.
Qed.

Lemma progressPercents_sorted (total : nat) :
  StronglySorted Z.le (VideoAssembler.progressPercents total).
Proof.
  unfold VideoAssembler.progressPercents. apply StronglySorted_app.
  - apply (StronglySorted_map_seq Z.le _ total); [|lia].
    intros i j Hij. apply extractingPercent_mono. lia.
  - repeat constructor; lia.
  - intros x y Hx Hy. apply in_map_iff in Hx as (i & <- & Hi). apply in_seq in Hi.
    pose proof (extractingPercent_bounds i total) as Hb.
    destruct Hy as [<-|[<-|[<-|[]]]]; lia.
Qed.

(** X30.  The three callbacks with which [run] maps the progress of a stage
    to the overall progress never go backwards and keep to their bands:
    extraction to 0..25, analysis to 25..60, assembly to 75..100.  The
    percentages of an assembly are non-decreasing and stay within 0..100.
    But [run] reports 78 before the assembly starts, and the first callback
    of the assembly maps to 78 or more only for up to eight clips (the hook
    included): with nine or more the overall progress falls back below 78. *)
Theorem run_progress :
  (forall p q : Z,
      (p <= q)%Z ->
      (PipelineRun.extractionProgress p <= PipelineRun.extractionProgress q)%Z
      /\ (PipelineRun.analysisProgress p <= PipelineRun.analysisProgress q)%Z
      /\ (PipelineRun.assemblyProgress p <= PipelineRun.assemblyProgress q)%Z)
  /\ (forall p : Z,
         (0 <= p <= 100)%Z ->
         (0 <= PipelineRun.extractionProgress p <= 25)%Z
         /\ (25 <= PipelineRun.analysisProgress p <= 60)%Z
         /\ (75 <= PipelineRun.assemblyProgress p <= 100)%Z)
  /\ PipelineRun.extractionProgress 100 = 25%Z
  /\ PipelineRun.analysisProgress 100 = 60%Z
  /\ PipelineRun.assemblyProgress 100 = 100%Z
  /\ (forall totalClips : nat,
         StronglySorted Z.le (VideoAssembler.progressPercents totalClips)
         /\ Forall (fun p => (0 <= p <= 100)%Z) (VideoAssembler.progressPercents totalClips))
  /\ (forall (clips : list Clip.t) (hookClip : option Clip.t),
         clips <> [] ->
         ((78 <= PipelineRun.assemblyProgress
                   (VideoAssembler.extractingPercent
                      0 (length (VideoAssembler.orderedClips clips hookClip))))%Z
          <-> (length (VideoAssembler.orderedClips clips hookClip) <= 8)%nat)).
Proof.
  split; [|split; [|split; [reflexivity|split; [reflexivity|split; [reflexivity|split]]]]].
  - intros p q Hpq.
    assert (H : inject_Z p <= inject_Z q) by now rewrite <- Zle_Qle.
    unfold PipelineRun.extractionProgress, PipelineRun.analysisProgress,
      PipelineRun.assemblyProgress.
    pose proof (Math_round_mono (inject_Z p * 0.25) (inject_Z q * 0.25)) as H1.
    pose proof (Math_round_mono (inject_Z p * 0.35) (inject_Z q * 0.35)) as H2.
    repeat split; try (apply H1; lra);
      [assert (H3 := H2 ltac:(lra)) | assert (H3 := H1 ltac:(lra))]; lia.
  - intros p [Hp0 Hp1].
    assert (H0 : 0 <= inject_Z p) by (change 0 with (inject_Z 0); now rewrite <- Zle_Qle).
    assert (H1 : inject_Z p <= 100)
      by (change 100 with (inject_Z 100); now rewrite <- Zle_Qle).
    unfold PipelineRun.extractionProgress, PipelineRun.analysisProgress,
      PipelineRun.assemblyProgress.
    pose proof (Math_round_bounds (inject_Z p * 0.25) 0 25) as B1.
    pose proof (Math_round_bounds (inject_Z p * 0.35) 0 35) as B2.
    change (inject_Z 0) with 0 in *. change (inject_Z 25) with 25 in *.
    change (inject_Z 35) with 35 in *.
    assert (B1' := B1 ltac:(lra) ltac:(lra)). assert (B2' := B2 ltac:(lra) ltac:(lra)).
    lia.
  - intros totalClips. split; [apply progressPercents_sorted|].
    unfold VideoAssembler.progressPercents. apply Forall_app. split.
    + apply Forall_forall. intros x Hx. apply in_map_iff in Hx as (i & <- & Hi).
      apply in_seq in Hi. pose proof (extractingPercent_bounds i totalClips). lia.
    + repeat constructor; lia.
  - intros clips hookClip Hne.
    set (totalClips := length (VideoAssembler.orderedClips clips hookClip)).
    assert (Hn : (0 < totalClips)%nat).
    { unfold totalClips. destruct hookClip; simpl; [lia|].
      destruct clips; [contradiction|simpl; lia]. }
    clearbody totalClips.
    destruct (extractingPercent_first totalClips Hn) as [Hsmall Hbig].
    unfold PipelineRun.assemblyProgress. split.
    + intros H78. destruct (Nat.le_gt_cases totalClips 8) as [Hle|Hgt]; [exact Hle|].
      exfalso. specialize (Hbig Hgt).
      assert (Hq : inject_Z (VideoAssembler.extractingPercent 0 totalClips) * 0.25
                   <= (9 # 4)).
      { assert (inject_Z (VideoAssembler.extractingPercent 0 totalClips) <= inject_Z 9)
          by now rewrite <- Zle_Qle.
        change (inject_Z 9) with 9 in *. lra. }
      apply Math_round_mono in Hq.
      change (HuggingFaceClient.Math_round (9 # 4)) with 2%Z in Hq. lia.
    + intros Hle. specialize (Hsmall Hle).
      assert (Hq : (10 # 4)
                   <= inject_Z (VideoAssembler.extractingPercent 0 totalClips) * 0.25).
      { assert (inject_Z 10 <= inject_Z (VideoAssembler.extractingPercent 0 totalClips))
          by now rewrite <- Zle_Qle.
        change (inject_Z 10) with 10 in *. lra. }
      apply Math_round_mono in Hq.
      change (HuggingFaceClient.Math_round (10 # 4)) with 3%Z in Hq. lia.
Qed.
